(* ===== verification/_CoqProject ===== *)
-Q . S2P
Prelude.v
Triples.v
Text.v
F64.v
Json.v
Syntax.v
Analysis.v
Lexer.v
Parser.v
Secrets.v
Eval.v
EvalRel.v
EvalFacts.v
Concrete.v
RunProps.v
Edit.v
FrontProps.v
Store.v
Versions.v
Paths.v
Gates.v
Proposals.v
Govern.v
GovernProps.v
Mqtt.v
Cluster.v
LeaseSpec.v
Bus.v
Dlq.v
Traces.v
Flow.v
FlowProps.v
Connect.v
Project.v
Registry.v
Metrics.v
Ops.v
Api.v
Actions.v
Mcp.v
Http.v
Doors.v
Control.v
HttpIn.v
Sinks.v
Sources.v
OAuth.v
Bridges.v
IbmMq.v
Mqi.v
Amqp.v
BridgeLease.v
Csv.v
Salesforce.v
Utf16.v
Sap.v
Detect.v
Supervise.v
Shadow.v
Letters.v
Provision.v
Boot.v
Dial.v
Admin.v
BridgeMain.v
Reloads.v
Uplink.v
Onboard.v
Pipeline.v
Progress.v
SecretFile.v
DetectUnit.v
Semantics.v
PrintParse.v
PrintScript.v
Positions.v
