(* ===== verification/Prelude.v ===== *)
(** * Vejas: a verification development

    Vejas runs integration flows, scripts in a small language of its own
    (VejasScript), between the subjects of a NATS bus: a flow consumes messages,
    computes, and emits messages.  The runtime around the flows (core/src) keeps
    their sources and versions, takes changes to them through human approval,
    holds leases so that one instance of a cluster runs a singleton driver, and
    parks what cannot be processed in a dead-letter stream.  This library models
    that runtime as Rocq functions written after the Rust code and proves what
    makes it correct.

    ** The parts

    Foundations. [Prelude] has the outcome of a Rust function ([res]: a value,
    an error, a panic, fuel spent), the error monad and the lemmas on lists,
    options and integers the rest shares; [Triples] has the two ways of
    reasoning about a state-and-outcome function that the drivers use, triples
    and properties of the state that every step keeps. [Text] models the [str]
    and [char] methods the code calls on UTF-8 byte strings; a slice inside a
    character is a panic. [F64] is [f64] on the specification floats of the
    standard library; [Json] is [serde_json::Value], with printing and parsing
    of text left to a class [Serde].

    The language (core/src/vjs.rs). [Syntax] is its tree, [Lexer] and [Parser]
    read it, [Analysis] are the static analyses, [Eval] the interpreter with
    its engine, [Secrets] (core/src/secrets.rs) the secret stores it asks,
    [SecretFile] the writing of the secrets file, [Edit] the rewriting of one
    literal in a script's text. [EvalRel] reads the interpreter as a relation
    between two runs, from which [EvalFacts] and [RunProps] derive the
    properties of [run]; [Semantics] gives scripts a meaning by rules, without
    an engine, and shows that the interpreter is it. [FrontProps] has the
    properties of the lexer and the parser, [PrintParse] and [PrintScript] a
    printer of scripts that the parser inverts, and [Positions] shows that
    where the tokens are in the source does not matter to it.

    Governed change (core/src/main.rs, proposals.rs, versions.rs).  [Store] is
    the interface of a key-value bucket and its laws, [Versions] the promoted
    versions of sources, [Proposals] the queue, [Paths] the guard of file
    names, [Gates] the credentials and gates of requests, [Govern] the
    operations over all of them, [GovernProps] their properties; [Provision]
    renders the files of a template for a customer, [Onboard] starts what was
    written and reports it.

    The project and its processes (core/src/main.rs). [Project] scans the
    packages and computes the documents of the panel, [Registry] is the set of
    running units with reload and rotation, [Reloads] the reloads of threads
    that take turns, [Supervise] the threads that keep a unit running,
    [Shadow] the runs that try a change on past or live events without an
    effect, [Metrics] (metrics.rs) what is counted of the units and how it is
    exposed.

    Requests (core/src/main.rs, control.rs).  [Ops] has what a request can do
    as the operations of a free monad, so that a property of a handler is about
    the operations it reaches; [Api] answers for flows, [Actions] are the
    longer handlers, [Mcp] the JSON-RPC door, [Http] the HTTP door, [Doors] the
    properties of both; [Control] the commands of the control plane on the
    bus, [Uplink] a connection of it.  [Boot] is the command line: the runner
    of golden tests, the syntax checks, the start and its conditions.

    Delivery (core/src/bus.rs, connectors.rs, main.rs, cluster.rs, mqtt.rs).
    [Dial] has the registry of connections and [Admin] the requests by which
    streams, consumers and buckets are made and read.  [Bus] has the link, its
    barrier and the batch of publishes that one barrier
    confirms; [Flow] is the round in which a flow works through its messages,
    with [Dlq] (dead letters), [Traces] (the ring of recent events) and
    [FlowProps]; [Detect] the same for a unit that runs an event engine and
    [DetectUnit] its life, crashes included;
    [Letters] lists, replays and purges dead letters; [Cluster] has the leases
    and [LeaseSpec] their abstract specification; [Mqtt] the MQTT client.
    [Pipeline] puts the units of a project in a row: a contract that flows,
    detections and sinks meet, and a server that hands out and forgets, and
    [Progress] has what a connection that works brings to it.

    Connectors (core/src/connectors.rs, connectors/).  [Connect] holds the
    functions the drivers share; the drivers are in [HttpIn] (HTTP ingest),
    [Sinks] (slack-out, http-out, exec-sink), [Sources] (timer, http-poll,
    exec-source, exec-stream-source), [OAuth] (oauth-poll) and [Bridges]
    (mqtt-in, mqtt-out, exec-rpc).

    The connectors that are programs of their own (connectors/).  [IbmMq] is the
    bridge to a queue manager over a class of brokers and [Mqi] the client of
    the MQI that is one; [Amqp] is the bridge to an AMQP broker, with its
    address and its TLS stream; [BridgeLease] the lease that either takes
    and [BridgeMain] how either starts.
    [Salesforce] exports and ingests with bulk jobs over curl, [Csv] is its
    tables; [Sap] calls an SAP system and serves its calls, with its texts in
    [Utf16].

    Each definition that models code is preceded by the file and the function
    or the lines it translates, and keeps the names of the source. State is
    explicit: a record for the state of a component, a function that returns
    the outcome and the next state for an operation; where instances or
    threads interleave ([Cluster], [Reloads], [Pipeline]) the operations are
    the steps of a relation.

    ** What the theorems show

    - Delivery: a message is acknowledged only after its dead letter was
      stored or the server read all it emitted; a confirmation proves the
      publishes of the batch; dead letters are announced exactly once each; a
      replay loses none; an MQTT publish arrives as it was sent; and over a
      whole project a message is pending or what it asked for was done, however
      the units, the server and the connections interleave and fail, unless the
      detection it waits for was started again from a snapshot past it; none
      blocks a flow, for its last delivery ends in its acknowledgement.
    - The bus: a dead address is dialled once a second at most; a consumer that
      was created delivers the subjects it was asked for and no others.
    - Leases: step by step, the instances of a cluster do what a lock with
      fencing tokens allows, under the same labels and with the same holder
      after each step; a singleton driver or a bridge runs only under it.
    - Supervision: a unit that fails is tried again, with growing delays.
    - Connectors: a sink acknowledges what was delivered or parked; a broker is
      answered after the bus; an offset stays behind what was published; a
      timer keeps time; an OAuth client's secret goes to its token endpoint alone,
      and a token only to configured places and the pages they name; an ingest
      publishes only what its configuration allows, however the bytes arrive;
      a detection is acknowledged after its emits, a snapshot resumes where it
      was taken, and crashes do not show in the state of the engine.
    - Connector programs: a queue manager or an AMQP broker is told that a
      message is done only after the bus stored it, and no message is passed
      over; a sink acknowledges what was committed or confirmed; an IDoc is
      reported as sent after SAP confirmed it, each handle is given back on
      every path, and each request has one reply with its id; an export sends
      each record of each page once; tables and texts survive their encodings.
    - Requests: in governed mode an operation that is not among those left
      open ([left_open]) needs a human, whichever the door; a cluster's
      writes go to its shared stores; on a connection of the control channel
      each request has one reply, in order.
    - Governed change: a proposal is approved only on the source its evidence
      saw, is decided once, and a rejection changes nothing; a promoted version
      is what runs until its baseline moves; a path that the guard lets
      through stands for a file under the root, dangling links apart.
    - The language: the lexer, the parser and every run terminate; a script is
      read as it is written; a run gives what the rules of the language derive
      and no more; engines shared between runs are invisible; a shadow run does not depend on secret
      values; a program that the static analysis says does not write to the bus
      does not; the inventory of secrets is exact; a literal is replaced
      surgically; a secret that was set is what a get gives.
    - Projects: the scan finds each unit of each enabled package once; however
      reloads have interleaved, a reload that then runs alone leaves running
      the scanned units and processes that the registry had lost before, and no
      unit is set going again; a golden test that was curated from an event
      passes where its text reads back; the
      provisioner of a tenant is told its units and each secret once; the first
      route of an API that matches answers; the documents of the panel do not depend on
      secret values; a canary's report is about the events its turns saw.
    - Some theorems state behaviour that is probably not what was meant; they
      are listed as findings in the manifest.

    ** Fuel and bounds

    The lexer and the parser run on fuel computed from their input
    ([lex_fuel], [stmt_fuel], [expr_fuel]) and [lex_total] and [parse_total]
    show that it is never spent; a run has 33 units, one for each nested
    invoke, where the engine stops at 32 ([run_returns]). The loops that have
    no end are followed for a number of turns that is an argument, and their
    theorems hold for every number; what a unit finds when it asks whether it
    may go on is a function of how often it asked. Integers that can wrap are
    kept at their width; the others are [Z], [N] or [nat].

    ** What is not modelled

    Sockets, threads, files, child processes and clocks: what the code reads
    from them is an argument (the clock is read once for each operation), what
    it relies on is a class with laws ([Net], [KvOps], [DlqOps], [Stream],
    [Serde], [CaseTables], [FloatLib], [Ureq], [Engine], [Objects], [Broker],
    [Mqi], [MqiConnect], [Consuming], [Publishing], [AmqpSource], [AmqpSink],
    [TlsLib], [Curl], [Rfc], [Dialer], [JsClient], [NetLive], [PrettySolid],
    [BrokerSure], [ReadsSilent], [KvSeq], [Resumable], [ObjectsKeep]), each with a
    concrete instance in which the witnesses evaluate. Log lines and the text
    of errors; one unit uses a link at a time; a renewal already in flight
    when a lease is dropped. Threads and processes interleave only in
    [Cluster], [Reloads] and, turn by turn, [Pipeline]; the other components
    are sequences of steps of one thread. Of the connector programs, the
    loading of the C libraries is not modelled. *)

From stdpp Require Import base gmap sets list strings.
From Stdlib Require Import ZArith Lia Sorted.

Open Scope Z_scope.

(** ** Outcomes

    A Rust function of the runtime returns, reports an error, or panics
    (an index out of range, a string sliced inside a character).  Functions
    that the model runs on fuel have a fourth outcome, which the termination
    theorems rule out. *)
Inductive res (E A : Type) : Type :=
| Ok (a : A)
| Err (e : E)
| Panic
| NoFuel.
Arguments Ok {E A} a.
Arguments Err {E A} e.
Arguments Panic {E A}.
Arguments NoFuel {E A}.

Definition res_bind {E A B} (f : A → res E B) (m : res E A) : res E B :=
  match m with
  | Ok a => f a
  | Err e => Err e
  | Panic => Panic
  | NoFuel => NoFuel
  end.

#[export] Instance res_ret E : MRet (res E) := λ A a, Ok a.
#[export] Instance res_mbind E : MBind (res E) := λ A B f m, res_bind f m.

(** The result of [Option::ok_or]. *)
Definition ok_or {E A} (o : option A) (e : E) : res E A :=
  match o with Some a => Ok a | None => Err e end.

(** Reading a [res] as "returned or reported an error", which is what a
    caller that is not killed observes. *)
Definition returns {E A} (r : res E A) : Prop :=
  match r with Ok _ | Err _ => True | _ => False end.

Definition is_ok {E A} (r : res E A) : bool :=
  match r with Ok _ => true | _ => false end.

#[local] Ltac res_bind_tac :=
  cbn in *; repeat match goal with
  | H : _ ∨ _ |- _ => destruct H
  | H : ∃ _, _ |- _ => destruct H
  | H : _ ∧ _ |- _ => destruct H
  end; subst; simplify_eq; eauto 6.

Lemma bind_Ok {E A B} (m : res E A) (f : A → res E B) b :
  (m ≫= f) = Ok b ↔ ∃ a, m = Ok a ∧ f a = Ok b.
Proof. destruct m; split; [intros; res_bind_tac ..]. Qed.

Lemma bind_Err {E A B} (m : res E A) (f : A → res E B) e :
  (m ≫= f) = Err e ↔ m = Err e ∨ ∃ a, m = Ok a ∧ f a = Err e.
Proof. destruct m; split; [intros; res_bind_tac ..]. Qed.

Lemma bind_NoFuel {E A B} (m : res E A) (f : A → res E B) :
  (m ≫= f) = NoFuel ↔ m = NoFuel ∨ ∃ a, m = Ok a ∧ f a = NoFuel.
Proof. destruct m; split; [intros; res_bind_tac ..]. Qed.

Lemma bind_Panic {E A B} (m : res E A) (f : A → res E B) :
  (m ≫= f) = Panic ↔ m = Panic ∨ ∃ a, m = Ok a ∧ f a = Panic.
Proof. destruct m; split; [intros; res_bind_tac ..]. Qed.

(** [yields r Q]: the computation has fuel enough, and what it returns, if it
    returns, satisfies [Q].  The form in which termination and partial
    correctness are proved together. *)
Definition yields {E A} (r : res E A) (Q : A → Prop) : Prop :=
  match r with Ok a => Q a | NoFuel => False | _ => True end.

Lemma yields_bind {E A B} (m : res E A) (f : A → res E B) P Q :
  yields m P → (∀ a, P a → yields (f a) Q) → yields (m ≫= f) Q.
Proof. destruct m; cbn; auto. Qed.

Lemma yields_mono {E A} (m : res E A) P Q :
  yields m P → (∀ a, P a → Q a) → yields m Q.
Proof. destruct m; cbn; auto. Qed.

Lemma yields_fuel {E A} (m : res E A) P : yields m P → m ≠ NoFuel.
Proof. by destruct m. Qed.

Lemma yields_Ok {E A} (m : res E A) P a : yields m P → m = Ok a → P a.
Proof. by intros ? ->. Qed.

(** Mapping a fallible function over a list, first failure wins: what
    [collect::<Result<Vec<_>, _>>()] does. *)
Fixpoint res_mapM {E A B} (f : A → res E B) (l : list A) : res E (list B) :=
  match l with
  | [] => Ok []
  | x :: r => y ← f x; ys ← res_mapM f r; Ok (y :: ys)
  end.

(** ** State and errors

    Operations that change a state and may fail: the state they leave is kept
    when they fail. *)
Definition sr (S E A : Type) : Type := S → res E A * S.

#[export] Instance sr_ret S E : MRet (sr S E) := λ A a s, (Ok a, s).
#[export] Instance sr_bind S E : MBind (sr S E) := λ A B f m s,
  match m s with
  | (Ok a, s') => f a s'
  | (Err e, s') => (Err e, s')
  | (Panic, s') => (Panic, s')
  | (NoFuel, s') => (NoFuel, s')
  end.

Definition sr_lift {S E A} (r : res E A) : sr S E A := λ s, (r, s).
Definition sr_fail {S E A} (e : E) : sr S E A := λ s, (Err e, s).
Definition sr_get {S E} : sr S E S := λ s, (Ok s, s).
Definition sr_mod {S E} (f : S → S) : sr S E () := λ s, (Ok (), f s).
(** [let _ = ..]: the outcome is dropped, the effect stays. *)
Definition sr_try {S E A} (m : sr S E A) : sr S E (option A) := λ s,
  match m s with
  | (Ok a, s') => (Ok (Some a), s')
  | (Err _, s') => (Ok None, s')
  | (Panic, s') => (Panic, s')
  | (NoFuel, s') => (NoFuel, s')
  end.

Lemma sr_bind_Ok {S E A B} (m : sr S E A) (f : A → sr S E B) s b s' :
  (m ≫= f) s = (Ok b, s') ↔ ∃ a s1, m s = (Ok a, s1) ∧ f a s1 = (Ok b, s').
Proof.
  unfold mbind, sr_bind. destruct (m s) as [[] s1]; split;
    first [naive_solver | by intros ? | intros (? & ? & ? & ?); by simplify_eq].
Qed.

(** ** Tactics *)

(** Split a hypothesis about a bind into its two steps. *)
Ltac inv_bind :=
  repeat match goal with
  | H : (_ ≫= _) = Ok _ |- _ => apply bind_Ok in H as (? & ? & ?)
  | H : mret _ = Ok _ |- _ => injection H as ?; subst
  | H : Ok _ = Ok _ |- _ => injection H as ?; subst
  | H : Err _ = Ok _ |- _ => discriminate H
  | H : Panic = Ok _ |- _ => discriminate H
  | H : NoFuel = Ok _ |- _ => discriminate H
  end.

(** The same, through the pairs that the steps return. *)
Ltac inv_binds :=
  repeat (inv_bind; match goal with
  | H : (match ?x with pair _ _ => _ end) = Ok _ |- _ => destruct x
  end); inv_bind.

(** Case analysis on the scrutinee of a [match] or [if] in the goal, or in
    a hypothesis. *)
Ltac case_goal :=
  match goal with
  | |- context [match ?x with _ => _ end] => destruct x eqn:?
  end.
Ltac case_hyp H :=
  match type of H with
  | context [match ?x with _ => _ end] => destruct x eqn:?
  end.

(** Turn boolean tests into propositions. *)
Ltac bool_prop :=
  repeat match goal with
  | H : _ && _ = true |- _ => apply andb_true_iff in H as [? ?]
  | H : _ && _ = false |- _ => apply andb_false_iff in H
  | H : _ || _ = false |- _ => apply orb_false_iff in H as [? ?]
  | H : negb _ = true |- _ => apply negb_true_iff in H
  | H : negb _ = false |- _ => apply negb_false_iff in H
  | H : (_ =? _)%Z = true |- _ => apply Z.eqb_eq in H
  | H : (_ =? _)%Z = false |- _ => apply Z.eqb_neq in H
  | H : (_ <=? _)%Z = true |- _ => apply Z.leb_le in H
  | H : (_ <=? _)%Z = false |- _ => apply Z.leb_gt in H
  | H : (_ <? _)%Z = true |- _ => apply Z.ltb_lt in H
  | H : (_ <? _)%Z = false |- _ => apply Z.ltb_ge in H
  | H : (_ =? _)%nat = true |- _ => apply Nat.eqb_eq in H
  | H : (_ =? _)%nat = false |- _ => apply Nat.eqb_neq in H
  | H : (_ <=? _)%nat = true |- _ => apply Nat.leb_le in H
  | H : (_ <=? _)%nat = false |- _ => apply Nat.leb_gt in H
  | H : (_ <? _)%nat = true |- _ => apply Nat.ltb_lt in H
  | H : (_ <? _)%nat = false |- _ => apply Nat.ltb_ge in H
  | H : (_ =? _)%N = true |- _ => apply N.eqb_eq in H
  | H : (_ =? _)%N = false |- _ => apply N.eqb_neq in H
  | H : (_ <=? _)%N = true |- _ => apply N.leb_le in H
  | H : (_ <=? _)%N = false |- _ => apply N.leb_gt in H
  | H : (_ <? _)%N = true |- _ => apply N.ltb_lt in H
  | H : (_ <? _)%N = false |- _ => apply N.ltb_ge in H
  | H : String.eqb _ _ = true |- _ => apply String.eqb_eq in H
  | H : String.eqb _ _ = false |- _ => apply String.eqb_neq in H
  end.

(** ** Machine integers *)

(** Unsigned integers of width [w] are the integers of [0, 2^w); arithmetic
    that the code lets wrap is written with [wrap]. *)
Definition wrap (w z : Z) : Z := z mod 2 ^ w.

Definition u64_max : Z := 2 ^ 64 - 1.
Definition i64_min : Z := - 2 ^ 63.
Definition i64_max : Z := 2 ^ 63 - 1.

(** [saturating_sub] of an unsigned type. *)
Definition sat_sub (a b : Z) : Z := Z.max 0 (a - b).

Lemma wrap_range w z : 0 <= w → 0 <= wrap w z < 2 ^ w.
Proof. intros. unfold wrap. apply Z.mod_pos_bound. lia. Qed.

Lemma wrap_small w z : 0 <= z < 2 ^ w → wrap w z = z.
Proof. intros. unfold wrap. by apply Z.mod_small. Qed.

(** ** Lists *)

Lemma fold_left_ind {A B} (P : A → Prop) (f : A → B → A) (l : list B) (a : A) :
  P a → (∀ a b, b ∈ l → P a → P (f a b)) → P (fold_left f l a).
Proof.
  revert a; induction l as [|b l IH]; intros a Ha Hf; cbn; [done|].
  apply IH; [apply Hf; [left|done]|]. intros. apply Hf; [by right|done].
Qed.

(** The last [n] elements: what a bounded ring keeps. *)
Definition last_n {A} (n : nat) (l : list A) : list A := drop (length l - n) l.

Lemma last_n_length {A} n (l : list A) : length (last_n n l) = Nat.min n (length l).
Proof. unfold last_n. rewrite length_drop. lia. Qed.

Lemma last_n_short {A} n (l : list A) : (length l <= n)%nat → last_n n l = l.
Proof.
  intros. unfold last_n. by replace (length l - n)%nat with 0%nat by lia.
Qed.

Lemma last_n_snoc {A} n (l : list A) x :
  (0 < n)%nat → last_n n (last_n n l ++ [x]) = last_n n (l ++ [x]).
Proof.
  intros Hn. unfold last_n. rewrite !length_app, length_drop. cbn.
  destruct (decide (length l < n)%nat).
  - replace (length l - n)%nat with 0%nat by lia. rewrite drop_0. f_equal. lia.
  - rewrite !drop_app_le by (rewrite ?length_drop; lia).
    rewrite drop_drop. do 2 f_equal. lia.
Qed.

(** ** Shared automation *)
Create HintDb vejas.
#[export] Hint Resolve wrap_range : vejas.
(** A stable sort, as [slice::sort] is. *)
Section Sort.
Context {A : Type} (le : A → A → bool).

Fixpoint sort_insert (x : A) (l : list A) : list A :=
  match l with
  | [] => [x]
  | y :: r => if le x y then x :: l else y :: sort_insert x r
  end.
Definition stable_sort (l : list A) : list A := foldr sort_insert [] l.

Lemma sort_insert_perm x l : sort_insert x l ≡ₚ x :: l.
Proof.
  induction l as [|y l IH]; [done|]. cbn. destruct (le x y); [done|].
  rewrite IH. constructor.
Qed.
Lemma stable_sort_perm l : stable_sort l ≡ₚ l.
Proof. induction l as [|x l IH]; [done|]. cbn. by rewrite sort_insert_perm, IH. Qed.
Lemma stable_sort_sorted l :
  (∀ a b, le a b = false → le b a = true) → Sorted (λ a b, le a b = true) (stable_sort l).
Proof.
  intros Ht. induction l as [|x l IH]; [constructor|]. cbn.
  assert (∀ r, Sorted (λ a b, le a b = true) r → Sorted (λ a b, le a b = true) (sort_insert x r)) as H; [|auto].
  induction r as [|y r IHr]; intros Hs; cbn; [by repeat constructor|].
  destruct (le x y) eqn:E; [by constructor; [|constructor]|]. inversion_clear Hs as [|? ? Hr Hh].
  constructor; [auto|]. destruct r as [|z r]; cbn; [constructor; auto|].
  inversion_clear Hh. destruct (le x z); constructor; auto.
Qed.
Lemma stable_sort_elem l x : x ∈ stable_sort l ↔ x ∈ l.
Proof. by rewrite stable_sort_perm. Qed.
End Sort.

#[export] Hint Rewrite @last_n_length : vejas.
