(* ===== verification/Triples.v ===== *)
(** * Reasoning about computations with a state

    Triples over [sr], which say what a computation leaves behind however it
    ends and what it establishes when it returns; and [keeps], the invariants
    it preserves, with the automation that walks through its binds. *)

From stdpp Require Import base tactics.
From S2P Require Import Prelude.

(** The outcome of a computation, to be looked into. *)
Definition sr_out {S E A} (m : sr S E A) : sr S E (res E A) := λ s, let '(r, s) := m s in (Ok r, s).

(** ** Triples over computations with a state *)

Section Triples.
Context {S E : Type} (I : S → Prop).

(** From [P], an answer leaves [Q]; however it ends, [I] holds. *)
Definition triple {A} (P : S → Prop) (m : sr S E A) (Q : A → S → Prop) : Prop :=
  ∀ s, P s → I (snd (m s)) ∧ match m s with (Ok a, s') => Q a s' | _ => True end.

Lemma triple_bind {A B} P (m : sr S E A) (f : A → sr S E B) Q R :
  triple P m Q → (∀ a, triple (Q a) (f a) R) → triple P (m ≫= f) R.
Proof.
  intros Hm Hf s Hs. specialize (Hm s Hs). unfold mbind, sr_bind.
  destruct (m s) as [[a|e| |] s1]; try done. destruct Hm as [_ Hq]. by apply Hf.
Qed.

Lemma triple_ret {A} (P : S → Prop) (Q : A → S → Prop) (a : A) :
  (∀ s, P s → I s ∧ Q a s) → triple P (mret a : sr S E A) Q.
Proof. intros H s Hs. by apply H. Qed.

Lemma triple_mod P f (Q : () → S → Prop) :
  (∀ s, P s → I (f s) ∧ Q () (f s)) → triple P (sr_mod f : sr S E ()) Q.
Proof. intros H s Hs. by apply H. Qed.

Lemma triple_weaken {A} (P P' : S → Prop) (m : sr S E A) (Q Q' : A → S → Prop) :
  triple P' m Q' → (∀ s, P s → P' s) → (∀ a s, Q' a s → Q a s) → triple P m Q.
Proof.
  intros H HP HQ s Hs. destruct (H s (HP s Hs)) as [HI Hq]. split; [done|].
  destruct (m s) as [[a|e| |] s']; try done. by apply HQ.
Qed.
End Triples.

(** ** Invariants *)

(** What a computation leaves intact, however it ends. *)
Definition keeps {S E A} (I : S → Prop) (m : sr S E A) : Prop := ∀ s, I s → I (snd (m s)).

Lemma keeps_bind {S E A B} (I : S → Prop) (m : sr S E A) (f : A → sr S E B) :
  keeps I m → (∀ a, keeps I (f a)) → keeps I (m ≫= f).
Proof.
  intros Hm Hf s Hs. specialize (Hm s Hs). unfold mbind, sr_bind.
  destruct (m s) as [[a|e| |] s1]; try done. by apply Hf.
Qed.
Lemma keeps_pure {S E A} (I : S → Prop) (r : res E A) : keeps I (sr_lift r).
Proof. by intros s Hs. Qed.
Lemma keeps_ret {S E A} (I : S → Prop) (a : A) : keeps I (mret a : sr S E A).
Proof. by intros s Hs. Qed.
Lemma keeps_out {S E A} (I : S → Prop) (m : sr S E A) : keeps I m → keeps I (sr_out m).
Proof. intros Hm s Hs. specialize (Hm s Hs). unfold sr_out. by destruct (m s). Qed.
Lemma keeps_triple {S E A} (I : S → Prop) (m : sr S E A) Q : triple I I m Q → keeps I m.
Proof. intros H s Hs. by destruct (H s Hs). Qed.

Create HintDb keeps.
#[export] Hint Resolve keeps_pure keeps_ret keeps_out : keeps.
(** Through the binds of a computation, leaving the calls no hint is for. *)
Ltac keeps_walk := repeat (first
  [ apply keeps_bind; [|intros ?]
  | case_match
  | solve [auto with keeps nocore] ]).
