(* ===== verification/Text.v ===== *)
(** * Rust text: UTF-8 strings

    A Rust [String] is a sequence of bytes that is valid UTF-8.  It is
    modelled by [string], one [ascii] per byte.  This file holds what the
    runtime uses of [str] and [char]: decoding into scalar values,
    [from_utf8_lossy], slicing with its char-boundary check (a slice that cuts
    a character panics), trimming, splitting, searching and replacing.

    Unicode case mapping is the one part of the standard library's text API
    that the development leaves abstract: the class [CaseTables] stands for
    its tables. *)

From stdpp Require Import base list strings.
From Stdlib Require Import ZArith Lia Ascii.
From S2P Require Import Prelude.
Open Scope string_scope.
Open Scope nat_scope.

Notation byte := ascii.

#[global] Arguments String.append : simpl nomatch.

(** The numeric value of a byte. *)
Definition bval (b : byte) : N := N_of_ascii b.

Notation slen := String.length.

(** ** Decoding UTF-8 *)

Section Utf8.
Open Scope N_scope.

Definition in_range (lo hi : N) (b : byte) : bool :=
  (lo <=? bval b) && (bval b <=? hi).

(** A continuation byte, [10xxxxxx]. *)
Definition is_cont (b : byte) : bool := in_range 128 191 b.

(** Length of the sequence that a leading byte announces; 0 for a byte that
    cannot lead. *)
Definition utf8_width (b : byte) : nat :=
  let v := bval b in
  if v <? 128 then 1%nat
  else if (194 <=? v) && (v <=? 223) then 2%nat
  else if (224 <=? v) && (v <=? 239) then 3%nat
  else if (240 <=? v) && (v <=? 244) then 4%nat
  else 0%nat.

(** Which second bytes a three- or four-byte sequence allows: overlong forms,
    surrogates and values over U+10FFFF are excluded here. *)
Definition second_ok (a b : byte) : bool :=
  match bval a with
  | 224 => in_range 160 191 b
  | 237 => in_range 128 159 b
  | 240 => in_range 144 191 b
  | 244 => in_range 128 143 b
  | _ => is_cont b
  end.

Definition low6 (b : byte) : N := N.land (bval b) 63.

(** One step over a string: the scalar value of its first character (or
    [None] for an ill-formed sequence), the bytes that make it, and the rest.
    An ill-formed sequence is as long as its longest well-formed prefix, the
    unit that [from_utf8_lossy] replaces. *)
Definition utf8_step (s : string) : option (option N * string * string) :=
  match s with
  | "" => None
  | String a r =>
    match utf8_width a with
    | 1%nat => Some (Some (bval a), String a "", r)
    | 2%nat =>
      match r with
      | String b r2 =>
        if is_cont b
        then Some (Some (N.lor (N.shiftl (N.land (bval a) 31) 6) (low6 b)),
                   String a (String b ""), r2)
        else Some (None, String a "", r)
      | "" => Some (None, String a "", r)
      end
    | 3%nat =>
      match r with
      | String b r2 =>
        if second_ok a b then
          match r2 with
          | String c r3 =>
            if is_cont c
            then Some (Some (N.lor (N.shiftl (N.land (bval a) 15) 12)
                              (N.lor (N.shiftl (low6 b) 6) (low6 c))),
                       String a (String b (String c "")), r3)
            else Some (None, String a (String b ""), r2)
          | "" => Some (None, String a (String b ""), r2)
          end
        else Some (None, String a "", r)
      | "" => Some (None, String a "", r)
      end
    | 4%nat =>
      match r with
      | String b r2 =>
        if second_ok a b then
          match r2 with
          | String c r3 =>
            if is_cont c then
              match r3 with
              | String d r4 =>
                if is_cont d
                then Some (Some (N.lor (N.shiftl (N.land (bval a) 7) 18)
                                  (N.lor (N.shiftl (low6 b) 12)
                                    (N.lor (N.shiftl (low6 c) 6) (low6 d)))),
                           String a (String b (String c (String d ""))), r4)
                else Some (None, String a (String b (String c "")), r3)
              | "" => Some (None, String a (String b (String c "")), r3)
              end
            else Some (None, String a (String b ""), r2)
          | "" => Some (None, String a (String b ""), r2)
          end
        else Some (None, String a "", r)
      | "" => Some (None, String a "", r)
      end
    | _ => Some (None, String a "", r)
    end
  end.
End Utf8.

(** A character of a decoded string: its scalar value and its bytes. *)
Notation chunk := (option N * string)%type.

Fixpoint chunks_fuel (n : nat) (s : string) : list chunk :=
  match n with
  | O => []
  | S n =>
    match utf8_step s with
    | None => []
    | Some (c, bs, r) => (c, bs) :: chunks_fuel n r
    end
  end.

(** The string as characters; every step takes a byte at least, so its length
    is fuel enough ([chunks_unfold]). *)
Definition chunks (s : string) : list chunk := chunks_fuel (slen s) s.

Fixpoint concat_strs (l : list string) : string :=
  match l with [] => "" | s :: r => s ++ concat_strs r end.

(** [str::from_utf8(..).is_ok()]. *)
Definition valid_utf8 (s : string) : bool :=
  forallb (λ c : chunk, match fst c with Some _ => true | None => false end) (chunks s).

(** U+FFFD, the replacement character. *)
Definition replacement : string :=
  String (ascii_of_N 239) (String (ascii_of_N 191) (String (ascii_of_N 189) "")).

(** [String::from_utf8_lossy]. *)
Definition from_utf8_lossy (s : string) : string :=
  concat_strs (map (λ c : chunk, match fst c with Some _ => snd c | None => replacement end)
                   (chunks s)).

(** [str::chars]. *)
Definition chars (s : string) : list N := omap fst (chunks s).

(** [char::is_whitespace] (the Unicode White_Space property) and
    [char::is_control] (general category Cc). *)
Definition is_whitespace (c : N) : bool :=
  (((9 <=? c) && (c <=? 13)) || (c =? 32) || (c =? 133) || (c =? 160) || (c =? 5760)
   || ((8192 <=? c) && (c <=? 8202)) || (c =? 8232) || (c =? 8233) || (c =? 8239)
   || (c =? 8287) || (c =? 12288))%N.

Definition is_control (c : N) : bool :=
  ((c <? 32) || ((127 <=? c) && (c <=? 159)))%N.

(** The ASCII classes. *)
Definition is_ascii_digit (c : N) : bool := ((48 <=? c) && (c <=? 57))%N.
Definition is_ascii_uppercase (c : N) : bool := ((65 <=? c) && (c <=? 90))%N.
Definition is_ascii_lowercase (c : N) : bool := ((97 <=? c) && (c <=? 122))%N.
Definition is_ascii_alphanumeric (c : N) : bool :=
  is_ascii_digit c || is_ascii_uppercase c || is_ascii_lowercase c.

(** A character of the ASCII range as a scalar value. *)
Definition ch (b : byte) : N := bval b.

Definition ascii_upper (b : byte) : byte :=
  if is_ascii_lowercase (bval b) then ascii_of_N (bval b - 32) else b.
Definition ascii_lower (b : byte) : byte :=
  if is_ascii_uppercase (bval b) then ascii_of_N (bval b + 32) else b.

Fixpoint map_bytes (f : byte → byte) (s : string) : string :=
  match s with "" => "" | String b r => String (f b) (map_bytes f r) end.

Definition to_ascii_uppercase := map_bytes ascii_upper.
Definition to_ascii_lowercase := map_bytes ascii_lower.

(** [str::to_uppercase] and [str::to_lowercase]: Unicode's full case mapping,
    left abstract. *)
Class CaseTables := {
  to_uppercase : string → string;
  to_lowercase : string → string
}.

(** Source text for examples: single quotes stand for double ones. *)
Definition dq : string → string :=
  map_bytes (λ b, if Ascii.eqb b "'" then "034"%char else b).

(** Text with a tilde for each double quote. *)
Definition quoted : string → string :=
  map_bytes (λ b, if Ascii.eqb b "~" then "034"%char else b).

(** ** Slices *)

(** The string after its first [n] bytes, and its first [n] bytes. *)
Fixpoint sdrop (n : nat) (s : string) : string :=
  match n, s with
  | O, _ => s
  | S n, String _ r => sdrop n r
  | S _, "" => ""
  end.
Fixpoint stake (n : nat) (s : string) : string :=
  match n, s with
  | O, _ => ""
  | S n, String b r => String b (stake n r)
  | S _, "" => ""
  end.

(** [str::is_char_boundary]. *)
Definition is_char_boundary (s : string) (i : nat) : bool :=
  if i =? 0 then true
  else if slen s <=? i then i =? slen s
  else match sdrop i s with String b _ => negb (is_cont b) | "" => true end.

(** [&s[i..j]]: [None] is the panic. *)
Definition str_slice (s : string) (i j : nat) : option string :=
  if (i <=? j) && is_char_boundary s i && is_char_boundary s j
  then Some (stake (j - i) (sdrop i s)) else None.

(** ** Searching, splitting, joining *)

Definition starts_with (s p : string) : bool := String.prefix p s.

(** Drop a prefix, byte-wise: [str::strip_prefix]. *)
Fixpoint strip_prefix (s p : string) : option string :=
  match p, s with
  | "", _ => Some s
  | String a p, String b s => if Ascii.eqb a b then strip_prefix s p else None
  | String _ _, "" => None
  end.

Definition ends_with (s p : string) : bool :=
  (slen p <=? slen s) && String.eqb (sdrop (slen s - slen p) s) p.

(** [str::find] of a non-empty pattern: the byte offset of the first match.
    UTF-8 being self-synchronising, a byte match of a valid pattern is a
    character match. *)
Fixpoint find_from (i : nat) (s p : string) : option nat :=
  if starts_with s p then Some i
  else match s with "" => None | String _ r => find_from (S i) r p end.
Definition str_find (s p : string) : option nat := find_from 0 s p.
Definition str_contains (s p : string) : bool :=
  match str_find s p with Some _ => true | None => false end.

(** [str::rfind]. *)
Fixpoint rfind_from (i : nat) (s p : string) : option nat :=
  match s with
  | "" => if starts_with "" p then Some i else None
  | String _ r =>
    match rfind_from (S i) r p with
    | Some j => Some j
    | None => if starts_with s p then Some i else None
    end
  end.
Definition str_rfind (s p : string) : option nat := rfind_from 0 s p.

(** [str::split_once] and [str::rsplit_once]. *)
Definition split_once (s p : string) : option (string * string) :=
  match str_find s p with
  | Some i => Some (stake i s, sdrop (i + slen p) s)
  | None => None
  end.
Definition rsplit_once (s p : string) : option (string * string) :=
  match str_rfind s p with
  | Some i => Some (stake i s, sdrop (i + slen p) s)
  | None => None
  end.

(** [str::split] on a non-empty separator; the fuel is the length of the
    string, each piece being followed by a separator of one byte at least. *)
Fixpoint split_fuel (n : nat) (s p : string) : list string :=
  match n with
  | O => [s]
  | S n =>
    match split_once s p with
    | Some (a, b) => a :: split_fuel n b p
    | None => [s]
    end
  end.

(** [str::split]: an empty separator matches at every character boundary. *)
Definition str_split (s p : string) : list string :=
  if String.eqb p "" then "" :: map snd (chunks s) ++ [""]
  else split_fuel (slen s) s p.

(** [[..].join(sep)]. *)
Definition str_join (sep : string) (l : list string) : string := String.concat sep l.

(** [str::replace]: the pieces between matches, joined by the new text. *)
Definition str_replace (s from to : string) : string := str_join to (str_split s from).

(** [str::trim] and its one-sided forms. *)
Definition chunk_ws (c : chunk) : bool :=
  match fst c with Some c => is_whitespace c | None => false end.
Fixpoint drop_while {A} (f : A → bool) (l : list A) : list A :=
  match l with [] => [] | x :: r => if f x then drop_while f r else l end.
Definition unchunk (l : list chunk) : string := concat_strs (map snd l).
Definition trim_start (s : string) : string := unchunk (drop_while chunk_ws (chunks s)).
Definition trim_end (s : string) : string :=
  unchunk (rev (drop_while chunk_ws (rev (chunks s)))).
Definition trim (s : string) : string := trim_end (trim_start s).

(** [trim_start_matches] and [trim_end_matches] of one ASCII character. *)
Fixpoint trim_start_byte (b : byte) (s : string) : string :=
  match s with
  | String a r => if Ascii.eqb a b then trim_start_byte b r else s
  | "" => ""
  end.
Fixpoint srev_aux (s acc : string) : string :=
  match s with "" => acc | String b r => srev_aux r (String b acc) end.
Definition srev (s : string) : string := srev_aux s "".
Definition trim_end_byte (b : byte) (s : string) : string := srev (trim_start_byte b (srev s)).
Definition trim_matches_byte (b : byte) (s : string) : string :=
  trim_end_byte b (trim_start_byte b s).

(** Comparison of strings, byte by byte ([Ord] of [str]). *)
Definition str_cmp (a b : string) : comparison := String.compare a b.

(** Every character satisfies a predicate. *)
Definition all_chars (f : N → bool) (s : string) : bool := forallb f (chars s).
Definition any_char (f : N → bool) (s : string) : bool := existsb f (chars s).

(** Replace the characters outside a class by one ASCII byte; those inside the
    classes used are ASCII, one byte each. *)
Definition map_chars (f : N → string → string) (s : string) : string :=
  concat_strs (map (λ c : chunk, match fst c with Some n => f n (snd c) | None => snd c end)
                   (chunks s)).

(** First and last [n] characters: [chars().take(n).collect()]. *)
Definition take_chars (n : nat) (s : string) : string := unchunk (take n (chunks s)).
Definition count_chars (s : string) : nat := length (chunks s).

(** ** Numbers in text *)

Definition digit_char (n : N) : byte := ascii_of_N (48 + n).

Fixpoint dec_fuel (fuel : nat) (n : N) (acc : string) : string :=
  match fuel with
  | O => acc
  | S f =>
    let acc' := String (digit_char (n mod 10)) acc in
    if (n <? 10)%N then acc' else dec_fuel f (n / 10) acc'
  end.
(** Decimal text of a natural number, without leading zeros. *)
Definition dec_of_N (n : N) : string := dec_fuel (S (N.to_nat (N.log2 n))) n "".
Definition dec_of_Z (z : Z) : string :=
  match z with
  | Z0 => "0"
  | Zpos p => dec_of_N (Npos p)
  | Zneg p => String "-" (dec_of_N (Npos p))
  end.

Definition digit_val (b : byte) : option N :=
  if is_ascii_digit (bval b) then Some (bval b - 48)%N else None.

Fixpoint digits_val (s : string) (acc : N) : option N :=
  match s with
  | "" => Some acc
  | String b r => match digit_val b with Some d => digits_val r (acc * 10 + d) | None => None end
  end.

(** [str::parse::<u64>]: an optional plus sign, one digit at least, in range. *)
Definition parse_unsigned (max : Z) (s : string) : option Z :=
  let s := match s with String "+" r => r | _ => s end in
  if String.eqb s "" then None
  else match digits_val s 0 with
       | Some n => if (Z.of_N n <=? max)%Z then Some (Z.of_N n) else None
       | None => None
       end.
Definition parse_u64 (s : string) : option Z := parse_unsigned u64_max s.
(** [str::parse::<i64>]. *)
Definition parse_i64 (s : string) : option Z :=
  match s with
  | String "-" r =>
    if String.eqb r "" then None
    else match digits_val r 0 with
         | Some n => if (i64_min <=? - Z.of_N n)%Z then Some (- Z.of_N n)%Z else None
         | None => None
         end
  | _ => parse_unsigned i64_max s
  end.

(** Hexadecimal digits. *)
Definition hex_char (upper : bool) (n : N) : byte :=
  if (n <? 10)%N then ascii_of_N (48 + n)
  else ascii_of_N ((if upper then 55 else 87) + n).
(** [{:0wx}]: [w] hexadecimal digits, most significant first. *)
Fixpoint hex_fixed (w : nat) (n : N) (acc : string) : string :=
  match w with
  | O => acc
  | S w => hex_fixed w (n / 16) (String (hex_char false (n mod 16)) acc)
  end.

(** ** Facts *)

Lemma slen_app a b : slen (a ++ b) = slen a + slen b.
Proof. induction a; cbn; congruence. Qed.

Lemma app_nil_str (s : string) : s ++ "" = s.
Proof. induction s; cbn; congruence. Qed.

Lemma app_assoc_str (a b c : string) : a ++ (b ++ c) = (a ++ b) ++ c.
Proof. induction a; cbn; congruence. Qed.

Lemma sdrop_app a b : sdrop (slen a) (a ++ b) = b.
Proof. induction a; cbn; congruence. Qed.

Lemma stake_app a b : stake (slen a) (a ++ b) = a.
Proof. induction a; cbn; congruence. Qed.

Lemma stake_sdrop n s : stake n s ++ sdrop n s = s.
Proof. revert s; induction n as [|n IH]; intros [|b r]; cbn; auto. by rewrite IH. Qed.

Lemma slen_sdrop n s : slen (sdrop n s) = slen s - n.
Proof. revert s; induction n as [|n IH]; intros [|b r]; cbn; auto. Qed.

Lemma slen_stake n s : slen (stake n s) = Nat.min n (slen s).
Proof. revert s; induction n as [|n IH]; intros [|b r]; cbn; auto. Qed.

Lemma sdrop_sdrop i j s : sdrop i (sdrop j s) = sdrop (j + i) s.
Proof.
  revert s; induction j as [|j IH]; intros s; cbn; auto.
  destruct s; [by destruct i|apply IH].
Qed.

Lemma concat_strs_app l1 l2 : concat_strs (l1 ++ l2)%list = concat_strs l1 ++ concat_strs l2.
Proof. induction l1 as [|x l1 IH]; cbn; [done|]. by rewrite IH, app_assoc_str. Qed.

(** Every step splits the string, and takes a byte at least. *)
Lemma utf8_step_spec s :
  match utf8_step s with
  | None => s = ""
  | Some (_, bs, r) => s = bs ++ r ∧ 1 <= slen bs
  end.
Proof.
  destruct s as [|a r]; cbn; [done|].
  repeat case_match; simplify_eq/=; split; auto with lia.
Qed.

Lemma utf8_step_shorter s c bs r : utf8_step s = Some (c, bs, r) → slen r < slen s.
Proof.
  intros H. pose proof (utf8_step_spec s) as HS. rewrite H in HS.
  destruct HS as [-> ?]. rewrite slen_app. lia.
Qed.

Lemma chunks_fuel_enough n m s :
  slen s <= n → slen s <= m → chunks_fuel n s = chunks_fuel m s.
Proof.
  revert m s; induction n as [|n IH]; intros [|m] s Hn Hm; cbn; auto.
  - by destruct s; cbn in *; [|lia].
  - by destruct s; cbn in *; [|lia].
  - destruct (utf8_step s) as [[[c bs] r]|] eqn:E; [|done].
    apply utf8_step_shorter in E. f_equal. apply IH; lia.
Qed.

(** The characters of a string, without the fuel. *)
Lemma chunks_unfold s :
  chunks s = match utf8_step s with
             | None => []
             | Some (c, bs, r) => (c, bs) :: chunks r
             end.
Proof.
  unfold chunks. destruct (slen s) eqn:E.
  - by destruct s.
  - cbn. destruct (utf8_step s) as [[[c bs] r]|] eqn:H; [|done].
    apply utf8_step_shorter in H. f_equal. apply chunks_fuel_enough; lia.
Qed.

(** Induction on the characters of a string. *)
Lemma chunks_ind (P : string → Prop) :
  P "" →
  (∀ s c bs r, utf8_step s = Some (c, bs, r) → s = bs ++ r → P r → P s) →
  ∀ s, P s.
Proof.
  intros H0 HS s. remember (slen s) as n eqn:E. revert s E.
  induction n as [n IH] using lt_wf_ind. intros s ->.
  pose proof (utf8_step_spec s) as Hs.
  destruct (utf8_step s) as [[[c bs] r]|] eqn:E; [|by subst].
  destruct Hs as [-> ?]. eapply HS; [done|done|].
  eapply IH; [|done]. rewrite slen_app. lia.
Qed.

(** The characters, put end to end, are the string. *)
Lemma unchunk_chunks s : unchunk (chunks s) = s.
Proof.
  induction s as [|s c bs r E -> IH] using chunks_ind; [done|].
  rewrite chunks_unfold, E. unfold unchunk in *. cbn. by rewrite IH.
Qed.

(** [from_utf8_lossy] changes nothing in well-formed text. *)
Lemma from_utf8_lossy_valid s : valid_utf8 s = true → from_utf8_lossy s = s.
Proof.
  unfold valid_utf8, from_utf8_lossy. intros H.
  rewrite <- (unchunk_chunks s) at 2. unfold unchunk. f_equal.
  apply map_ext_in. intros [c bs] Hin. rewrite forallb_forall in H.
  apply H in Hin. cbn in *. by destruct c.
Qed.

Lemma valid_utf8_cons s c bs r :
  utf8_step s = Some (c, bs, r) →
  valid_utf8 s = (match c with Some _ => true | None => false end) && valid_utf8 r.
Proof. intros E. unfold valid_utf8. rewrite chunks_unfold, E. by destruct c. Qed.

(** An ASCII byte is a character by itself. *)
Lemma utf8_step_ascii b r :
  (bval b < 128)%N → utf8_step (String b r) = Some (Some (bval b), String b "", r).
Proof.
  intros H. cbn. unfold utf8_width.
  by destruct (N.ltb_spec (bval b) 128); [|lia].
Qed.

(** A well-formed character is recognised whatever follows it. *)
Lemma utf8_step_app s v bs r t :
  utf8_step s = Some (Some v, bs, r) → utf8_step (s ++ t) = Some (Some v, bs, r ++ t).
Proof.
  intros H. destruct s as [|a s]; [done|]. cbn in *.
  repeat (case_match; simplify_eq/=; try done).
Qed.

Lemma chunks_app a b : valid_utf8 a = true → chunks (a ++ b) = (chunks a ++ chunks b)%list.
Proof.
  induction a as [|s c bs r E Hs IH] using chunks_ind; intros V; [done|].
  rewrite (valid_utf8_cons _ _ _ _ E) in V. destruct c as [v|]; [|done].
  rewrite (chunks_unfold s), E, (chunks_unfold (s ++ b)), (utf8_step_app _ _ _ _ _ E).
  cbn. f_equal. by apply IH.
Qed.

Lemma valid_utf8_app a b : valid_utf8 a = true → valid_utf8 (a ++ b) = valid_utf8 b.
Proof.
  intros V. unfold valid_utf8. rewrite chunks_app by done.
  rewrite forallb_app. fold (valid_utf8 a). by rewrite V.
Qed.

(** Reading back a decimal: digits give the number they were printed from. *)
Lemma lt10_cases (n : N) :
  (n < 10)%N → n = 0%N ∨ n = 1%N ∨ n = 2%N ∨ n = 3%N ∨ n = 4%N ∨ n = 5%N ∨ n = 6%N ∨ n = 7%N
  ∨ n = 8%N ∨ n = 9%N.
Proof. lia. Qed.

Lemma digit_val_char n : (n < 10)%N → digit_val (digit_char n) = Some n.
Proof.
  intros H. by apply lt10_cases in H as [-> | [-> | [-> | [-> | [-> | [-> | [-> | [-> | [-> | ->]]]]]]]]].
Qed.

Lemma digit_char_spec n :
  (n < 10)%N → (bval (digit_char n) < 128)%N ∧ is_ascii_digit (bval (digit_char n)) = true.
Proof.
  intros H. by apply lt10_cases in H as [-> | [-> | [-> | [-> | [-> | [-> | [-> | [-> | [-> | ->]]]]]]]]].
Qed.

(** Digits are characters of one byte each. *)
Lemma digits_valid s acc : digits_val s acc ≠ None → valid_utf8 s = true.
Proof.
  revert acc; induction s as [|b s IHs]; intros acc H; [done|]. cbn in H.
  unfold digit_val in H. destruct (is_ascii_digit (bval b)) eqn:E; [|done].
  rewrite (valid_utf8_cons _ (Some (bval b)) (String b "") s).
  - cbn. eapply IHs, H.
  - apply utf8_step_ascii. unfold is_ascii_digit in E.
    apply andb_true_iff in E as [_ E%N.leb_le]. lia.
Qed.

Lemma digits_val_app a b acc :
  digits_val (a ++ b) acc = (n ← digits_val a acc; digits_val b n).
Proof.
  revert acc; induction a as [|d a IH]; intros acc; cbn; [done|].
  destruct (digit_val d); cbn; auto.
Qed.

Lemma all_chars_cons f b r :
  (bval b < 128)%N → all_chars f (String b r) = f (bval b) && all_chars f r.
Proof.
  intros H. unfold all_chars, chars. by rewrite chunks_unfold, utf8_step_ascii.
Qed.

Lemma all_chars_app f a b :
  valid_utf8 a = true → all_chars f (a ++ b) = all_chars f a && all_chars f b.
Proof.
  intros H. unfold all_chars, chars. by rewrite chunks_app, omap_app, forallb_app.
Qed.

Lemma dec_fuel_spec f n acc :
  (N.log2 n < N.of_nat f)%N →
  ∃ p, dec_fuel f n acc = p ++ acc ∧ digits_val p 0 = Some n ∧ p ≠ ""
       ∧ all_chars is_ascii_digit p = true.
Proof.
  revert n acc; induction f as [|f IH]; intros n acc H; [lia|]. cbn -[N.div N.modulo].
  assert (Hd : (n mod 10 < 10)%N) by (apply N.mod_lt; lia).
  destruct (digit_char_spec _ Hd) as [Hc1 Hc2].
  destruct (N.ltb_spec n 10) as [Hn|Hn].
  - exists (String (digit_char (n mod 10)) ""). rewrite N.mod_small in * by done.
    split; [done|]. split; [cbn; by rewrite digit_val_char|]. split; [done|].
    by rewrite all_chars_cons, Hc2.
  - destruct (IH (n / 10)%N (String (digit_char (n mod 10)) acc)) as (p & -> & Hp & Hne & Ha).
    { assert (N.log2 (n / 10) < N.log2 n)%N; [|lia].
      apply N.log2_lt_pow2; [apply N.div_str_pos; lia|].
      pose proof (N.log2_spec n ltac:(lia)) as [_ Hs].
      rewrite N.pow_succ_r' in Hs.
      apply N.Div0.div_lt_upper_bound. lia. }
    exists (p ++ String (digit_char (n mod 10)) ""). rewrite <- app_assoc_str.
    split; [done|]. rewrite digits_val_app, Hp. split.
    { cbn -[N.div N.modulo]. rewrite digit_val_char by done.
      f_equal. pose proof (N.div_mod' n 10). lia. }
    split; [by destruct p|].
    rewrite all_chars_app, Ha by (eapply digits_valid; by rewrite Hp).
    by rewrite all_chars_cons, Hc2.
Qed.

Lemma dec_of_N_spec n :
  digits_val (dec_of_N n) 0 = Some n ∧ dec_of_N n ≠ "" ∧
  all_chars is_ascii_digit (dec_of_N n) = true.
Proof.
  destruct (dec_fuel_spec (S (N.to_nat (N.log2 n))) n "") as (p & E & ?); [lia|].
  unfold dec_of_N. rewrite E, app_nil_str. done.
Qed.

Lemma str_compare_refl k : String.compare k k = Eq.
Proof. pose proof (String.compare_antisym k k) as H. by destruct (String.compare k k). Qed.

Lemma ascii_compare_N a b : Ascii.compare a b = (bval a ?= bval b)%N.
Proof. reflexivity. Qed.

Lemma str_compare_antisym a b : String.compare a b = CompOpp (String.compare b a).
Proof.
  revert b; induction a as [|x a IH]; intros [|y b]; cbn; try done.
  rewrite !ascii_compare_N, (N.compare_antisym (bval y) (bval x)), IH.
  by destruct (bval y ?= bval x)%N.
Qed.

Lemma str_compare_trans a b c :
  String.compare a b = Lt → String.compare b c = Lt → String.compare a c = Lt.
Proof.
  revert b c; induction a as [|x a IH]; intros [|y b] [|z c]; cbn; try done.
  rewrite !ascii_compare_N.
  destruct (N.compare_spec (bval x) (bval y)) as [E1|E1|E1]; try done;
    destruct (N.compare_spec (bval y) (bval z)) as [E2|E2|E2]; try done; intros H1 H2.
  - rewrite E1, E2, N.compare_refl. by eapply IH.
  - rewrite E1. by rewrite (proj2 (N.compare_lt_iff _ _) E2).
  - rewrite <- E2. by rewrite (proj2 (N.compare_lt_iff _ _) E1).
  - by rewrite (proj2 (N.compare_lt_iff _ _) (N.lt_trans _ _ _ E1 E2)).
Qed.

(** [Path::join]: an absolute second path replaces the first. *)
Definition path_join (a b : string) : string :=
  if starts_with b "/" then b
  else if String.eqb a "" || ends_with a "/" then a ++ b
  else a ++ "/" ++ b.

(** ** ASCII bytes are characters *)

Definition byte_in (b : byte) (s : string) : Prop := b ∈ String.list_ascii_of_string s.

Lemma list_ascii_app a b :
  String.list_ascii_of_string (a ++ b) =
  (String.list_ascii_of_string a ++ String.list_ascii_of_string b)%list.
Proof. induction a as [|c a IH]; cbn; [done|by rewrite IH]. Qed.

Lemma byte_in_app b s t : byte_in b (s ++ t) ↔ byte_in b s ∨ byte_in b t.
Proof. unfold byte_in. by rewrite list_ascii_app, elem_of_app. Qed.

Lemma byte_in_cons b c s : byte_in b (String c s) ↔ b = c ∨ byte_in b s.
Proof. unfold byte_in. cbn. by rewrite elem_of_cons. Qed.

Lemma byte_in_nil b : ¬ byte_in b "".
Proof. apply not_elem_of_nil. Qed.

Lemma in_range_high lo hi b : (128 <= lo)%N → in_range lo hi b = true → (128 <= bval b)%N.
Proof. unfold in_range. intros ? [? _]%andb_true_iff. bool_prop. lia. Qed.

Lemma second_ok_high a b : second_ok a b = true → (128 <= bval b)%N.
Proof.
  unfold second_ok, is_cont. intros H.
  repeat case_match; (eapply in_range_high; [|exact H]; lia).
Qed.

(** No byte of a longer sequence, well-formed or not, is ASCII. *)
Lemma utf8_step_ascii_in s c bs r b :
  utf8_step s = Some (c, bs, r) → byte_in b bs → (bval b < 128)%N → c = Some (bval b).
Proof.
  destruct s as [|a s]; [done|]. intros H Hin Hb. cbn in H.
  destruct (decide (bval a < 128)%N) as [Ha|Ha].
  { unfold utf8_width in H. rewrite (proj2 (N.ltb_lt _ _) Ha) in H. simplify_eq.
    apply byte_in_cons in Hin as [->|Hin]; [done|]. by apply byte_in_nil in Hin. }
  assert (utf8_width a ≠ 1) as Hw.
  { unfold utf8_width. rewrite (proj2 (N.ltb_ge _ _)) by lia. intros Hw.
    repeat match type of Hw with context [if ?x then _ else _] => destruct x; try lia end. }
  exfalso. unfold is_cont in H.
  repeat case_match; simplify_eq; bool_prop;
    repeat match goal with
    | H : second_ok _ _ = true |- _ => apply second_ok_high in H
    | H : in_range 128 191 _ = true |- _ => apply in_range_high in H; [|lia]
    | H : byte_in _ (String _ _) |- _ => apply byte_in_cons in H as [->|H]
    | H : byte_in _ "" |- _ => by apply byte_in_nil in H
    end; try lia; congruence.
Qed.

Lemma all_chars_ascii f s b :
  all_chars f s = true → byte_in b s → (bval b < 128)%N → f (bval b) = true.
Proof.
  intros H Hin Hb. induction s as [|s c bs r E -> IH] using chunks_ind; [by apply byte_in_nil in Hin|].
  unfold all_chars, chars in *. rewrite chunks_unfold, E in H.
  apply byte_in_app in Hin as [Hin|Hin].
  - pose proof (utf8_step_ascii_in _ _ _ _ _ E Hin Hb) as ->. cbn in H.
    by apply andb_true_iff in H as [? _].
  - apply IH; [|done]. destruct c; cbn in H; [by apply andb_true_iff in H as [_ ?]|done].
Qed.

(** A separator that occurs in neither of two prefixes splits text one way. *)
Lemma split_unique c a b a' b' :
  ¬ byte_in c a → ¬ byte_in c a' → a ++ String c b = a' ++ String c b' → a = a' ∧ b = b'.
Proof.
  revert a'. induction a as [|x a IH]; intros [|y a'] Ha Ha' E; cbn in E.
  - by simplify_eq.
  - simplify_eq. destruct Ha'. apply byte_in_cons. by left.
  - simplify_eq. destruct Ha. apply byte_in_cons. by left.
  - injection E as <- E. apply IH in E as [-> ->]; [done|..];
      intros Hin; [apply Ha|apply Ha']; apply byte_in_cons; by right.
Qed.

Lemma starts_with_byte c b s : starts_with (String b s) (String c "") = Ascii.eqb c b.
Proof.
  unfold starts_with. cbn. destruct (ascii_dec c b) as [->|Hne].
  - rewrite Ascii.eqb_refl. by destruct s.
  - symmetry. by apply Ascii.eqb_neq.
Qed.

Lemma find_from_byte i s c j : find_from i s (String c "") = Some j → byte_in c s.
Proof.
  revert i. induction s as [|b s IH]; intros i; cbn [find_from]; [done|].
  rewrite starts_with_byte. destruct (Ascii.eqb_spec c b) as [->|].
  - intros _. apply byte_in_cons. by left.
  - intros H. apply byte_in_cons. right. by eapply IH.
Qed.

Lemma str_contains_byte s c : str_contains s (String c "") = true → byte_in c s.
Proof.
  unfold str_contains, str_find. destruct (find_from 0 s _) eqn:E; [|done].
  intros _. by eapply find_from_byte.
Qed.

(** Source text for examples: [|] stands for a line break. *)
Definition script : string → string :=
  map_bytes (λ b, if Ascii.eqb b "|" then "010"%char
                  else if Ascii.eqb b "'" then "034"%char else b).

(** ASCII text is well formed. *)
Definition ascii_text (s : string) : Prop := ∀ b, byte_in b s → (bval b < 128)%N.

Lemma ascii_text_cons b s : (bval b < 128)%N → ascii_text s → ascii_text (String b s).
Proof. intros Hb Hs c [->|H]%byte_in_cons; auto. Qed.

Lemma ascii_text_tail b s : ascii_text (String b s) → (bval b < 128)%N ∧ ascii_text s.
Proof. intros H. split; [|intros c Hc]; apply H, byte_in_cons; auto. Qed.

Lemma ascii_text_valid s : ascii_text s → valid_utf8 s = true.
Proof.
  induction s as [|b s IH]; intros Hs; [done|]. apply ascii_text_tail in Hs as [Hb Hs].
  rewrite (valid_utf8_cons _ _ _ _ (utf8_step_ascii b s Hb)). by apply IH.
Qed.

Lemma hex_char_ascii up n : (n < 16)%N → (bval (hex_char up n) < 128)%N.
Proof.
  intros Hn. unfold hex_char, bval. destruct (n <? 10)%N eqn:E; bool_prop.
  - rewrite N_ascii_embedding; lia.
  - destruct up; rewrite N_ascii_embedding; lia.
Qed.

Lemma hex_fixed_ascii w n acc : ascii_text acc → ascii_text (hex_fixed w n acc).
Proof.
  revert n acc. induction w as [|w IH]; intros n acc Ha; cbn; [done|].
  apply IH, ascii_text_cons; [|done]. apply hex_char_ascii. by apply N.mod_lt.
Qed.

Lemma slen_hex_fixed w n acc : slen (hex_fixed w n acc) = w + slen acc.
Proof. revert n acc. induction w as [|w IH]; intros n acc; cbn; [done|]. rewrite IH. cbn. lia. Qed.

(** ** Where a pattern was found *)

Lemma prefix_app p s : starts_with s p = true → s = p ++ sdrop (slen p) s.
Proof.
  unfold starts_with. revert s. induction p as [|c p IH]; intros s H; [done|].
  destruct s as [|d s]; [done|]. cbn in H. destruct (ascii_dec c d) as [->|]; [|done].
  cbn [String.append sdrop slen]. f_equal. by apply IH.
Qed.

Lemma find_from_spec s p : ∀ i j, find_from i s p = Some j →
  (i <= j)%nat ∧ s = stake (j - i) s ++ p ++ sdrop (j - i + slen p) s.
Proof.
  induction s as [|c s IH]; intros i j H; cbn [find_from] in H.
  - destruct (starts_with "" p) eqn:Hp; [|done]. injection H as <-. split; [lia|].
    rewrite Nat.sub_diag. by apply prefix_app in Hp.
  - destruct (starts_with (String c s) p) eqn:Hp.
    + injection H as <-. split; [lia|]. rewrite Nat.sub_diag. by apply prefix_app in Hp.
    + apply IH in H as [Hle H]. split; [lia|].
      replace (j - i) with (S (j - S i)) by lia. cbn [stake Nat.add sdrop String.append]. by f_equal.
Qed.

Lemma split_once_app s p a b : split_once s p = Some (a, b) → s = a ++ p ++ b.
Proof.
  unfold split_once, str_find. destruct (find_from 0 s p) as [i|] eqn:E; [|done].
  intros [= <- <-]. apply find_from_spec in E as [_ E]. by rewrite Nat.sub_0_r in E.
Qed.
