(* ===== verification/F64.v ===== *)
(** * f64: IEEE 754 binary64

    Rust's [f64] arithmetic, on the specification floats of the standard
    library ([spec_float] with 53 bits of precision and exponents below 1024,
    rounding to nearest even), which compute in the kernel and rest on no
    axiom.  Decimal text is read with the single correct rounding that
    [f64::from_str] promises. *)

From stdpp Require Import base list strings.
From Stdlib Require Import ZArith Lia Ascii SpecFloat.
From S2P Require Import Prelude Text.
Open Scope Z_scope.

Notation f64 := spec_float.

Definition prec : Z := 53.
Definition emax : Z := 1024.

Definition f64_add : f64 → f64 → f64 := SFadd prec emax.
Definition f64_sub : f64 → f64 → f64 := SFsub prec emax.
Definition f64_mul : f64 → f64 → f64 := SFmul prec emax.
Definition f64_div : f64 → f64 → f64 := SFdiv prec emax.
Definition f64_neg : f64 → f64 := SFopp.
Definition f64_abs : f64 → f64 := SFabs.
Definition f64_zero : f64 := S754_zero false.

(** [z as f64] for an integer. *)
Definition f64_of_Z (z : Z) : f64 := binary_normalize prec emax z 0 false.

(** [partial_cmp], [==], [<], [<=]; a NaN compares with nothing. *)
Definition f64_cmp : f64 → f64 → option comparison := SFcompare.
Definition f64_eqb : f64 → f64 → bool := SFeqb.
Definition f64_ltb : f64 → f64 → bool := SFltb.
Definition f64_leb : f64 → f64 → bool := SFleb.

Definition f64_is_finite (x : f64) : bool :=
  match x with S754_zero _ | S754_finite _ _ _ => true | _ => false end.

(** The integer part of a finite float, towards zero. *)
Definition f64_trunc (x : f64) : Z :=
  match x with
  | S754_finite s m e =>
    let a := if 0 <=? e then Z.shiftl (Zpos m) e else Z.shiftr (Zpos m) (- e) in
    if s then - a else a
  | _ => 0
  end.

(** [x.fract() == 0.0]: the float is a finite integer (the fractional part of
    an infinity is a NaN). *)
Definition f64_integral (x : f64) : bool :=
  match x with
  | S754_zero _ => true
  | S754_finite _ m e => (0 <=? e) || (Z.land (Zpos m) (Z.ones (- e)) =? 0)
  | _ => false
  end.

(** [x as i32], saturating, NaN to 0. *)
Definition f64_as_i32 (x : f64) : Z :=
  match x with
  | S754_nan => 0
  | S754_infinity s => if s then - 2 ^ 31 else 2 ^ 31 - 1
  | _ => Z.max (- 2 ^ 31) (Z.min (2 ^ 31 - 1) (f64_trunc x))
  end.

(** [x.round()]: to the nearest integer, half away from zero. *)
Definition f64_round (x : f64) : f64 :=
  match x with
  | S754_finite s m e =>
    if 0 <=? e then x
    else
      let a := Z.shiftr (Zpos m + Z.shiftl 1 (- e - 1)) (- e) in
      match a with
      | Z0 => S754_zero s
      | _ => let r := f64_of_Z a in if s then SFopp r else r
      end
  | _ => x
  end.

(** ** Reading decimal text *)

(** [d * 10^k], rounded once. *)
Definition f64_of_dec (neg : bool) (d : N) (k : Z) : f64 :=
  match d with
  | N0 => S754_zero neg
  | Npos p =>
    let nd := Z.of_N (N.log2 d) / 3 + 1 in
    if 310 <? k then S754_infinity neg
    else if nd + k <? - 400 then S754_zero neg
    else if 0 <=? k then
      binary_normalize prec emax (let z := Zpos p * 10 ^ k in if neg then - z else z) 0 neg
    else
      let '(mz, ez, lz) := SFdiv_core_binary prec emax (Zpos p) 0 (10 ^ (- k)) 0 in
      binary_round_aux prec emax neg mz ez lz
  end.

(** The longest prefix of ASCII digits: its value on top of [acc], its length,
    and the rest. *)
Fixpoint take_digits (s : string) (acc : N) (n : nat) : N * nat * string :=
  match s with
  | String b r =>
    match digit_val b with
    | Some d => take_digits r (acc * 10 + d)%N (S n)
    | None => (acc, n, s)
    end
  | "" => (acc, n, s)
  end.

(** The exponent part: [None] when it is malformed. *)
Definition take_exp (s : string) : option Z :=
  match s with
  | "" => Some 0
  | String b r =>
    if String.eqb (to_ascii_lowercase (String b "")) "e" then
      let '(neg, r) := match r with
                       | String "-" r => (true, r)
                       | String "+" r => (false, r)
                       | _ => (false, r)
                       end in
      let '(e, n, rest) := take_digits r 0%N 0 in
      match n, rest with
      | O, _ => None
      | _, "" => Some (if neg : bool then - Z.of_N e else Z.of_N e)
      | _, _ => None
      end
    else None
  end.

(** [str::parse::<f64>]: a sign, then [inf], [infinity] or [nan] in any case,
    or digits with an optional point and exponent, one digit at least. *)
Definition parse_f64 (s : string) : option f64 :=
  let '(neg, s) := match s with
                   | String "-" r => (true, r)
                   | String "+" r => (false, r)
                   | _ => (false, s)
                   end in
  let l := to_ascii_lowercase s in
  if String.eqb l "inf" || String.eqb l "infinity" then Some (S754_infinity neg)
  else if String.eqb l "nan" then Some S754_nan
  else
    let '(d, n1, r) := take_digits s 0%N 0 in
    let '(d, n2, r) := match r with
                       | String "." r => take_digits r d 0
                       | _ => (d, 0%nat, r)
                       end in
    if (n1 + n2 =? 0)%nat then None
    else match take_exp r with
         | Some e => Some (f64_of_dec neg d (e - Z.of_nat n2))
         | None => None
         end.

(** ** Facts *)

Lemma f64_cmp_refl x : f64_is_finite x = true → f64_cmp x x = Some Eq.
Proof.
  destruct x as [| | |s m e]; cbn; try done. intros _. rewrite Z.compare_refl.
  change (Pos.compare_cont Eq m m) with (m ?= m)%positive.
  by rewrite Pos.compare_refl; destruct s.
Qed.

Example parse_point_one : parse_f64 "0.1" = Some (S754_finite false 7205759403792794 (-56)).
Proof. vm_compute. reflexivity. Qed.
Example parse_two_dots : parse_f64 "1.2.3" = None.
Proof. reflexivity. Qed.
