(* ===== verification/Json.v ===== *)
(** * JSON values

    [serde_json::Value] and its map, which is Rust's [BTreeMap] (the crate is
    built without [preserve_order]): entries in the byte order of their keys.
    The operations here are the accessors the runtime uses, by their
    documentation.  Text is the part of the crate left abstract: the class
    [Serde] stands for the printer and the parser. *)

From stdpp Require Import base list strings.
From Stdlib Require Import ZArith Lia Ascii SpecFloat.
From S2P Require Import Prelude Text F64.
Open Scope Z_scope.

(** ** Sorted maps *)

Notation smap A := (list (string * A)).

Section Smap.
Context {A : Type}.
Implicit Types m : smap A.

Fixpoint map_get (k : string) m : option A :=
  match m with
  | [] => None
  | (k', v) :: r => if String.eqb k k' then Some v else map_get k r
  end.

Fixpoint map_insert (k : string) (v : A) m : smap A :=
  match m with
  | [] => [(k, v)]
  | (k', v') :: r =>
    match String.compare k k' with
    | Lt => (k, v) :: m
    | Eq => (k, v) :: r
    | Gt => (k', v') :: map_insert k v r
    end
  end.

Fixpoint map_remove (k : string) m : smap A :=
  match m with
  | [] => []
  | (k', v) :: r => if String.eqb k k' then map_remove k r else (k', v) :: map_remove k r
  end.

Definition map_contains (k : string) m : bool :=
  match map_get k m with Some _ => true | None => false end.

Definition map_keys m : list string := map fst m.

(** Insert every entry of a list, later ones winning. *)
Definition map_extend m (l : list (string * A)) : smap A :=
  fold_left (λ m kv, map_insert (fst kv) (snd kv) m) l m.

(** The invariant of the representation: keys strictly increasing. *)
Fixpoint map_ok m : Prop :=
  match m with
  | [] => True
  | (k, _) :: r =>
    match r with
    | [] => True
    | (k', _) :: _ => String.compare k k' = Lt
    end ∧ map_ok r
  end.

Lemma map_get_insert_eq k v m : map_get k (map_insert k v m) = Some v.
Proof.
  induction m as [|[k' v'] m IH]; cbn; [by rewrite String.eqb_refl|].
  destruct (String.compare k k') eqn:E; cbn; rewrite ?String.eqb_refl; try done.
  destruct (String.eqb_spec k k') as [->|]; [|done].
  by rewrite str_compare_refl in E.
Qed.

Lemma map_get_insert_ne k k' v m : k ≠ k' → map_get k (map_insert k' v m) = map_get k m.
Proof.
  intros Hne. induction m as [|[k0 v0] m IH]; cbn.
  - by rewrite (proj2 (String.eqb_neq k k') Hne).
  - destruct (String.compare k' k0) eqn:E; cbn; rewrite ?(proj2 (String.eqb_neq k k') Hne); try done.
    + apply String.compare_eq_iff in E. subst.
      by rewrite (proj2 (String.eqb_neq k k0) Hne).
    + by rewrite IH.
Qed.

Lemma map_get_insert k k' v m :
  map_get k (map_insert k' v m) = if String.eqb k k' then Some v else map_get k m.
Proof.
  destruct (String.eqb_spec k k') as [->|]; [apply map_get_insert_eq|by apply map_get_insert_ne].
Qed.

Lemma map_get_remove k k' m :
  map_get k (map_remove k' m) = if String.eqb k k' then None else map_get k m.
Proof.
  induction m as [|[k0 v0] m IH]; cbn; [by case_match|].
  destruct (String.eqb_spec k' k0) as [->|]; cbn; rewrite IH.
  - by destruct (String.eqb_spec k k0).
  - destruct (String.eqb_spec k k0) as [->|]; [|done].
    by destruct (String.eqb_spec k0 k').
Qed.

Lemma compare_flip a b : String.compare a b = Gt → String.compare b a = Lt.
Proof. intros H. rewrite String.compare_antisym, H. done. Qed.

Lemma map_insert_ok k v m : map_ok m → map_ok (map_insert k v m).
Proof.
  induction m as [|[k1 v1] m IH]; cbn; [done|]. intros [H1 H2].
  destruct (String.compare k k1) eqn:E; cbn.
  - apply String.compare_eq_iff in E. by subst.
  - done.
  - split; [|by apply IH]. destruct m as [|[k2 v2] m]; cbn; [by apply compare_flip|].
    destruct (String.compare k k2) eqn:E2; auto using compare_flip.
Qed.

Lemma map_get_extend k m (l : list (string * A)) :
  map_get k (map_extend m l) =
  match map_get k (rev l) with Some v => Some v | None => map_get k m end.
Proof.
  unfold map_extend. revert m. induction l as [|[k' v'] l IH] using rev_ind; intros m; [done|].
  rewrite fold_left_app, rev_app_distr. cbn. rewrite map_get_insert.
  destruct (String.eqb k k'); [done|]. apply IH.
Qed.
End Smap.

#[export] Hint Rewrite @map_get_insert_eq @map_get_insert @map_get_remove : vejas.
#[export] Hint Resolve map_insert_ok : vejas.

(** ** Numbers and values *)

(** [serde_json::Number]: an integer of the [i64] or [u64] range, or a finite
    float. *)
Inductive Number : Type :=
| NInt (z : Z)
| NFloat (f : f64).

Inductive Value : Type :=
| VNull
| VBool (b : bool)
| VNumber (n : Number)
| VString (s : string)
| VArray (l : list Value)
| VObject (m : smap Value).

(** Induction with the hypothesis inside arrays and objects. *)
Section ValueInd.
Context (P : Value → Prop)
  (Hnull : P VNull) (Hbool : ∀ b, P (VBool b)) (Hnum : ∀ n, P (VNumber n))
  (Hstr : ∀ s, P (VString s)) (Harr : ∀ l, Forall P l → P (VArray l))
  (Hobj : ∀ m, Forall (λ kv, P (snd kv)) m → P (VObject m)).
Fixpoint value_ind' (v : Value) : P v :=
  match v with
  | VNull => Hnull | VBool b => Hbool b | VNumber n => Hnum n | VString s => Hstr s
  | VArray l =>
    Harr l ((fix go (l : list Value) : Forall P l :=
               match l with
               | [] => Forall_nil_2 P
               | x :: r => Forall_cons_2 P x r (value_ind' x) (go r)
               end) l)
  | VObject m =>
    Hobj m ((fix go (m : smap Value) : Forall (λ kv, P (snd kv)) m :=
               match m with
               | [] => Forall_nil_2 _
               | x :: r => Forall_cons_2 (λ kv, P (snd kv)) x r (value_ind' (snd x)) (go r)
               end) m)
  end.
End ValueInd.

(** [Number::as_f64], [as_i64], [as_u64], [from_f64], [from(i64)]. *)
Definition num_as_f64 (n : Number) : option f64 :=
  match n with NInt z => Some (f64_of_Z z) | NFloat f => Some f end.
Definition num_as_i64 (n : Number) : option Z :=
  match n with
  | NInt z => if (i64_min <=? z) && (z <=? i64_max) then Some z else None
  | NFloat _ => None
  end.
Definition num_as_u64 (n : Number) : option Z :=
  match n with
  | NInt z => if (0 <=? z) && (z <=? u64_max) then Some z else None
  | NFloat _ => None
  end.
Definition num_from_f64 (f : f64) : option Number :=
  if f64_is_finite f then Some (NFloat f) else None.

(** [PartialEq]: an integer and a float are never equal, even when they are
    the same number. *)
Definition num_eqb (a b : Number) : bool :=
  match a, b with
  | NInt x, NInt y => x =? y
  | NFloat x, NFloat y => f64_eqb x y
  | _, _ => false
  end.

Fixpoint value_eqb (a b : Value) : bool :=
  match a, b with
  | VNull, VNull => true
  | VBool x, VBool y => Bool.eqb x y
  | VNumber x, VNumber y => num_eqb x y
  | VString x, VString y => String.eqb x y
  | VArray x, VArray y =>
    (fix go (x y : list Value) : bool :=
       match x, y with
       | [], [] => true
       | a :: x, b :: y => value_eqb a b && go x y
       | _, _ => false
       end) x y
  | VObject x, VObject y =>
    (fix go (x y : smap Value) : bool :=
       match x, y with
       | [], [] => true
       | (k, a) :: x, (k', b) :: y => String.eqb k k' && value_eqb a b && go x y
       | _, _ => false
       end) x y
  | _, _ => false
  end.

(** Accessors of [Value]. *)
Definition as_str (v : Value) : option string :=
  match v with VString s => Some s | _ => None end.
Definition as_bool (v : Value) : option bool :=
  match v with VBool b => Some b | _ => None end.
Definition as_array (v : Value) : option (list Value) :=
  match v with VArray l => Some l | _ => None end.
Definition as_object (v : Value) : option (smap Value) :=
  match v with VObject m => Some m | _ => None end.
Definition as_f64 (v : Value) : option f64 :=
  match v with VNumber n => num_as_f64 n | _ => None end.
Definition as_u64 (v : Value) : option Z :=
  match v with VNumber n => num_as_u64 n | _ => None end.
Definition as_i64 (v : Value) : option Z :=
  match v with VNumber n => num_as_i64 n | _ => None end.
Definition is_null (v : Value) : bool := match v with VNull => true | _ => false end.
Definition is_object (v : Value) : bool := match v with VObject _ => true | _ => false end.

(** [Value::get] with a string key, and [value[key]], which reads [Null] where
    there is nothing. *)
Definition vget (k : string) (v : Value) : option Value :=
  match v with VObject m => map_get k m | _ => None end.
Definition vindex (v : Value) (k : string) : Value := default VNull (vget k v).

(** A field that must be a string, read with a default: [v[k].as_str().unwrap_or(d)]. *)
Definition vstr_or (d : string) (v : Value) (k : string) : string :=
  default d (as_str (vindex v k)).

(** A document from its fields: the [json!] macro on an object. *)
Definition obj (l : list (string * Value)) : Value := VObject (map_extend [] l).
Definition vint (z : Z) : Value := VNumber (NInt z).

(** The printers and the parser of the crate. *)
Class Serde := {
  to_json : Value → string;
  to_json_pretty : Value → string;
  from_json : string → option Value
}.

(** Sortedness as a test. *)
Fixpoint map_sorted {A} (m : smap A) : bool :=
  match m with
  | (k, _) :: r =>
    match r with
    | (k', _) :: _ => match String.compare k k' with Lt => true | _ => false end
    | [] => true
    end && map_sorted r
  | [] => true
  end.

(** The values that a program can hold and that are printed exactly, with
    arrays and objects nested at most [n] deep: text is UTF-8, an integer fits
    the crate's number, entries are in order, and there is no float (the
    crate's parser may round one). *)
Fixpoint value_ok_at (n : nat) (v : Value) {struct v} : bool :=
  match v, n with
  | VNull, _ | VBool _, _ => true
  | VNumber (NInt z), _ => (i64_min <=? z) && (z <=? u64_max)
  | VNumber (NFloat _), _ => false
  | VString s, _ => valid_utf8 s
  | VArray l, S n => forallb (value_ok_at n) l
  | VObject m, S n =>
    map_sorted m && forallb (λ kv, match kv with (k, v) => valid_utf8 k && value_ok_at n v end) m
  | _, O => false
  end.

(** The crate's parser refuses what is nested deeper than this. *)
Definition max_nesting : nat := 127.
Notation value_ok := (value_ok_at max_nesting).

(** What the code relies on where it writes a document and reads it back:
    the text of such a value, down to the depth that the parser goes, parses to the value, and the compact text is one
    line. *)
Class SerdeOk `{Serde} := {
  serde_roundtrip : ∀ v, value_ok v = true → from_json (to_json v) = Some v;
  serde_roundtrip_pretty : ∀ v, value_ok v = true → from_json (to_json_pretty v) = Some v;
  serde_one_line : ∀ v, str_contains (to_json v) (String (Ascii.ascii_of_nat 10) "") = false;
  serde_nonempty : ∀ v, to_json v ≠ ""
}.

(** Values that are equal to the code are equal when they hold no float. *)
Fixpoint float_free (v : Value) : bool :=
  match v with
  | VNumber (NFloat _) => false
  | VArray l => forallb float_free l
  | VObject m => forallb (λ kv, float_free (snd kv)) m
  | _ => true
  end.

Lemma value_eqb_eq a b : float_free a = true → value_eqb a b = true → a = b.
Proof.
  revert b. induction a as [|x|n|x|l IH|m IH] using value_ind'; intros b; destruct b; cbn; try done.
  - intros _ H. apply Bool.eqb_prop in H. congruence.
  - destruct n, n0; cbn; try done. intros _ H%Z.eqb_eq. congruence.
  - intros _ H%String.eqb_eq. congruence.
  - intros Hf H. f_equal. revert l0 H. induction l as [|x l IHl]; intros [|y l0]; try done.
    intros H. cbn in Hf. apply andb_true_iff in Hf as [? ?].
    apply andb_true_iff in H as [? ?]. inversion IH; subst. f_equal; auto.
  - intros Hf H. f_equal. revert m0 H. induction m as [|[k x] l IHl]; intros [|[k' y] l0]; try done.
    intros H. cbn in Hf. apply andb_true_iff in Hf as [? ?].
    apply andb_true_iff in H as [[->%String.eqb_eq ?]%andb_true_iff ?]. inversion IH; subst.
    f_equal; [f_equal|]; auto.
Qed.

(** ** Sorted maps are determined by their lookups *)

Section MapExt.
Context {A : Type}.
Implicit Types m : smap A.

Lemma map_ok_tail kv m : map_ok (kv :: m) → map_ok m.
Proof. destruct kv. by intros []. Qed.

Lemma map_ok_lt k v m k' v' : map_ok ((k, v) :: m) → (k', v') ∈ m → String.compare k k' = Lt.
Proof.
  revert k v. induction m as [|[k1 v1] m IH]; intros k v; [by rewrite elem_of_nil|].
  intros [Hlt Hok] Hin. apply elem_of_cons in Hin as [Hin|Hin]; [by simplify_eq|].
  eapply str_compare_trans; [exact Hlt|]. by eapply IH.
Qed.

Lemma map_get_elem k m v : map_get k m = Some v → (k, v) ∈ m.
Proof.
  induction m as [|[k1 v1] m IH]; cbn; [done|].
  destruct (String.eqb_spec k k1) as [->|]; [intros [= ->]; left|right; auto].
Qed.

Lemma map_get_not_key k m : k ∉ map fst m → map_get k m = None.
Proof.
  intros Hk. destruct (map_get k m) as [v|] eqn:E; [|done]. apply map_get_elem in E.
  destruct Hk. apply list_elem_of_In, in_map_iff. exists (k, v).
  split; [done|by apply list_elem_of_In].
Qed.

Lemma map_get_absent k v m : map_ok ((k, v) :: m) → map_get k m = None.
Proof.
  intros Hm. destruct (map_get k m) eqn:E; [|done]. apply map_get_elem in E.
  pose proof (map_ok_lt _ _ _ _ _ Hm E) as L. by rewrite str_compare_refl in L.
Qed.

Lemma map_ext m1 m2 : map_ok m1 → map_ok m2 → (∀ k, map_get k m1 = map_get k m2) → m1 = m2.
Proof.
  revert m2. induction m1 as [|[k1 v1] m1 IH]; intros [|[k2 v2] m2] H1 H2 Hext.
  - done.
  - specialize (Hext k2). cbn in Hext. by rewrite String.eqb_refl in Hext.
  - specialize (Hext k1). cbn in Hext. by rewrite String.eqb_refl in Hext.
  - assert (k1 = k2) as ->.
    { pose proof (Hext k1) as E1. pose proof (Hext k2) as E2. cbn in E1, E2.
      rewrite String.eqb_refl in E1, E2.
      destruct (String.eqb_spec k1 k2) as [|Hne]; [done|].
      rewrite (proj2 (String.eqb_neq k2 k1)) in E2 by congruence.
      symmetry in E1. apply map_get_elem in E1, E2.
      pose proof (map_ok_lt _ _ _ _ _ H2 E1) as L1. pose proof (map_ok_lt _ _ _ _ _ H1 E2) as L2.
      rewrite (str_compare_antisym k1 k2), L1 in L2. done. }
    pose proof (Hext k2) as E. cbn in E. rewrite String.eqb_refl in E. injection E as ->. f_equal.
    apply IH; [by eapply map_ok_tail|by eapply map_ok_tail|]. intros k.
    specialize (Hext k). cbn in Hext. destruct (String.eqb_spec k k2) as [Hk|]; [|done].
    rewrite Hk. by rewrite (map_get_absent _ _ _ H1), (map_get_absent _ _ _ H2).
Qed.

Lemma map_remove_ok k m : map_ok m → map_ok (map_remove k m).
Proof.
  induction m as [|[k1 v1] m IH]; [done|]. intros Hok. cbn.
  destruct (String.eqb k k1); [apply IH; by eapply map_ok_tail|].
  split; [|apply IH; by eapply map_ok_tail].
  destruct (map_remove k m) as [|[k2 v2] r] eqn:E; [done|].
  assert ((k2, v2) ∈ m) as Hin.
  { assert ((k2, v2) ∈ map_remove k m) as H by (rewrite E; left). revert H. clear.
    induction m as [|[a b] m IH]; cbn; [done|].
    destruct (String.eqb k a); [intros; right; auto|].
    intros [Heq|?]%elem_of_cons; [rewrite Heq; left|right; auto]. }
  by eapply map_ok_lt.
Qed.

Lemma map_extend_ok m (l : list (string * A)) : map_ok m → map_ok (map_extend m l).
Proof. intros H. unfold map_extend. apply fold_left_ind; [done|]. intros. by apply map_insert_ok. Qed.

Lemma map_sorted_ok m : map_sorted m = true ↔ map_ok m.
Proof.
  induction m as [|[k v] m IH]; cbn; [done|]. rewrite andb_true_iff, IH.
  destruct m as [|[k' v'] m]; [naive_solver|]. destruct (String.compare k k'); naive_solver.
Qed.
End MapExt.

(** ** Printable documents *)

Definition entry_ok (n : nat) (kv : string * Value) : bool :=
  match kv with (k, v) => valid_utf8 k && value_ok_at n v end.

Lemma forallb_map_insert {A} (f : string * A → bool) k v m :
  f (k, v) = true → forallb f m = true → forallb f (map_insert k v m) = true.
Proof.
  intros Hf. induction m as [|[k' v'] m IH]; cbn; [by rewrite Hf|].
  intros [? ?]%andb_true_iff. destruct (String.compare k k'); cbn; rewrite ?Hf; cbn; auto.
  - by apply andb_true_iff.
  - apply andb_true_iff. auto.
Qed.

Lemma value_ok_insert n k v m :
  valid_utf8 k = true → value_ok_at n v = true → value_ok_at (S n) (VObject m) = true →
  value_ok_at (S n) (VObject (map_insert k v m)) = true.
Proof.
  intros Hk Hv [Hs Hm]%andb_true_iff. cbn. apply andb_true_iff. split.
  - apply map_sorted_ok, map_insert_ok. by apply map_sorted_ok.
  - apply (forallb_map_insert (entry_ok n)); [|done]. cbn. by rewrite Hk, Hv.
Qed.

Lemma value_ok_extend n l m :
  Forall (λ kv, valid_utf8 (fst kv) = true ∧ value_ok_at n (snd kv) = true) l →
  value_ok_at (S n) (VObject m) = true → value_ok_at (S n) (VObject (map_extend m l)) = true.
Proof.
  intros Hl. revert m. induction Hl as [|[k v] l [Hk Hv] _ IH]; intros m Hm; [done|].
  apply IH. by apply value_ok_insert.
Qed.

Lemma value_ok_obj n l :
  Forall (λ kv, valid_utf8 (fst kv) = true ∧ value_ok_at n (snd kv) = true) l → value_ok_at (S n) (obj l) = true.
Proof. intros H. by apply value_ok_extend. Qed.

Lemma value_ok_int n z : i64_min <= z <= u64_max → value_ok_at n (vint z) = true.
Proof. intros. cbn. apply andb_true_iff. split; apply Z.leb_le; lia. Qed.

(** Decide that a document written out is printable, down to the texts and
    numbers it is about. *)
Ltac doc_ok :=
  repeat first
    [ assumption | reflexivity
    | apply value_ok_int; unfold i64_min in *; lia
    | apply value_ok_obj | apply Forall_nil_2 | apply Forall_cons_2 | split
    | progress cbn [fst snd] ].
