(* ===== verification/Syntax.v ===== *)
(** * VejasScript: tokens and abstract syntax

    The data types of the front end of core/src/vjs.rs: what the lexer
    produces and what the parser builds, with the source's constructors.
    Byte positions are [nat]. *)

From stdpp Require Import base list strings.
From Stdlib Require Import ZArith Lia Ascii.
From S2P Require Import Prelude Text F64 Json.
Open Scope nat_scope.

(** ** Tokens *)

(** A piece of an f-string: literal text or an embedded [{...}].  The code has
    two such enums, [FPart] over tokens and [FStringPart] over expressions. *)
(** core/src/vjs.rs [FPart] *)
Inductive FPartOf (A : Type) : Type :=
| PLit (s : string)
| PExpr (a : A).
Arguments PLit {A} s.
Arguments PExpr {A} a.

(** core/src/vjs.rs [Tok] *)
Inductive Tok : Type :=
| TIdent (s : string)
| TStr (s : string)
| TFStr (parts : list (FPartOf (list (Tok * nat))))
| TNum (n : f64)
| TTrue | TFalse | TNull
| TIf | TElif | TElse | TEnd | TFor | TIn
| TAnd | TOr | TNot
| TEmit | TInvoke | TSource | TTool | TDriver | TApi | TRespond
| TNewline | TColon | TComma | TDot | TQDot | TQQ
| TLBrace | TRBrace | TLBrack | TRBrack | TLParen | TRParen
| TEq | TEqEq | TNe | TLt | TLe | TGt | TGe
| TPlus | TMinus | TStar | TSlash.

(** A token and the byte position it starts at ([tok], [pos]). *)
(** core/src/vjs.rs [Spanned] *)
Notation Spanned := (Tok * nat)%type.
Notation FPart := (FPartOf (list (Tok * nat))).

(** The constructor of a token: the parser only ever compares a token with one
    that carries no data. *)
Definition tok_tag (t : Tok) : nat :=
  match t with
  | TIdent _ => 0 | TStr _ => 1 | TFStr _ => 2 | TNum _ => 3
  | TTrue => 4 | TFalse => 5 | TNull => 6
  | TIf => 7 | TElif => 8 | TElse => 9 | TEnd => 10 | TFor => 11 | TIn => 12
  | TAnd => 13 | TOr => 14 | TNot => 15
  | TEmit => 16 | TInvoke => 17 | TSource => 18 | TTool => 19 | TDriver => 20 | TApi => 21
  | TRespond => 22
  | TNewline => 23 | TColon => 24 | TComma => 25 | TDot => 26 | TQDot => 27 | TQQ => 28
  | TLBrace => 29 | TRBrace => 30 | TLBrack => 31 | TRBrack => 32 | TLParen => 33 | TRParen => 34
  | TEq => 35 | TEqEq => 36 | TNe => 37 | TLt => 38 | TLe => 39 | TGt => 40 | TGe => 41
  | TPlus => 42 | TMinus => 43 | TStar => 44 | TSlash => 45
  end.

Definition tok_is (t u : Tok) : bool := tok_tag t =? tok_tag u.

(** How many tokens a token counts for, those of its embedded expressions
    included: the measure of the parser's recursion. *)
Fixpoint tok_weight (t : Tok) : nat :=
  match t with
  | TFStr parts =>
    S ((fix go (ps : list (FPartOf (list (Tok * nat)))) : nat :=
          match ps with
          | [] => 0
          | PLit _ :: ps => S (go ps)
          | PExpr l :: ps =>
            S ((fix go2 (l : list (Tok * nat)) : nat :=
                  match l with [] => 0 | (t, _) :: l => tok_weight t + go2 l end) l + go ps)
          end) parts)
  | _ => 1
  end.

Fixpoint toks_weight (l : list Spanned) : nat :=
  match l with [] => 0 | (t, _) :: l => tok_weight t + toks_weight l end.

Fixpoint parts_weight (ps : list FPart) : nat :=
  match ps with
  | [] => 0
  | PLit _ :: ps => S (parts_weight ps)
  | PExpr l :: ps => S (toks_weight l + parts_weight ps)
  end.

Lemma tok_weight_fstr ps : tok_weight (TFStr ps) = S (parts_weight ps).
Proof. reflexivity. Qed.

Lemma tok_weight_pos t : 1 <= tok_weight t.
Proof. destruct t; cbn; lia. Qed.

(** ** Expressions and statements *)

(** core/src/vjs.rs [UnOp] *)
Inductive UnOp : Type := Not | Neg.

(** core/src/vjs.rs [BinOp] *)
Inductive BinOp : Type :=
| Or | And | Coalesce
| OEq | ONe | OLt | OLe | OGt | OGe | In
| Add | Sub | Mul | Div.

(** core/src/vjs.rs [Expr] *)
Inductive Expr : Type :=
| ELit (v : Value)
| EFString (parts : list (FPartOf Expr))
| EVar (name : string)
| EDoc (fields : list (string * Expr))
| EArray (items : list Expr)
| EField (base : Expr) (field : string) (safe : bool)
| EIndex (base key : Expr)
| EProjection (base : Expr)
| EFilter (base cond : Expr)
| ECall (name : string) (args : list Expr)
| EInvoke (name : string) (args : list (string * Expr))
| EUnary (op : UnOp) (e : Expr)
| EBin (op : BinOp) (l r : Expr).

(** core/src/vjs.rs [FStringPart] *)
Notation FStringPart := (FPartOf Expr).

(** core/src/vjs.rs [Stmt] *)
Inductive Stmt : Type :=
| SAssign (path : list string) (e : Expr)
| SIf (arms : list (Expr * (nat * nat) * list Stmt)) (otherwise : option (list Stmt))
| SFor (var : string) (iter : Expr) (body : list Stmt)
| SEmit (subject payload : Expr)
| SRespond (status body : Expr)
| SInvokeMerge (name : string) (args : list (string * Expr)).

(** core/src/vjs.rs [SurfaceEntry] *)
Record SurfaceEntry : Type := {
  se_name : string;
  se_value : Value;
  se_value_span : nat * nat;
  se_entry_spans : list (string * (nat * nat))
}.

(** core/src/vjs.rs:~368 [Program] *)
Record Program : Type := {
  p_source : option string;
  p_tool : option string;
  p_api : option string;
  p_driver : option string;
  p_stmts : list Stmt;
  p_surface : list SurfaceEntry;
  p_emit_subjects : list string;
  p_invokes : list string;
  p_secret_refs : list (string * string)
}.

(** ** Induction principles with hypotheses under the lists *)

Section ExprInd.
Context (P : Expr → Prop).
Definition on_part (p : FStringPart) : Prop := match p with PLit _ => True | PExpr e => P e end.
Context
  (Hlit : ∀ v, P (ELit v))
  (Hfstr : ∀ ps, Forall on_part ps → P (EFString ps))
  (Hvar : ∀ n, P (EVar n))
  (Hdoc : ∀ fs, Forall (λ kv, P (snd kv)) fs → P (EDoc fs))
  (Harr : ∀ l, Forall P l → P (EArray l))
  (Hfield : ∀ b f s, P b → P (EField b f s))
  (Hindex : ∀ a b, P a → P b → P (EIndex a b))
  (Hproj : ∀ b, P b → P (EProjection b))
  (Hfilter : ∀ a b, P a → P b → P (EFilter a b))
  (Hcall : ∀ n l, Forall P l → P (ECall n l))
  (Hinvoke : ∀ n fs, Forall (λ kv, P (snd kv)) fs → P (EInvoke n fs))
  (Hunary : ∀ o e, P e → P (EUnary o e))
  (Hbin : ∀ o a b, P a → P b → P (EBin o a b)).

Fixpoint expr_ind' (e : Expr) : P e :=
  let list_ind :=
    fix go (l : list Expr) : Forall P l :=
      match l with
      | [] => Forall_nil_2 P
      | x :: r => Forall_cons_2 P x r (expr_ind' x) (go r)
      end in
  let fields_ind :=
    fix go (l : list (string * Expr)) : Forall (λ kv, P (snd kv)) l :=
      match l with
      | [] => Forall_nil_2 _
      | x :: r => Forall_cons_2 (λ kv, P (snd kv)) x r (expr_ind' (snd x)) (go r)
      end in
  match e with
  | ELit v => Hlit v
  | EFString ps =>
    Hfstr ps ((fix go (l : list FStringPart) : Forall on_part l :=
       match l with
       | [] => Forall_nil_2 on_part
       | x :: r => Forall_cons_2 on_part x r
                     (match x return on_part x with PLit _ => I | PExpr e => expr_ind' e end) (go r)
       end) ps)
  | EVar n => Hvar n
  | EDoc fs => Hdoc fs (fields_ind fs)
  | EArray l => Harr l (list_ind l)
  | EField b f s => Hfield b f s (expr_ind' b)
  | EIndex a b => Hindex a b (expr_ind' a) (expr_ind' b)
  | EProjection b => Hproj b (expr_ind' b)
  | EFilter a b => Hfilter a b (expr_ind' a) (expr_ind' b)
  | ECall n l => Hcall n l (list_ind l)
  | EInvoke n fs => Hinvoke n fs (fields_ind fs)
  | EUnary o e => Hunary o e (expr_ind' e)
  | EBin o a b => Hbin o a b (expr_ind' a) (expr_ind' b)
  end.
End ExprInd.

Section StmtInd.
Context (P : Stmt → Prop).
Notation arm := (Expr * (nat * nat) * list Stmt)%type.
Context
  (Hassign : ∀ p e, P (SAssign p e))
  (Hif : ∀ arms o, Forall (λ a : arm, Forall P (snd a)) arms →
           match o with Some b => Forall P b | None => True end → P (SIf arms o))
  (Hfor : ∀ v e b, Forall P b → P (SFor v e b))
  (Hemit : ∀ a b, P (SEmit a b))
  (Hrespond : ∀ a b, P (SRespond a b))
  (Hmerge : ∀ n l, P (SInvokeMerge n l)).

Fixpoint stmt_ind' (s : Stmt) : P s :=
  let body_ind :=
    fix go (l : list Stmt) : Forall P l :=
      match l with
      | [] => Forall_nil_2 P
      | x :: r => Forall_cons_2 P x r (stmt_ind' x) (go r)
      end in
  match s with
  | SAssign p e => Hassign p e
  | SIf arms o =>
    Hif arms o
      ((fix go (l : list arm) : Forall (λ a : arm, Forall P (snd a)) l :=
          match l with
          | [] => Forall_nil_2 _
          | x :: r => Forall_cons_2 (λ a : arm, Forall P (snd a)) x r (body_ind (snd x)) (go r)
          end) arms)
      (match o return match o with Some b => Forall P b | None => True end with
       | Some b => body_ind b
       | None => I
       end)
  | SFor v e b => Hfor v e b (body_ind b)
  | SEmit a b => Hemit a b
  | SRespond a b => Hrespond a b
  | SInvokeMerge n l => Hmerge n l
  end.
End StmtInd.

(** A number literal or an arithmetic result as a JSON value: an integer when
    it is one below 9e15. *)
(** core/src/vjs.rs [num] *)
Definition num (n : f64) : Value :=
  if f64_integral n && f64_ltb (f64_abs n) (f64_of_Z (9 * 10 ^ 15))
  then VNumber (NInt (f64_trunc n))
  else match num_from_f64 n with Some k => VNumber k | None => VNull end.

(** Assignments have a target: what the parser builds. *)
Fixpoint stmt_ok (s : Stmt) : bool :=
  match s with
  | SAssign path _ => match path with [] => false | _ => true end
  | SIf arms o =>
    forallb (λ a, match a with (_, _, b) => forallb stmt_ok b end) arms
    && match o with Some b => forallb stmt_ok b | None => true end
  | SFor _ _ b => forallb stmt_ok b
  | _ => true
  end.
