(* ===== verification/Analysis.v ===== *)
(** * VejasScript: static analyses

    What core/src/vjs.rs computes from a program without running it: the
    emit subjects and invoked services it can name ([collect_static]), the
    secret references it mentions ([walk_stmts]), whether it can write to the
    bus ([writes_bus], the gate of unauthenticated API routes), and the
    projection of its guards into rule views ([flow_rules]). *)

From stdpp Require Import base list strings.
From Stdlib Require Import ZArith Lia Ascii.
From S2P Require Import Prelude Text F64 Json Syntax.
Open Scope string_scope.
Open Scope nat_scope.

(** ** Static emit subjects and services *)

(** core/src/vjs.rs [push] *)
Definition push (v : list string) (s : string) : list string :=
  if bool_decide (s ∈ v) then v else v ++ [s].

Section Static.
Context (consts : list (string * string)).

(** The first constant of that name. *)
Fixpoint const_of (l : list (string * string)) (name : string) : option string :=
  match l with
  | [] => None
  | (n, v) :: r => if String.eqb n name then Some v else const_of r name
  end.

(** core/src/vjs.rs [collect_static] *)
Fixpoint collect_stmt (acc : list string * list string) (s : Stmt) : list string * list string :=
  let '(emits, invokes) := acc in
  match s with
  | SEmit subj _ =>
    match subj with
    | ELit (VString s) => (push emits s, invokes)
    | EVar name =>
      match const_of consts name with
      | Some v => (push emits v, invokes)
      | None => acc
      end
    | _ => acc
    end
  | SInvokeMerge name _ => (emits, push invokes name)
  | SAssign _ (EInvoke name _) => (emits, push invokes name)
  | SIf arms otherwise =>
    let acc :=
      fold_left (λ acc a, match a with (_, _, b) => fold_left collect_stmt b acc end) arms acc in
    match otherwise with Some b => fold_left collect_stmt b acc | None => acc end
  | SFor _ _ b => fold_left collect_stmt b acc
  | _ => acc
  end.

Definition collect_static (acc : list string * list string) (l : list Stmt)
  : list string * list string := fold_left collect_stmt l acc.
End Static.

(** ** Secret references *)

Notation secret_ref := (string * string)%type.

(** core/src/vjs.rs [walk_expr] *)
Definition push_ref (entry : secret_ref) (out : list secret_ref) : list secret_ref :=
  if bool_decide (entry ∈ out) then out else out ++ [entry].

(** The context a secret is used in is the name of the statement it is in. *)
(** core/src/vjs.rs [walk_expr] *)
Fixpoint walk_expr (ctx : string) (out : list secret_ref) (e : Expr) : list secret_ref :=
  match e with
  | ECall name args =>
    let out :=
      if String.eqb name "secret" then
        match args with
        | ELit (VString r) :: _ => push_ref (ctx, r) out
        | _ => out
        end
      else out in
    fold_left (walk_expr ctx) args out
  | EFString parts =>
    fold_left (λ out p, match p with PExpr e => walk_expr ctx out e | PLit _ => out end) parts out
  | EDoc fields => fold_left (λ out kv, match kv with (_, e) => walk_expr ctx out e end) fields out
  | EArray items => fold_left (walk_expr ctx) items out
  | EField b _ _ | EProjection b | EUnary _ b => walk_expr ctx out b
  | EIndex a b | EFilter a b | EBin _ a b => walk_expr ctx (walk_expr ctx out a) b
  | EInvoke _ args => fold_left (λ out kv, match kv with (_, e) => walk_expr ctx out e end) args out
  | ELit _ | EVar _ => out
  end.

(** core/src/vjs.rs [walk_stmts] *)
Fixpoint walk_stmt (out : list secret_ref) (s : Stmt) : list secret_ref :=
  match s with
  | SAssign path e => walk_expr (str_join "." path) out e
  | SEmit a b => walk_expr "emit" (walk_expr "emit" out a) b
  | SRespond a b => walk_expr "respond" (walk_expr "respond" out a) b
  | SInvokeMerge _ args => fold_left (λ out kv, walk_expr "invoke" out (snd kv)) args out
  | SIf arms els =>
    let out :=
      fold_left (λ out a, match a with
                          | (c, _, b) => fold_left walk_stmt b (walk_expr "if" out c)
                          end) arms out in
    match els with Some b => fold_left walk_stmt b out | None => out end
  | SFor _ it b => fold_left walk_stmt b (walk_expr "for" out it)
  end.

Definition walk_stmts (out : list secret_ref) (l : list Stmt) : list secret_ref :=
  fold_left walk_stmt l out.

(** ** The write gate *)

(** core/src/vjs.rs [expr_writes_bus] *)
Fixpoint expr_writes_bus (e : Expr) : bool :=
  match e with
  | EInvoke _ _ => true
  | ELit _ | EVar _ => false
  | EFString parts =>
    existsb (λ p, match p with PExpr e => expr_writes_bus e | PLit _ => false end) parts
  | EDoc pairs => existsb (λ kv, match kv with (_, e) => expr_writes_bus e end) pairs
  | EArray es => existsb expr_writes_bus es
  | EField b _ _ => expr_writes_bus b
  | EIndex a b => expr_writes_bus a || expr_writes_bus b
  | EProjection b => expr_writes_bus b
  | EFilter a b => expr_writes_bus a || expr_writes_bus b
  | ECall _ args => existsb expr_writes_bus args
  | EUnary _ b => expr_writes_bus b
  | EBin _ a b => expr_writes_bus a || expr_writes_bus b
  end.

(** core/src/vjs.rs [stmts_write_bus] *)
Fixpoint stmt_writes_bus (s : Stmt) : bool :=
  match s with
  | SEmit _ _ => true
  | SInvokeMerge _ _ => true
  | SAssign _ e => expr_writes_bus e
  | SRespond status body => expr_writes_bus status || expr_writes_bus body
  | SIf arms otherwise =>
    existsb (λ a, match a with
                  | (cond, _, body) => expr_writes_bus cond || existsb stmt_writes_bus body
                  end) arms
    || match otherwise with Some b => existsb stmt_writes_bus b | None => false end
  | SFor _ iter body => expr_writes_bus iter || existsb stmt_writes_bus body
  end.

(** core/src/vjs.rs [stmts_write_bus] *)
Definition stmts_write_bus (l : list Stmt) : bool := existsb stmt_writes_bus l.

(** core/src/vjs.rs [Program::writes_bus] *)
Definition writes_bus (p : Program) : bool := stmts_write_bus (p_stmts p).

(** ** Rule views *)

Section Rules.
Context `{Serde}.

(** core/src/vjs.rs [render_atom] *)
Fixpoint render_atom (e : Expr) : option string :=
  match e with
  | EVar n => Some n
  | ELit (VString s) => Some (dq "'" ++ s ++ dq "'")
  | ELit v => Some (to_json v)
  | EField b name false => s ← render_atom b; Some (s ++ "." ++ name)
  | EIndex b idx =>
    s ← render_atom b; i ← render_atom idx; Some (s ++ "[" ++ i ++ "]")
  | _ => None
  end.

(** core/src/vjs.rs [collect_surface_refs] *)
Fixpoint collect_surface_refs (e : Expr) (surface : list string) (out : list string)
  : list string :=
  match e with
  | EVar n => if bool_decide (n ∈ surface) then push out n else out
  | EField b _ _ => collect_surface_refs b surface out
  | EIndex b i => collect_surface_refs i surface (collect_surface_refs b surface out)
  | _ => out
  end.

(** The symbols of the code are the UTF-8 text of "=", "≠", "<", "≤", ">",
    "≥" and "in". *)
Definition sym_ne : string := String "226" (String "137" (String "160" "")).
Definition sym_le : string := String "226" (String "137" (String "164" "")).
Definition sym_ge : string := String "226" (String "137" (String "165" "")).
Definition arrow : string := String "226" (String "134" (String "146" "")).
Definition ellipsis : string := String "226" (String "128" (String "166" "")).

(** core/src/vjs.rs [cmp_symbol] *)
Definition cmp_symbol (op : BinOp) : option string :=
  match op with
  | OEq => Some "=" | ONe => Some sym_ne | OLt => Some "<" | OLe => Some sym_le
  | OGt => Some ">" | OGe => Some sym_ge | In => Some "in"
  | _ => None
  end.

(** core/src/vjs.rs [render_guard] *)
Definition render_guard (cond : Expr) (surface : list string) : option (string * list string) :=
  match cond with
  | EBin op a b =>
    sym ← cmp_symbol op;
    la ← render_atom a;
    lb ← render_atom b;
    let refs := collect_surface_refs b surface (collect_surface_refs a surface []) in
    Some (la ++ " " ++ sym ++ " " ++ lb, refs)
  | _ => None
  end.

Fixpoint surface_find (l : list SurfaceEntry) (name : string) : option SurfaceEntry :=
  match l with
  | [] => None
  | e :: r => if String.eqb (se_name e) name then Some e else surface_find r name
  end.

(** core/src/vjs.rs [resolve_subject] *)
Definition resolve_subject (subject : Expr) (surface : list SurfaceEntry) : option string :=
  match subject with
  | ELit (VString s) => Some s
  | EVar name => e ← surface_find surface name; as_str (se_value e)
  | _ => None
  end.

(** core/src/vjs.rs [render_action] *)
Fixpoint render_acts (body : list Stmt) (surface : list SurfaceEntry) : option (list string) :=
  match body with
  | [] => Some []
  | SEmit subject _ :: r =>
    s ← resolve_subject subject surface;
    acts ← render_acts r surface;
    Some ((arrow ++ " " ++ s) :: acts)
  | SRespond status _ :: r =>
    acts ← render_acts r surface;
    Some (match status with ELit v => "respond " ++ to_json v | _ => "respond" end :: acts)
  | SAssign _ _ :: r | SInvokeMerge _ _ :: r => render_acts r surface
  | SIf _ _ :: _ | SFor _ _ _ :: _ => None
  end.

(** core/src/vjs.rs [render_action] *)
Definition render_action (body : list Stmt) (surface : list SurfaceEntry) : option (list string) :=
  match render_acts body surface with
  | Some [] => None
  | r => r
  end.

Definition strs (l : list string) : Value := VArray (map VString l).

(** [src.get(a..b).map(trim).unwrap_or("")]: no panic here. *)
Definition raw_slice (src : string) (span : nat * nat) : string :=
  match str_slice src (fst span) (snd span) with Some s => trim s | None => "" end.

(** core/src/vjs.rs:516-526 [flow_rules] *)
Definition arm_rule (src : string) (surface : list SurfaceEntry) (kind : string)
    (arm : Expr * (nat * nat) * list Stmt) : Value :=
  let '(cond, span, body) := arm in
  match render_guard cond (map se_name surface), render_action body surface with
  | Some (when_, literals), Some then_ =>
    obj [("kind", VString kind); ("projectable", VBool true);
         ("when", VString when_); ("then", strs then_); ("literals", strs literals)]
  | _, _ => obj [("kind", VString kind); ("projectable", VBool false);
                 ("raw", VString (raw_slice src span))]
  end.

(** core/src/vjs.rs:528-538 [flow_rules] *)
Definition else_rule (surface : list SurfaceEntry) (body : list Stmt) : Value :=
  match render_action body surface with
  | Some then_ =>
    obj [("kind", VString "else"); ("projectable", VBool true);
         ("when", VNull); ("then", strs then_); ("literals", VArray [])]
  | None => obj [("kind", VString "else"); ("projectable", VBool false); ("raw", VString ellipsis)]
  end.

Definition stmt_rules (src : string) (surface : list SurfaceEntry) (s : Stmt) : list Value :=
  match s with
  | SIf arms otherwise =>
    (imap (λ i arm, arm_rule src surface (if i =? 0 then "if" else "elif") arm) arms
     ++ match otherwise with Some body => [else_rule surface body] | None => [] end)%list
  | _ => []
  end.

(** core/src/vjs.rs [flow_rules] *)
Definition flow_rules (prog : Program) (src : string) (surface : list SurfaceEntry) : list Value :=
  flat_map (stmt_rules src surface) (p_stmts prog).

End Rules.
