(* ===== verification/Lexer.v ===== *)
(** * VejasScript: the lexer

    [lex] of core/src/vjs.rs with its two string lexers.  The state of the
    scan is the rest of the source [s] and the byte offset [i] it starts at;
    where the code slices two bytes to look for a two-character operator, the
    slice panics when it cuts a character, and so does the model. *)

From stdpp Require Import base list strings.
From Stdlib Require Import ZArith Lia Ascii.
From S2P Require Import Prelude Text F64 Json Syntax.
Open Scope string_scope.
Open Scope nat_scope.

(** ** Errors *)

(** What an error of the front end says; its text is presentation. *)
Inductive emsg : Type :=
| BadNumber
| UnexpectedCharacter (b : byte)
| UnterminatedString
| UnterminatedBrace
| UnterminatedFString
| Expected (what : string) (found : Tok)
| ExpectsString (directive : string)
| ExpectedNumber
| NotALiteral
| MissingEnd
| ExpectedServiceName
| ExpectedElifElseEnd
| ExpectedLoopVariable
| ExpectedStatement
| UnexpectedInExpr (t : Tok).

(** "line {line}: {msg}". *)
Record perr : Type := { pe_line : nat; pe_msg : emsg }.

Fixpoint count_newlines (s : string) : nat :=
  match s with
  | "" => 0
  | String b r => (if (bval b =? 10)%N then 1 else 0) + count_newlines r
  end.

(** The slice up to [pos] panics when [pos] is inside a character. *)
(** core/src/vjs.rs [err_at] *)
Definition err_at {A} (pos : nat) (src : string) (msg : emsg) : res perr A :=
  match str_slice src 0 (Nat.min pos (slen src)) with
  | Some p => Err {| pe_line := count_newlines p + 1; pe_msg := msg |}
  | None => Panic
  end.

(** ** Bytes *)

Definition b_quote : byte := "034".
Definition b_bslash : byte := "092".
Definition b_nl : byte := "010".
Definition b_tab : byte := "009".
Definition b_cr : byte := "013".

Fixpoint take_while (f : byte → bool) (s : string) : string * string :=
  match s with
  | String b r =>
    if f b then let '(a, t) := take_while f r in (String b a, t) else ("", s)
  | "" => ("", "")
  end.

Definition is_num_byte (b : byte) : bool := is_ascii_digit (bval b) || Ascii.eqb b ".".
Definition is_word_start (b : byte) : bool :=
  is_ascii_lowercase (bval b) || is_ascii_uppercase (bval b) || Ascii.eqb b "_".
Definition is_word_byte (b : byte) : bool :=
  is_ascii_alphanumeric (bval b) || Ascii.eqb b "_".

(** core/src/vjs.rs:147-169 [lex] *)
Definition keyword (w : string) : Tok :=
  match w with
  | "if" => TIf | "elif" => TElif | "else" => TElse | "end" => TEnd
  | "for" => TFor | "in" => TIn | "and" => TAnd | "or" => TOr | "not" => TNot
  | "emit" => TEmit | "invoke" => TInvoke | "source" => TSource | "tool" => TTool
  | "driver" => TDriver | "api" => TApi | "respond" => TRespond
  | "true" => TTrue | "false" => TFalse | "null" => TNull
  | _ => TIdent w
  end.

(** core/src/vjs.rs:174-181 [lex] *)
Definition two_char_op (two : string) : option Tok :=
  match two with
  | "?." => Some TQDot | "??" => Some TQQ | "==" => Some TEqEq
  | "!=" => Some TNe | "<=" => Some TLe | ">=" => Some TGe
  | _ => None
  end.

(** core/src/vjs.rs:182-198 [lex] *)
Definition one_char_op (c : byte) : option Tok :=
  match c with
  | ":"%char => Some TColon | ","%char => Some TComma | "."%char => Some TDot
  | "{"%char => Some TLBrace | "}"%char => Some TRBrace
  | "["%char => Some TLBrack | "]"%char => Some TRBrack
  | "("%char => Some TLParen | ")"%char => Some TRParen
  | "="%char => Some TEq | "<"%char => Some TLt | ">"%char => Some TGt
  | "+"%char => Some TPlus | "-"%char => Some TMinus
  | "*"%char => Some TStar | "/"%char => Some TSlash
  | _ => None
  end.

(** [&src[i..i + 2]] when two bytes are left, the empty string otherwise; the
    slice panics unless both ends are character boundaries. *)
(** core/src/vjs.rs:173-173 [lex] *)
Definition two_bytes (s : string) : option string :=
  match s with
  | String a (String b r) => str_slice (String a (String b r)) 0 2
  | _ => Some ""
  end.

(** ** String literals *)

(** core/src/vjs.rs:218-222 [lex_string] *)
Definition escape (b : byte) : byte :=
  match b with
  | "n"%char => b_nl
  | "t"%char => b_tab
  | other => other
  end.

(** The bytes of a literal from after its opening quote, the rest of the
    source, and how many bytes were read, the closing quote included. *)
(** core/src/vjs.rs:211-230 [lex_string] *)
Fixpoint string_body (s : string) : option (string * string * nat) :=
  match s with
  | "" => None
  | String b r =>
    if Ascii.eqb b b_quote then Some ("", r, 1)
    else
      match r with
      | String c r2 =>
        if Ascii.eqb b b_bslash then
          '(v, t, n) ← string_body r2; Some (String (escape c) v, t, n + 2)
        else '(v, t, n) ← string_body r; Some (String b v, t, n + 1)
      | "" => None
      end
  end.

(** [s] starts at the opening quote, byte [start] of [src]. *)
(** core/src/vjs.rs [lex_string] *)
Definition lex_string (src s : string) (start : nat) : res perr (string * string * nat) :=
  match string_body (sdrop 1 s) with
  | Some (v, r, n) => Ok (from_utf8_lossy v, r, start + 1 + n)
  | None => err_at start src UnterminatedString
  end.

(** ** F-strings *)

(** The text up to the brace that closes an opened one, and what follows it. *)
(** core/src/vjs.rs:262-273 [lex_fstring] *)
Fixpoint scan_braces (s : string) (depth : nat) : option (string * string) :=
  match s with
  | "" => None
  | String b r =>
    if Ascii.eqb b "{" then
      '(a, t) ← scan_braces r (S depth); Some (String b a, t)
    else if Ascii.eqb b "}" then
      match depth with
      | O | S O => Some ("", r)
      | S d => '(a, t) ← scan_braces r d; Some (String b a, t)
      end
    else '(a, t) ← scan_braces r depth; Some (String b a, t)
  end.

(** core/src/vjs.rs:238-243 [lex_fstring] *)
Definition flush (lit : string) (parts : list FPart) : list FPart :=
  match lit with "" => parts | _ => PLit (from_utf8_lossy lit) :: parts end.

(** ** The lexer *)

(** core/src/vjs.rs [lex] *)
Fixpoint lex_fuel (n : nat) (src s : string) (i : nat) : res perr (list Spanned) :=
  match n with
  | O => NoFuel
  | S n =>
    match s with
    | "" => Ok [(TNewline, i)]
    | String c r =>
      if Ascii.eqb c " " || Ascii.eqb c b_tab || Ascii.eqb c b_cr then lex_fuel n src r (i + 1)
      else if Ascii.eqb c b_nl then
        out ← lex_fuel n src r (i + 1); Ok ((TNewline, i) :: out)
      else if Ascii.eqb c "#" then
        let '(a, t) := take_while (λ b, negb (Ascii.eqb b b_nl)) s in
        lex_fuel n src t (i + slen a)
      else if Ascii.eqb c b_quote then
        '(v, t, ni) ← lex_string src s i;
        out ← lex_fuel n src t ni; Ok ((TStr v, i) :: out)
      else if Ascii.eqb c "f" && starts_with r (String b_quote "") then
        '(parts, t, ni) ← fstring_fuel n src (i + 1) (sdrop 1 r) (i + 2) "";
        out ← lex_fuel n src t ni; Ok ((TFStr parts, i) :: out)
      else if is_ascii_digit (bval c) then
        let '(a, t) := take_while is_num_byte s in
        match parse_f64 a with
        | None => err_at i src BadNumber
        | Some f => out ← lex_fuel n src t (i + slen a); Ok ((TNum f, i) :: out)
        end
      else if is_word_start c then
        let '(a, t) := take_while is_word_byte s in
        out ← lex_fuel n src t (i + slen a); Ok ((keyword a, i) :: out)
      else
        match two_bytes s with
        | None => Panic
        | Some two =>
          match two_char_op two with
          | Some t => out ← lex_fuel n src (sdrop 2 s) (i + 2); Ok ((t, i) :: out)
          | None =>
            match one_char_op c with
            | Some t => out ← lex_fuel n src r (i + 1); Ok ((t, i) :: out)
            | None => err_at i src (UnexpectedCharacter c)
            end
          end
        end
    end
  end

(** From inside an f-string whose quote is at byte [quote]: [s] is at byte [i],
    [lit] the literal text not flushed yet. *)
(** core/src/vjs.rs [lex_fstring] *)
with fstring_fuel (n : nat) (src : string) (quote : nat) (s : string) (i : nat) (lit : string)
  : res perr (list FPart * string * nat) :=
  match n with
  | O => NoFuel
  | S n =>
    match s with
    | "" => err_at quote src UnterminatedFString
    | String b r =>
      if Ascii.eqb b b_quote then Ok (flush lit [], r, i + 1)
      else if Ascii.eqb b "{" && starts_with r "{" then
        fstring_fuel n src quote (sdrop 1 r) (i + 2) (lit ++ "{")
      else if Ascii.eqb b "}" && starts_with r "}" then
        fstring_fuel n src quote (sdrop 1 r) (i + 2) (lit ++ "}")
      else if Ascii.eqb b "{" then
        match scan_braces r 1 with
        | None => err_at i src UnterminatedBrace
        | Some (inner, t) =>
          toks ← lex_fuel n inner inner 0;
          '(parts, t', ni) ← fstring_fuel n src quote t (i + slen inner + 2) "";
          Ok (flush lit (PExpr toks :: parts), t', ni)
        end
      else
        match r with
        | String c r2 =>
          if Ascii.eqb b b_bslash
          then fstring_fuel n src quote r2 (i + 2) (lit ++ String (escape c) "")
          else fstring_fuel n src quote r (i + 1) (lit ++ String b "")
        | "" => fstring_fuel n src quote r (i + 1) (lit ++ String b "")
        end
    end
  end.

(** Every call reads a byte at least, so the length of the source is fuel
    enough ([lex_total]). *)
(** core/src/vjs.rs [lex] *)
Definition lex (src : string) : res perr (list Spanned) := lex_fuel (S (slen src)) src src 0.

(** ** Examples *)

Example lex_assign :
  lex "x = a?.b" = Ok [(TIdent "x", 0); (TEq, 2); (TIdent "a", 4); (TQDot, 5); (TIdent "b", 7);
                       (TNewline, 8)].
Proof. vm_compute. reflexivity. Qed.

Example lex_fstr :
  lex (dq "f'a{x}b{{'") = Ok [(TFStr [PLit "a"; PExpr [(TIdent "x", 0); (TNewline, 1)]; PLit "b{"], 0);
                           (TNewline, 10)].
Proof. vm_compute. reflexivity. Qed.

(** ** Termination *)

Lemma take_while_app f s a t : take_while f s = (a, t) → s = a ++ t.
Proof.
  revert a t; induction s as [|b s IH]; intros a t; cbn; [naive_solver|].
  destruct (f b); [|naive_solver].
  destruct (take_while f s) as [a' t'] eqn:E. intros [= <- <-]. cbn. by rewrite <- IH.
Qed.

Lemma take_while_head f b s a t :
  take_while f (String b s) = (a, t) → f b = true → 1 <= slen a.
Proof.
  cbn. intros H Hf. rewrite Hf in H. destruct (take_while f s). simplify_eq/=. lia.
Qed.

Lemma err_at_fuel {A} pos src m : @err_at A pos src m ≠ NoFuel.
Proof. unfold err_at. by case_match. Qed.

Lemma string_body_length n s v t k :
  slen s <= n → string_body s = Some (v, t, k) → slen t + k = slen s.
Proof.
  revert s v t k; induction n as [|n IH]; intros [|b s] v t k Hn H; cbn in *; simplify_eq; [lia|].
  destruct (Ascii.eqb b b_quote); [simplify_eq/=; lia|].
  destruct s as [|c s]; [done|]. destruct (Ascii.eqb b b_bslash).
  - destruct (string_body s) as [[[v' t'] k']|] eqn:E; [|done]. injection H as <- <- <-.
    apply IH in E; cbn in *; lia.
  - fold (string_body (String c s)) in H.
    destruct (string_body (String c s)) as [[[v' t'] k']|] eqn:E; [|done].
    injection H as <- <- <-. apply IH in E; cbn [String.length] in *; lia.
Qed.

Lemma lex_string_length src s start v t ni :
  lex_string src s start = Ok (v, t, ni) → s ≠ "" →
  start < ni ∧ ni + slen t = start + slen s.
Proof.
  unfold lex_string. destruct s as [|q s]; [done|]. cbn [sdrop].
  destruct (string_body s) as [[[v' t'] k]|] eqn:E; [|by unfold err_at; case_match].
  intros [= <- <- <-] _. apply (string_body_length (slen s)) in E; [|done]. cbn. lia.
Qed.

Lemma lex_string_fuel src s start : lex_string src s start ≠ NoFuel.
Proof.
  unfold lex_string. destruct (string_body _) as [[[v t] k]|]; [done|apply err_at_fuel].
Qed.

Lemma scan_braces_length s d a t : scan_braces s d = Some (a, t) → slen a + slen t + 1 = slen s.
Proof.
  revert d a t; induction s as [|b s IH]; intros d a t H; cbn in H; [done|].
  repeat case_match; simplify_eq/=; try lia.
  all: match goal with
       | E : scan_braces _ _ ≫= _ = Some _ |- _ => apply bind_Some in E as ([a' t'] & E & ?)
       end; simplify_eq/=; apply IH in H; lia.
Qed.

(** Tokens in source order, each starting after the one before. *)
Fixpoint positions_from (lo : nat) (l : list Spanned) : Prop :=
  match l with [] => True | (_, p) :: r => lo <= p ∧ positions_from (S p) r end.

Lemma positions_from_mono lo lo' l : lo' <= lo → positions_from lo l → positions_from lo' l.
Proof. destruct l as [|[t p] l]; cbn; [done|]. intros ? []. split; [lia|done]. Qed.

(** What a scan from byte [i] with [k] bytes left must produce. *)
Definition scanned (i k : nat) (out : list Spanned) : Prop :=
  positions_from i out ∧ last out = Some (TNewline, i + k).

Lemma scanned_cons t i j k k' out :
  i < j → i + k = j + k' → scanned j k' out → scanned i k ((t, i) :: out).
Proof.
  intros H1 H2 [Hp Hl]. split.
  - cbn. split; [done|]. eapply positions_from_mono; [|done]. lia.
  - rewrite H2, <- Hl. destruct out; [done|reflexivity].
Qed.

Lemma scanned_skip i j k k' out :
  i <= j → i + k = j + k' → scanned j k' out → scanned i k out.
Proof.
  intros H1 H2 [Hp Hl]. split; [by eapply positions_from_mono|by rewrite H2].
Qed.

Lemma yields_err_at {A} pos src m (Q : A → Prop) : yields (err_at pos src m) Q.
Proof. unfold err_at. by case_match. Qed.

Lemma take_while_yields f c r a t :
  take_while f (String c r) = (a, t) → f c = true →
  1 <= slen a ∧ slen a + slen t = S (slen r).
Proof.
  intros E Hf. split; [by eapply take_while_head|].
  apply take_while_app in E. rewrite <- slen_app, <- E. done.
Qed.

(** Both scanners consume what they read: the lexer yields the tokens of the
    rest of the source, an f-string ends past its closing quote. *)
Definition lexes (n : nat) : Prop :=
  ∀ src s i, slen s < n → yields (lex_fuel n src s i) (scanned i (slen s)).
Definition fstrings (n : nat) : Prop :=
  ∀ src q s i lit, slen s < n →
    yields (fstring_fuel n src q s i lit)
           (λ '(ps, t, ni), ni + slen t = i + slen s ∧ slen t < slen s).

Ltac push IH :=
  eapply yields_bind; [apply IH; cbn in *; lia|]; intros;
  eapply scanned_cons; [..|eassumption]; cbn in *; lia.
Ltac skip IH :=
  eapply yields_mono; [apply IH; cbn in *; lia|]; intros;
  eapply scanned_skip; [..|eassumption]; cbn in *; lia.

Lemma two_char_op_shape s two t :
  two_bytes s = Some two → two_char_op two = Some t → 2 <= slen s.
Proof.
  destruct s as [|a [|b r]]; cbn; try (intros [= <-]; done). lia.
Qed.

Lemma lexes_S n : lexes n → fstrings n → lexes (S n).
Proof.
  intros IHl IHf src s i Hn. destruct s as [|c r]; cbn -[take_while two_bytes lex_string starts_with sdrop].
  { unfold scanned. cbn. split; [lia|]. by rewrite ?Nat.add_0_r. }
  cbn in Hn.
  destruct (_ || _) eqn:Ews; [skip IHl|]. clear Ews.
  destruct (Ascii.eqb c b_nl) eqn:Enl; [push IHl|].
  destruct (Ascii.eqb c "#").
  { destruct (take_while _ _) as [a t] eqn:E.
    apply take_while_yields in E; [|by rewrite Enl]. skip IHl. }
  destruct (Ascii.eqb c b_quote).
  { destruct (lex_string src (String c r) i) as [[[v t] ni]|e| |] eqn:E; cbn; try done.
    - apply lex_string_length in E; [|done]. push IHl.
    - by apply lex_string_fuel in E. }
  destruct (_ && _) eqn:Ef.
  { apply andb_true_iff in Ef as [_ Ef]. destruct r as [|q r]; [done|]. cbn in Hn.
    eapply yields_bind; [apply IHf; cbn; lia|]. intros [[ps t] ni] [H1 H2].
    cbn in H1, H2. push IHl. }
  destruct (is_ascii_digit (bval c)) eqn:Ed.
  { destruct (take_while _ _) as [a t] eqn:E.
    apply take_while_yields in E; [|unfold is_num_byte; by rewrite Ed].
    case_match; [push IHl|apply yields_err_at]. }
  destruct (is_word_start c) eqn:Ew.
  { destruct (take_while _ _) as [a t] eqn:E. apply take_while_yields in E.
    - push IHl.
    - unfold is_word_start, is_word_byte, is_ascii_alphanumeric in *.
      destruct (is_ascii_digit _), (is_ascii_lowercase _), (is_ascii_uppercase _); done. }
  destruct (two_bytes _) as [two|] eqn:E2; [|done].
  destruct (two_char_op two) as [t|] eqn:Et.
  { pose proof (two_char_op_shape _ _ _ E2 Et) as H2. destruct r as [|d r]; cbn in H2; [lia|].
    push IHl. }
  destruct (one_char_op c); [push IHl|apply yields_err_at].
Qed.

Lemma fstrings_S n : lexes n → fstrings n → fstrings (S n).
Proof.
  intros IHl IHf src q s i lit Hn. destruct s as [|b r]; cbn; [apply yields_err_at|]. cbn in Hn.
  assert (∀ t j lit, slen t < S (slen r) → j + slen t = i + S (slen r) →
    yields (fstring_fuel n src q t j lit)
           (λ '(ps, t, ni), ni + slen t = i + S (slen r) ∧ slen t < S (slen r))) as Hgo.
  { intros t j l ? ?. eapply yields_mono; [apply IHf; lia|].
    intros [[ps t'] ni] []. lia. }
  destruct (Ascii.eqb b b_quote); [cbn; lia|].
  destruct (Ascii.eqb b "{" && starts_with r "{") eqn:E1.
  { destruct r; [by rewrite andb_false_r in E1|]. apply Hgo; cbn; lia. }
  destruct (Ascii.eqb b "}" && starts_with r "}") eqn:E2.
  { destruct r; [by rewrite andb_false_r in E2|]. apply Hgo; cbn; lia. }
  destruct (Ascii.eqb b "{").
  { destruct (scan_braces r 1) as [[inner t]|] eqn:E; [|apply yields_err_at].
    apply scan_braces_length in E.
    eapply yields_bind; [apply IHl; lia|]. intros toks _.
    eapply yields_bind; [apply Hgo; lia|]. intros [[ps t'] ni] []. cbn. lia. }
  destruct r as [|c r2]; [apply Hgo; cbn; lia|].
  destruct (Ascii.eqb b b_bslash); apply Hgo; cbn; lia.
Qed.

Lemma lex_fuel_yields n : lexes n ∧ fstrings n.
Proof.
  induction n as [|n [IHl IHf]]; [split; intros ?; intros; lia|].
  split; [by apply lexes_S|by apply fstrings_S].
Qed.

Lemma lex_yields src : yields (lex src) (scanned 0 (slen src)).
Proof. apply lex_fuel_yields. lia. Qed.

Lemma lex_nonempty src toks : lex src = Ok toks → toks ≠ [].
Proof. intros H. pose proof (yields_Ok _ _ _ (lex_yields src) H) as [_ Hl]. by intros ->. Qed.
