(* ===== verification/Parser.v ===== *)
(** * VejasScript: the parser

    The [Parser] of core/src/vjs.rs.  Its state [(toks, i)] is the list of the
    tokens from index [i] on: every index past the end behaves as the empty
    list (a [Newline] is peeked, the position is the last token's).  The
    recursive functions run on fuel; [expr_fuel_for] and the like give each
    entry point fuel enough for its tokens ([expr_yields], [stmt_yields],
    [literal_yields], [program_yields]). *)

From stdpp Require Import base list strings.
From Stdlib Require Import ZArith Lia Ascii.
From S2P Require Import Prelude Text F64 Json Syntax Analysis Lexer.
Open Scope string_scope.
Open Scope nat_scope.

Notation toks := (list Spanned).

(** ** The token cursor *)

(** What does not change while a parser runs: the source its errors quote and
    the position past the end, that of the last token. *)
(** core/src/vjs.rs [Parser] *)
Record penv : Type := { pe_src : string; pe_end : nat }.

Definition last_pos (l : toks) : nat := match last l with Some (_, p) => p | None => 0 end.

(** core/src/vjs.rs [peek] *)
Definition peek (ts : toks) : Tok := match ts with (t, _) :: _ => t | [] => TNewline end.

(** core/src/vjs.rs [peek2] *)
Definition peek2 (ts : toks) : option Tok :=
  match ts with _ :: (t, _) :: _ => Some t | _ => None end.

(** core/src/vjs.rs [pos] *)
Definition pos (env : penv) (ts : toks) : nat :=
  match ts with (_, p) :: _ => p | [] => pe_end env end.

(** core/src/vjs.rs [next] *)
Definition next (ts : toks) : Tok * toks :=
  match ts with (t, _) :: r => (t, r) | [] => (TNewline, []) end.

(** core/src/vjs.rs [err] *)
Definition perror {A} (env : penv) (ts : toks) (m : emsg) : res perr A :=
  err_at (pos env ts) (pe_src env) m.

(** core/src/vjs.rs [eat] *)
Definition eat (env : penv) (t : Tok) (what : string) (ts : toks) : res perr toks :=
  if tok_is (peek ts) t then Ok (snd (next ts))
  else perror env ts (Expected what (peek ts)).

(** core/src/vjs.rs [skip_newlines] *)
Fixpoint skip_newlines (ts : toks) : toks :=
  match ts with
  | (TNewline, _) :: r => skip_newlines r
  | _ => ts
  end.

(** core/src/vjs.rs:593-616 [word] *)
Definition word_of (t : Tok) : option string :=
  match t with
  | TIdent s | TStr s => Some s
  | TIf => Some "if" | TElif => Some "elif" | TElse => Some "else" | TEnd => Some "end"
  | TFor => Some "for" | TIn => Some "in" | TAnd => Some "and" | TOr => Some "or"
  | TNot => Some "not" | TEmit => Some "emit" | TInvoke => Some "invoke"
  | TSource => Some "source" | TTool => Some "tool" | TDriver => Some "driver"
  | TApi => Some "api" | TRespond => Some "respond"
  | TTrue => Some "true" | TFalse => Some "false" | TNull => Some "null"
  | _ => None
  end.

(** core/src/vjs.rs [word] *)
Definition word (env : penv) (what : string) (ts : toks) : res perr (string * toks) :=
  match word_of (peek ts) with
  | Some w => Ok (w, snd (next ts))
  | None => perror env ts (Expected what (peek ts))
  end.

(** core/src/vjs.rs [at_end] *)
Definition at_end (ts : toks) : bool := length ts <=? 1.

(** A comma, optional between items. *)
Definition skip_comma (ts : toks) : toks :=
  if tok_is (peek ts) TComma then snd (next ts) else ts.
(** A comma and the newlines around it. *)
Definition skip_sep (ts : toks) : toks :=
  let ts := skip_newlines ts in
  if tok_is (peek ts) TComma then skip_newlines (snd (next ts)) else ts.

(** ** Expressions *)

(** core/src/vjs.rs:1152-1168 [expr] *)
Definition binop_of (t : Tok) : option (BinOp * nat) :=
  match t with
  | TOr => Some (Or, 1) | TAnd => Some (And, 2) | TQQ => Some (Coalesce, 3)
  | TEqEq => Some (OEq, 4) | TNe => Some (ONe, 4) | TLt => Some (OLt, 4)
  | TLe => Some (OLe, 4) | TGt => Some (OGt, 4) | TGe => Some (OGe, 4) | TIn => Some (In, 4)
  | TPlus => Some (Add, 5) | TMinus => Some (Sub, 5)
  | TStar => Some (Mul, 6) | TSlash => Some (Div, 6)
  | _ => None
  end.

(** A bracketed comparison, conjunction or negation is a filter, anything
    else an index. *)
(** core/src/vjs.rs:1124-1139 [expr] *)
Definition is_filter (inner : Expr) : bool :=
  match inner with
  | EBin (OEq | ONe | OLt | OLe | OGt | OGe | In | And | Or) _ _ => true
  | EUnary Not _ => true
  | _ => false
  end.

(** The optional [:service] of a qualified reference. *)
(** core/src/vjs.rs:907-915 [invoke_args] *)
Definition qualified (name : string) (ts : toks) : string * toks :=
  if tok_is (peek ts) TColon then
    match peek2 ts with
    | Some (TIdent svc) => (name ++ ":" ++ svc, snd (next (snd (next ts))))
    | _ => (name, ts)
    end
  else (name, ts).

(** core/src/vjs.rs:1017-1177 [expr] *)
Fixpoint expr_fuel (n : nat) (env : penv) (min_bp : nat) (ts : toks) : res perr (Expr * toks) :=
  match n with
  | O => NoFuel
  | S n =>
    '(lhs, ts) ← primary_fuel n env ts;
    '(lhs, ts) ← postfix_fuel n env lhs ts;
    binary_fuel n env min_bp lhs ts
  end

(** core/src/vjs.rs:1018-1102 [expr] *)
with primary_fuel (n : nat) (env : penv) (ts : toks) : res perr (Expr * toks) :=
  match n with
  | O => NoFuel
  | S n =>
    let '(t, ts) := next ts in
    match t with
    | TNum x => Ok (ELit (num x), ts)
    | TStr s => Ok (ELit (VString s), ts)
    | TTrue => Ok (ELit (VBool true), ts)
    | TFalse => Ok (ELit (VBool false), ts)
    | TNull => Ok (ELit VNull, ts)
    | TFStr parts => out ← fparts_fuel n env parts; Ok (EFString out, ts)
    | TNot => '(e, ts) ← expr_fuel n env 9 ts; Ok (EUnary Not e, ts)
    | TMinus => '(e, ts) ← expr_fuel n env 9 ts; Ok (EUnary Neg e, ts)
    | TSource => Ok (EVar "source", ts)
    | TTool => Ok (EVar "tool", ts)
    | TDriver => Ok (EVar "driver", ts)
    | TApi => Ok (EVar "api", ts)
    | TInvoke =>
      '(name, args, ts) ← invoke_args_fuel n env ts; Ok (EInvoke name args, ts)
    | TLParen =>
      '(e, ts) ← expr_fuel n env 0 ts;
      ts ← eat env TRParen ")" ts;
      Ok (e, ts)
    | TLBrack =>
      '(items, ts) ← items_fuel n env (skip_newlines ts); Ok (EArray items, ts)
    | TLBrace =>
      '(fields, ts) ← fields_fuel n env (skip_newlines ts); Ok (EDoc fields, ts)
    | TIdent name =>
      if tok_is (peek ts) TLParen then
        '(args, ts) ← call_args_fuel n env (snd (next ts)); Ok (ECall name args, ts)
      else Ok (EVar name, ts)
    | other => perror env ts (UnexpectedInExpr other)
    end
  end

(** core/src/vjs.rs:1024-1036 [expr] *)
with fparts_fuel (n : nat) (env : penv) (parts : list FPart) : res perr (list FStringPart) :=
  match n with
  | O => NoFuel
  | S n =>
    match parts with
    | [] => Ok []
    | PLit s :: r => out ← fparts_fuel n env r; Ok (PLit s :: out)
    | PExpr l :: r =>
      '(e, _) ← expr_fuel n {| pe_src := pe_src env; pe_end := last_pos l |} 0 l;
      out ← fparts_fuel n env r;
      Ok (PExpr e :: out)
    end
  end

(** core/src/vjs.rs:1055-1068 [expr] *)
with items_fuel (n : nat) (env : penv) (ts : toks) : res perr (list Expr * toks) :=
  match n with
  | O => NoFuel
  | S n =>
    if tok_is (peek ts) TRBrack then Ok ([], snd (next ts))
    else
      '(e, ts) ← expr_fuel n env 0 ts;
      '(es, ts) ← items_fuel n env (skip_sep ts);
      Ok (e :: es, ts)
  end

(** core/src/vjs.rs:1069-1084 [expr] *)
with fields_fuel (n : nat) (env : penv) (ts : toks) : res perr (list (string * Expr) * toks) :=
  match n with
  | O => NoFuel
  | S n =>
    if tok_is (peek ts) TRBrace then Ok ([], snd (next ts))
    else
      '(key, ts) ← word env "key" ts;
      ts ← eat env TColon ":" ts;
      '(e, ts) ← expr_fuel n env 0 ts;
      '(fs, ts) ← fields_fuel n env (skip_sep ts);
      Ok ((key, e) :: fs, ts)
  end

(** core/src/vjs.rs:1085-1100 [expr] *)
with call_args_fuel (n : nat) (env : penv) (ts : toks) : res perr (list Expr * toks) :=
  match n with
  | O => NoFuel
  | S n =>
    if tok_is (peek ts) TRParen then Ok ([], snd (next ts))
    else
      '(e, ts) ← expr_fuel n env 0 ts;
      '(es, ts) ← call_args_fuel n env (skip_comma ts);
      Ok (e :: es, ts)
  end

(** core/src/vjs.rs [invoke_args] *)
with invoke_args_fuel (n : nat) (env : penv) (ts : toks)
  : res perr (string * list (string * Expr) * toks) :=
  match n with
  | O => NoFuel
  | S n =>
    match next ts with
    | (TIdent name, ts) =>
      let '(name, ts) := qualified name ts in
      ts ← eat env TLParen "(" ts;
      '(args, ts) ← named_args_fuel n env ts;
      Ok (name, args, ts)
    | (_, ts) => perror env ts ExpectedServiceName
    end
  end

(** core/src/vjs.rs:917-927 [invoke_args] *)
with named_args_fuel (n : nat) (env : penv) (ts : toks)
  : res perr (list (string * Expr) * toks) :=
  match n with
  | O => NoFuel
  | S n =>
    if tok_is (peek ts) TRParen then Ok ([], snd (next ts))
    else
      '(key, ts) ← word env "argument name" ts;
      ts ← eat env TColon ":" ts;
      '(e, ts) ← expr_fuel n env 0 ts;
      '(es, ts) ← named_args_fuel n env (skip_comma ts);
      Ok ((key, e) :: es, ts)
  end

(** core/src/vjs.rs:1104-1149 [expr] *)
with postfix_fuel (n : nat) (env : penv) (lhs : Expr) (ts : toks) : res perr (Expr * toks) :=
  match n with
  | O => NoFuel
  | S n =>
    match peek ts with
    | TDot =>
      '(f, ts) ← word env "field name" (snd (next ts));
      postfix_fuel n env (EField lhs f false) ts
    | TQDot =>
      '(f, ts) ← word env "field name" (snd (next ts));
      postfix_fuel n env (EField lhs f true) ts
    | TLBrack =>
      let ts := snd (next ts) in
      if tok_is (peek ts) TRBrack then postfix_fuel n env (EProjection lhs) (snd (next ts))
      else
        '(inner, ts) ← expr_fuel n env 0 ts;
        ts ← eat env TRBrack "]" ts;
        postfix_fuel n env (if is_filter inner then EFilter lhs inner else EIndex lhs inner) ts
    | _ => Ok (lhs, ts)
    end
  end

(** core/src/vjs.rs:1151-1176 [expr] *)
with binary_fuel (n : nat) (env : penv) (min_bp : nat) (lhs : Expr) (ts : toks)
  : res perr (Expr * toks) :=
  match n with
  | O => NoFuel
  | S n =>
    match binop_of (peek ts) with
    | None => Ok (lhs, ts)
    | Some (op, bp) =>
      if bp <=? min_bp then Ok (lhs, ts)
      else
        '(rhs, ts) ← expr_fuel n env bp (snd (next ts));
        binary_fuel n env min_bp (EBin op lhs rhs) ts
    end
  end.

Definition expr_fuel_for (ts : toks) : nat := 3 * toks_weight ts + 3.

(** core/src/vjs.rs [expr] *)
Definition expr (env : penv) (min_bp : nat) (ts : toks) : res perr (Expr * toks) :=
  expr_fuel (expr_fuel_for ts) env min_bp ts.

(** core/src/vjs.rs [invoke_args] *)
Definition invoke_args (env : penv) (ts : toks) : res perr (string * list (string * Expr) * toks) :=
  invoke_args_fuel (expr_fuel_for ts) env ts.

(** ** Literals *)

Notation span := (nat * nat)%type.

(** The value, the spans of the entries of a document, and the position of
    the token that follows. *)
(** core/src/vjs.rs [literal_value] *)
Fixpoint literal_fuel (n : nat) (env : penv) (ts : toks)
  : res perr (Value * list (string * span) * nat * toks) :=
  match n with
  | O => NoFuel
  | S n =>
    let '(t, ts) := next ts in
    match t with
    | TStr s => Ok (VString s, [], pos env ts, ts)
    | TNum x => Ok (num x, [], pos env ts, ts)
    | TTrue => Ok (VBool true, [], pos env ts, ts)
    | TFalse => Ok (VBool false, [], pos env ts, ts)
    | TNull => Ok (VNull, [], pos env ts, ts)
    | TMinus =>
      match next ts with
      | (TNum x, ts) => Ok (num (f64_neg x), [], pos env ts, ts)
      | (_, ts) => perror env ts ExpectedNumber
      end
    | TLBrack =>
      '(items, ts) ← literal_items_fuel n env (skip_newlines ts);
      Ok (VArray items, [], pos env ts, ts)
    | TLBrace =>
      '(map, spans, ts) ← literal_fields_fuel n env [] [] (skip_newlines ts);
      Ok (VObject map, spans, pos env ts, ts)
    | _ => perror env ts NotALiteral
    end
  end

(** core/src/vjs.rs:844-858 [literal_value] *)
with literal_items_fuel (n : nat) (env : penv) (ts : toks) : res perr (list Value * toks) :=
  match n with
  | O => NoFuel
  | S n =>
    if tok_is (peek ts) TRBrack then Ok ([], snd (next ts))
    else
      '(v, _, _, ts) ← literal_fuel n env ts;
      '(vs, ts) ← literal_items_fuel n env (skip_sep ts);
      Ok (v :: vs, ts)
  end

(** core/src/vjs.rs:859-881 [literal_value] *)
with literal_fields_fuel (n : nat) (env : penv) (map : smap Value) (spans : list (string * span))
    (ts : toks) : res perr (smap Value * list (string * span) * toks) :=
  match n with
  | O => NoFuel
  | S n =>
    if tok_is (peek ts) TRBrace then Ok (map, spans, snd (next ts))
    else
      '(key, ts) ← word env "key" ts;
      ts ← eat env TColon ":" ts;
      let vstart := pos env ts in
      '(v, _, vend, ts) ← literal_fuel n env ts;
      literal_fields_fuel n env (map_insert key v map)
        (spans ++ [(key, (vstart, vend))])%list (skip_sep ts)
  end.

(** core/src/vjs.rs [literal_value] *)
Definition literal_value (env : penv) (ts : toks)
  : res perr (Value * list (string * span) * nat * toks) :=
  literal_fuel (2 * toks_weight ts + 2) env ts.

(** A literal that ends its line; the cursor goes back where it was
    otherwise. *)
(** core/src/vjs.rs [try_literal] *)
Definition try_literal (env : penv) (ts : toks)
  : res perr (option (Value * list (string * span) * nat) * toks) :=
  match literal_value env ts with
  | Ok (v, spans, end_, ts') =>
    if tok_is (peek ts') TNewline then Ok (Some (v, spans, end_), ts') else Ok (None, ts)
  | Err _ => Ok (None, ts)
  | Panic => Panic
  | NoFuel => NoFuel
  end.

(** ** Statements *)

Notation arm := (Expr * span * list Stmt)%type.

(** [.field] segments of an assignment's target. *)
(** core/src/vjs.rs:999-1003 [stmt] *)
Fixpoint path_fuel (n : nat) (env : penv) (ts : toks) : res perr (list string * toks) :=
  match n with
  | O => NoFuel
  | S n =>
    if tok_is (peek ts) TDot then
      '(w, ts) ← word env "field name" (snd (next ts));
      '(ws, ts) ← path_fuel n env ts;
      Ok (w :: ws, ts)
    else Ok ([], ts)
  end.

(** core/src/vjs.rs:997-1012 [stmt] *)
Definition assign_stmt (env : penv) (first : string) (ts : toks) : res perr (Stmt * toks) :=
  '(rest, ts) ← path_fuel (S (toks_weight ts)) env ts;
  ts ← eat env TEq "=" ts;
  if tok_is (peek ts) TInvoke then
    '(name, args, ts) ← invoke_args env (snd (next ts));
    Ok (SAssign (first :: rest) (EInvoke name args), ts)
  else
    '(value, ts) ← expr env 0 ts;
    Ok (SAssign (first :: rest) value, ts).

(** Two expressions and the comma between them. *)
(** core/src/vjs.rs:932-945 [stmt] *)
Definition two_exprs (env : penv) (ts : toks) : res perr (Expr * Expr * toks) :=
  '(a, ts) ← expr env 0 ts;
  ts ← eat env TComma "," ts;
  '(b, ts) ← expr env 0 ts;
  Ok (a, b, ts).

(** core/src/vjs.rs [stmt] *)
Fixpoint stmt_fuel (n : nat) (env : penv) (ts : toks) : res perr (Stmt * toks) :=
  match n with
  | O => NoFuel
  | S n =>
    match peek ts with
    | TEmit => '(a, b, ts) ← two_exprs env (snd (next ts)); Ok (SEmit a b, ts)
    | TRespond => '(a, b, ts) ← two_exprs env (snd (next ts)); Ok (SRespond a b, ts)
    | TInvoke =>
      '(name, args, ts) ← invoke_args env (snd (next ts)); Ok (SInvokeMerge name args, ts)
    | TIf =>
      '(arm, ts) ← arm_fuel n env (snd (next ts));
      '(arms, otherwise, ts) ← arms_fuel n env None ts;
      Ok (SIf (arm :: arms) otherwise, ts)
    | TFor =>
      match next (snd (next ts)) with
      | (TIdent v, ts) =>
        ts ← eat env TIn "in" ts;
        '(iter, ts) ← expr env 0 ts;
        ts ← eat env TColon ":" ts;
        '(body, ts) ← block_fuel n env ts;
        ts ← eat env TEnd "end" ts;
        Ok (SFor v iter body, ts)
      | (_, ts) => perror env ts ExpectedLoopVariable
      end
    | TIdent first => assign_stmt env first (snd (next ts))
    | _ => perror env ts ExpectedStatement
    end
  end

(** A condition, its colon and its block. *)
(** core/src/vjs.rs:962-969 [stmt] *)
with arm_fuel (n : nat) (env : penv) (ts : toks) : res perr (arm * toks) :=
  match n with
  | O => NoFuel
  | S n =>
    let cstart := pos env ts in
    '(cond, ts) ← expr env 0 ts;
    let cend := pos env ts in
    ts ← eat env TColon ":" ts;
    '(body, ts) ← block_fuel n env ts;
    Ok ((cond, (cstart, cend), body), ts)
  end

(** The rest of the arms up to [end]; a later [else] replaces an earlier one. *)
(** core/src/vjs.rs:959-982 [stmt] *)
with arms_fuel (n : nat) (env : penv) (otherwise : option (list Stmt)) (ts : toks)
  : res perr (list arm * option (list Stmt) * toks) :=
  match n with
  | O => NoFuel
  | S n =>
    match peek ts with
    | TElif =>
      '(arm, ts) ← arm_fuel n env (snd (next ts));
      '(arms, otherwise, ts) ← arms_fuel n env otherwise ts;
      Ok (arm :: arms, otherwise, ts)
    | TElse =>
      ts ← eat env TColon ":" (snd (next ts));
      '(body, ts) ← block_fuel n env ts;
      arms_fuel n env (Some body) ts
    | TEnd => Ok ([], otherwise, snd (next ts))
    | _ => perror env ts ExpectedElifElseEnd
    end
  end

(** core/src/vjs.rs [block] *)
with block_fuel (n : nat) (env : penv) (ts : toks) : res perr (list Stmt * toks) :=
  match n with
  | O => NoFuel
  | S n =>
    let ts := skip_newlines ts in
    match peek ts with
    | TEnd | TElif | TElse => Ok ([], ts)
    | _ =>
      if at_end ts then perror env ts MissingEnd
      else
        '(s, ts) ← stmt_fuel n env ts;
        '(ss, ts) ← block_fuel n env ts;
        Ok (s :: ss, ts)
    end
  end.

(** core/src/vjs.rs [stmt] *)
Definition stmt (env : penv) (ts : toks) : res perr (Stmt * toks) :=
  stmt_fuel (3 * toks_weight ts + 1) env ts.

(** ** Programs *)

(** An UPPERCASE name. *)
(** core/src/vjs.rs:674-677 [program] *)
Definition surface_name (name : string) : bool :=
  all_chars (λ c, is_ascii_uppercase c || (c =? 95)%N || is_ascii_digit c) name
  && any_char is_ascii_uppercase name.

(** What the loop has read: the directives, the statements and the surface. *)
Record heading : Type := {
  h_source : option string;
  h_tool : option string;
  h_driver : option string;
  h_api : option string;
  h_stmts : list Stmt;
  h_surface : list SurfaceEntry
}.

Definition heading0 : heading := Build_heading None None None None [] [].

(** core/src/vjs.rs:641-672 [program] *)
Definition directive (h : heading) (t : Tok) (s : string) : heading :=
  let '(Build_heading so to dr ap st su) := h in
  match t with
  | TSource => Build_heading (Some s) to dr ap st su
  | TTool => Build_heading so (Some s) dr ap st su
  | TDriver => Build_heading so to (Some s) ap st su
  | TApi => Build_heading so to dr (Some s) st su
  | _ => h
  end.

Definition directive_name (t : Tok) : option string :=
  match t with
  | TSource => Some "source" | TTool => Some "tool"
  | TDriver => Some "driver" | TApi => Some "api"
  | _ => None
  end.

Definition add_stmt (h : heading) (s : Stmt) : heading :=
  let '(Build_heading so to dr ap st su) := h in Build_heading so to dr ap (st ++ [s])%list su.
Definition add_surface (h : heading) (e : SurfaceEntry) : heading :=
  let '(Build_heading so to dr ap st su) := h in Build_heading so to dr ap st (su ++ [e])%list.

(** A surface constant at the cursor: [NAME = literal]. *)
(** core/src/vjs.rs:673-694 [program] *)
Definition surface_entry (env : penv) (ts : toks) : res perr (option (SurfaceEntry * toks)) :=
  match peek ts, peek2 ts with
  | TIdent name, Some TEq =>
    if surface_name name then
      let ts2 := snd (next (snd (next ts))) in
      let start := pos env ts2 in
      '(lit, ts3) ← try_literal env ts2;
      Ok (match lit with
          | Some (value, entry_spans, end_) =>
            Some ({| se_name := name; se_value := value; se_value_span := (start, end_);
                     se_entry_spans := entry_spans |}, ts3)
          | None => None
          end)
    else Ok None
  | _, _ => Ok None
  end.

(** core/src/vjs.rs:629-696 [program] *)
Fixpoint program_fuel (n : nat) (env : penv) (h : heading) (ts : toks) : res perr heading :=
  match n with
  | O => NoFuel
  | S n =>
    let ts := skip_newlines ts in
    if at_end ts then Ok h
    else
      match directive_name (peek ts) with
      | Some d =>
        match next (snd (next ts)) with
        | (TStr s, ts') => program_fuel n env (directive h (peek ts) s) ts'
        | (_, ts') => perror env ts' (ExpectsString d)
        end
      | None =>
        entry ← surface_entry env ts;
        match entry with
        | Some (e, ts) =>
          program_fuel n env (add_surface (add_stmt h (SAssign [se_name e] (ELit (se_value e)))) e) ts
        | None => '(s, ts) ← stmt env ts; program_fuel n env (add_stmt h s) ts
        end
      end
  end.

(** The surface constants that are strings. *)
(** core/src/vjs.rs:708-712 [program] *)
Definition string_consts (surface : list SurfaceEntry) : list (string * string) :=
  omap (λ e, s ← as_str (se_value e); Some (se_name e, s)) surface.

(** core/src/vjs.rs:697-716 [program] *)
Definition finish (h : heading) : Program :=
  let '(emits, invokes) := collect_static (string_consts (h_surface h)) ([], []) (h_stmts h) in
  {| p_source := h_source h; p_tool := h_tool h; p_driver := h_driver h; p_api := h_api h;
     p_stmts := h_stmts h; p_surface := h_surface h;
     p_emit_subjects := emits; p_invokes := invokes;
     p_secret_refs := walk_stmts [] (h_stmts h) |}.

(** core/src/vjs.rs [program] *)
Definition program (env : penv) (ts : toks) : res perr Program :=
  h ← program_fuel (S (toks_weight ts)) env heading0 ts;
  Ok (finish h).

(** core/src/vjs.rs [parse] *)
Definition parse (src : string) : res perr Program :=
  ts ← lex src;
  program {| pe_src := src; pe_end := last_pos ts |} ts.

(** ** Termination

    Everything the parser calls moves the cursor forward: in weight, the
    tokens left are at most those it was given, and fewer when it returns. *)

Notation w := toks_weight.

Lemma next_weight ts : w (snd (next ts)) <= w ts.
Proof. destruct ts as [|[t p] r]; cbn; lia. Qed.

Lemma next_lt ts : peek ts ≠ TNewline → w (snd (next ts)) < w ts.
Proof. destruct ts as [|[t p] r]; cbn; [done|]. pose proof (tok_weight_pos t). lia. Qed.

Lemma skip_newlines_weight ts : w (skip_newlines ts) <= w ts.
Proof. induction ts as [|[[] p] r IH]; cbn in *; lia. Qed.

Lemma skip_comma_weight ts : w (skip_comma ts) <= w ts.
Proof. unfold skip_comma. destruct (tok_is _ _); [apply next_weight|done]. Qed.

Lemma skip_sep_weight ts : w (skip_sep ts) <= w ts.
Proof.
  unfold skip_sep. pose proof (skip_newlines_weight ts).
  destruct (tok_is _ _); [|done].
  pose proof (skip_newlines_weight (snd (next (skip_newlines ts)))).
  pose proof (next_weight (skip_newlines ts)). lia.
Qed.

Lemma qualified_weight name ts : w (snd (qualified name ts)) <= w ts.
Proof.
  unfold qualified. destruct (tok_is _ _); [|done].
  destruct (peek2 ts) as [[]|]; try done. cbn.
  pose proof (next_weight ts). pose proof (next_weight (snd (next ts))). lia.
Qed.

Lemma tok_is_newline t u : tok_is t u = true → u ≠ TNewline → t ≠ TNewline.
Proof. intros H Hu ->. by destruct u. Qed.

Lemma tok_is_lt ts u : tok_is (peek ts) u = true → u ≠ TNewline → w (snd (next ts)) < w ts.
Proof. intros H Hu. apply next_lt. by eapply tok_is_newline. Qed.

Lemma yields_perror {A} env ts m (Q : A → Prop) : yields (perror env ts m) Q.
Proof. apply yields_err_at. Qed.

Lemma eat_yields env t what ts :
  t ≠ TNewline → yields (eat env t what ts) (λ ts', w ts' < w ts).
Proof.
  intros Ht. unfold eat. destruct (tok_is _ _) eqn:E; [|apply yields_perror].
  cbn. by eapply tok_is_lt.
Qed.

Lemma word_yields env what ts : yields (word env what ts) (λ '(_, ts'), w ts' < w ts).
Proof.
  unfold word. destruct (word_of (peek ts)) eqn:E; [|apply yields_perror].
  cbn. apply next_lt. by intros H; rewrite H in E.
Qed.

(** One step of a termination proof: bind on the call at the head, whose own
    fact is [H], and name what it leaves. *)
Ltac step H :=
  eapply yields_bind; [eapply H|];
  [try done; try (pose_weights; lia) ..|];
  intros; repeat match goal with a : _ * _ |- _ => destruct a end; cbn in *
with pose_weights := cbn [toks_weight parts_weight] in *;
  repeat match goal with
  | |- context [skip_sep ?ts] =>
      lazymatch goal with H : toks_weight (skip_sep ts) <= _ |- _ => fail | _ => pose proof (skip_sep_weight ts) end
  | |- context [skip_comma ?ts] =>
      lazymatch goal with H : toks_weight (skip_comma ts) <= _ |- _ => fail | _ => pose proof (skip_comma_weight ts) end
  | |- context [skip_newlines ?ts] =>
      lazymatch goal with H : toks_weight (skip_newlines ts) <= _ |- _ => fail | _ => pose proof (skip_newlines_weight ts) end
  | |- context [toks_weight (snd (next ?ts))] =>
      lazymatch goal with H : toks_weight (snd (next ts)) <= _ |- _ => fail | _ => pose proof (next_weight ts) end
  end.

Notation moves ts := (λ '(_, ts'), toks_weight ts' < toks_weight ts).
Notation keeps ts := (λ '(_, ts'), toks_weight ts' <= toks_weight ts).

(** The fuel each function needs for the tokens it is given. *)
Record expr_enough (n : nat) : Prop := {
  en_expr env bp ts : 3 * w ts + 2 <= n → yields (expr_fuel n env bp ts) (moves ts);
  en_primary env ts : 3 * w ts + 1 <= n → yields (primary_fuel n env ts) (moves ts);
  en_fparts env ps : 3 * parts_weight ps + 1 <= n → yields (fparts_fuel n env ps) (λ _, True);
  en_items env ts : 3 * w ts + 3 <= n → yields (items_fuel n env ts) (keeps ts);
  en_fields env ts : 3 * w ts + 3 <= n → yields (fields_fuel n env ts) (keeps ts);
  en_call env ts : 3 * w ts + 3 <= n → yields (call_args_fuel n env ts) (keeps ts);
  en_invoke env ts : 3 * w ts + 3 <= n → yields (invoke_args_fuel n env ts) (moves ts);
  en_named env ts : 3 * w ts + 3 <= n → yields (named_args_fuel n env ts) (keeps ts);
  en_postfix env lhs ts : 3 * w ts + 1 <= n → yields (postfix_fuel n env lhs ts) (keeps ts);
  en_binary env bp lhs ts : 3 * w ts + 1 <= n → yields (binary_fuel n env bp lhs ts) (keeps ts)
}.

Section ExprEnough.
Context (n : nat) (IH : expr_enough n).

Lemma expr_enough_expr env bp ts :
  3 * w ts + 2 <= S n → yields (expr_fuel (S n) env bp ts) (moves ts).
Proof.
  intros Hn. cbn. step (en_primary _ IH). step (en_postfix _ IH).
  eapply yields_mono; [apply (en_binary _ IH); lia|]. intros []. lia.
Qed.

Lemma expr_enough_primary env ts :
  3 * w ts + 1 <= S n → yields (primary_fuel (S n) env ts) (moves ts).
Proof.
  intros Hn. destruct ts as [|[t p] r]; [apply yields_perror|].
  assert (Hp := tok_weight_pos t). cbn [primary_fuel next]. cbn in Hn |- *.
  destruct t; try apply yields_perror; try (cbn; lia).
  - destruct (tok_is (peek r) TLParen) eqn:E; [|cbn; lia].
    apply tok_is_lt in E; [|done]. step (en_call _ IH). lia.
  - rewrite tok_weight_fstr in *. step (en_fparts _ IH). lia.
  - cbn in *. step (en_expr _ IH). lia.
  - cbn in *. step (en_invoke _ IH). lia.
  - cbn in *. pose_weights. step (en_fields _ IH). lia.
  - cbn in *. pose_weights. step (en_items _ IH). lia.
  - cbn in *. step (en_expr _ IH). step eat_yields. lia.
  - cbn in *. step (en_expr _ IH). lia.
Qed.

Lemma expr_enough_fparts env ps :
  3 * parts_weight ps + 1 <= S n → yields (fparts_fuel (S n) env ps) (λ _, True).
Proof.
  intros Hn. destruct ps as [|[s|l] ps]; cbn; [done|cbn in Hn ..].
  - step (en_fparts _ IH). done.
  - step (en_expr _ IH). step (en_fparts _ IH). done.
Qed.

Lemma expr_enough_items env ts :
  3 * w ts + 3 <= S n → yields (items_fuel (S n) env ts) (keeps ts).
Proof.
  intros Hn. cbn. destruct (tok_is _ _) eqn:E; [cbn; apply next_weight|].
  step (en_expr _ IH). pose_weights. step (en_items _ IH). lia.
Qed.

Lemma expr_enough_fields env ts :
  3 * w ts + 3 <= S n → yields (fields_fuel (S n) env ts) (keeps ts).
Proof.
  intros Hn. cbn. destruct (tok_is _ _) eqn:E; [cbn; apply next_weight|].
  step word_yields. step eat_yields. step (en_expr _ IH). pose_weights.
  step (en_fields _ IH). lia.
Qed.

Lemma expr_enough_call env ts :
  3 * w ts + 3 <= S n → yields (call_args_fuel (S n) env ts) (keeps ts).
Proof.
  intros Hn. cbn. destruct (tok_is _ _) eqn:E; [cbn; apply next_weight|].
  step (en_expr _ IH). pose_weights. step (en_call _ IH). lia.
Qed.

Lemma expr_enough_named env ts :
  3 * w ts + 3 <= S n → yields (named_args_fuel (S n) env ts) (keeps ts).
Proof.
  intros Hn. cbn. destruct (tok_is _ _) eqn:E; [cbn; apply next_weight|].
  step word_yields. step eat_yields. step (en_expr _ IH). pose_weights.
  step (en_named _ IH). lia.
Qed.

Lemma expr_enough_invoke env ts :
  3 * w ts + 3 <= S n → yields (invoke_args_fuel (S n) env ts) (moves ts).
Proof.
  intros Hn. destruct ts as [|[t p] r]; [apply yields_perror|].
  assert (Hp := tok_weight_pos t). cbn [invoke_args_fuel next]. cbn in Hn |- *.
  destruct t; try apply yields_perror. pose proof (qualified_weight s r) as Hq.
  destruct (qualified s r) as [name ts]. cbn in Hq.
  step eat_yields. step (en_named _ IH). lia.
Qed.

Lemma expr_enough_postfix env lhs ts :
  3 * w ts + 1 <= S n → yields (postfix_fuel (S n) env lhs ts) (keeps ts).
Proof.
  intros Hn. destruct ts as [|[t p] r]; [cbn; lia|].
  assert (Hp := tok_weight_pos t). cbn [postfix_fuel next snd]. cbn in Hn |- *.
  destruct t; try (cbn; lia); cbn in Hn |- *.
  - step word_yields. eapply yields_mono; [apply (en_postfix _ IH); lia|]. intros []. lia.
  - step word_yields. eapply yields_mono; [apply (en_postfix _ IH); lia|]. intros []. lia.
  - destruct (tok_is (peek r) TRBrack) eqn:E.
    { pose_weights. pose proof (next_weight r).
      eapply yields_mono; [apply (en_postfix _ IH); lia|]. intros []. lia. }
    step (en_expr _ IH). step eat_yields.
    eapply yields_mono; [apply (en_postfix _ IH); lia|]. intros []. lia.
Qed.

Lemma expr_enough_binary env bp lhs ts :
  3 * w ts + 1 <= S n → yields (binary_fuel (S n) env bp lhs ts) (keeps ts).
Proof.
  intros Hn. cbn [binary_fuel]. destruct (binop_of (peek ts)) as [[op b]|] eqn:E; [|cbn; lia].
  destruct (b <=? bp); [cbn; lia|].
  assert (w (snd (next ts)) < w ts) by (apply next_lt; by intros H; rewrite H in E).
  step (en_expr _ IH).
  eapply yields_mono; [apply (en_binary _ IH); lia|]. intros []. lia.
Qed.
End ExprEnough.

Lemma expr_enough_all n : expr_enough n.
Proof.
  induction n as [|n IH]; [constructor; intros; lia|].
  constructor; intros; eauto using expr_enough_expr, expr_enough_primary, expr_enough_fparts,
    expr_enough_items, expr_enough_fields, expr_enough_call, expr_enough_invoke,
    expr_enough_named, expr_enough_postfix, expr_enough_binary.
Qed.

Lemma expr_yields env bp ts : yields (expr env bp ts) (moves ts).
Proof. apply (en_expr _ (expr_enough_all _)). unfold expr_fuel_for. lia. Qed.

Lemma invoke_args_yields env ts : yields (invoke_args env ts) (moves ts).
Proof. apply (en_invoke _ (expr_enough_all _)). unfold expr_fuel_for. lia. Qed.

(** Literals. *)

Notation lmoves ts := (λ '(_, _, _, ts'), toks_weight ts' < toks_weight ts).

Record literal_enough (n : nat) : Prop := {
  le_literal env ts : 2 * w ts + 1 <= n → yields (literal_fuel n env ts) (lmoves ts);
  le_items env ts : 2 * w ts + 2 <= n → yields (literal_items_fuel n env ts) (keeps ts);
  le_fields env m sp ts : 2 * w ts + 2 <= n →
    yields (literal_fields_fuel n env m sp ts) (λ '(_, _, ts'), w ts' <= w ts)
}.

Lemma literal_enough_literal n env ts :
  literal_enough n → 2 * w ts + 1 <= S n → yields (literal_fuel (S n) env ts) (lmoves ts).
Proof.
  intros IH Hn. destruct ts as [|[t p] r]; [apply yields_perror|].
  assert (Hp := tok_weight_pos t). cbn [literal_fuel next]. cbn in Hn |- *.
  destruct t; try apply yields_perror; try (cbn; lia).
  - cbn in *. pose proof (skip_newlines_weight r). step (le_fields _ IH). lia.
  - cbn in *. pose proof (skip_newlines_weight r). step (le_items _ IH). lia.
  - cbn in *. destruct (next r) as [u r'] eqn:E. pose proof (next_weight r) as Hr.
    rewrite E in Hr. cbn in Hr. destruct u; try apply yields_perror. cbn. lia.
Qed.

Lemma literal_enough_all n : literal_enough n.
Proof.
  induction n as [|n IH]; [constructor; intros; lia|].
  constructor; [intros; by apply literal_enough_literal|intros; cbn ..];
    destruct (tok_is _ _) eqn:E; try (cbn; apply next_weight).
  - step (le_literal _ IH). pose_weights. step (le_items _ IH). lia.
  - step word_yields. step eat_yields. step (le_literal _ IH).
    match goal with |- context [skip_sep ?l] => pose proof (skip_sep_weight l) end.
    eapply yields_mono; [apply (le_fields _ IH); lia|]. intros [[]]. lia.
Qed.

Lemma literal_yields env ts : yields (literal_value env ts) (lmoves ts).
Proof. apply (le_literal _ (literal_enough_all _)). lia. Qed.

Lemma try_literal_yields env ts : yields (try_literal env ts) (keeps ts).
Proof.
  unfold try_literal. pose proof (literal_yields env ts) as Hl.
  destruct (literal_value env ts) as [[[[v sp] e] ts']|e| |]; cbn in *; try done.
  destruct (tok_is _ _); cbn; lia.
Qed.

(** Statements. *)

Lemma path_yields n env ts : w ts < n → yields (path_fuel n env ts) (keeps ts).
Proof.
  revert ts; induction n as [|n IH]; intros ts Hn; [lia|]. cbn.
  destruct (tok_is _ _) eqn:E; [|cbn; lia]. apply tok_is_lt in E; [|done].
  step word_yields. step IH. lia.
Qed.

Lemma assign_yields env x ts : yields (assign_stmt env x ts) (moves ts).
Proof.
  unfold assign_stmt. step path_yields. step eat_yields.
  destruct (tok_is _ _).
  - step invoke_args_yields. pose_weights. cbn in *.
    match goal with H : _ < w (snd (next ?l)) |- _ => pose proof (next_weight l) end. lia.
  - step expr_yields. lia.
Qed.

Lemma two_exprs_yields env ts : yields (two_exprs env ts) (λ '(_, _, ts'), w ts' < w ts).
Proof. unfold two_exprs. step expr_yields. step eat_yields. step expr_yields. lia. Qed.

Record stmt_enough (n : nat) : Prop := {
  se_stmt env ts : 3 * w ts + 1 <= n → yields (stmt_fuel n env ts) (moves ts);
  se_arm env ts : 3 * w ts + 1 <= n → yields (arm_fuel n env ts) (moves ts);
  se_arms env o ts : 3 * w ts + 1 <= n →
    yields (arms_fuel n env o ts) (λ '(_, _, ts'), w ts' < w ts);
  se_block env ts : 3 * w ts + 2 <= n → yields (block_fuel n env ts) (keeps ts)
}.

Section StmtEnough.
Context (n : nat) (IH : stmt_enough n).

Lemma stmt_enough_stmt env ts :
  3 * w ts + 1 <= S n → yields (stmt_fuel (S n) env ts) (moves ts).
Proof.
  intros Hn. destruct ts as [|[t p] r]; [apply yields_perror|].
  assert (Hp := tok_weight_pos t). cbn [stmt_fuel next peek snd]. cbn in Hn |- *.
  destruct t; try apply yields_perror; cbn in *.
  - eapply yields_mono; [apply assign_yields|]. intros []. lia.
  - step (se_arm _ IH). step (se_arms _ IH). lia.
  - destruct (next r) as [u r'] eqn:E. pose proof (next_weight r) as Hr.
    rewrite E in Hr. cbn in Hr. destruct u; try apply yields_perror.
    step eat_yields. step expr_yields. step eat_yields. step (se_block _ IH). step eat_yields. lia.
  - step two_exprs_yields. lia.
  - step invoke_args_yields. lia.
  - step two_exprs_yields. lia.
Qed.

Lemma stmt_enough_arm env ts :
  3 * w ts + 1 <= S n → yields (arm_fuel (S n) env ts) (moves ts).
Proof.
  intros Hn. cbn. step expr_yields. step eat_yields. step (se_block _ IH). lia.
Qed.

Lemma stmt_enough_arms env o ts :
  3 * w ts + 1 <= S n → yields (arms_fuel (S n) env o ts) (λ '(_, _, ts'), w ts' < w ts).
Proof.
  intros Hn. destruct ts as [|[t p] r]; [apply yields_perror|].
  assert (Hp := tok_weight_pos t). cbn [arms_fuel next peek snd]. cbn in Hn |- *.
  destruct t; try apply yields_perror; cbn in *.
  - step (se_arm _ IH). step (se_arms _ IH). lia.
  - step eat_yields. step (se_block _ IH).
    eapply yields_mono; [apply (se_arms _ IH); lia|]. intros [[]]. lia.
  - lia.
Qed.

Lemma stmt_enough_block env ts :
  3 * w ts + 2 <= S n → yields (block_fuel (S n) env ts) (keeps ts).
Proof.
  intros Hn. cbn [block_fuel]. pose proof (skip_newlines_weight ts) as Hs.
  set (ts0 := skip_newlines ts) in *. clearbody ts0.
  assert (yields (if at_end ts0 then perror env ts0 MissingEnd
                  else '(s, ts) ← stmt_fuel n env ts0;
                       '(ss, ts) ← block_fuel n env ts; Ok (s :: ss, ts)) (keeps ts)) as H.
  { destruct (at_end ts0); [apply yields_perror|].
    step (se_stmt _ IH). step (se_block _ IH). lia. }
  destruct (peek ts0); (exact H || cbn; lia).
Qed.
End StmtEnough.

Lemma stmt_enough_all n : stmt_enough n.
Proof.
  induction n as [|n IH]; [constructor; intros; lia|].
  constructor; intros; eauto using stmt_enough_stmt, stmt_enough_arm, stmt_enough_arms,
    stmt_enough_block.
Qed.

Lemma stmt_yields env ts : yields (stmt env ts) (moves ts).
Proof. apply (se_stmt _ (stmt_enough_all _)). lia. Qed.

(** Programs. *)

Lemma surface_entry_yields env ts :
  yields (surface_entry env ts) (λ o, match o with Some (_, ts') => w ts' < w ts | None => True end).
Proof.
  unfold surface_entry. destruct ts as [|[t p] r]; cbn [peek peek2]; [done|].
  destruct t; try done. destruct r as [|[u q] r]; [done|].
  destruct u; try done. destruct (surface_name s); [|done].
  eapply yields_bind; [apply try_literal_yields|]. intros [o ts3] Hk.
  destruct o as [[[v sp] e]|]; cbn in *; [lia|done].
Qed.

Lemma program_fuel_yields n env h ts :
  w ts < n → yields (program_fuel n env h ts) (λ _, True).
Proof.
  revert h ts; induction n as [|n IH]; intros h ts Hn; [lia|]. cbn [program_fuel].
  pose proof (skip_newlines_weight ts) as Hs. set (ts0 := skip_newlines ts) in *. clearbody ts0.
  destruct (at_end ts0); [done|].
  destruct (directive_name (peek ts0)) eqn:Ed.
  - assert (w (snd (next ts0)) < w ts0) by (apply next_lt; intros H; by rewrite H in Ed).
    destruct (next (snd (next ts0))) as [u r'] eqn:E. pose proof (next_weight (snd (next ts0))) as Hr.
    rewrite E in Hr. cbn in Hr. destruct u; try apply yields_perror. apply IH. lia.
  - eapply yields_bind; [apply surface_entry_yields|]. intros [[e ts']|] H.
    + apply IH. lia.
    + step stmt_yields. apply IH. lia.
Qed.

Lemma parse_yields src : yields (parse src) (λ _, True).
Proof.
  unfold parse. eapply yields_bind; [apply lex_yields|]. intros ts _. unfold program.
  eapply yields_bind; [apply program_fuel_yields; lia|]. done.
Qed.

(** ** What the parser builds is well formed *)

Lemma assign_stmt_ok env x ts s ts' : assign_stmt env x ts = Ok (s, ts') → stmt_ok s = true.
Proof.
  unfold assign_stmt. intros H. inv_binds. destruct (tok_is _ _); inv_binds; by simplify_eq.
Qed.

Record stmt_oks (n : nat) : Prop := {
  so_stmt env ts s ts' : stmt_fuel n env ts = Ok (s, ts') → stmt_ok s = true;
  so_arm env ts c sp b ts' : arm_fuel n env ts = Ok ((c, sp, b), ts') → forallb stmt_ok b = true;
  so_arms env o ts arms o' ts' : arms_fuel n env o ts = Ok (arms, o', ts') →
    (∀ b, o = Some b → forallb stmt_ok b = true) →
    stmt_ok (SIf arms o') = true;
  so_block env ts b ts' : block_fuel n env ts = Ok (b, ts') → forallb stmt_ok b = true
}.

Lemma stmt_oks_all n : stmt_oks n.
Proof.
  induction n as [|n [IHs IHa IHas IHb]]; [by constructor|].
  assert (∀ env ts a ts1 o arms o' ts2, arm_fuel n env ts = Ok (a, ts1) →
    arms_fuel n env o ts1 = Ok (arms, o', ts2) → (∀ b, o = Some b → forallb stmt_ok b = true) →
    stmt_ok (SIf (a :: arms) o') = true) as Hif.
  { intros env ts [[c sp] b] ts1 o arms o' ts2 Ha%IHa Hs Ho. apply IHas in Hs; [|done].
    cbn in *. by rewrite Ha. }
  constructor; cbn [stmt_fuel arm_fuel arms_fuel block_fuel].
  - intros env ts s ts' E. destruct (peek ts); try (unfold perror, err_at in E; by case_match);
      try (inv_binds; by simplify_eq).
    + by eapply assign_stmt_ok.
    + inv_binds. simplify_eq. by eapply Hif.
    + destruct (next _) as [[] ts0]; try (unfold perror, err_at in E; by case_match).
      inv_binds. simplify_eq. cbn. by eapply IHb.
  - intros env ts c sp b ts' E. inv_binds. simplify_eq. by eapply IHb.
  - intros env o ts arms o' ts' E Ho.
    destruct (peek ts); try (unfold perror, err_at in E; by case_match).
    + inv_binds. simplify_eq. by eapply Hif.
    + inv_binds. eapply IHas; [eassumption|]. intros b [= <-]. by eapply IHb.
    + simplify_eq. cbn. destruct o' as [b|]; [by apply Ho|done].
  - intros env ts b ts' E.
    assert (∀ r, (if at_end (skip_newlines ts) then perror env (skip_newlines ts) MissingEnd
                  else '(s, ts) ← stmt_fuel n env (skip_newlines ts);
                       '(ss, ts) ← block_fuel n env ts; Ok (s :: ss, ts)) = r →
                 r = Ok (b, ts') → forallb stmt_ok b = true) as Hgo.
    { intros r <- Er. destruct (at_end _); [unfold perror, err_at in Er; by case_match|].
      inv_binds. simplify_eq. cbn. apply andb_true_iff. eauto. }
    destruct (peek (skip_newlines ts)); try (by eapply Hgo); by simplify_eq.
Qed.

Lemma program_fuel_ok n env h ts h' :
  program_fuel n env h ts = Ok h' → forallb stmt_ok (h_stmts h) = true →
  forallb stmt_ok (h_stmts h') = true.
Proof.
  revert h ts. induction n as [|n IH]; intros h ts; [done|]. cbn [program_fuel].
  destruct (at_end _); [by intros [= ->]|]. intros E Hh.
  assert (∀ s, stmt_ok s = true → forallb stmt_ok (h_stmts (add_stmt h s)) = true) as Hadd.
  { intros s Hs. destruct h. cbn in *. rewrite forallb_app, Hh. cbn. by rewrite Hs. }
  destruct (directive_name _).
  - destruct (next _) as [[] ts0]; try (unfold perror, err_at in E; by case_match).
    eapply IH; [exact E|]. destruct h. cbn. by destruct (peek _).
  - apply bind_Ok in E as ([[e ts']|] & _ & E).
    + eapply IH; [exact E|]. specialize (Hadd (SAssign [se_name e] (ELit (se_value e))) eq_refl).
      by destruct h.
    + inv_binds. eapply IH; [eassumption|]. apply Hadd. by eapply so_stmt; [apply stmt_oks_all|].
Qed.

Lemma parse_stmt_ok src prog : parse src = Ok prog → forallb stmt_ok (p_stmts prog) = true.
Proof.
  unfold parse, program. intros E. inv_binds. unfold finish.
  destruct (collect_static _ _ _). cbn. by eapply program_fuel_ok.
Qed.
