(* ===== verification/Secrets.v ===== *)
(** * Secret stores

    core/src/secrets.rs.  A store is the interface [SecretStore]: its kind and
    its [get].  What the backends read (the environment, the secrets file, the
    HTTP answer of Vault) is an argument; [set] of the writable backends
    returns what they write.  The text of an error is kept where it can reach
    a caller, as the kind of failure and the reference it is about. *)

From stdpp Require Import base list strings.
From Stdlib Require Import ZArith Lia Ascii.
From S2P Require Import Prelude Text F64 Json.
Open Scope string_scope.
Open Scope Z_scope.

Inductive serr : Type :=
| SNotSet (reference : string)
| SNotFound (reference key : string)
| SNotAnObject
| SIo (e : string)
| SMustBePathKey (reference : string)
| SVaultTransport (e : string)
| SVaultStatus (code : Z) (path : string)
| SVaultBadResponse
| SKeyNotFound (key path : string)
| SReadOnly (kind : string).

(** core/src/secrets.rs:~45 [SecretStore] *)
Record SecretStore : Type := {
  ss_kind : string;
  ss_get : string → res serr string
}.

(** [set] of a backend that does not override it. *)
(** core/src/secrets.rs:51-53 [SecretStore::set] *)
Definition set_default (s : SecretStore) (reference value : string) : res serr () :=
  Err (SReadOnly (ss_kind s)).

(** ** The store of shadow runs *)

(** core/src/secrets.rs:65-81 [RedactedStore] *)
Definition redacted (inner : SecretStore) : SecretStore := {|
  ss_kind := "redacted";
  ss_get reference := _ ← ss_get inner reference; Ok ("<secret:" ++ reference ++ ">")
|}.

(** ** Environment *)

(** core/src/secrets.rs [env_key] *)
Definition env_key (reference : string) : string :=
  "VEJAS_SECRET_" ++
  map_chars (λ c s, if is_ascii_alphanumeric c then to_ascii_uppercase s else "_") reference.

(** core/src/secrets.rs:185-194 [EnvStore] *)
Definition env_store (env : string → option string) : SecretStore := {|
  ss_kind := "env";
  ss_get reference := ok_or (env (env_key reference)) (SNotFound reference (env_key reference))
|}.

Section Backends.
Context `{Serde}.

(** ** File *)

(** What reading the file gives. *)
Inductive file_read : Type := FText (s : string) | FMissing | FFailed (e : string).

(** core/src/secrets.rs [load] *)
Definition file_load (f : file_read) : res serr (smap Value) :=
  match f with
  | FText s =>
    if String.eqb (trim s) "" then Ok []
    else ok_or (v ← from_json s; as_object v) SNotAnObject
  | FMissing => Ok []
  | FFailed e => Err (SIo e)
  end.

(** core/src/secrets.rs:129-135 [FileStore::get] *)
Definition file_store (f : file_read) : SecretStore := {|
  ss_kind := "file";
  ss_get reference :=
    m ← file_load f;
    ok_or (s ← (v ← map_get reference m; as_str v);
           if String.eqb s "" then None else Some s) (SNotSet reference)
|}.

(** ** Vault *)

(** core/src/secrets.rs:~197 [VaultStore] *)
Record vault : Type := { v_addr : string; v_token : string; v_mount : string }.

(** core/src/secrets.rs [from_env] *)
Definition vault_from_env (env : string → option string) : vault := {|
  v_addr := trim_end_byte "/" (default "" (env "VAULT_ADDR"));
  v_token := default "" (env "VAULT_TOKEN");
  v_mount := default "secret" (env "VEJAS_VAULT_MOUNT")
|}.

(** An HTTP exchange: method, url, headers and body to a status and a body. *)
Notation http_fn :=
  (string → string → list (string * string) → option string → res string (Z * string)).

Definition vault_url (v : vault) (path : string) : string :=
  v_addr v ++ "/v1/" ++ v_mount v ++ "/data/" ++ path.
Definition ok_status (code : Z) : bool := (200 <=? code) && (code <? 300).

(** core/src/secrets.rs:216-238 [VaultStore::get] *)
Definition vault_store (http : http_fn) (v : vault) : SecretStore := {|
  ss_kind := "vault";
  ss_get reference :=
    match rsplit_once reference "/" with
    | None => Err (SMustBePathKey reference)
    | Some (path, key) =>
      match http "GET" (vault_url v path) [("X-Vault-Token", v_token v)] None with
      | Ok (code, body) =>
        if negb (ok_status code) then Err (SVaultStatus code path)
        else
          doc ← ok_or (from_json body) SVaultBadResponse;
          ok_or (as_str (vindex (vindex (vindex doc "data") "data") key)) (SKeyNotFound key path)
      | Err e => Err (SVaultTransport e)
      | Panic => Panic
      | NoFuel => NoFuel
      end
    end
|}.

(** core/src/secrets.rs:239-264 [VaultStore::set] *)
Definition vault_set (http : http_fn) (v : vault) (reference value : string) : res serr () :=
  match rsplit_once reference "/" with
  | None => Err (SMustBePathKey reference)
  | Some (path, key) =>
    let url := vault_url v path in
    let headers := [("X-Vault-Token", v_token v)] in
    let data :=
      match http "GET" url headers None with
      | Ok (code, body) =>
        if ok_status code
        then default [] (doc ← from_json body; as_object (vindex (vindex doc "data") "data"))
        else []
      | _ => []
      end in
    let body := to_json (obj [("data", VObject (map_insert key (VString value) data))]) in
    match http "POST" url (headers ++ [("Content-Type", "application/json")])%list (Some body) with
    | Ok (code, _) => if ok_status code then Ok () else Err (SVaultStatus code path)
    | Err e => Err (SVaultTransport e)
    | Panic => Panic
    | NoFuel => NoFuel
    end
  end.

(** ** Which store *)

(** core/src/secrets.rs [default_store] *)
Definition default_store (env : string → option string) (http : http_fn)
    (files : string → file_read) : SecretStore :=
  if match env "VAULT_ADDR" with Some v => negb (String.eqb v "") | None => false end
  then vault_store http (vault_from_env env)
  else
    match env "VEJAS_SECRETS_FILE" with
    | Some path => if negb (String.eqb path "") then file_store (files path) else env_store env
    | None => env_store env
    end.

End Backends.

(** ** Facts *)

(** Two stores are alike when they resolve the same references and fail the
    same way on the others, whatever the values. *)
Definition same_domain (s1 s2 : SecretStore) : Prop :=
  ∀ r, match ss_get s1 r, ss_get s2 r with
       | Ok _, Ok _ => True
       | Err e1, Err e2 => e1 = e2
       | Panic, Panic | NoFuel, NoFuel => True
       | _, _ => False
       end.

Lemma redacted_same_domain s1 s2 r :
  same_domain s1 s2 → ss_get (redacted s1) r = ss_get (redacted s2) r.
Proof.
  intros H. specialize (H r). cbn. destruct (ss_get s1 r), (ss_get s2 r); naive_solver.
Qed.
