(* ===== verification/Eval.v ===== *)
(** * VejasScript: the interpreter

    [run] of core/src/vjs.rs with its [Engine].  A computation is a function
    of the context and the engine that returns an outcome and both, so that
    what an aborted run leaves in the engine is visible.  Expressions and
    statements are evaluated by structural recursion over a service runner;
    [run_service] ties the knot on fuel, one unit for each nested invoke, and
    the engine's own depth limit makes 33 units enough.

    The project's files are the argument [files] (a path to the text that
    [read_to_string] returns); [to_uppercase] and [to_lowercase], the JSON
    printer and [powi] are the classes [CaseTables], [Serde] and [FloatLib]. *)

From stdpp Require Import base gmap list strings.
From Stdlib Require Import ZArith Lia Ascii.
From S2P Require Import Prelude Text F64 Json Syntax Analysis Lexer Parser Secrets.
Open Scope string_scope.
Open Scope nat_scope.

(** ** State *)

Inductive verr : Type :=
| CannotReadField (f : string) (v : Value)
| SubjectNotString (v : Value)
| InvalidSubject (s : string)
| SecretNeedsReference
| SecretFailed (e : serr)
| UnknownFunction (name : string)
| DepthExceeded (name : string)
| InvalidReference (name : string)
| NotExported (pkg svc : string)
| NoManifest (pkg : string)
| ManifestError (pkg : string) (e : perr)
| UnknownService (key : string)
| ServiceError (key : string) (e : perr).

Notation emit := (string * Value)%type.

(** core/src/vjs.rs [Ctx] *)
Record Ctx : Type := {
  vars : smap Value;
  emits : list emit;
  response : option (Value * Value)
}.

(** core/src/vjs.rs:~1321 [Engine] *)
Record Engine : Type := {
  project_root : string;
  caller_pkg : string;
  cache : gmap string Program;
  exports : gmap string (list string);
  secrets : SecretStore;
  depth : nat
}.

Definition with_vars (c : Ctx) (v : smap Value) : Ctx :=
  {| vars := v; emits := emits c; response := response c |}.
Definition set_var (c : Ctx) (k : string) (v : Value) : Ctx :=
  with_vars c (map_insert k v (vars c)).
Definition add_emits (c : Ctx) (l : list emit) : Ctx :=
  {| vars := vars c; emits := (emits c ++ l)%list; response := response c |}.
Definition set_response (c : Ctx) (r : Value * Value) : Ctx :=
  {| vars := vars c; emits := emits c; response := Some r |}.

Definition with_pkg (e : Engine) (p : string) : Engine :=
  {| project_root := project_root e; caller_pkg := p; cache := cache e; exports := exports e;
     secrets := secrets e; depth := depth e |}.
Definition with_depth (e : Engine) (d : nat) : Engine :=
  {| project_root := project_root e; caller_pkg := caller_pkg e; cache := cache e;
     exports := exports e; secrets := secrets e; depth := d |}.
Definition with_exports (e : Engine) (x : gmap string (list string)) : Engine :=
  {| project_root := project_root e; caller_pkg := caller_pkg e; cache := cache e; exports := x;
     secrets := secrets e; depth := depth e |}.
Definition with_cache (e : Engine) (x : gmap string Program) : Engine :=
  {| project_root := project_root e; caller_pkg := caller_pkg e; cache := x; exports := exports e;
     secrets := secrets e; depth := depth e |}.

(** core/src/vjs.rs [Engine::with_secrets] *)
Definition with_secrets (root pkg : string) (s : SecretStore) : Engine :=
  {| project_root := root; caller_pkg := pkg; cache := ∅; exports := ∅; secrets := s; depth := 0 |}.
(** [store] is [default_store()]. *)
(** core/src/vjs.rs [Engine::live] *)
Definition live (store : SecretStore) (root pkg : string) : Engine := with_secrets root pkg store.
(** core/src/vjs.rs [Engine::shadow] *)
Definition shadow (store : SecretStore) (root pkg : string) : Engine :=
  with_secrets root pkg (redacted store).
(** core/src/vjs.rs [invalidate] *)
Definition invalidate (e : Engine) : Engine := with_exports (with_cache e ∅) ∅.

(** ** The monad *)

Notation St := (Ctx * Engine)%type.
Definition M (A : Type) : Type := St → res verr A * St.

#[export] Instance m_ret : MRet M := λ A a s, (Ok a, s).
#[export] Instance m_bind : MBind M := λ A B f m s,
  match m s with
  | (Ok a, s') => f a s'
  | (Err e, s') => (Err e, s')
  | (Panic, s') => (Panic, s')
  | (NoFuel, s') => (NoFuel, s')
  end.

Definition lift {A} (r : res verr A) : M A := λ s, (r, s).
Definition fail {A} (e : verr) : M A := lift (Err e).
Definition get_vars : M (smap Value) := λ s, (Ok (vars (fst s)), s).
Definition get_engine : M Engine := λ s, (Ok (snd s), s).
Definition upd_ctx (f : Ctx → Ctx) : M () := λ s, (Ok (), (f (fst s), snd s)).

Definition m_map {A B} (f : A → M B) : list A → M (list B) :=
  fix go l :=
    match l with
    | [] => mret []
    | x :: r => y ← f x; ys ← go r; mret (y :: ys)
    end.

Definition m_each {A} (f : A → M ()) : list A → M () :=
  fix go l := match l with [] => mret () | x :: r => _ ← f x; go r end.

(** Named expressions into a map, later names winning. *)
Definition m_fields {A} (f : A → M Value) : smap Value → list (string * A) → M (smap Value) :=
  fix go acc l :=
    match l with
    | [] => mret acc
    | (k, e) :: r => v ← f e; go (map_insert k v acc) r
    end.

(** The elements a test keeps. *)
Definition m_filter {A} (f : A → M bool) : list A → M (list A) :=
  fix go l :=
    match l with
    | [] => mret []
    | x :: r => b ← f x; ys ← go r; mret (if b : bool then x :: ys else ys)
    end.

(** ** Values *)

Class FloatLib := { powi10 : Z → f64 }.

Section Interp.
Context {SD : Serde} {CT : CaseTables} {FL : FloatLib}.
Context (files : string → option string).

(** core/src/vjs.rs [truthy] *)
Definition truthy (v : Value) : bool :=
  match v with
  | VNull => false
  | VBool b => b
  | VNumber n => match num_as_f64 n with Some f => negb (f64_eqb f f64_zero) | None => false end
  | VString s => negb (String.eqb s "")
  | VArray l => match l with [] => false | _ => true end
  | VObject _ => true
  end.

(** core/src/vjs.rs [to_display] *)
Definition to_display (v : Value) : string :=
  match v with
  | VNull => ""
  | VString s => s
  | other => to_json other
  end.

(** core/src/vjs.rs [valid_subject] *)
Definition valid_subject (subject : string) : bool :=
  negb (String.eqb subject "") && negb (any_char (λ c, is_whitespace c || is_control c) subject).

(** core/src/vjs.rs [set_path] *)
Fixpoint set_path (root : Value) (k : string) (path : list string) (v : Value) : Value :=
  let obj := match root with VObject o => o | _ => [] end in
  match path with
  | [] => VObject (map_insert k v obj)
  | k' :: rest =>
    let next := default (VObject []) (map_get k obj) in
    VObject (map_insert k (set_path next k' rest v) obj)
  end.

(** The variables after [path = v]; an empty path is no statement. *)
(** core/src/vjs.rs:1487-1498 [exec_block] *)
Definition assign (path : list string) (v : Value) (m : smap Value) : res verr (smap Value) :=
  match path with
  | [] => Panic
  | [x] => Ok (map_insert x v m)
  | x :: k :: rest =>
    let root := default (VObject []) (map_get x m) in
    Ok (map_insert x (set_path root k rest v) m)
  end.

Definition num_nat (n : nat) : Value := num (f64_of_Z (Z.of_nat n)).
Definition f_one : f64 := f64_of_Z 1.

(** core/src/vjs.rs [builtin] *)
Definition builtin (name : string) (args : list Value) : res verr Value :=
  let arg i := default VNull (nth_error args i) in
  match name with
  | "upper" =>
    Ok (match arg 0 with
        | VString s => VString (to_uppercase s)
        | VNull => VNull
        | v => VString (to_uppercase (to_display v))
        end)
  | "lower" =>
    Ok (match arg 0 with
        | VString s => VString (to_lowercase s)
        | VNull => VNull
        | v => VString (to_lowercase (to_display v))
        end)
  | "trim" => Ok (match arg 0 with VString s => VString (trim s) | v => v end)
  | "len" =>
    Ok (match arg 0 with
        | VString s => num_nat (count_chars s)
        | VArray a => num_nat (length a)
        | VObject o => num_nat (length o)
        | _ => num f64_zero
        end)
  | "str" => Ok (VString (to_display (arg 0)))
  | "num" =>
    Ok (match arg 0 with
        | VNumber n => VNumber n
        | VString s => match parse_f64 (trim s) with Some f => num f | None => VNull end
        | VBool b => num (if b then f_one else f64_zero)
        | _ => VNull
        end)
  | "split" =>
    Ok (match arg 0, arg 1 with
        | VString s, VString sep => VArray (map VString (str_split s sep))
        | _, _ => VNull
        end)
  | "join" =>
    Ok (match arg 0, arg 1 with
        | VArray a, VString sep => VString (str_join sep (map to_display a))
        | _, _ => VNull
        end)
  | "replace" =>
    Ok (match arg 0, arg 1, arg 2 with
        | VString s, VString from, VString to => VString (str_replace s from to)
        | _, _, _ => VNull
        end)
  | "round" =>
    Ok (match as_f64 (arg 0), as_f64 (arg 1) with
        | Some v, Some d =>
          let f := powi10 (f64_as_i32 d) in
          num (f64_div (f64_round (f64_mul v f)) f)
        | Some v, None => num (f64_round v)
        | _, _ => VNull
        end)
  | "abs" => Ok (match as_f64 (arg 0) with Some f => num (f64_abs f) | None => VNull end)
  | _ => Err (UnknownFunction name)
  end.

(** [a?.b] and [a.b]. *)
(** core/src/vjs.rs:1619-1633 [eval] *)
Definition field (b : Value) (f : string) (safe : bool) : res verr Value :=
  match b with
  | VObject o => Ok (default VNull (map_get f o))
  | VArray items => Ok (VArray (map (λ it, default VNull (vget f it)) items))
  | VNull => Ok VNull
  | other => if safe then Ok VNull else Err (CannotReadField f other)
  end.

(** core/src/vjs.rs:1634-1649 [eval] *)
Definition index (b k : Value) : Value :=
  match b, k with
  | VObject o, VString s => default VNull (map_get s o)
  | VArray a, VNumber n =>
    let i := default (-1)%Z (num_as_i64 n) in
    if (0 <=? i)%Z then default VNull (nth_error a (Z.to_nat i)) else VNull
  | _, _ => VNull
  end.

(** core/src/vjs.rs:1732-1738 [eval] *)
Definition ordering (lv rv : Value) : option comparison :=
  match lv, rv with
  | VNumber a, VNumber b =>
    x ← num_as_f64 a; y ← num_as_f64 b; f64_cmp x y
  | VString a, VString b => Some (str_cmp a b)
  | _, _ => None
  end.

(** core/src/vjs.rs:1731-1748 [eval] *)
Definition compare_op (op : BinOp) (lv rv : Value) : bool :=
  match ordering lv rv with
  | None => false
  | Some o =>
    match op with
    | OLt => match o with Lt => true | _ => false end
    | OLe => match o with Gt => false | _ => true end
    | OGt => match o with Gt => true | _ => false end
    | _ => match o with Lt => false | _ => true end
    end
  end.

(** core/src/vjs.rs:1749-1760 [eval] *)
Definition in_op (lv rv : Value) : bool :=
  match rv, lv with
  | VArray a, _ => existsb (λ x, value_eqb x lv) a
  | VString s, VString needle => str_contains s needle
  | VObject o, VString k => map_contains k o
  | _, _ => false
  end.

(** The operators that evaluate both sides; the others never reach here. *)
(** core/src/vjs.rs:1726-1788 [eval] *)
Definition bin_op (op : BinOp) (lv rv : Value) : res verr Value :=
  match op with
  | OEq => Ok (VBool (value_eqb lv rv))
  | ONe => Ok (VBool (negb (value_eqb lv rv)))
  | OLt | OLe | OGt | OGe => Ok (VBool (compare_op op lv rv))
  | In => Ok (VBool (in_op lv rv))
  | Add =>
    Ok (match lv, rv with
        | VNumber a, VNumber b =>
          num (f64_add (default f64_zero (num_as_f64 a)) (default f64_zero (num_as_f64 b)))
        | VArray a, VArray b => VArray (a ++ b)
        | _, _ => VString (to_display lv ++ to_display rv)
        end)
  | Sub | Mul | Div =>
    Ok (match as_f64 lv, as_f64 rv with
        | Some a, Some b =>
          match op with
          | Sub => num (f64_sub a b)
          | Mul => num (f64_mul a b)
          | _ => if f64_eqb b f64_zero then VNull else num (f64_div a b)
          end
        | _, _ => VNull
        end)
  | Or | And | Coalesce => Panic
  end.

(** ** Expressions *)

Section Eval.
(** What an invoke does: the service's document and emits. *)
Context (svc : string → smap Value → Engine → res verr (Value * list emit) * Engine).

Definition invoke (name : string) (args : smap Value) : M Value := λ s,
  let '(c, eng) := s in
  match svc name args eng with
  | (Ok (out, em), eng') => (Ok out, (add_emits c em, eng'))
  | (Err e, eng') => (Err e, (c, eng'))
  | (Panic, eng') => (Panic, (c, eng'))
  | (NoFuel, eng') => (NoFuel, (c, eng'))
  end.

(** The variables that the fields of a filtered item hide. *)
(** core/src/vjs.rs:1658-1669 [eval] *)
Definition hide (item : Value) (m : smap Value) : smap Value * list (string * option Value) :=
  match item with
  | VObject o => (map_extend m o, map (λ kv, (fst kv, map_get (fst kv) m)) o)
  | _ => (m, [])
  end.

(** core/src/vjs.rs:1671-1676 [eval] *)
Definition restore (m : smap Value) (saved : list (string * option Value)) : smap Value :=
  fold_left (λ m (p : string * option Value),
               let '(k, old) := p in
               match old with Some v => map_insert k v m | None => map_remove k m end) saved m.

(** core/src/vjs.rs:1657-1680 [eval] *)
Definition filter_item (cond : M Value) (item : Value) : M bool :=
  m ← get_vars;
  let '(m', saved) := hide item m in
  _ ← upd_ctx (λ c, with_vars c m');
  v ← cond;
  _ ← upd_ctx (λ c, with_vars c (restore (vars c) saved));
  mret (truthy v).

(** The error of a store becomes the run's. *)
Definition secret_value (store : SecretStore) (reference : string) : res verr string :=
  match ss_get store reference with
  | Ok s => Ok s
  | Err e => Err (SecretFailed e)
  | Panic => Panic
  | NoFuel => NoFuel
  end.

(** core/src/vjs.rs:1683-1699 [eval] *)
Definition call (name : string) (vals : list Value) : M Value :=
  if String.eqb name "secret" then
    match nth_error vals 0 ≫= as_str with
    | None => fail SecretNeedsReference
    | Some reference =>
      eng ← get_engine;
      s ← lift (secret_value (secrets eng) reference);
      mret (VString s)
    end
  else lift (builtin name vals).

(** core/src/vjs.rs [eval] *)
Fixpoint eval (e : Expr) : M Value :=
  match e with
  | ELit v => mret v
  | EVar name => m ← get_vars; mret (default VNull (map_get name m))
  | EFString parts =>
    l ← m_map (λ p, match p with
                    | PLit l => mret l
                    | PExpr e => v ← eval e; mret (to_display v)
                    end) parts;
    mret (VString (concat_strs l))
  | EDoc fields => m ← m_fields eval [] fields; mret (VObject m)
  | EArray items => l ← m_map eval items; mret (VArray l)
  | EInvoke name args => m ← m_fields eval [] args; invoke name m
  | EField base f safe => b ← eval base; lift (field b f safe)
  | EIndex base key => b ← eval base; k ← eval key; mret (index b k)
  | EProjection base => eval base
  | EFilter base cond =>
    b ← eval base;
    match b with
    | VArray items => l ← m_filter (filter_item (eval cond)) items; mret (VArray l)
    | _ => mret (VArray [])
    end
  | ECall name args => vals ← m_map eval args; call name vals
  | EUnary op e =>
    v ← eval e;
    mret (match op with
          | Not => VBool (negb (truthy v))
          | Neg => match as_f64 v with Some f => num (f64_neg f) | None => VNull end
          end)
  | EBin And l r => lv ← eval l; if truthy lv then eval r else mret lv
  | EBin Or l r => lv ← eval l; if truthy lv then mret lv else eval r
  | EBin Coalesce l r => lv ← eval l; if is_null lv then eval r else mret lv
  | EBin op l r => lv ← eval l; rv ← eval r; lift (bin_op op lv rv)
  end.

(** ** Statements *)

(** core/src/vjs.rs:1537-1547 [exec_block] *)
Definition emit_to (subject : Value) (payload : M Value) : M () :=
  match subject with
  | VString s =>
    if valid_subject s then p ← payload; upd_ctx (λ c, add_emits c [(s, p)])
    else fail (InvalidSubject s)
  | other => fail (SubjectNotString other)
  end.

(** The first arm whose condition holds. *)
Definition m_arms (f : Expr → M Value) (body : list Stmt → M ()) (otherwise : M ())
  : list (Expr * (nat * nat) * list Stmt) → M () :=
  fix go l :=
    match l with
    | [] => otherwise
    | (cond, _, b) :: r => v ← f cond; if truthy v then body b else go r
    end.

(** core/src/vjs.rs [exec_block] *)
Fixpoint exec (s : Stmt) : M () :=
  match s with
  | SAssign path e =>
    v ← eval e;
    m ← get_vars;
    m' ← lift (assign path v m);
    upd_ctx (λ c, with_vars c m')
  | SInvokeMerge name args =>
    arg_map ← m_fields eval [] args;
    out ← invoke name arg_map;
    match out with
    | VObject o => upd_ctx (λ c, with_vars c (map_extend (vars c) o))
    | _ => mret ()
    end
  | SIf arms otherwise =>
    m_arms eval (m_each exec)
      (match otherwise with Some b => m_each exec b | None => mret () end) arms
  | SFor var iter body =>
    items ← eval iter;
    match items with
    | VArray items => m_each (λ item, _ ← upd_ctx (λ c, set_var c var item); m_each exec body) items
    | _ => mret ()
    end
  | SEmit subj payload => s ← eval subj; emit_to s (eval payload)
  | SRespond status body =>
    st ← eval status; b ← eval body; upd_ctx (λ c, set_response c (st, b))
  end.

(** core/src/vjs.rs [exec_block] *)
Definition exec_block (l : list Stmt) : M () := m_each exec l.

End Eval.

(** ** The engine *)

(** core/src/vjs.rs [pkg_dir] *)
Definition pkg_dir (eng : Engine) (pkg : string) : string :=
  if String.eqb pkg "default" then project_root eng
  else path_join (path_join (project_root eng) "packages") pkg.

(** The list under EXPORTS, its strings. *)
(** core/src/vjs.rs:1380-1394 [exports_of] *)
Definition exports_list (prog : Program) : list string :=
  match surface_find (p_surface prog) "EXPORTS" with
  | Some e => match as_array (se_value e) with Some a => omap as_str a | None => [] end
  | None => []
  end.

(** core/src/vjs.rs [exports_of] *)
Definition exports_of (pkg : string) (eng : Engine) : res verr (list string) * Engine :=
  match exports eng !! pkg with
  | Some l => (Ok l, eng)
  | None =>
    match files (path_join (pkg_dir eng pkg) "package.vjs") with
    | None => (Err (NoManifest pkg), eng)
    | Some src =>
      match parse src with
      | Ok prog =>
        let l := exports_list prog in (Ok l, with_exports eng (<[pkg := l]> (exports eng)))
      | Err e => (Err (ManifestError pkg e), eng)
      | Panic => (Panic, eng)
      | NoFuel => (NoFuel, eng)
      end
    end
  end.

(** core/src/vjs.rs:1404-1406 [resolve] *)
Definition valid_name (s : string) : bool :=
  negb (String.eqb s "") && all_chars (λ c, is_ascii_alphanumeric c || (c =? 95)%N) s.

(** core/src/vjs.rs:1400-1403 [resolve] *)
Definition split_reference (caller name : string) : string * string :=
  match split_once name ":" with Some ps => ps | None => (caller, name) end.

(** core/src/vjs.rs [resolve] *)
Definition resolve (name : string) (eng : Engine) : res verr (string * string) * Engine :=
  let '(pkg, svc) := split_reference (caller_pkg eng) name in
  if negb (valid_name pkg) || negb (valid_name svc) then (Err (InvalidReference name), eng)
  else if String.eqb pkg (caller_pkg eng) then (Ok (pkg, svc), eng)
  else
    match exports_of pkg eng with
    | (Ok l, eng) =>
      if existsb (String.eqb svc) l then (Ok (pkg, svc), eng)
      else (Err (NotExported pkg svc), eng)
    | (Err e, eng) => (Err e, eng)
    | (Panic, eng) => (Panic, eng)
    | (NoFuel, eng) => (NoFuel, eng)
    end.

Definition service_path (eng : Engine) (pkg svc : string) : string :=
  path_join (path_join (pkg_dir eng pkg) "services") (svc ++ ".vjs").

(** core/src/vjs.rs [service_stmts] *)
Definition service_stmts (pkg svc : string) (eng : Engine) : res verr (list Stmt) * Engine :=
  let key := pkg ++ ":" ++ svc in
  match cache eng !! key with
  | Some prog => (Ok (p_stmts prog), eng)
  | None =>
    match files (service_path eng pkg svc) with
    | None => (Err (UnknownService key), eng)
    | Some src =>
      match parse src with
      | Ok prog => (Ok (p_stmts prog), with_cache eng (<[key := prog]> (cache eng)))
      | Err e => (Err (ServiceError key e), eng)
      | Panic => (Panic, eng)
      | NoFuel => (NoFuel, eng)
      end
    end
  end.

Definition max_depth : nat := 32.

(** The run of a service's statements, from its arguments. *)
Definition service_ctx (args : smap Value) : Ctx :=
  {| vars := map_insert "event" (VObject args) args; emits := []; response := None |}.

(** core/src/vjs.rs [run_service] *)
Fixpoint run_service (n : nat) (name : string) (args : smap Value) (eng : Engine)
  : res verr (Value * list emit) * Engine :=
  match n with
  | O => (NoFuel, eng)
  | S n =>
    if max_depth <=? depth eng then (Err (DepthExceeded name), eng)
    else
      match resolve name eng with
      | (Ok (pkg, svc), eng) =>
        let eng := with_depth eng (S (depth eng)) in
        match service_stmts pkg svc eng with
        | (Ok stmts, eng) =>
          let saved := caller_pkg eng in
          let '(r, (c, eng)) :=
            exec_block (run_service n) stmts (service_ctx args, with_pkg eng pkg) in
          let eng := with_depth (with_pkg eng saved) (pred (depth eng)) in
          (_ ← r; Ok (VObject (map_remove "event" (vars c)), emits c), eng)
        | (Err e, eng) => (Err e, with_depth eng (pred (depth eng)))
        | (Panic, eng) => (Panic, eng)
        | (NoFuel, eng) => (NoFuel, eng)
        end
      | (Err e, eng) => (Err e, eng)
      | (Panic, eng) => (Panic, eng)
      | (NoFuel, eng) => (NoFuel, eng)
      end
  end.

(** core/src/vjs.rs:1441-1447 [run] *)
Definition event_ctx (event : Value) : Ctx :=
  {| vars := map_insert "event" event
               match event with VObject o => map_extend [] o | _ => [] end;
     emits := []; response := None |}.

(** The limit on the depth leaves 33 nested calls at most. *)
(** core/src/vjs.rs [run] *)
Definition run (prog : Program) (event : Value) (eng : Engine) : res verr Ctx * Engine :=
  let '(r, (c, eng)) :=
    exec_block (run_service (S max_depth)) (p_stmts prog) (event_ctx event, eng) in
  (_ ← r; Ok c, eng).

End Interp.
