(* ===== verification/EvalRel.v ===== *)
(** * VejasScript: two runs side by side

    The relational reading of the interpreter from which its properties
    follow: two runs of the same program, from the same context and from
    engines that a relation [RE] relates, end the same way, in the same
    context and in related engines.  An invariant [IC] of the emits is carried
    along, and so are termination and the absence of panics.  [gate] says
    whether the program may touch the bus: without it nothing is asked of
    services or emits, and the syntactic test of Analysis.v must say that the
    program does not write. *)

From stdpp Require Import base gmap list strings.
From Stdlib Require Import ZArith Lia Ascii.
From S2P Require Import Prelude Text F64 Json Syntax Analysis Lexer Parser Secrets Eval.
Open Scope string_scope.
Open Scope nat_scope.

Section Rel.
Context {SD : Serde} {CT : CaseTables} {FL : FloatLib}.
Context (RE : Engine → Engine → Prop) (IC : list emit → Prop) (gate nopanic : bool).
Notation service := (string → smap Value → Engine → res verr (Value * list emit) * Engine).
Context (svc1 svc2 : service).

Definition Rst (s1 s2 : St) : Prop :=
  fst s1 = fst s2 ∧ IC (emits (fst s1)) ∧ RE (snd s1) (snd s2).

(** How two computations may end. *)
Definition ends {A} (R : Prop) (r1 r2 : res verr A) : Prop :=
  r1 = r2 ∧ match r1 with NoFuel => False | Panic => nopanic = false | _ => R end.

Definition Rm {A} (m1 m2 : M A) : Prop :=
  ∀ s1 s2, Rst s1 s2 → ends (Rst (snd (m1 s1)) (snd (m2 s2))) (fst (m1 s1)) (fst (m2 s2)).

Definition Rsvc : Prop :=
  ∀ name args e1 e2, RE e1 e2 →
    let '(r1, e1') := svc1 name args e1 in
    let '(r2, e2') := svc2 name args e2 in
    ends (RE e1' e2' ∧ ∀ v em l, r1 = Ok (v, em) → IC l → IC (l ++ em)%list) r1 r2.

Context
  (RE_secrets : ∀ e1 e2 r, RE e1 e2 → ends True (secret_value (secrets e1) r) (secret_value (secrets e2) r))
  (Hsvc : gate = true → Rsvc)
  (Hemit : gate = true → ∀ s v l, valid_subject s = true → IC l → IC (l ++ [(s, v)])%list).

(** ** The monad *)

Lemma Rm_ret {A} (a : A) : Rm (mret a) (mret a).
Proof. by intros s1 s2 Hs. Qed.

Lemma Rm_bind {A B} (m1 m2 : M A) (f1 f2 : A → M B) :
  Rm m1 m2 → (∀ a, Rm (f1 a) (f2 a)) → Rm (m1 ≫= f1) (m2 ≫= f2).
Proof.
  intros Hm Hf s1 s2 Hs. specialize (Hm s1 s2 Hs). unfold mbind, m_bind.
  destruct (m1 s1) as [r1 s1'], (m2 s2) as [r2 s2']. destruct Hm as [Hr Hm]. cbn in Hr, Hm. subst r2.
  destruct r1; cbn; [by apply Hf|by split ..].
Qed.

Lemma Rm_lift {A} (r : res verr A) : r ≠ NoFuel → (nopanic = true → r ≠ Panic) → Rm (lift r) (lift r).
Proof.
  intros H1 H2 s1 s2 Hs. split; [done|]. cbn. destruct r; try done.
  destruct nopanic; [by destruct H2|done].
Qed.

Lemma Rm_lift_ok {A} (r : res verr A) : r ≠ NoFuel → r ≠ Panic → Rm (lift r) (lift r).
Proof. intros. by apply Rm_lift. Qed.

Lemma Rm_fail {A} e : Rm (@fail A e) (fail e).
Proof. by apply Rm_lift_ok. Qed.

Lemma Rm_get_vars : Rm get_vars get_vars.
Proof. intros s1 s2 Hs. split; [|done]. cbn. destruct Hs as [-> _]. done. Qed.

Lemma Rm_upd_ctx f : (∀ c, IC (emits c) → IC (emits (f c))) → Rm (upd_ctx f) (upd_ctx f).
Proof.
  intros Hf [c1 e1] [c2 e2] (Hc & Hi & He). cbn in *. subst c2. split; [done|]. split; [done|].
  cbn. auto.
Qed.

Lemma Rm_map {A B} (f1 f2 : A → M B) l :
  Forall (λ a, Rm (f1 a) (f2 a)) l → Rm (m_map f1 l) (m_map f2 l).
Proof.
  induction 1 as [|a l Ha _ IH]; cbn; [apply Rm_ret|].
  apply Rm_bind; [done|]. intros b. apply Rm_bind; [done|]. intros bs. apply Rm_ret.
Qed.

Lemma Rm_each {A} (f1 f2 : A → M ()) l :
  Forall (λ a, Rm (f1 a) (f2 a)) l → Rm (m_each f1 l) (m_each f2 l).
Proof.
  induction 1 as [|a l Ha _ IH]; cbn; [apply Rm_ret|]. by apply Rm_bind.
Qed.

Lemma Rm_fields {A} (f1 f2 : A → M Value) l acc :
  Forall (λ kv, Rm (f1 (snd kv)) (f2 (snd kv))) l → Rm (m_fields f1 acc l) (m_fields f2 acc l).
Proof.
  intros Hl. revert acc. induction Hl as [|[k a] l Ha _ IH]; intros acc; cbn; [apply Rm_ret|].
  apply Rm_bind; [done|]. auto.
Qed.

Lemma Rm_filter {A} (f1 f2 : A → M bool) l :
  (∀ a, Rm (f1 a) (f2 a)) → Rm (m_filter f1 l) (m_filter f2 l).
Proof.
  intros Hf. induction l as [|a l IH]; cbn; [apply Rm_ret|].
  apply Rm_bind; [done|]. intros b. apply Rm_bind; [done|]. intros bs. apply Rm_ret.
Qed.

(** ** Expressions *)

Lemma Rm_filter_item m1 m2 item : Rm m1 m2 → Rm (filter_item m1 item) (filter_item m2 item).
Proof.
  intros Hm. apply Rm_bind; [apply Rm_get_vars|]. intros m. destruct (hide item m) as [m' saved].
  apply Rm_bind; [by apply Rm_upd_ctx|]. intros _. apply Rm_bind; [done|]. intros v.
  apply Rm_bind; [by apply Rm_upd_ctx|]. intros _. apply Rm_ret.
Qed.

Lemma builtin_fine name vals : builtin name vals ≠ NoFuel ∧ builtin name vals ≠ Panic.
Proof. unfold builtin. repeat case_match; done. Qed.

Lemma bin_op_fine op lv rv :
  op ≠ Or → op ≠ And → op ≠ Coalesce → bin_op op lv rv ≠ NoFuel ∧ bin_op op lv rv ≠ Panic.
Proof. by destruct op. Qed.

Lemma field_fine b f safe : field b f safe ≠ NoFuel ∧ field b f safe ≠ Panic.
Proof. unfold field. repeat case_match; done. Qed.

Lemma Rm_call name vals : Rm (call name vals) (call name vals).
Proof.
  unfold call. destruct (String.eqb name "secret").
  - destruct (nth_error vals 0 ≫= as_str) as [r|]; [|apply Rm_fail].
    intros s1 s2 Hs. destruct Hs as (Hc & Hi & He).
    pose proof (RE_secrets _ _ r He) as [Hr Hp]. unfold mbind, m_bind. cbn. rewrite <- Hr.
    destruct (secret_value (secrets (snd s1)) r); cbn; by split.
  - apply Rm_lift_ok; apply builtin_fine.
Qed.

Lemma Rm_invoke name args : gate = true → Rm (invoke svc1 name args) (invoke svc2 name args).
Proof.
  intros Hg [c1 e1] [c2 e2] (Hc & Hi & He). cbn in *. subst c2.
  specialize (Hsvc Hg name args e1 e2 He).
  destruct (svc1 name args e1) as [r1 e1'], (svc2 name args e2) as [r2 e2'].
  destruct Hsvc as [<- Hp]. destruct r1 as [[v em]|e| |]; split; try done.
  - destruct Hp as [He' Hem]. split; [done|]. cbn. eauto.
  - destruct Hp as [He' Hem]. by split.
Qed.

Lemma gate_sub (a b : bool) : gate || negb (a || b) = true → gate || negb a = true ∧ gate || negb b = true.
Proof. by destruct gate, a, b. Qed.

Lemma gate_existsb {A} (f : A → bool) l :
  gate || negb (existsb f l) = true → Forall (λ a, gate || negb (f a) = true) l.
Proof.
  induction l as [|a l IH]; cbn; [constructor|]. intros [? ?]%gate_sub. constructor; auto.
Qed.

Lemma Forall_mp {A} (P Q : A → Prop) l : Forall (λ a, P a → Q a) l → Forall P l → Forall Q l.
Proof. induction 1; inversion 1; subst; constructor; auto. Qed.

Notation open e := (gate || negb (expr_writes_bus e) = true).

Lemma Rm_eval e : open e → Rm (eval svc1 e) (eval svc2 e).
Proof.
  induction e as [v|ps IH|n|fs IH|l IH|b f s IH|a b IHa IHb|b IH|a b IHa IHb|n l IH|n fs IH|o e IH
                 |o a b IHa IHb] using expr_ind'; cbn; intros Ho.
  - apply Rm_ret.
  - apply Rm_bind; [|intros; apply Rm_ret]. apply Rm_map. apply gate_existsb in Ho.
    induction IH as [|p ps Hp _ IH]; inversion Ho; subst; constructor; [|auto].
    destruct p; cbn in *; [apply Rm_ret|]. apply Rm_bind; [auto|]. intros; apply Rm_ret.
  - apply Rm_bind; [apply Rm_get_vars|]. intros; apply Rm_ret.
  - apply Rm_bind; [|intros; apply Rm_ret]. apply Rm_fields. apply gate_existsb in Ho.
    eapply Forall_mp; [eapply Forall_impl; [exact IH|]|exact Ho]. by intros [k e].
  - apply Rm_bind; [|intros; apply Rm_ret]. apply Rm_map. apply gate_existsb in Ho.
    exact (Forall_mp _ _ _ IH Ho).
  - apply Rm_bind; [auto|]. intros v. apply Rm_lift_ok; apply field_fine.
  - apply gate_sub in Ho as [? ?]. apply Rm_bind; [auto|]. intros v.
    apply Rm_bind; [auto|]. intros; apply Rm_ret.
  - auto.
  - apply gate_sub in Ho as [? ?]. apply Rm_bind; [auto|]. intros v. destruct v; try apply Rm_ret.
    apply Rm_bind; [|intros; apply Rm_ret]. apply Rm_filter. intros x. apply Rm_filter_item. auto.
  - apply Rm_bind; [|intros; apply Rm_call]. apply Rm_map. apply gate_existsb in Ho.
    exact (Forall_mp _ _ _ IH Ho).
  - assert (gate = true) as Hg by (by destruct gate).
    apply Rm_bind; [|intros; by apply Rm_invoke]. apply Rm_fields.
    eapply Forall_impl; [exact IH|]. intros [k e] He. apply He. by rewrite Hg.
  - apply Rm_bind; [auto|]. intros; apply Rm_ret.
  - apply gate_sub in Ho as [? ?].
    destruct o; apply Rm_bind; auto; intros v;
      try (destruct (truthy v); by auto using Rm_ret);
      try (destruct (is_null v); by auto using Rm_ret);
      apply Rm_bind; auto; intros v'; by apply Rm_lift_ok.
Qed.

(** ** Statements *)

Notation opens s := (gate || negb (stmt_writes_bus s) = true).
Definition panics_ok (b : bool) : Prop := nopanic = true → b = true.

Lemma panics_ok_sub a b : panics_ok (a && b) → panics_ok a ∧ panics_ok b.
Proof. unfold panics_ok. destruct a, b; split; auto. Qed.

Lemma panics_ok_forallb {A} (f : A → bool) l : panics_ok (forallb f l) → Forall (λ a, panics_ok (f a)) l.
Proof. induction l as [|a l IH]; cbn; [constructor|]. intros [? ?]%panics_ok_sub. constructor; auto. Qed.

Lemma assign_fine path v m : path ≠ [] → assign path v m ≠ NoFuel ∧ assign path v m ≠ Panic.
Proof. destruct path as [|x [|k r]]; done. Qed.

Lemma assign_fuel path v m : assign path v m ≠ NoFuel.
Proof. destruct path as [|x [|k r]]; done. Qed.

Lemma Rm_emit_to s m1 m2 : gate = true → Rm m1 m2 → Rm (emit_to s m1) (emit_to s m2).
Proof.
  intros Hg Hm. destruct s; try apply Rm_fail. cbn. destruct (valid_subject s) eqn:E; [|apply Rm_fail].
  apply Rm_bind; [done|]. intros v. apply Rm_upd_ctx. intros c Hc. cbn. auto.
Qed.

Lemma Rm_arms f1 f2 b1 b2 o1 o2 arms :
  Forall (λ a, Rm (f1 (fst (fst a))) (f2 (fst (fst a))) ∧ Rm (b1 (snd a)) (b2 (snd a))) arms →
  Rm o1 o2 → Rm (m_arms f1 b1 o1 arms) (m_arms f2 b2 o2 arms).
Proof.
  intros Ha Ho. induction Ha as [|[[c sp] b] arms [Hc Hb] _ IH]; cbn; [done|].
  apply Rm_bind; [done|]. intros v. by destruct (truthy v).
Qed.

Lemma Rm_block_of l :
  Forall (λ s, opens s → panics_ok (stmt_ok s) → Rm (exec svc1 s) (exec svc2 s)) l →
  gate || negb (existsb stmt_writes_bus l) = true → panics_ok (forallb stmt_ok l) →
  Rm (m_each (exec svc1) l) (m_each (exec svc2) l).
Proof.
  intros H Hg Hp. apply Rm_each. apply gate_existsb in Hg. apply panics_ok_forallb in Hp.
  eapply Forall_mp; [exact (Forall_mp _ _ _ H Hg)|exact Hp].
Qed.

Lemma Rm_exec s : opens s → panics_ok (stmt_ok s) → Rm (exec svc1 s) (exec svc2 s).
Proof.
  induction s as [p e|arms o Harms Ho|x e b Hb|a b|a b|n l] using stmt_ind'; cbn; intros Hg Hp.
  - apply Rm_bind; [by apply Rm_eval|]. intros v. apply Rm_bind; [apply Rm_get_vars|]. intros m.
    apply Rm_bind; [|by intros; apply Rm_upd_ctx]. apply Rm_lift; [apply assign_fuel|].
    intros Hn. apply Hp in Hn. apply assign_fine. by intros ->.
  - apply gate_sub in Hg as [Hg1 Hg2]. apply panics_ok_sub in Hp as [Hp1 Hp2]. apply Rm_arms.
    + apply gate_existsb in Hg1. apply panics_ok_forallb in Hp1.
      induction Harms as [|[[c sp] b] arms Hb _ IH]; inversion Hg1; subst; inversion Hp1; subst;
        constructor; auto.
      cbn in *. match goal with H : _ || negb (_ || _) = true |- _ => apply gate_sub in H as [? ?] end.
      split; [by apply Rm_eval|by apply Rm_block_of].
    + destruct o as [b|]; [by apply Rm_block_of|apply Rm_ret].
  - apply gate_sub in Hg as [Hg1 Hg2]. apply Rm_bind; [by apply Rm_eval|]. intros v.
    destruct v; try apply Rm_ret. apply Rm_each. apply Forall_forall. intros item _.
    apply Rm_bind; [by apply Rm_upd_ctx|]. intros _. by apply Rm_block_of.
  - assert (gate = true) as Hg' by (by destruct gate).
    assert (∀ e, open e) as Hop by (intros; by rewrite Hg').
    apply Rm_bind; [by apply Rm_eval|]. intros v. by apply Rm_emit_to; [|apply Rm_eval].
  - apply gate_sub in Hg as [Hg1 Hg2]. apply Rm_bind; [by apply Rm_eval|]. intros v.
    apply Rm_bind; [by apply Rm_eval|]. intros v'. by apply Rm_upd_ctx.
  - assert (gate = true) as Hg' by (by destruct gate).
    apply Rm_bind.
    { apply Rm_fields, Forall_forall. intros [k e] _. apply Rm_eval. by rewrite Hg'. }
    intros m. apply Rm_bind; [by apply Rm_invoke|]. intros v.
    destruct v; try apply Rm_ret. by apply Rm_upd_ctx.
Qed.

Lemma Rm_exec_block l :
  gate || negb (stmts_write_bus l) = true → panics_ok (forallb stmt_ok l) →
  Rm (exec_block svc1 l) (exec_block svc2 l).
Proof. apply Rm_block_of, Forall_forall. intros s _. apply Rm_exec. Qed.

End Rel.
