(* ===== verification/EvalFacts.v ===== *)
(** * VejasScript: properties of runs

    The engine's side of the interpreter: what its caches may hold, how a
    service reference is resolved, and the theorem that relates the runs of a
    service under two engines ([run_service_ends]).  The properties of [run]
    follow from it: it terminates within the depth limit, caching is
    invisible, a shadow run does not depend on the values of secrets, emits
    go to valid subjects, and a program that does not write to the bus by the
    static test does not. *)

From stdpp Require Import base gmap list strings.
From Stdlib Require Import ZArith Lia Ascii.
From S2P Require Import Prelude Text F64 Json Syntax Analysis Lexer Parser Secrets Eval EvalRel.
Open Scope string_scope.
Open Scope nat_scope.

(** ** Resolution without caches *)

Section Engine.
Context {SD : Serde} {CT : CaseTables} {FL : FloatLib}.
Context (files : string → option string).

Definition dir_of (root pkg : string) : string :=
  if String.eqb pkg "default" then root else path_join (path_join root "packages") pkg.
Definition manifest_of (root pkg : string) : string := path_join (dir_of root pkg) "package.vjs".
Definition service_file (root pkg svc : string) : string :=
  path_join (path_join (dir_of root pkg) "services") (svc ++ ".vjs").

Definition parsed {A} (e : perr → verr) (f : Program → A) (src : string) : res verr A :=
  match parse src with
  | Ok prog => Ok (f prog)
  | Err x => Err (e x)
  | Panic => Panic
  | NoFuel => NoFuel
  end.

(** The exports of a package, from its manifest on disk. *)
Definition exports_spec (root pkg : string) : res verr (list string) :=
  src ← ok_or (files (manifest_of root pkg)) (NoManifest pkg);
  parsed (ManifestError pkg) exports_list src.

(** The statements of a service, from its file on disk. *)
Definition service_spec (root pkg svc : string) : res verr (list Stmt) :=
  src ← ok_or (files (service_file root pkg svc)) (UnknownService (pkg ++ ":" ++ svc));
  parsed (ServiceError (pkg ++ ":" ++ svc)) p_stmts src.

(** Which service a reference names, seen from a package: one of its own, or
    one the other package's manifest exports. *)
Definition resolve_spec (root caller name : string) : res verr (string * string) :=
  let '(pkg, svc) := split_reference caller name in
  if negb (valid_name pkg) || negb (valid_name svc) then Err (InvalidReference name)
  else if String.eqb pkg caller then Ok (pkg, svc)
  else
    l ← exports_spec root pkg;
    if existsb (String.eqb svc) l then Ok (pkg, svc) else Err (NotExported pkg svc).

(** ** What the caches may hold *)

Record coherent (eng : Engine) : Prop := {
  co_exports pkg l : exports eng !! pkg = Some l → exports_spec (project_root eng) pkg = Ok l;
  co_cache pkg svc prog : valid_name pkg = true → valid_name svc = true →
    cache eng !! (pkg ++ ":" ++ svc) = Some prog →
    service_spec (project_root eng) pkg svc = Ok (p_stmts prog)
}.

(** What the caches do not change. *)
Definition same_frame (e1 e2 : Engine) : Prop :=
  project_root e1 = project_root e2 ∧ caller_pkg e1 = caller_pkg e2 ∧
  secrets e1 = secrets e2 ∧ depth e1 = depth e2.

Lemma coherent_empty root pkg s : coherent (with_secrets root pkg s).
Proof. constructor; cbn; intros *; rewrite ?lookup_empty; done. Qed.

Lemma coherent_depth eng d : coherent eng → coherent (with_depth eng d).
Proof. by intros [? ?]; constructor. Qed.
Lemma coherent_pkg eng p : coherent eng → coherent (with_pkg eng p).
Proof. by intros [? ?]; constructor. Qed.

(** A colon separates the two names of a cache key. *)
Lemma valid_name_colon s : valid_name s = true → ¬ byte_in ":" s.
Proof.
  unfold valid_name. intros [_ H]%andb_true_iff Hin.
  by pose proof (all_chars_ascii _ _ ":"%char H Hin eq_refl).
Qed.

Lemma cache_key pkg svc pkg' svc' :
  valid_name pkg = true → valid_name pkg' = true →
  pkg ++ ":" ++ svc = pkg' ++ ":" ++ svc' → pkg = pkg' ∧ svc = svc'.
Proof. intros ?%valid_name_colon ?%valid_name_colon E. by eapply split_unique. Qed.

(** ** Resolution, with caches *)

(** What a step of the engine must give: the answer of the specification, and
    an engine that only its caches tell from the one before. *)
Definition engine_step {A} (eng : Engine) (spec : res verr A) (r : res verr A * Engine) : Prop :=
  fst r = spec ∧ coherent (snd r) ∧ same_frame eng (snd r).

Lemma engine_step_refl {A} eng (r : res verr A) : coherent eng → engine_step eng r (r, eng).
Proof. by intros. Qed.

Lemma pkg_dir_eq eng pkg : pkg_dir eng pkg = dir_of (project_root eng) pkg.
Proof. reflexivity. Qed.

Lemma exports_of_step eng pkg :
  coherent eng → engine_step eng (exports_spec (project_root eng) pkg) (exports_of files pkg eng).
Proof.
  intros Hc. unfold exports_of. destruct (exports eng !! pkg) as [l|] eqn:El.
  { rewrite (co_exports _ Hc _ _ El). by apply engine_step_refl. }
  rewrite pkg_dir_eq. fold (manifest_of (project_root eng) pkg).
  assert (exports_spec (project_root eng) pkg =
          src ← ok_or (files (manifest_of (project_root eng) pkg)) (NoManifest pkg);
          parsed (ManifestError pkg) exports_list src) as Hspec by done.
  destruct (files (manifest_of (project_root eng) pkg)) as [src|]; cbn in Hspec.
  2: { rewrite Hspec. by apply engine_step_refl. }
  unfold parsed in Hspec.
  destruct (parse src) as [prog|e| |]; rewrite Hspec; try (by apply engine_step_refl).
  split; [done|]. split; [|done]. constructor; cbn; [|apply (co_cache _ Hc)].
  intros pkg' l. destruct (decide (pkg' = pkg)) as [->|].
  - rewrite lookup_insert_eq. by intros [= <-].
  - rewrite lookup_insert_ne by done. apply (co_exports _ Hc).
Qed.

Lemma resolve_step eng name :
  coherent eng →
  engine_step eng (resolve_spec (project_root eng) (caller_pkg eng) name) (resolve files name eng).
Proof.
  intros Hc. unfold resolve, resolve_spec. destruct (split_reference _ _) as [pkg svc].
  destruct (_ || _); [by apply engine_step_refl|].
  destruct (String.eqb _ _); [by apply engine_step_refl|].
  pose proof (exports_of_step eng pkg Hc) as (Hr & Hc' & Hf).
  destruct (exports_of files pkg eng) as [r eng']. cbn in Hr, Hc', Hf. rewrite <- Hr.
  destruct r; cbn; [|by split ..]. by destruct (existsb _ _).
Qed.

Lemma resolve_names eng name pkg svc eng' :
  resolve files name eng = (Ok (pkg, svc), eng') → valid_name pkg = true ∧ valid_name svc = true.
Proof.
  unfold resolve. destruct (split_reference _ _) as [p s].
  destruct (_ || _) eqn:E; [done|]. apply orb_false_iff in E as [Hp%negb_false_iff Hs%negb_false_iff].
  intros H. repeat case_match; simplify_eq; done.
Qed.

Lemma service_stmts_step eng pkg svc :
  coherent eng → valid_name pkg = true → valid_name svc = true →
  engine_step eng (service_spec (project_root eng) pkg svc) (service_stmts files pkg svc eng).
Proof.
  intros Hc Hp Hs. unfold service_stmts. destruct (cache eng !! _) as [prog|] eqn:El.
  { rewrite (co_cache _ Hc _ _ _ Hp Hs El). by apply engine_step_refl. }
  unfold service_path. rewrite pkg_dir_eq. fold (service_file (project_root eng) pkg svc).
  assert (service_spec (project_root eng) pkg svc =
          src ← ok_or (files (service_file (project_root eng) pkg svc)) (UnknownService (pkg ++ ":" ++ svc));
          parsed (ServiceError (pkg ++ ":" ++ svc)) p_stmts src) as Hspec by done.
  destruct (files (service_file (project_root eng) pkg svc)) as [src|]; cbn in Hspec.
  2: { rewrite Hspec. by apply engine_step_refl. }
  unfold parsed in Hspec.
  destruct (parse src) as [prog|e| |]; rewrite Hspec; try (by apply engine_step_refl).
  split; [done|]. split; [|done]. constructor; cbn; [apply (co_exports _ Hc)|].
  intros pkg' svc' prog' Hp' Hs'.
  destruct (decide (pkg ++ ":" ++ svc = pkg' ++ ":" ++ svc')) as [E|E].
  - apply cache_key in E as E'; [|done ..]. destruct E' as [<- <-].
    rewrite lookup_insert_eq. by intros [= <-].
  - rewrite lookup_insert_ne by done. by apply (co_cache _ Hc).
Qed.

(** ** Two engines *)

Context (nopanic : bool).

(** The files of the project parse without a panic, when that is asked. *)
Context (files_ok : nopanic = true → ∀ path src, files path = Some src → parse src ≠ Panic).

(** What the two engines are: the same project, each with its own store, the
    stores answering alike. *)
Context (here : string) (st1 st2 : SecretStore).
Context (stores_alike : ∀ r, ends nopanic True (secret_value st1 r) (secret_value st2 r)).

Record at_depth (st : SecretStore) (d : nat) (p : string) (e : Engine) : Prop := {
  ad_root : project_root e = here;
  ad_depth : depth e = d;
  ad_pkg : caller_pkg e = p;
  ad_secrets : secrets e = st;
  ad_coherent : coherent e
}.

Definition alike (d : nat) (p : string) (e1 e2 : Engine) : Prop :=
  at_depth st1 d p e1 ∧ at_depth st2 d p e2.

Lemma at_depth_frame st d p e e' :
  at_depth st d p e → same_frame e e' → coherent e' → at_depth st d p e'.
Proof. intros [] (? & ? & ? & ?) ?. constructor; congruence. Qed.

Lemma alike_depth d d' p e1 e2 : alike d p e1 e2 → alike d' p (with_depth e1 d') (with_depth e2 d').
Proof. intros [[] []]. split; constructor; try done; by apply coherent_depth. Qed.

Lemma alike_pkg d p p' e1 e2 : alike d p e1 e2 → alike d p' (with_pkg e1 p') (with_pkg e2 p').
Proof. intros [[] []]. split; constructor; try done; by apply coherent_pkg. Qed.

Definition emits_valid (l : list emit) : Prop := Forall (λ em, valid_subject (fst em) = true) l.

Lemma emits_valid_emit s v l :
  valid_subject s = true → emits_valid l → emits_valid (l ++ [(s, v)])%list.
Proof. intros. apply Forall_app. split; [done|]. by constructor. Qed.

Lemma parsed_fine {A} e (f : Program → A) src : parsed e f src ≠ NoFuel.
Proof. unfold parsed. pose proof (yields_fuel _ _ (parse_yields src)). by destruct (parse src). Qed.

Lemma exports_spec_fuel root pkg : exports_spec root pkg ≠ NoFuel.
Proof. unfold exports_spec. destruct (files _); cbn; [apply parsed_fine|done]. Qed.

Lemma resolve_spec_fuel root caller name : resolve_spec root caller name ≠ NoFuel.
Proof.
  unfold resolve_spec. destruct (split_reference _ _) as [pkg svc]. destruct (_ || _); [done|].
  destruct (String.eqb _ _); [done|]. pose proof (exports_spec_fuel root pkg).
  destruct (exports_spec root pkg); cbn; try done. by destruct (existsb _ _).
Qed.

Lemma service_spec_fuel root pkg svc : service_spec root pkg svc ≠ NoFuel.
Proof. unfold service_spec. destruct (files _); cbn; [apply parsed_fine|done]. Qed.

Lemma parsed_panic {A} e (f : Program → A) src path :
  nopanic = true → files path = Some src → parsed e f src ≠ Panic.
Proof. intros Hn Hf. pose proof (files_ok Hn _ _ Hf). unfold parsed. by destruct (parse src). Qed.

Lemma resolve_spec_panic root caller name : resolve_spec root caller name = Panic → nopanic = false.
Proof.
  intros H. apply not_true_is_false. intros Hn. revert H.
  unfold resolve_spec. destruct (split_reference _ _) as [pkg svc]. destruct (_ || _); [done|].
  destruct (String.eqb _ _); [done|]. unfold exports_spec.
  destruct (files (manifest_of root pkg)) as [src|] eqn:Hf; cbn; [|done].
  pose proof (parsed_panic (ManifestError pkg) exports_list src _ Hn Hf).
  destruct (parsed _ _ _); cbn; try done. by destruct (existsb _ _).
Qed.

Lemma service_spec_panic root pkg svc : service_spec root pkg svc = Panic → nopanic = false.
Proof.
  intros H. apply not_true_is_false. intros Hn. revert H. unfold service_spec.
  destruct (files (service_file root pkg svc)) as [src|] eqn:Hf; cbn; [|done].
  exact (parsed_panic _ _ src _ Hn Hf).
Qed.

Lemma service_spec_ok root pkg svc l : service_spec root pkg svc = Ok l → forallb stmt_ok l = true.
Proof.
  unfold service_spec, parsed. intros H. apply bind_Ok in H as (src & _ & H).
  destruct (parse src) eqn:E; try done. injection H as <-. by eapply parse_stmt_ok.
Qed.

Lemma alike_secrets d p e1 e2 r :
  alike d p e1 e2 →
  ends nopanic True (secret_value (secrets e1) r) (secret_value (secrets e2) r).
Proof. intros [[_ _ _ -> _] [_ _ _ -> _]]. apply stores_alike. Qed.

(** A block under two engines, given its services. *)
Lemma exec_block_ends d p svc1 svc2 l c e1 e2 :
  Rsvc (alike d p) emits_valid nopanic svc1 svc2 →
  panics_ok nopanic (forallb stmt_ok l) → emits_valid (emits c) → alike d p e1 e2 →
  let '(r1, (c1, e1')) := exec_block svc1 l (c, e1) in
  let '(r2, (c2, e2')) := exec_block svc2 l (c, e2) in
  ends nopanic (c1 = c2 ∧ emits_valid (emits c1) ∧ alike d p e1' e2') r1 r2.
Proof.
  intros Hsvc Hok Hc Ha.
  pose proof (Rm_exec_block (alike d p) emits_valid true nopanic svc1 svc2
    (alike_secrets d p) (λ _, Hsvc) (λ _, emits_valid_emit) l eq_refl Hok (c, e1) (c, e2)) as H.
  destruct (exec_block svc1 l (c, e1)) as [r1 [c1 e1']].
  destruct (exec_block svc2 l (c, e2)) as [r2 [c2 e2']]. by apply H.
Qed.

Lemma alike_steps {A} d p e1 e2 (f : string → string → res verr A) r1 r2 e1' e2' :
  alike d p e1 e2 →
  engine_step e1 (f (project_root e1) (caller_pkg e1)) (r1, e1') →
  engine_step e2 (f (project_root e2) (caller_pkg e2)) (r2, e2') →
  r1 = r2 ∧ r1 = f here p ∧ alike d p e1' e2'.
Proof.
  intros [A1 A2] (H1 & Hc1 & Hf1) (H2 & Hc2 & Hf2). cbn in *.
  rewrite (ad_root _ _ _ _ A1), (ad_pkg _ _ _ _ A1) in H1.
  rewrite (ad_root _ _ _ _ A2), (ad_pkg _ _ _ _ A2) in H2.
  split; [congruence|]. split; [done|]. split; by eapply at_depth_frame.
Qed.

Lemma ends_err {A B} (R : Prop) (P : A → B → list emit → Prop) e :
  R → ends nopanic (R ∧ ∀ v em l, Err e = Ok (v, em) → P v em l) (@Err verr (A * B) e) (Err e).
Proof. by intros. Qed.

(** What a service gives from the statements it has. *)
Lemma service_block_ends n m d p pkg stmts args e1 e2 :
  Rsvc (alike (S d) pkg) emits_valid nopanic (run_service files n) (run_service files m) →
  forallb stmt_ok stmts = true → alike (S d) p e1 e2 →
  let '(r1, (c1, e1')) :=
    exec_block (run_service files n) stmts (service_ctx args, with_pkg e1 pkg) in
  let '(r2, (c2, e2')) :=
    exec_block (run_service files m) stmts (service_ctx args, with_pkg e2 pkg) in
  let out c := (VObject (map_remove "event" (vars c)), emits c) in
  ends nopanic
    (alike d p (with_depth (with_pkg e1' p) (pred (depth e1')))
               (with_depth (with_pkg e2' p) (pred (depth e2'))) ∧
     ∀ v em l, (_ ← r1; Ok (out c1)) = Ok (v, em) → emits_valid l → emits_valid (l ++ em)%list)
    (_ ← r1; Ok (out c1)) (_ ← r2; Ok (out c2)).
Proof.
  intros IH Hok Ha. apply (alike_pkg _ _ pkg) in Ha.
  pose proof (exec_block_ends (S d) pkg _ _ stmts (service_ctx args) _ _ IH
    (λ _, Hok) (Forall_nil_2 _) Ha) as H.
  destruct (exec_block (run_service files n) _ _) as [r1 [c1 e7]].
  destruct (exec_block (run_service files m) _ _) as [r2 [c2 e8]].
  destruct H as [<- H]. split; [destruct r1; try done; by destruct H as [-> _]|].
  assert (∀ (H : alike (S d) pkg e7 e8), alike d p (with_depth (with_pkg e7 p) (pred (depth e7)))
               (with_depth (with_pkg e8 p) (pred (depth e8)))) as Hback.
  { intros Hal. assert (depth e7 = S d ∧ depth e8 = S d) as [-> ->].
    { split; [apply (ad_depth _ _ _ _ (proj1 Hal))|apply (ad_depth _ _ _ _ (proj2 Hal))]. }
    apply alike_depth with (S d). by apply alike_pkg with pkg. }
  destruct r1; cbn in *; try done; destruct H as (-> & Hem & Hal); (split; [auto|]); [|done].
  intros v em l [= _ <-] Hl. by apply Forall_app.
Qed.

Lemma run_service_ends n m d p :
  S max_depth <= n + d → S max_depth <= m + d → d <= max_depth →
  Rsvc (alike d p) emits_valid nopanic (run_service files n) (run_service files m).
Proof.
  revert m d p. induction n as [|n IH]; intros [|m] d p Hn Hm Hd; [lia..|].
  intros name args e1 e2 Ha. cbn [run_service].
  rewrite (ad_depth _ _ _ _ (proj1 Ha)), (ad_depth _ _ _ _ (proj2 Ha)).
  destruct (max_depth <=? d) eqn:Emax; [by apply ends_err|]. apply Nat.leb_gt in Emax.
  pose proof (resolve_step e1 name (ad_coherent _ _ _ _ (proj1 Ha))) as S1.
  pose proof (resolve_step e2 name (ad_coherent _ _ _ _ (proj2 Ha))) as S2.
  destruct (resolve files name e1) as [r1 e1'] eqn:E1.
  destruct (resolve files name e2) as [r2 e2'].
  destruct (alike_steps d p e1 e2 (λ r c, resolve_spec r c name) _ _ _ _ Ha S1 S2) as (<- & Hr & Hal).
  pose proof (resolve_spec_fuel here p name) as Hfuel.
  pose proof (resolve_spec_panic here p name) as Hpanic.
  rewrite <- Hr in Hfuel, Hpanic.
  destruct r1 as [[pkg svc]|e| |]; [|by apply ends_err|split; [done|by apply Hpanic]|done].
  apply resolve_names in E1 as [Hv1 Hv2].
  rewrite (ad_depth _ _ _ _ (proj1 Hal)), (ad_depth _ _ _ _ (proj2 Hal)).
  apply (alike_depth _ (S d)) in Hal. clear Hr Hfuel Hpanic S1 S2 Ha.
  set (e3 := with_depth e1' (S d)) in *. set (e4 := with_depth e2' (S d)) in *. clearbody e3 e4.
  pose proof (service_stmts_step e3 pkg svc (ad_coherent _ _ _ _ (proj1 Hal)) Hv1 Hv2) as S1.
  pose proof (service_stmts_step e4 pkg svc (ad_coherent _ _ _ _ (proj2 Hal)) Hv1 Hv2) as S2.
  destruct (service_stmts files pkg svc e3) as [r1 e5], (service_stmts files pkg svc e4) as [r2 e6].
  destruct (alike_steps (S d) p e3 e4 (λ r _, service_spec r pkg svc) _ _ _ _ Hal S1 S2)
    as (<- & Hr & Hal'). clear S1 S2 Hal.
  pose proof (service_spec_fuel here pkg svc) as Hfuel.
  pose proof (service_spec_panic here pkg svc) as Hpanic.
  pose proof (service_spec_ok here pkg svc) as Hok.
  rewrite <- Hr in Hfuel, Hpanic, Hok. clear Hr.
  destruct r1 as [stmts|e| |]; [| |split; [done|by apply Hpanic]|done].
  - rewrite (ad_pkg _ _ _ _ (proj1 Hal')), (ad_pkg _ _ _ _ (proj2 Hal')).
    specialize (IH m (S d) pkg ltac:(lia) ltac:(lia) ltac:(lia)).
    pose proof (service_block_ends n m d p pkg stmts args e5 e6 IH (Hok _ eq_refl) Hal') as H.
    destruct (exec_block (run_service files n) _ _) as [r1 [c1 e7]].
    by destruct (exec_block (run_service files m) _ _) as [r2 [c2 e8]].
  - rewrite (ad_depth _ _ _ _ (proj1 Hal')), (ad_depth _ _ _ _ (proj2 Hal')).
    apply ends_err. by apply alike_depth with (S d).
Qed.

(** ** Runs *)

(** Two runs of a program from engines that are alike. *)
Lemma run_ends p prog event e1 e2 :
  panics_ok nopanic (forallb stmt_ok (p_stmts prog)) → alike 0 p e1 e2 →
  let '(r1, e1') := run files prog event e1 in
  let '(r2, e2') := run files prog event e2 in
  ends nopanic (alike 0 p e1' e2' ∧ ∀ c, r1 = Ok c → emits_valid (emits c)) r1 r2.
Proof.
  intros Hok Ha. unfold run.
  pose proof (exec_block_ends 0 p _ _ (p_stmts prog) (event_ctx event) e1 e2
    (run_service_ends (S max_depth) (S max_depth) 0 p ltac:(lia) ltac:(lia) ltac:(lia))
    Hok (Forall_nil_2 _) Ha) as H.
  destruct (exec_block _ (p_stmts prog) (event_ctx event, e1)) as [r1 [c1 e1']].
  destruct (exec_block _ (p_stmts prog) (event_ctx event, e2)) as [r2 [c2 e2']].
  destruct H as [<- H]. split; [destruct r1; cbn in *; try done; by destruct H as [-> _]|].
  destruct r1; cbn in *; try done; destruct H as (<- & Hem & Hal); (split; [done|]); [|done].
  by intros c [= <-].
Qed.

End Engine.
