(* ===== verification/Concrete.v ===== *)
(** * Concrete instances

    Instances of the classes the model leaves abstract, with which examples
    and witnesses are evaluated: letter case of ASCII, powers of ten by
    repeated multiplication, and a printer of JSON values that has the laws of
    [SerdeOk].  Nothing but examples and witnesses uses them. *)

From stdpp Require Import base gmap list strings countable.
From Stdlib Require Import ZArith Lia Ascii SpecFloat.
From S2P Require Import Prelude Text F64 Json Syntax Analysis Lexer Parser Secrets Eval.
Open Scope string_scope.

#[export] Instance ascii_case : CaseTables :=
  {| to_uppercase := to_ascii_uppercase; to_lowercase := to_ascii_lowercase |}.

#[export] Instance float_lib : FloatLib := {| powi10 z := f64_of_Z (10 ^ z) |}.

(** ** A printer with the laws *)

Notation leaf := (() + bool + Z + string)%type.

Fixpoint enc (v : Value) : gen_tree leaf :=
  match v with
  | VNull => GenLeaf (inl (inl (inl ())))
  | VBool b => GenLeaf (inl (inl (inr b)))
  | VNumber (NInt z) => GenLeaf (inl (inr z))
  | VNumber (NFloat (S754_zero s)) => GenNode 2 [GenLeaf (inl (inl (inr s)))]
  | VNumber (NFloat (S754_finite s m e)) =>
    GenNode 2 [GenLeaf (inl (inl (inr s))); GenLeaf (inl (inr (Zpos m))); GenLeaf (inl (inr e))]
  | VNumber (NFloat _) => GenLeaf (inl (inl (inl ())))
  | VString s => GenLeaf (inr s)
  | VArray l => GenNode 0 (map enc l)
  | VObject m =>
    GenNode 1 (flat_map (λ kv, match kv with (k, v) => [GenLeaf (inr k); enc v] end) m)
  end.

Fixpoint dec (t : gen_tree leaf) : option Value :=
  match t with
  | GenLeaf (inl (inl (inl _))) => Some VNull
  | GenLeaf (inl (inl (inr b))) => Some (VBool b)
  | GenLeaf (inl (inr z)) => Some (VNumber (NInt z))
  | GenLeaf (inr s) => Some (VString s)
  | GenNode O l =>
    (fix go (l : list (gen_tree leaf)) (acc : list Value) :=
       match l with
       | [] => Some (VArray (rev acc))
       | t :: r => match dec t with Some v => go r (v :: acc) | None => None end
       end) l []
  | GenNode 2 [GenLeaf (inl (inl (inr s)))] => Some (VNumber (NFloat (S754_zero s)))
  | GenNode 2 [GenLeaf (inl (inl (inr s))); GenLeaf (inl (inr (Zpos m))); GenLeaf (inl (inr e))] =>
    Some (VNumber (NFloat (S754_finite s m e)))
  | GenNode _ l =>
    (fix go (l : list (gen_tree leaf)) (acc : smap Value) :=
       match l with
       | [] => Some (VObject (rev acc))
       | GenLeaf (inr k) :: t :: r =>
         match dec t with Some v => go r ((k, v) :: acc) | None => None end
       | _ => None
       end) l []
  end.

Lemma dec_enc n v : value_ok_at n v = true → dec (enc v) = Some v.
Proof.
  revert n. induction v as [|x|z|x|l IH|m IH] using value_ind'; intros n; try done.
  - by destruct z.
  - destruct n as [|n]; [done|]. intros Hv. cbn. cbn in Hv.
    assert (∀ acc, (fix go (l : list (gen_tree leaf)) (acc : list Value) :=
       match l with
       | [] => Some (VArray (rev acc))
       | t :: r => match dec t with Some v => go r (v :: acc) | None => None end
       end) (map enc l) acc = Some (VArray (rev acc ++ l))) as H.
    { induction IH as [|x l Hx _ IHl]; intros acc; cbn; [by rewrite app_nil_r|].
      cbn in Hv. apply andb_true_iff in Hv as [? ?]. rewrite (Hx n) by done.
      rewrite IHl by done. cbn. by rewrite <- app_assoc. }
    apply (H []).
  - destruct n as [|n]; [done|]. intros Hv. cbn. cbn in Hv. apply andb_true_iff in Hv as [_ Hv].
    assert (∀ acc, (fix go (l : list (gen_tree leaf)) (acc : smap Value) :=
       match l with
       | [] => Some (VObject (rev acc))
       | GenLeaf (inr k) :: t :: r =>
         match dec t with Some v => go r ((k, v) :: acc) | None => None end
       | _ => None
       end) (flat_map (λ kv, match kv with (k, v) => [GenLeaf (inr k); enc v] end) m) acc
         = Some (VObject (rev acc ++ m))) as H.
    { induction IH as [|[k x] l Hx _ IHl]; intros acc; cbn; [by rewrite app_nil_r|].
      cbn in Hv. apply andb_true_iff in Hv as [[? ?]%andb_true_iff ?]. cbn in Hx; rewrite (Hx n) by done.
      rewrite IHl by done. cbn. by rewrite <- app_assoc. }
    apply (H []).
Qed.

Definition print (v : Value) : string := dec_of_N (Npos (encode (enc v))).
Definition unprint (s : string) : option Value :=
  match digits_val s 0 with
  | Some (Npos p) => t ← decode p; dec t
  | _ => None
  end.

#[export] Instance printer : Serde :=
  {| to_json := print; to_json_pretty := print; from_json := unprint |}.

Lemma unprint_print v : value_ok v = true → unprint (print v) = Some v.
Proof.
  intros Hv. unfold unprint, print. destruct (dec_of_N_spec (Npos (encode (enc v)))) as [-> _].
  rewrite decode_encode. cbn. by eapply dec_enc.
Qed.

#[export] Instance printer_ok : SerdeOk.
Proof.
  constructor; [apply unprint_print|apply unprint_print| |];
    intros v; destruct (dec_of_N_spec (Npos (encode (enc v)))) as (_ & Hne & H); [|exact Hne].
  destruct (str_contains _ _) eqn:E; [|done]. exfalso.
  apply str_contains_byte in E.
  by pose proof (all_chars_ascii _ _ _ H E eq_refl).
Qed.

Example print_round :
  from_json (to_json (obj [("a", VArray [vint 1; VBool true; VNull]); ("b", VString "x")])) =
  Some (obj [("a", VArray [vint 1; VBool true; VNull]); ("b", VString "x")]).
Proof. vm_compute. reflexivity. Qed.
