(* ===== verification/RunProps.v ===== *)
(** * VejasScript: what a run guarantees

    The properties of [run], each from the relational theorems of EvalRel.v
    and EvalFacts.v, with a concrete project to show that their hypotheses
    hold. *)

From stdpp Require Import base gmap list strings.
From Stdlib Require Import ZArith Lia Ascii.
From S2P Require Import Prelude Text F64 Json Syntax Analysis Lexer Parser Secrets Eval EvalRel EvalFacts Concrete.
Open Scope string_scope.
Open Scope nat_scope.

(** A store that answers every request. *)
Definition store_returns (s : SecretStore) : Prop := ∀ r, returns (ss_get s r).

Lemma redacted_returns s : store_returns s → store_returns (redacted s).
Proof. intros H r. specialize (H r). cbn. by destruct (ss_get s r). Qed.

Lemma store_ends nopanic s1 s2 :
  store_returns s1 → (∀ r, ss_get s1 r = ss_get s2 r) →
  ∀ r, ends nopanic True (secret_value s1 r) (secret_value s2 r).
Proof.
  intros Hs He r. unfold secret_value. rewrite <- He. specialize (Hs r).
  by destruct (ss_get s1 r).
Qed.

Section Props.
Context {SD : Serde} {CT : CaseTables} {FL : FloatLib}.

(** No file of the project makes the parser panic. *)
Definition files_parse (files : string → option string) : Prop :=
  ∀ path src, files path = Some src → parse src ≠ Panic.

Lemma at_depth_with files store root pkg :
  at_depth files root store 0 pkg (with_secrets root pkg store).
Proof. constructor; try done; apply coherent_empty. Qed.

(** ** Purity of expressions *)

Section Pure.
Context (svc : string → smap Value → Engine → res verr (Value * list emit) * Engine).

(** A computation that leaves the variables as they were. *)
Definition keeps_vars {A} (m : M A) : Prop :=
  ∀ s, map_ok (vars (fst s)) →
    match m s with (Ok _, s') => vars (fst s') = vars (fst s) | _ => True end.

Lemma keeps_vars_ret {A} (a : A) : keeps_vars (mret a).
Proof. done. Qed.

Lemma keeps_lift {A} (r : res verr A) : keeps_vars (lift r).
Proof. intros s _. by destruct r. Qed.

Lemma keeps_vars_bind {A B} (m : M A) (f : A → M B) :
  keeps_vars m → (∀ a, keeps_vars (f a)) → keeps_vars (m ≫= f).
Proof.
  intros Hm Hf s Hs. specialize (Hm s Hs). unfold mbind, m_bind.
  destruct (m s) as [[a|e| |] s']; try done.
  assert (Hs' : map_ok (vars (fst s'))) by (by rewrite Hm). specialize (Hf a s' Hs').
  destruct (f a s') as [[b|e| |] s2]; try done. congruence.
Qed.

Lemma keeps_map {A B} (f : A → M B) l : Forall (λ a, keeps_vars (f a)) l → keeps_vars (m_map f l).
Proof.
  induction 1 as [|a l Ha _ IH]; cbn; [apply keeps_vars_ret|].
  apply keeps_vars_bind; [done|]. intros b. apply keeps_vars_bind; [done|]. intros. apply keeps_vars_ret.
Qed.

Lemma keeps_fields {A} (f : A → M Value) l acc :
  Forall (λ kv, keeps_vars (f (snd kv))) l → keeps_vars (m_fields f acc l).
Proof.
  intros Hl. revert acc. induction Hl as [|[k a] l Ha _ IH]; intros acc; cbn; [apply keeps_vars_ret|].
  apply keeps_vars_bind; [done|]. auto.
Qed.

Lemma keeps_filter {A} (f : A → M bool) l : (∀ a, keeps_vars (f a)) → keeps_vars (m_filter f l).
Proof.
  intros Hf. induction l as [|a l IH]; cbn; [apply keeps_vars_ret|].
  apply keeps_vars_bind; [done|]. intros b. apply keeps_vars_bind; [done|]. intros. apply keeps_vars_ret.
Qed.

Lemma restore_cons k old l m :
  restore m ((k, old) :: l) =
  restore (match old with Some v => map_insert k v m | None => map_remove k m end) l.
Proof. reflexivity. Qed.

Lemma restore_get (l : list (string * option Value)) (m m0 : smap Value) k :
  Forall (λ p, snd p = map_get (fst p) m0) l →
  map_get k (restore m l) =
  if bool_decide (k ∈ map fst l) then map_get k m0 else map_get k m.
Proof.
  intros Hl. revert m. induction Hl as [|[k1 old] l Ho _ IH]; intros m.
  { cbn. rewrite bool_decide_false; [done|]. apply not_elem_of_nil. }
  cbn in Ho. subst old. rewrite restore_cons, IH. cbn [map fst].
  destruct (decide (k ∈ map fst l)) as [Hin|Hin].
  - rewrite !bool_decide_true; [done|by right|done].
  - rewrite (bool_decide_false (k ∈ map fst l)) by done.
    destruct (decide (k = k1)) as [->|Hne].
    + rewrite bool_decide_true by left. destruct (map_get k1 m0) eqn:E.
      * by rewrite map_get_insert_eq.
      * rewrite map_get_remove. by rewrite String.eqb_refl.
    + rewrite bool_decide_false by (rewrite elem_of_cons; naive_solver).
      destruct (map_get k1 m0).
      * by rewrite map_get_insert_ne.
      * rewrite map_get_remove. by destruct (String.eqb_spec k k1).
Qed.

Lemma restore_ok m l : map_ok m → map_ok (restore m l).
Proof.
  intros H. unfold restore. apply fold_left_ind; [done|].
  intros a [k [v|]] _ Ha; [by apply map_insert_ok|by apply map_remove_ok].
Qed.

Lemma hide_restore item m :
  map_ok m → map_ok (fst (hide item m)) ∧ restore (fst (hide item m)) (snd (hide item m)) = m.
Proof.
  intros Hm. destruct item; try done. cbn [hide fst snd].
  assert (map_ok (map_extend m m0)) as Hx by (by apply map_extend_ok).
  split; [done|]. apply map_ext; [by apply restore_ok|done|]. intros k.
  rewrite (restore_get _ _ m).
  2: { apply Forall_forall. intros [k' o'] Hin. apply list_elem_of_In, in_map_iff in Hin.
       by destruct Hin as ([? ?] & [= <- <-] & _). }
  rewrite map_map. destruct (decide (k ∈ map (λ x : string * Value, fst x) m0)) as [Hin|Hin].
  - by rewrite bool_decide_true.
  - rewrite bool_decide_false by done. rewrite map_get_extend.
    rewrite map_get_not_key; [done|]. rewrite map_rev. intros H. apply Hin.
    by apply list_elem_of_In, in_rev, list_elem_of_In.
Qed.

Lemma keeps_filter_item cond item : keeps_vars cond → keeps_vars (filter_item cond item).
Proof.
  intros Hc [c eng] Hok. cbn in Hok. pose proof (hide_restore item (vars c) Hok) as [H1 H2].
  unfold filter_item, mbind, m_bind. cbn [get_vars fst snd].
  destruct (hide item (vars c)) as [m' saved]. cbn in *.
  specialize (Hc (with_vars c m', eng) H1).
  destruct (cond (with_vars c m', eng)) as [[v|e| |] [c' eng']]; cbn in *; try done.
  by rewrite Hc.
Qed.

Lemma keeps_invoke name args : keeps_vars (invoke svc name args).
Proof. intros [c eng] _. cbn. by destruct (svc name args eng) as [[[]|e| |] ?]. Qed.

Lemma keeps_call name vals : keeps_vars (call name vals).
Proof.
  unfold call. destruct (String.eqb _ _); [|apply keeps_lift].
  destruct (_ ≫= _); [|apply keeps_lift].
  apply keeps_vars_bind; [done|]. intros eng. apply keeps_vars_bind; [apply keeps_lift|].
  intros. apply keeps_vars_ret.
Qed.

Lemma keeps_eval e : keeps_vars (eval svc e).
Proof.
  induction e as [v|ps IH|n|fs IH|l IH|b f s IH|a b IHa IHb|b IH|a b IHa IHb|n l IH|n fs IH|o e IH
                 |o a b IHa IHb] using expr_ind'; cbn.
  - apply keeps_vars_ret.
  - apply keeps_vars_bind; [|intros; apply keeps_vars_ret]. apply keeps_map. eapply Forall_impl; [exact IH|].
    intros [s|e] He; [apply keeps_vars_ret|]. apply keeps_vars_bind; [done|intros; apply keeps_vars_ret].
  - apply keeps_vars_bind; [done|intros; apply keeps_vars_ret].
  - apply keeps_vars_bind; [by apply keeps_fields|intros; apply keeps_vars_ret].
  - apply keeps_vars_bind; [by apply keeps_map|intros; apply keeps_vars_ret].
  - apply keeps_vars_bind; [done|intros; apply keeps_lift].
  - apply keeps_vars_bind; [done|]. intros. apply keeps_vars_bind; [done|intros; apply keeps_vars_ret].
  - done.
  - apply keeps_vars_bind; [done|]. intros v. destruct v; try apply keeps_vars_ret.
    apply keeps_vars_bind; [|intros; apply keeps_vars_ret]. apply keeps_filter. intros x.
    by apply keeps_filter_item.
  - apply keeps_vars_bind; [by apply keeps_map|intros; apply keeps_call].
  - apply keeps_vars_bind; [by apply keeps_fields|intros; apply keeps_invoke].
  - apply keeps_vars_bind; [done|intros; apply keeps_vars_ret].
  - destruct o; apply keeps_vars_bind; auto; intros v;
      try (destruct (truthy v); by auto using keeps_vars_ret);
      try (destruct (is_null v); by auto using keeps_vars_ret);
      apply keeps_vars_bind; auto using keeps_lift.
Qed.

(** Evaluating an expression, filters and invokes included, changes no
    variable: the fields a filter binds while it tests an item are put back. *)
Theorem eval_keeps_vars e c eng v c' eng' :
  map_ok (vars c) → eval svc e (c, eng) = (Ok v, (c', eng')) → vars c' = vars c.
Proof. intros Hok E. pose proof (keeps_eval e (c, eng) Hok) as H. by rewrite E in H. Qed.

(** The expression that reads an assignment's target. *)
Definition path_expr (path : list string) : Expr :=
  match path with
  | [] => ELit VNull
  | x :: rest => fold_left (λ e k, EField e k false) rest (EVar x)
  end.

Lemma eval_var x c eng :
  eval svc (EVar x) (c, eng) = (Ok (default VNull (map_get x (vars c))), (c, eng)).
Proof. reflexivity. Qed.

Lemma eval_field_obj e k o s :
  eval svc e s = (Ok (VObject o), s) →
  eval svc (EField e k false) s = (Ok (default VNull (map_get k o)), s).
Proof. intros He. cbn. unfold mbind at 1, m_bind. by rewrite He. Qed.

Lemma set_path_read k rest root v e s :
  eval svc e s = (Ok (set_path root k rest v), s) →
  eval svc (fold_left (λ e k, EField e k false) (k :: rest) e) s = (Ok v, s).
Proof.
  revert k root e. induction rest as [|k' rest IH]; intros k root e He; cbn [fold_left].
  - cbn [set_path] in He. rewrite (eval_field_obj _ _ _ _ He). by rewrite map_get_insert_eq.
  - cbn [set_path] in He. eapply (IH k'). rewrite (eval_field_obj _ _ _ _ He).
    by rewrite map_get_insert_eq.
Qed.

(** An assignment evaluates its right side, then a read of the same path
    gives that value, and no other variable changes. *)
Theorem assign_read_back path e s v s1 :
  path ≠ [] → eval svc e s = (Ok v, s1) →
  ∃ s2, exec svc (SAssign path e) s = (Ok (), s2) ∧
    eval svc (path_expr path) s2 = (Ok v, s2) ∧
    (∀ x, head path ≠ Some x → map_get x (vars (fst s2)) = map_get x (vars (fst s1))) ∧
    emits (fst s2) = emits (fst s1) ∧ snd s2 = snd s1.
Proof.
  intros Hp He. destruct path as [|x rest]; [done|].
  assert (∃ m', assign (x :: rest) v (vars (fst s1)) = Ok m' ∧
    (∀ y, x ≠ y → map_get y m' = map_get y (vars (fst s1))) ∧
    ∀ c, vars c = m' → ∀ eng, eval svc (path_expr (x :: rest)) (c, eng) = (Ok v, (c, eng)))
    as (m' & Ha & Ho & Hr).
  { destruct rest as [|k rest]; (eexists; split; [reflexivity|]); (split; [intros; by rewrite map_get_insert_ne|]);
      intros c Hc eng.
    - cbn [path_expr fold_left]. by rewrite eval_var, Hc, map_get_insert_eq.
    - eapply set_path_read. rewrite eval_var, Hc, map_get_insert_eq. reflexivity. }
  exists (with_vars (fst s1) m', snd s1). split.
  { cbn [exec]. unfold mbind, m_bind. rewrite He. cbn [get_vars fst snd]. unfold lift. by rewrite Ha. }
  split; [by apply Hr|]. split; [|done].
  intros y Hy. cbn. apply Ho. cbn in Hy. congruence.
Qed.
End Pure.

(** A JSON float and the integer of the same value are neither equal nor
    ordered strictly by the language, yet each is at most the other: [==] and
    [<=] disagree. *)
Theorem number_equality_incoherent z :
  f64_is_finite (f64_of_Z z) = true →
  let i := VNumber (NInt z) in let f := VNumber (NFloat (f64_of_Z z)) in
  bin_op OEq i f = Ok (VBool false) ∧ bin_op OLt i f = Ok (VBool false) ∧
  bin_op OGt i f = Ok (VBool false) ∧ bin_op OLe i f = Ok (VBool true) ∧
  bin_op OGe i f = Ok (VBool true).
Proof.
  intros Hf. cbn. unfold compare_op, ordering. cbn. by rewrite f64_cmp_refl.
Qed.

(** ** Runs *)

(** A run that the static test calls read-only. *)
Lemma readonly_run src prog files files' event eng :
  parse src = Ok prog → writes_bus prog = false → store_returns (secrets eng) →
  ∃ r, returns r ∧ run files prog event eng = (r, eng) ∧ run files' prog event eng = (r, eng) ∧
       ∀ c, r = Ok c → emits c = [].
Proof.
  intros Hp Hw Hs. unfold run.
  pose proof (Rm_exec_block (λ e1 e2, e1 = eng ∧ e2 = eng) (λ l, l = []) false true
    (run_service files (S max_depth)) (run_service files' (S max_depth))) as H.
  specialize (H ltac:(intros e1 e2 r [-> ->]; by apply store_ends) ltac:(done) ltac:(done)
    (p_stmts prog)).
  unfold writes_bus in Hw. rewrite Hw in H.
  specialize (H eq_refl (λ _, parse_stmt_ok _ _ Hp) (event_ctx event, eng) (event_ctx event, eng)
    ltac:(done)).
  destruct (exec_block (run_service files _) _ _) as [r1 [c1 e1]].
  destruct (exec_block (run_service files' _) _ _) as [r2 [c2 e2]].
  destruct H as [Hr H]. cbn in Hr, H. subst r2.
  destruct r1; try done; destruct H as (Hc & Hi & He1 & He2); cbn in Hc, Hi, He1, He2; subst c2 e1 e2.
  - exists (Ok c1). repeat split; try done. by intros c [= <-].
  - exists (Err e). by repeat split.
Qed.

(** C14: a program that the static test calls read-only does not write to the
    bus: whatever the event, its run emits nothing, leaves the engine as it
    was and reads no file of the project, so that it invokes no service. *)
Theorem writes_bus_sound src prog event eng :
  parse src = Ok prog → writes_bus prog = false → store_returns (secrets eng) →
  ∃ r, returns r ∧ (∀ files, run files prog event eng = (r, eng)) ∧ ∀ c, r = Ok c → emits c = [].
Proof.
  intros Hp Hw Hs. set (none := λ _ : string, @None string).
  destruct (readonly_run src prog none none event eng Hp Hw Hs) as (r & Hr & E & _ & Hc).
  exists r. split; [done|]. split; [|done]. intros files.
  destruct (readonly_run src prog none files event eng Hp Hw Hs) as (r' & _ & E1 & E2 & _).
  congruence.
Qed.

(** Two shadow runs whose stores resolve the same references. *)
Lemma shadow_runs_agree files prog event root pkg s1 s2 :
  store_returns s1 → same_domain s1 s2 →
  fst (run files prog event (shadow s1 root pkg)) = fst (run files prog event (shadow s2 root pkg)).
Proof.
  intros Hs Hd.
  pose proof (run_ends files false ltac:(done) root (redacted s1) (redacted s2)
    (store_ends _ _ _ (redacted_returns _ Hs) (λ r, redacted_same_domain _ _ r Hd))
    pkg prog event _ _ ltac:(done) (conj (at_depth_with _ _ _ _) (at_depth_with _ _ _ _))) as H.
  unfold shadow. destruct (run files prog event _), (run files prog event _).
  by destruct H as [-> _].
Qed.

(** A run beside itself. *)
Lemma run_ends_self files prog event store root pkg eng (nopanic : bool) :
  (nopanic = true → files_parse files) → store_returns store →
  panics_ok nopanic (forallb stmt_ok (p_stmts prog)) → at_depth files root store 0 pkg eng →
  let '(r, eng') := run files prog event eng in
  ends nopanic (at_depth files root store 0 pkg eng' ∧ ∀ c, r = Ok c → emits_valid (emits c)) r r.
Proof.
  intros Hf Hs Hok Ha.
  pose proof (run_ends files nopanic Hf root store store (store_ends _ _ _ Hs (λ _, eq_refl))
    pkg prog event eng eng Hok (conj Ha Ha)) as H.
  destruct (run files prog event eng) as [r eng']. destruct H as [_ H]. split; [done|].
  destruct r; try done; destruct H as [[? _] ?]; done.
Qed.

(** C17: a run ends, within the depth limit and without a panic, when the
    project's files do not make the parser panic and the secret store answers,
    with a value or an error, whatever it is asked for; and it gives the engine
    back with the depth and the package it had. *)
Theorem run_returns files src prog event store root pkg :
  parse src = Ok prog → files_parse files → store_returns store →
  let '(r, eng') := run files prog event (live store root pkg) in
  returns r ∧ depth eng' = 0 ∧ caller_pkg eng' = pkg.
Proof.
  intros Hp Hf Hs.
  pose proof (run_ends_self files prog event store root pkg _ true (λ _, Hf) Hs
    (λ _, parse_stmt_ok _ _ Hp) (at_depth_with _ _ _ _)) as H.
  unfold live. destruct (run _ _ _ _) as [r eng']. destruct H as [_ H].
  destruct r; try done; destruct H as [[] _]; done.
Qed.

(** C40: what a run emits can go on the wire: every subject is non-empty and
    has no white space and no control character. *)
Theorem run_emits_valid files prog event store root pkg c eng' :
  store_returns store → run files prog event (live store root pkg) = (Ok c, eng') →
  Forall (λ em, valid_subject (fst em) = true) (emits c).
Proof.
  intros Hs E.
  pose proof (run_ends_self files prog event store root pkg _ false ltac:(done) Hs
    ltac:(done) (at_depth_with _ _ _ _)) as H.
  unfold live in E. rewrite E in H. destruct H as (_ & _ & H). by apply H.
Qed.

(** The outcomes of runs that share an engine, one after the other. *)
Fixpoint runs (files : string → option string) (l : list (Program * Value)) (eng : Engine)
  : list (res verr Ctx) :=
  match l with
  | [] => []
  | (prog, event) :: l => let '(r, eng) := run files prog event eng in r :: runs files l eng
  end.

(** C19: sharing an engine is invisible: the caches that earlier runs fill never
    change what a run returns, as long as the files stay the same, none of them
    makes the parser panic, and the secret store answers whatever it is asked
    for. *)
Theorem shared_engine_transparent files l store root pkg :
  files_parse files → Forall (λ pe, ∃ src, parse src = Ok (fst pe)) l → store_returns store →
  runs files l (live store root pkg) =
  map (λ pe, fst (run files (fst pe) (snd pe) (live store root pkg))) l.
Proof.
  intros Hf Hl Hs. generalize (at_depth_with files store root pkg).
  change (with_secrets root pkg store) with (live store root pkg) at 1.
  generalize (live store root pkg) at 1 2. intros eng Ha. revert eng Ha.
  induction Hl as [|[prog event] l [src Hp] _ IH]; intros eng Ha; [done|].
  cbn. assert (Hok := parse_stmt_ok _ _ Hp : forallb stmt_ok (p_stmts prog) = true).
  pose proof (run_ends_self files prog event store root pkg eng true (λ _, Hf) Hs (λ _, Hok) Ha) as H1.
  pose proof (run_ends files true (λ _, Hf) root store store (store_ends _ _ _ Hs (λ _, eq_refl))
    pkg prog event eng (live store root pkg) (λ _, Hok) (conj Ha (at_depth_with _ _ _ _))) as H2.
  destruct (run files prog event eng) as [r1 e1], (run files prog event (live _ _ _)) as [r2 e2].
  destruct H2 as [<- _]. cbn. f_equal. apply IH.
  destruct H1 as [_ H1]. destruct r1; try done; by destruct H1.
Qed.

(** Private by default: a reference resolves to a service of the caller's
    own package or to one that the other package's manifest, on disk, lists in
    EXPORTS; whatever the caches hold. *)
Theorem exports_enforced files name eng pkg svc eng' :
  coherent files eng → resolve files name eng = (Ok (pkg, svc), eng') →
  pkg = caller_pkg eng ∨
  ∃ src prog, files (manifest_of (project_root eng) pkg) = Some src ∧ parse src = Ok prog ∧
    svc ∈ exports_list prog.
Proof.
  intros Hc E. pose proof (resolve_step files eng name Hc) as (H & _ & _).
  rewrite E in H. cbn in H. unfold resolve_spec in H.
  destruct (split_reference _ _) as [p s]. destruct (_ || _); [done|].
  destruct (String.eqb_spec p (caller_pkg eng)) as [Hp|_]; [left; congruence|]. right.
  symmetry in H. apply bind_Ok in H as (l & Hl & H).
  destruct (existsb _ _) eqn:Ex; [|done]. injection H as -> ->.
  unfold exports_spec in Hl. apply bind_Ok in Hl as (src & Hsrc & Hl).
  exists src. destruct (files _); [|done]. injection Hsrc as ->.
  unfold parsed in Hl. destruct (parse src) as [prog| | |]; try done. injection Hl as <-.
  exists prog. split; [done|]. split; [done|].
  apply existsb_exists in Ex as (s' & Hin & ->%String.eqb_eq). by apply list_elem_of_In.
Qed.

End Props.

(** ** A project *)

Module Demo.

Definition project : list (string * string) := [
  ("root/services/fmt.vjs", script "a = upper(name)|emit 'x.y', {v: a}|");
  ("root/packages/b/package.vjs", script "EXPORTS = ['hello']|");
  ("root/packages/b/services/hello.vjs", script "r = invoke own()|greeting = r.g|");
  ("root/packages/b/services/own.vjs", script "g = 'hi'|")
].

Definition files (path : string) : option string := map_get path project.

Lemma parses : files_parse files.
Proof.
  assert (forallb (λ kv, match parse (snd kv) with Panic => false | _ => true end) project = true)
    as H by (vm_compute; reflexivity).
  intros path src E Hp. apply map_get_elem in E.
  rewrite forallb_forall in H. apply list_elem_of_In in E.
  specialize (H (path, src) E). cbn [snd] in H. by rewrite Hp in H.
Qed.

Definition store : SecretStore :=
  env_store (λ k, if String.eqb k "VEJAS_SECRET_A_B" then Some "s3cr3t" else None).
Definition other_store : SecretStore :=
  env_store (λ k, if String.eqb k "VEJAS_SECRET_A_B" then Some "hunter2" else None).

Lemma store_fine : store_returns store.
Proof. intros r. cbn. by destruct (String.eqb _ _). Qed.

Lemma stores_same : same_domain store other_store.
Proof. intros r. cbn. by destruct (String.eqb _ _). Qed.

Definition event : Value :=
  obj [("name", VString "bob"); ("orders", VArray [obj [("t", vint 1)]; obj [("t", vint 5)]])].

Definition source : string := script
  "OUT = 'o.p'|r = invoke fmt(name: name)|h = invoke b:hello()|k = secret('a/b')|emit OUT, {g: h.greeting, a: r.a, n: len(orders[t > 1]), k: k}|".
Definition reader : string := script "x = name|respond 200, {who: x, n: orders[t == 5]}|".

Definition program_of (src : string) : Program :=
  match parse src with Ok p => p | _ => finish heading0 end.

(** A live run shows the secret, a shadow run its placeholder. *)
Example live_run :
  (c ← fst (run files (program_of source) event (live store "root" "default")); Ok (emits c)) =
  Ok [("x.y", obj [("v", VString "BOB")]);
      ("o.p", obj [("g", VString "hi"); ("a", VString "BOB"); ("n", vint 1); ("k", VString "s3cr3t")])].
Proof. vm_compute. reflexivity. Qed.

Example shadow_run :
  (c ← fst (run files (program_of source) event (shadow store "root" "default")); Ok (emits c)) =
  Ok [("x.y", obj [("v", VString "BOB")]);
      ("o.p", obj [("g", VString "hi"); ("a", VString "BOB"); ("n", vint 1);
                   ("k", VString "<secret:a/b>")])].
Proof. vm_compute. reflexivity. Qed.

(** A service of another package that is not exported is refused. *)
Example private_service :
  fst (run files (program_of (script "invoke b:own()|")) event (live store "root" "default")) =
  Err (NotExported "b" "own").
Proof. vm_compute. reflexivity. Qed.

Lemma writes_bus_sound_witness :
  parse reader = Ok (program_of reader) ∧ writes_bus (program_of reader) = false ∧
  ∃ r, returns r ∧
    (∀ files, run files (program_of reader) event (live store "root" "default") =
       (r, live store "root" "default")) ∧
    ∀ c, r = Ok c → emits c = [].
Proof.
  split; [vm_compute; reflexivity|]. split; [vm_compute; reflexivity|].
  apply (writes_bus_sound reader); [vm_compute; reflexivity..|exact store_fine].
Defined.

Lemma run_returns_witness :
  let '(r, eng') := run files (program_of source) event (live store "root" "default") in
  returns r ∧ depth eng' = 0 ∧ caller_pkg eng' = "default".
Proof.
  apply (run_returns files source); [vm_compute; reflexivity|exact parses|exact store_fine].
Defined.

Definition end_ctx : Ctx :=
  match fst (run files (program_of source) event (live store "root" "default")) with
  | Ok c => c
  | _ => event_ctx event
  end.
Definition end_engine : Engine :=
  snd (run files (program_of source) event (live store "root" "default")).

Lemma run_source :
  run files (program_of source) event (live store "root" "default") = (Ok end_ctx, end_engine).
Proof.
  assert (is_ok (fst (run files (program_of source) event (live store "root" "default"))) = true)
    as H by (vm_compute; reflexivity).
  unfold end_ctx, end_engine. by destruct (run _ _ _ _) as [[]].
Qed.

Lemma run_emits_valid_witness :
  run files (program_of source) event (live store "root" "default") = (Ok end_ctx, end_engine) ∧
  Forall (λ em, valid_subject (fst em) = true) (emits end_ctx).
Proof.
  split; [exact run_source|].
  exact (run_emits_valid files (program_of source) event store "root" "default" end_ctx end_engine
    store_fine run_source).
Defined.

Lemma shared_engine_transparent_witness :
  let l := [(program_of source, event); (program_of reader, event); (program_of source, event)] in
  runs files l (live store "root" "default") =
  map (λ pe, fst (run files (fst pe) (snd pe) (live store "root" "default"))) l.
Proof.
  apply shared_engine_transparent; [exact parses| |exact store_fine].
  constructor; [|constructor; [|constructor; [|constructor]]];
    [exists source|exists reader|exists source]; vm_compute; reflexivity.
Defined.

Definition resolved : Engine := snd (resolve files "b:hello" (live store "root" "default")).

Lemma resolves : resolve files "b:hello" (live store "root" "default") = (Ok ("b", "hello"), resolved).
Proof.
  assert (match fst (resolve files "b:hello" (live store "root" "default")) with
          | Ok (p, s) => String.eqb p "b" && String.eqb s "hello"
          | _ => false
          end = true) as H by (vm_compute; reflexivity).
  unfold resolved. destruct (resolve _ _ _) as [[[p s]| | |] e]; try done. cbn in *. by bool_prop; subst.
Qed.

Lemma exports_enforced_witness :
  "b" = "default" ∨
  ∃ src prog, files (manifest_of "root" "b") = Some src ∧ parse src = Ok prog ∧
    "hello" ∈ exports_list prog.
Proof.
  exact (exports_enforced files "b:hello" (live store "root" "default") "b" "hello" resolved
    (coherent_empty files "root" "default" store) resolves).
Defined.

Notation no_service := (run_service files 0).
Definition start : Ctx := event_ctx event.

(** An engine whose store echoes the reference. *)
Definition plain : Engine := live {| ss_kind := "echo"; ss_get r := Ok r |} "root" "default".

Definition big_orders : Expr := EFilter (EVar "orders") (EBin OGt (EVar "t") (ELit (vint 1))).

Lemma big_orders_run :
  eval no_service big_orders (start, plain) =
  (Ok (VArray [obj [("t", vint 5)]]), (start, plain)).
Proof. vm_compute. reflexivity. Qed.

Lemma start_ok : map_ok (vars start).
Proof. apply map_sorted_ok. vm_compute. reflexivity. Qed.

Definition filtered : St := snd (eval no_service big_orders (start, plain)).

Lemma filtered_run :
  eval no_service big_orders (start, plain) =
  (Ok (VArray [obj [("t", vint 5)]]), (fst filtered, snd filtered)).
Proof. unfold filtered. by rewrite big_orders_run. Qed.

Lemma eval_keeps_vars_witness : map_ok (vars start) ∧ vars (fst filtered) = vars start.
Proof.
  split; [exact start_ok|].
  exact (eval_keeps_vars no_service big_orders start plain _ _ _ start_ok filtered_run).
Defined.

Lemma assign_read_back_witness :
  ∃ s2, exec no_service (SAssign ["doc"; "head"; "id"] (EVar "name"))
          (start, plain) = (Ok (), s2) ∧
    eval no_service (path_expr ["doc"; "head"; "id"]) s2 = (Ok (VString "bob"), s2) ∧
    (∀ x, head ["doc"; "head"; "id"] ≠ Some x →
       map_get x (vars (fst s2)) = map_get x (vars start)) ∧
    emits (fst s2) = emits start ∧ snd s2 = plain.
Proof.
  apply (assign_read_back no_service ["doc"; "head"; "id"] (EVar "name")
    (start, plain) (VString "bob") (start, plain));
    [done|exact (eval_var no_service "name" start (plain))].
Defined.

Lemma number_equality_incoherent_witness :
  let i := vint 1 in let f := VNumber (NFloat (f64_of_Z 1)) in
  bin_op OEq i f = Ok (VBool false) ∧ bin_op OLt i f = Ok (VBool false) ∧
  bin_op OGt i f = Ok (VBool false) ∧ bin_op OLe i f = Ok (VBool true) ∧
  bin_op OGe i f = Ok (VBool true).
Proof. apply (number_equality_incoherent 1). vm_compute. reflexivity. Defined.

End Demo.
