(* ===== verification/Edit.v ===== *)
(** * VejasScript: editing a literal in place

    [get_literal] and [set_literal] of core/src/vjs.rs: the business surface
    of a script is read and rewritten on its text.  [set_literal] replaces the
    bytes of one literal, or inserts an entry before the closing brace of a
    table, and refuses a result that does not parse. *)

From stdpp Require Import base gmap list strings.
From Stdlib Require Import ZArith Lia Ascii.
From S2P Require Import Prelude Text F64 Json Syntax Analysis Lexer Parser Concrete.
Open Scope string_scope.
Open Scope nat_scope.

Inductive edit_err : Type :=
| EParse (e : perr)
| NoLiteral (name : string)
| NotEditable (name key : string)
| NotATable (name key : string)
| MalformedTable (name : string).

(** A parser's outcome as the editor's. *)
Definition edit_parse (src : string) : res edit_err Program :=
  match parse src with
  | Ok p => Ok p
  | Err e => Err (EParse e)
  | Panic => Panic
  | NoFuel => NoFuel
  end.

(** Slicing, which panics inside a character. *)
Definition slice (s : string) (i j : nat) : res edit_err string :=
  match str_slice s i j with Some t => Ok t | None => Panic end.

Definition whole (key : string) : bool := String.eqb key "" || String.eqb key "-".

Section Edit.
Context {SD : Serde}.

(** core/src/vjs.rs [get_literal] *)
Definition get_literal (src name key : string) : option Value :=
  match parse src with
  | Ok prog =>
    entry ← surface_find (p_surface prog) name;
    if whole key then Some (se_value entry) else vget key (se_value entry)
  | _ => None
  end.

Definition trimmed_byte (b : byte) : bool :=
  Ascii.eqb b " " || Ascii.eqb b b_tab || Ascii.eqb b b_cr.

(** The end of a span, less the blanks before it. *)
(** core/src/vjs.rs:1895-1903 [set_literal] *)
Fixpoint trim_span (src : string) (start : nat) (end_ : nat) : nat :=
  match end_ with
  | O => O
  | S e =>
    if start <? end_ then
      match sdrop e src with
      | String b _ => if trimmed_byte b then trim_span src start e else end_
      | "" => end_
      end
    else end_
  end.

(** Put [text] in the place of the bytes from [i] to [j]. *)
(** core/src/vjs.rs:1905-1910 [set_literal] *)
Definition splice (src : string) (i j : nat) (text : string) : res edit_err string :=
  a ← slice src 0 i;
  b ← slice src j (slen src);
  let out := a ++ text ++ b in
  _ ← edit_parse out;
  Ok out.

Fixpoint span_of (l : list (string * (nat * nat))) (key : string) : option (nat * nat) :=
  match l with
  | [] => None
  | (k, sp) :: r => if String.eqb k key then Some sp else span_of r key
  end.

(** The span that an edit replaces, if what it names exists. *)
(** core/src/vjs.rs:1881-1889 [set_literal] *)
Definition target_span (entry : SurfaceEntry) (key : string) : option (nat * nat) :=
  if whole key then Some (se_value_span entry) else span_of (se_entry_spans entry) key.

(** A new entry at the end of a table. *)
(** core/src/vjs.rs:1916-1941 [set_literal] *)
Definition insert_key (src : string) (entry : SurfaceEntry) (name key : string) (v : Value)
  : res edit_err string :=
  let '(vstart, vend) := se_value_span entry in
  let vend := Nat.min vend (slen src) in
  text ← slice src vstart vend;
  let val_text := trim_end text in
  match from_json val_text with
  | None => Err (NotEditable name key)
  | Some (VObject o) =>
    match str_rfind val_text "}" with
    | None => Err (MalformedTable name)
    | Some p =>
      let close := vstart + p in
      let kv := to_json (VString key) ++ ": " ++ to_json v in
      splice src close close (match o with [] => kv | _ => ", " ++ kv end)
    end
  | Some _ => Err (NotATable name key)
  end.

(** core/src/vjs.rs [set_literal] *)
Definition set_literal (src name key : string) (v : Value) : res edit_err string :=
  prog ← edit_parse src;
  entry ← ok_or (surface_find (p_surface prog) name) (NoLiteral name);
  match target_span entry key with
  | Some (start, end_) =>
    splice src start (trim_span src start (Nat.min end_ (slen src))) (to_json v)
  | None => insert_key src entry name key v
  end.

(** ** Facts *)

Lemma slice_app src i : i <= slen src → stake i src ++ sdrop i src = src.
Proof. intros. apply stake_sdrop. Qed.

Lemma stake_all n s : slen s <= n → stake n s = s.
Proof.
  revert s. induction n as [|n IH]; intros [|b s]; cbn; intros; try done; [lia|].
  f_equal. apply IH. lia.
Qed.

Lemma splice_ok src i j text out :
  splice src i j text = Ok out →
  out = stake i src ++ text ++ sdrop j src ∧ is_ok (parse out) = true.
Proof.
  unfold splice, slice, str_slice, edit_parse. intros H. inv_binds.
  repeat case_match; simplify_eq. inv_binds. simplify_eq. cbn [sdrop]. rewrite Nat.sub_0_r.
  rewrite (stake_all (slen src - j)) in * by (rewrite slen_sdrop; lia).
  done.
Qed.

Lemma trim_span_le src start e : trim_span src start e <= e.
Proof.
  induction e as [|e IH]; cbn; [done|]. repeat case_match; lia.
Qed.

Lemma trim_span_ge src start e : start <= e → start <= trim_span src start e.
Proof.
  induction e as [|e IH]; intros Hs; cbn [trim_span]; [lia|].
  destruct (start <? S e) eqn:E; [|lia]. bool_prop. repeat case_match; lia.
Qed.

(** The byte at a place. *)
Definition byte_at (i : nat) (s : string) : option byte :=
  match sdrop i s with String b _ => Some b | "" => None end.

Lemma byte_at_some i s : i < slen s → is_Some (byte_at i s).
Proof.
  intros H. unfold byte_at. destruct (sdrop i s) eqn:E; [|done].
  pose proof (slen_sdrop i s) as Hl. rewrite E in Hl. cbn in Hl. lia.
Qed.

(** What is trimmed is blank, and what is left does not end in a blank. *)
Lemma trim_span_exact src start e : e <= slen src →
  (∀ i b, trim_span src start e <= i < e → byte_at i src = Some b → trimmed_byte b = true) ∧
  (start < trim_span src start e → ∃ b, byte_at (trim_span src start e - 1) src = Some b ∧ trimmed_byte b = false).
Proof.
  induction e as [|e IH]; intros He; cbn [trim_span]; [split; lia|].
  destruct (start <? S e) eqn:Es; bool_prop; [|split; lia].
  destruct (byte_at_some e src He) as [b Hb]. pose proof Hb as Hb'. unfold byte_at in Hb'.
  destruct (sdrop e src) as [|b' r] eqn:Ed; [done|]. injection Hb' as ->.
  destruct (trimmed_byte b) eqn:Et.
  - destruct IH as [Hin Hend]; [lia|]. split; [|exact Hend]. intros i c Hi Hc.
    destruct (decide (i = e)) as [->|]; [congruence|]. apply (Hin i c); [lia|done].
  - split; [lia|]. intros _. exists b. by rewrite Nat.sub_succ, Nat.sub_0_r.
Qed.

(** The text of a literal's value. *)
Definition value_text (src : string) (entry : SurfaceEntry) : string :=
  let '(vstart, vend) := se_value_span entry in
  trim_end (stake (Nat.min vend (slen src) - vstart) (sdrop vstart src)).

(** What an edit does to a script: in place of a literal, or of a table's entry
    that exists, and of nothing else but the blanks after it that the parser
    counts to it; or before the closing brace of a table that has not the key. *)
Definition edited (src : string) (entry : SurfaceEntry) (key : string) (v : Value) (out : string) : Prop :=
  match target_span entry key with
  | Some (start, end_) =>
    let e := Nat.min end_ (slen src) in
    ∃ j, j <= e ∧ (start <= e → start <= j) ∧
      (∀ i b, j <= i < e → byte_at i src = Some b → trimmed_byte b = true) ∧
      (start < j → ∃ b, byte_at (j - 1) src = Some b ∧ trimmed_byte b = false) ∧
      out = stake start src ++ to_json v ++ sdrop j src
  | None =>
    ∃ o q, from_json (value_text src entry) = Some (VObject o) ∧ str_rfind (value_text src entry) "}" = Some q ∧
      let p := fst (se_value_span entry) + q in
      out = stake p src ++ (match o with [] => "" | _ => ", " end ++ to_json (VString key) ++ ": " ++ to_json v)
              ++ sdrop p src
  end.

(** C20: an edit is surgical and safe: the new script parses.  Where the literal
    exists, it is the old script with the literal's span replaced by the JSON
    text of the value, less the blanks at the span's end: all that is kept of
    the span is spaces, tabs and carriage returns, and what is replaced does
    not end in one, so the blanks are kept whole and nothing else is.  Where the key
    is new, it is the old script with the entry inserted before the last brace
    of the table's text, after a comma unless the table is empty, and nothing
    removed. *)
Theorem set_literal_surgical src name key v out :
  set_literal src name key v = Ok out →
  ∃ prog entry, parse src = Ok prog ∧ surface_find (p_surface prog) name = Some entry ∧
    is_ok (parse out) = true ∧ edited src entry key v out.
Proof.
  unfold set_literal. intros H. apply bind_Ok in H as (prog & Hp & H).
  apply bind_Ok in H as (entry & He & H). exists prog, entry.
  unfold edit_parse in Hp. destruct (parse src) as [pr| | |] eqn:Epar; try done. injection Hp as ->.
  destruct (surface_find _ _) as [en|] eqn:Es; [|done]. injection He as ->.
  split; [done|]. split; [done|]. unfold edited.
  destruct (target_span entry key) as [[start end_]|].
  - apply splice_ok in H as [-> ?]. split; [done|]. eexists. split; [apply trim_span_le|].
    split; [apply trim_span_ge|]. destruct (trim_span_exact src start (Nat.min end_ (slen src))); [lia|done].
  - unfold insert_key in H. unfold value_text. destruct (se_value_span entry) as [vs ve]. cbn [fst].
    apply bind_Ok in H as (text & Ht & H). unfold slice, str_slice in Ht.
    destruct (_ && _); [|done]. injection Ht as <-. destruct (from_json _) as [[| | | | |o]|]; try done.
    destruct (str_rfind _ _) as [p|]; [|done]. apply splice_ok in H as [-> ?]. split; [done|].
    exists o, p. split; [done|]. split; [done|]. by destruct o.
Qed.
End Edit.

(** ** Examples *)

(** The span of a literal reaches up to the next token, and a comment is no
    token: an edit of a constant erases the comment that ends its line. *)
Theorem set_literal_erases_comment :
  set_literal (script "LIMIT = 10 # agreed with the bank|") "LIMIT" "" (VString "x") =
  Ok ("LIMIT = " ++ to_json (VString "x") ++ script "|").
Proof. vm_compute. reflexivity. Qed.

Lemma set_literal_surgical_witness :
  let src := script "T = {a: 1, b: 2 }|" in
  let out := "T = {a: 1, b: " ++ to_json (VBool true) ++ script " }|" in
  set_literal src "T" "b" (VBool true) = Ok out ∧
  ∃ prog entry, parse src = Ok prog ∧ surface_find (p_surface prog) "T" = Some entry ∧
    is_ok (parse out) = true ∧ edited src entry "b" (VBool true) out.
Proof.
  cbv zeta. assert (set_literal (script "T = {a: 1, b: 2 }|") "T" "b" (VBool true) =
    Ok ("T = {a: 1, b: " ++ to_json (VBool true) ++ script " }|")) as H by (vm_compute; reflexivity).
  split; [exact H|exact (set_literal_surgical _ _ _ _ _ H)].
Defined.
