(* ===== verification/FrontProps.v ===== *)
(** * VejasScript: properties of the front end

    The lexer and the parser terminate on every text; tokens come in order and
    end with a line break at the end of the text; which texts make them panic;
    and the inventory of secret references is exact. *)

From stdpp Require Import base gmap list strings.
From Stdlib Require Import ZArith Lia Ascii.
From S2P Require Import Prelude Text F64 Json Syntax Analysis Lexer Parser.
Open Scope string_scope.
Open Scope nat_scope.

(** The lexer terminates on every text, and what it returns is in order:
    each token starts after the one before, and the last is the line break at
    the end of the text. *)
Theorem lex_total src :
  match lex src with
  | Ok toks => positions_from 0 toks ∧ last toks = Some (TNewline, slen src)
  | NoFuel => False
  | _ => True
  end.
Proof. pose proof (lex_yields src) as H. by destruct (lex src). Qed.

(** C39: the parser terminates on every text, and in what it builds every
    assignment has a target. *)
Theorem parse_total src :
  match parse src with
  | Ok prog => forallb stmt_ok (p_stmts prog) = true
  | NoFuel => False
  | _ => True
  end.
Proof.
  pose proof (parse_yields src) as H. destruct (parse src) eqn:E; try done.
  by eapply parse_stmt_ok.
Qed.

(** ** Panics *)

(** A byte that starts no token but an operator. *)
Lemma lex_fuel_operator n src c r i :
  (128 <= bval c)%N →
  lex_fuel (S n) src (String c r) i =
  match two_bytes (String c r) with
  | None => Panic
  | Some two =>
    match two_char_op two with
    | Some t => out ← lex_fuel n src (sdrop 2 (String c r)) (i + 2); Ok ((t, i) :: out)
    | None =>
      match one_char_op c with
      | Some t => out ← lex_fuel n src r (i + 1); Ok ((t, i) :: out)
      | None => err_at i src (UnexpectedCharacter c)
      end
    end
  end.
Proof.
  intros Hc. cbn [lex_fuel].
  assert (∀ x, (bval x < 128)%N → Ascii.eqb c x = false) as Hne.
  { intros x Hx. apply Ascii.eqb_neq. intros ->. lia. }
  rewrite !Hne by reflexivity. cbn [orb andb].
  assert (is_ascii_digit (bval c) = false) as ->.
  { unfold is_ascii_digit. apply andb_false_iff. right. apply N.leb_gt. lia. }
  assert (is_word_start c = false) as ->; [|done].
  unfold is_word_start, is_ascii_lowercase, is_ascii_uppercase. rewrite Hne by reflexivity.
  apply orb_false_iff. split; [|done]. apply orb_false_iff.
  split; apply andb_false_iff; right; apply N.leb_gt; lia.
Qed.

Lemma utf8_step_wide v a b c bs r r' :
  utf8_step (String a r') = Some (Some v, String a (String b (String c bs)), r) →
  (128 <= bval a)%N ∧ is_cont c = true.
Proof.
  intros E. cbn in E. destruct (decide (bval a < 128)%N) as [Ha|Ha].
  { unfold utf8_width in E. rewrite (proj2 (N.ltb_lt _ _) Ha) in E. by simplify_eq. }
  split; [lia|]. repeat (case_match; simplify_eq; try done).
Qed.

(** The two-byte look-ahead of the lexer cuts characters: a text that
    starts with a character of three bytes or more (a currency sign, an arrow,
    an emoji) outside a string or a comment panics instead of being refused. *)
Theorem lex_wide_char_panics v bs r :
  utf8_step (bs ++ r) = Some (Some v, bs, r) → 3 <= slen bs → lex (bs ++ r) = Panic.
Proof.
  intros E Hl. destruct bs as [|a [|b [|c bs]]]; cbn in Hl; [lia..|].
  apply utf8_step_wide in E as [Ha Hc]. unfold lex. cbn [String.append].
  rewrite lex_fuel_operator by done.
  assert (two_bytes (String a (String b (String c (bs ++ r)))) = None) as ->; [|done].
  unfold two_bytes, str_slice, is_char_boundary. cbn. by rewrite Hc.
Qed.

(** The euro sign. *)
Definition euro : string := String "226" (String "130" (String "172" "")).

Lemma lex_wide_char_panics_witness :
  utf8_step (euro ++ " = 1") = Some (Some 8364%N, euro, " = 1") ∧ lex (euro ++ " = 1") = Panic.
Proof.
  split; [vm_compute; reflexivity|].
  apply (lex_wide_char_panics 8364%N euro); [vm_compute; reflexivity|cbn; lia].
Defined.

(** An error inside an f-string is located with an offset into the braces
    but sliced in the whole script: a script with a wide character near its
    start panics where the same script without it is refused. *)
Theorem fstring_error_panics :
  let e_acute := String "195" (String "169" "") in
  parse (script "# e|x = f'{1 +}'") = Err {| pe_line := 1; pe_msg := UnexpectedInExpr TNewline |} ∧
  parse ("# " ++ e_acute ++ script "|x = f'{1 +}'") = Panic.
Proof. split; vm_compute; reflexivity. Qed.

(** ** The inventory of secrets *)

Definition is_secret (r : string) (name : string) (args : list Expr) : bool :=
  String.eqb name "secret" &&
  match args with ELit (VString r') :: _ => String.eqb r' r | _ => false end.

(** [secret("r")] occurs in the expression. *)
Fixpoint expr_mentions (r : string) (e : Expr) : bool :=
  match e with
  | ECall name args => is_secret r name args || existsb (expr_mentions r) args
  | EInvoke _ fs | EDoc fs => existsb (λ kv, match kv with (_, e) => expr_mentions r e end) fs
  | EFString ps => existsb (λ p, match p with PExpr e => expr_mentions r e | PLit _ => false end) ps
  | EArray l => existsb (expr_mentions r) l
  | EField b _ _ | EProjection b | EUnary _ b => expr_mentions r b
  | EIndex a b | EFilter a b | EBin _ a b => expr_mentions r a || expr_mentions r b
  | ELit _ | EVar _ => false
  end.

Fixpoint stmt_mentions (r : string) (s : Stmt) : bool :=
  match s with
  | SAssign _ e => expr_mentions r e
  | SEmit a b | SRespond a b => expr_mentions r a || expr_mentions r b
  | SInvokeMerge _ fs => existsb (λ kv, expr_mentions r (snd kv)) fs
  | SIf arms o =>
    existsb (λ a, match a with (c, _, b) => expr_mentions r c || existsb (stmt_mentions r) b end) arms
    || match o with Some b => existsb (stmt_mentions r) b | None => false end
  | SFor _ it b => expr_mentions r it || existsb (stmt_mentions r) b
  end.

Section Refs.
Context (r : string).

Definition has (out : list (string * string)) : Prop := r ∈ map snd out.

(** A pass over something adds the reference exactly when it is mentioned. *)
Definition adds {A} (f : list (string * string) → A → list (string * string)) (m : A → bool) (a : A)
  : Prop := ∀ out, has (f out a) ↔ has out ∨ m a = true.

Lemma has_push_ref ctx r' out : has (push_ref (ctx, r') out) ↔ has out ∨ r' = r.
Proof.
  unfold push_ref, has. case_bool_decide as Hin.
  - split; [by left|]. intros [?|<-]; [done|]. apply list_elem_of_In, in_map_iff.
    exists (ctx, r'). by rewrite <- list_elem_of_In.
  - rewrite map_app, elem_of_app. cbn. rewrite list_elem_of_singleton. naive_solver.
Qed.

Lemma adds_fold {A} (f : list (string * string) → A → list (string * string)) m l :
  Forall (adds f m) l → ∀ out, has (fold_left f l out) ↔ has out ∨ existsb m l = true.
Proof.
  induction 1 as [|a l Ha _ IH]; intros out; cbn; [naive_solver|].
  rewrite IH, (Ha out), orb_true_iff. tauto.
Qed.

Lemma adds_folded {A} (f : list (string * string) → A → list (string * string)) m l :
  Forall (adds f m) l → adds (λ out l, fold_left f l out) (existsb m) l.
Proof. intros H out. by apply adds_fold. Qed.

Lemma adds_two {A B} (f : list (string * string) → A → list (string * string)) m
    (g : list (string * string) → B → list (string * string)) n a b out :
  adds f m a → adds g n b → has (g (f out a) b) ↔ has out ∨ m a || n b = true.
Proof. intros Ha Hb. rewrite (Hb _), (Ha _), orb_true_iff. tauto. Qed.

Lemma adds_walk_expr ctx e : adds (walk_expr ctx) (expr_mentions r) e.
Proof.
  induction e as [v|ps IH|n|fs IH|l IH|b f s IH|a b IHa IHb|b IH|a b IHa IHb|n l IH|n fs IH|o e IH
                 |o a b IHa IHb] using expr_ind'; intros out; cbn [expr_mentions walk_expr];
    try apply IH; try (by apply adds_two).
  - naive_solver.
  - apply (adds_fold (λ out p, match p with PExpr e => walk_expr ctx out e | PLit _ => out end)).
    eapply Forall_impl; [exact IH|]. intros [s|e] He out'; [naive_solver|apply He].
  - naive_solver.
  - apply (adds_fold (λ out kv, match kv with (_, e) => walk_expr ctx out e end)).
    eapply Forall_impl; [exact IH|]. by intros [k e].
  - apply (adds_fold (walk_expr ctx)), IH.
  - rewrite (adds_fold (walk_expr ctx) (expr_mentions r) l IH).
    assert (has (if String.eqb n "secret"
                 then match l with ELit (VString r') :: _ => push_ref (ctx, r') out | _ => out end
                 else out) ↔ has out ∨ is_secret r n l = true) as ->.
    { unfold is_secret. destruct (String.eqb n "secret"); [|naive_solver].
      destruct l as [|[[| | |r'| |]| | | | | | | | | | | |] l]; try naive_solver.
      rewrite has_push_ref. cbn. by rewrite String.eqb_eq. }
    rewrite orb_true_iff. tauto.
  - apply (adds_fold (λ out kv, match kv with (_, e) => walk_expr ctx out e end)).
    eapply Forall_impl; [exact IH|]. by intros [k e].
Qed.

Lemma adds_walk_stmt s : adds walk_stmt (stmt_mentions r) s.
Proof.
  induction s as [p e|arms o Harms Ho|x e b Hb|a b|a b|n l] using stmt_ind'; intros out;
    cbn [stmt_mentions walk_stmt].
  - apply adds_walk_expr.
  - assert (adds (λ out arms, fold_left (λ out a, match a with
              | (c, _, b) => fold_left walk_stmt b (walk_expr "if" out c) end) arms out)
              (existsb (λ a, match a with (c, _, b) =>
                 expr_mentions r c || existsb (stmt_mentions r) b end)) arms) as Ha.
    { apply (adds_folded (λ out a, match a with
               | (c, _, b) => fold_left walk_stmt b (walk_expr "if" out c) end)).
      eapply Forall_impl; [exact Harms|]. intros [[c sp] b] Hb out'.
      apply (adds_two _ _ (λ out b, fold_left walk_stmt b out)); [apply adds_walk_expr|].
      by apply adds_folded. }
    destruct o as [b|].
    + apply (adds_two (λ out arms, fold_left (λ out a, match a with
               | (c, _, b) => fold_left walk_stmt b (walk_expr "if" out c) end) arms out) _
               (λ out b, fold_left walk_stmt b out)); [exact Ha|by apply adds_folded].
    + rewrite (Ha out), orb_false_r. done.
  - apply (adds_two _ _ (λ out b, fold_left walk_stmt b out)); [apply adds_walk_expr|].
    by apply adds_folded.
  - apply adds_two; apply adds_walk_expr.
  - apply adds_two; apply adds_walk_expr.
  - apply (adds_fold (λ out kv, walk_expr "invoke" out (snd kv))), Forall_forall.
    intros kv _. apply adds_walk_expr.
Qed.
End Refs.

Lemma finish_refs h r :
  (∃ ctx, (ctx, r) ∈ p_secret_refs (finish h)) ↔ existsb (stmt_mentions r) (p_stmts (finish h)) = true.
Proof.
  unfold finish. destruct (collect_static _ _ _). cbn.
  pose proof (adds_fold r walk_stmt (stmt_mentions r) (h_stmts h)) as H.
  specialize (H ltac:(apply Forall_forall; intros; apply adds_walk_stmt) []).
  unfold walk_stmts, has in *. cbn [map] in H. rewrite elem_of_nil in H.
  transitivity (r ∈ map snd (fold_left walk_stmt (h_stmts h) [])); [|rewrite H; tauto]. split.
  - intros [ctx Hin]. apply list_elem_of_In, in_map_iff. exists (ctx, r).
    by rewrite <- list_elem_of_In.
  - intros Hin. apply list_elem_of_In, in_map_iff in Hin as ([ctx r'] & [= ->] & Hin).
    exists ctx. by apply list_elem_of_In.
Qed.

(** C21: the inventory of secrets is exact: a reference is listed if and only if
    a call [secret("...")] with that literal occurs somewhere in the program,
    in whatever statement, condition, document or f-string. *)
Theorem secret_inventory_exact src prog r :
  parse src = Ok prog →
  (∃ ctx, (ctx, r) ∈ p_secret_refs prog) ↔ existsb (stmt_mentions r) (p_stmts prog) = true.
Proof.
  unfold parse, program. intros E. inv_binds. apply finish_refs.
Qed.

Definition inventory_source : string :=
  script "if x == secret('a/b'):|  emit 'v.x', {h: f'Bearer {secret('c/d')}'}|end|y = upper('e/f')|".
Definition inventory_program : Program :=
  match parse inventory_source with Ok p => p | _ => finish heading0 end.

Lemma secret_inventory_exact_witness :
  parse inventory_source = Ok inventory_program ∧
  ((∃ ctx, (ctx, "c/d") ∈ p_secret_refs inventory_program) ↔
   existsb (stmt_mentions "c/d") (p_stmts inventory_program) = true).
Proof.
  split; [vm_compute; reflexivity|].
  apply (secret_inventory_exact inventory_source). vm_compute. reflexivity.
Defined.
