(* ===== verification/Store.v ===== *)
(** * The key-value bucket

    What the runtime relies on of a JetStream key-value bucket ([Kv] of
    core/src/bus.rs, a thin wrapper of the client library): the class [KvOps]
    has its operations and [KvLaws] their documented behaviour, as the effect
    on a view from keys to values and revisions.  A request that fails may or
    may not have been carried out.  [MapKv] is an instance, used by examples
    and witnesses. *)

From stdpp Require Import base gmap list strings.
From Stdlib Require Import ZArith Lia.
From S2P Require Import Prelude Text F64 Json.
Open Scope string_scope.

Notation kv_view := (string → option (string * Z)).

(** core/src/bus.rs:1010-1048 [Kv] *)
Class KvOps (K : Type) := {
  kv_get : string → K → res string (option string);
  kv_put : string → string → K → res string Z * K;
  kv_create : string → string → K → res string Z * K;
  kv_update : string → string → Z → K → res string Z * K;
  kv_delete : string → K → res string () * K;
  kv_keys : K → res string (list string)
}.

(** The view with one key changed. *)
Definition view_set (k : string) (e : option (string * Z)) (v : kv_view) : kv_view :=
  λ k', if String.eqb k' k then e else v k'.

Definition view_is (v w : kv_view) : Prop := ∀ k, v k = w k.

Lemma view_set_eq k e v : view_set k e v k = e.
Proof. unfold view_set. by rewrite String.eqb_refl. Qed.
Lemma view_set_ne k k' e v : k' ≠ k → view_set k e v k' = v k'.
Proof. intros. unfold view_set. by rewrite (proj2 (String.eqb_neq k' k)). Qed.

#[export] Instance view_is_equiv : Equivalence view_is.
Proof.
  split; [by intros ??|intros v w H k; by rewrite H|].
  intros u v w H1 H2 k. by rewrite H1.
Qed.

(** Looking a key up respects equal views. *)
#[export] Instance view_set_proper k e : Proper (view_is ==> view_is) (view_set k e).
Proof. intros v w H k'. unfold view_set. by destruct (String.eqb k' k). Qed.

(** A change that was asked for: made when the answer says so, perhaps made
    when the request failed. *)
Definition changed {A} (r : res string A) (old new target : kv_view) : Prop :=
  match r with
  | Ok _ => view_is new target
  | Err _ => view_is new old ∨ view_is new target
  | _ => False
  end.

Class KvLaws (K : Type) `{KvOps K} := {
  view : K → kv_view;
  kv_get_law k s : match kv_get k s with
                   | Ok o => o = option_map fst (view s k)
                   | Err _ => True
                   | _ => False
                   end;
  kv_put_law k v s : ∃ rev, let '(r, s') := kv_put k v s in
    changed r (view s) (view s') (view_set k (Some (v, rev)) (view s)) ∧
    ∀ z, r = Ok z → z = rev;
  kv_create_law k v s : let '(r, s') := kv_create k v s in
    match view s k with
    | None => ∃ rev, changed r (view s) (view s') (view_set k (Some (v, rev)) (view s)) ∧
                     ∀ z, r = Ok z → z = rev
    | Some _ => (∃ e, r = Err e) ∧ view_is (view s') (view s)
    end;
  kv_update_law k v n s : let '(r, s') := kv_update k v n s in
    if bool_decide (option_map snd (view s k) = Some n)
    then ∃ rev, changed r (view s) (view s') (view_set k (Some (v, rev)) (view s)) ∧
                ∀ z, r = Ok z → z = rev
    else (∃ e, r = Err e) ∧ view_is (view s') (view s);
  kv_delete_law k s : let '(r, s') := kv_delete k s in
    changed r (view s) (view s') (view_set k None (view s));
  kv_keys_law s : match kv_keys s with
                  | Ok l => ∀ k, k ∈ l ↔ view s k ≠ None
                  | Err _ => True
                  | _ => False
                  end
}.

(** ** An instance *)

Record MapKv : Type := { mk_map : gmap string (string * Z); mk_rev : Z }.

Definition mk_put (k v : string) (s : MapKv) : res string Z * MapKv :=
  let rev := (mk_rev s + 1)%Z in
  (Ok rev, {| mk_map := <[k := (v, rev)]> (mk_map s); mk_rev := rev |}).

#[export] Instance map_kv : KvOps MapKv := {|
  kv_get k s := Ok (option_map fst (mk_map s !! k));
  kv_put := mk_put;
  kv_create k v s := match mk_map s !! k with None => mk_put k v s | Some _ => (Err "exists", s) end;
  kv_update k v n s :=
    if bool_decide (option_map snd (mk_map s !! k) = Some n) then mk_put k v s
    else (Err "wrong last revision", s);
  kv_delete k s := (Ok (), {| mk_map := delete k (mk_map s); mk_rev := (mk_rev s + 1)%Z |});
  kv_keys s := Ok (map fst (map_to_list (mk_map s)))
|}.

Lemma mk_put_view k v s : let '(_, s') := mk_put k v s in
  ∀ k', mk_map s' !! k' = view_set k (Some (v, (mk_rev s + 1)%Z)) (λ k, mk_map s !! k) k'.
Proof.
  intros k'. cbn. unfold view_set. destruct (String.eqb_spec k' k) as [->|].
  - by rewrite lookup_insert_eq.
  - by rewrite lookup_insert_ne.
Qed.

#[export] Instance map_kv_laws : KvLaws MapKv.
Proof.
  refine {| view s k := mk_map s !! k |}.
  - done.
  - intros k v s. exists (mk_rev s + 1)%Z. split; [|by intros z [= <-]].
    apply (mk_put_view k v s).
  - intros k v s. unfold kv_create, map_kv. destruct (mk_map s !! k); [by split; [eexists|]|].
    exists (mk_rev s + 1)%Z. split; [|by intros z [= <-]]. apply (mk_put_view k v s).
  - intros k v n s. unfold kv_update, map_kv. case_bool_decide; [|by split; [eexists|]].
    exists (mk_rev s + 1)%Z. split; [|by intros z [= <-]]. apply (mk_put_view k v s).
  - intros k s. cbn. intros k'. unfold view_set. destruct (String.eqb_spec k' k) as [->|].
    + by rewrite lookup_delete_eq.
    + by rewrite lookup_delete_ne.
  - intros s k. cbn. rewrite list_elem_of_In, in_map_iff. split.
    + intros ([k' e] & <- & Hin). apply list_elem_of_In, elem_of_map_to_list in Hin. cbn. by rewrite Hin.
    + intros Hn. destruct (mk_map s !! k) as [e|] eqn:E; [|done]. exists (k, e).
      split; [done|]. by apply list_elem_of_In, elem_of_map_to_list.
Defined.

Definition empty_kv : MapKv := {| mk_map := ∅; mk_rev := 0 |}.
