(* ===== verification/Versions.v ===== *)
(** * The version overlay

    core/src/versions.rs: a live promote is a record in the versions bucket,
    valid only against the git baseline it forked from.  The state is the
    bucket and the ring of recent evictions. *)

From stdpp Require Import base gmap list strings.
From Stdlib Require Import ZArith Lia Ascii.
From S2P Require Import Prelude Text F64 Json Store Concrete.
Open Scope string_scope.
Open Scope Z_scope.

(** ** Content hash *)

Definition fnv_offset : Z := 0xcbf29ce484222325.
Definition fnv_prime : Z := 0x00000100000001b3.

(** core/src/versions.rs:32-36 [hash_content] *)
Definition fnv_step (hash : Z) (b : byte) : Z :=
  wrap 64 (Z.lxor hash (Z.of_N (bval b)) * fnv_prime).

Definition fnv1a (s : string) : Z := fold_left fnv_step (String.list_ascii_of_string s) fnv_offset.

(** Sixteen hexadecimal digits, lower case, zero padded. *)
(** core/src/versions.rs [hash_content] *)
Definition hash_content (s : string) : string := hex_fixed 16 (Z.to_N (fnv1a s)) "".

(** core/src/versions.rs [key_of] *)
Definition key_of (flow : string) : string :=
  map_chars (λ c s, if is_ascii_alphanumeric c || (c =? 95)%N then s else "_") flow.

(** core/src/versions.rs [key_token] *)
Definition key_token (flow : string) : string := key_of flow.

Section Versions.
Context {SD : Serde} {K : Type} `{KvOps K}.

(** core/src/versions.rs [get_version] *)
Definition get_version (store : K) (flow : string) : option Value :=
  match kv_get (key_of flow) store with
  | Ok (Some b) => from_json b
  | _ => None
  end.

(** core/src/versions.rs:82-89 [put_version] *)
Definition version_record (flow source parent_hash actor : string) (ts : Z) : Value :=
  obj [("flow", VString flow); ("source", VString source); ("parent", VString parent_hash);
       ("hash", VString (hash_content source)); ("actor", VString actor); ("ts", vint ts)].

(** core/src/versions.rs [put_version] *)
Definition put_version (flow source parent_hash actor : string) (ts : Z) (store : K)
  : res string Z * K :=
  kv_put (key_of flow) (to_json (version_record flow source parent_hash actor ts)) store.

(** core/src/versions.rs [Outcome] *)
Inductive Outcome : Type :=
| OBaseline
| OOverlay
| OEvicted (parent baseline : string).

(** core/src/versions.rs [note_eviction] *)
Definition note_eviction (flow parent baseline : string) (ts : Z) (ring : list Value) : list Value :=
  last_n 50 (ring ++ [obj [("flow", VString flow); ("parent", VString parent);
                           ("baseline", VString baseline); ("ts", vint ts)]]).

(** The bucket, if there is one, and the ring of evictions. *)
Record vstate : Type := { vs_store : option K; vs_ring : list Value }.

(** core/src/versions.rs [recent_evictions] *)
Definition recent_evictions (st : vstate) : list Value := vs_ring st.

(** core/src/versions.rs [resolve_source] *)
Definition resolve_source (flow baseline : string) (ts : Z) (st : vstate)
  : string * Outcome * vstate :=
  match vs_store st with
  | None => (baseline, OBaseline, st)
  | Some store =>
    match get_version store flow with
    | None => (baseline, OBaseline, st)
    | Some ov =>
      let parent := vstr_or "" ov "parent" in
      let base_hash := hash_content baseline in
      if String.eqb parent base_hash then (vstr_or baseline ov "source", OOverlay, st)
      else
        let '(_, store) := kv_delete (key_of flow) store in
        (baseline, OEvicted parent base_hash,
         {| vs_store := Some store; vs_ring := note_eviction flow parent base_hash ts (vs_ring st) |})
    end
  end.

End Versions.
Arguments vstate K : clear implicits.

(** ** Facts *)

Lemma fnv_step_range h b : 0 <= fnv_step h b < 2 ^ 64.
Proof. apply wrap_range. lia. Qed.

(** The content hash is a 64-bit number printed as sixteen digits, whatever
    the source. *)
Theorem hash_content_bounded s : 0 <= fnv1a s < 2 ^ 64 ∧ slen (hash_content s) = 16%nat.
Proof.
  split; [|apply slen_hex_fixed]. unfold fnv1a.
  apply fold_left_ind; [by vm_compute|]. intros. apply fnv_step_range.
Qed.

(** The published test vectors of FNV-1a. *)
Example fnv_vectors :
  hash_content "" = "cbf29ce484222325" ∧ hash_content "a" = "af63dc4c8601ec8c" ∧
  hash_content "foobar" = "85944171f73967e8".
Proof. repeat split; vm_compute; reflexivity. Qed.

Lemma hash_content_utf8 s : valid_utf8 (hash_content s) = true.
Proof. apply ascii_text_valid, hex_fixed_ascii. by intros b ?%byte_in_nil. Qed.

Section Facts.
Context {SD : Serde} {SO : SerdeOk} {K : Type} {KO : KvOps K} {KL : KvLaws K}.

(** What the record of a version must be for its text to be read back. *)
Definition version_ok (flow source actor : string) (ts : Z) : Prop :=
  valid_utf8 flow = true ∧ valid_utf8 source = true ∧ valid_utf8 actor = true ∧ 0 <= ts <= u64_max.

Lemma version_record_ok flow source base actor ts :
  version_ok flow source actor ts →
  value_ok (version_record flow source (hash_content base) actor ts) = true.
Proof.
  intros (Hf & Hs & Ha & Ht).
  pose proof (hash_content_utf8 source). pose proof (hash_content_utf8 base). unfold version_record. doc_ok.
Qed.

Lemma version_record_fields flow source parent actor ts :
  let r := version_record flow source parent actor ts in
  vstr_or "" r "parent" = parent ∧ (∀ d, vstr_or d r "source" = source) ∧
  (∀ d, vstr_or d r "flow" = flow).
Proof. done. Qed.

(** The bucket after a promote holds the record under the flow's key. *)
Lemma put_version_get flow source base actor ts store rev store' :
  version_ok flow source actor ts →
  put_version flow source (hash_content base) actor ts store = (Ok rev, store') →
  (∃ s, kv_get (key_of flow) store' = Ok s) →
  get_version store' flow = Some (version_record flow source (hash_content base) actor ts).
Proof.
  intros Hok Hput [o Hget]. unfold put_version in Hput.
  pose proof (kv_put_law (key_of flow)
    (to_json (version_record flow source (hash_content base) actor ts)) store) as [r Hl].
  rewrite Hput in Hl. destruct Hl as [Hv _]. cbn in Hv.
  unfold get_version. pose proof (kv_get_law (key_of flow) store') as Hg. rewrite Hget in *. subst o.
  rewrite (Hv (key_of flow)), view_set_eq. cbn. apply serde_roundtrip. by apply version_record_ok.
Qed.

(** The version that was put is what a flow on its baseline runs. *)
Lemma put_then_resolve flow source base actor ts ts' store rev store' ring :
  version_ok flow source actor ts →
  put_version flow source (hash_content base) actor ts store = (Ok rev, store') →
  (∃ s, kv_get (key_of flow) store' = Ok s) →
  resolve_source flow base ts' {| vs_store := Some store'; vs_ring := ring |} =
  (source, OOverlay, {| vs_store := Some store'; vs_ring := ring |}).
Proof.
  intros Hok Hput Hget. unfold resolve_source. cbn.
  rewrite (put_version_get _ _ _ _ _ _ _ _ Hok Hput Hget).
  destruct (version_record_fields flow source (hash_content base) actor ts) as (-> & Hs & _).
  rewrite String.eqb_refl. by rewrite Hs.
Qed.

(** A live promote takes effect on its own baseline: after a version is put,
    a flow whose file still has the baseline it forked from runs the promoted
    source, and nothing is evicted. *)
Theorem promote_then_resolve flow source base actor ts ts' store rev store' ring :
  version_ok flow source actor ts →
  put_version flow source (hash_content base) actor ts store = (Ok rev, store') →
  (∃ s, kv_get (key_of flow) store' = Ok s) →
  resolve_source flow base ts' {| vs_store := Some store'; vs_ring := ring |} =
  (source, OOverlay, {| vs_store := Some store'; vs_ring := ring |}).
Proof. apply put_then_resolve. Qed.

(** On another baseline the version is evicted. *)
Lemma other_baseline_evicts flow ov base ts st store :
  vs_store st = Some store → get_version store flow = Some ov →
  vstr_or "" ov "parent" ≠ hash_content base →
  ∃ st', resolve_source flow base ts st = (base, OEvicted (vstr_or "" ov "parent") (hash_content base), st') ∧
    length (vs_ring st') = Nat.min 50 (S (length (vs_ring st))) ∧
    ∀ store', fst (kv_delete (key_of flow) store) = Ok () → vs_store st' = Some store' →
      (∃ s, kv_get (key_of flow) store' = Ok s) →
      ∀ flow' base' ts', key_of flow' = key_of flow →
        resolve_source flow' base' ts' st' = (base', OBaseline, st').
Proof.
  intros Hst Hov Hp. unfold resolve_source. rewrite Hst, Hov.
  rewrite (proj2 (String.eqb_neq _ _) Hp).
  pose proof (kv_delete_law (key_of flow) store) as Hd.
  destruct (kv_delete (key_of flow) store) as [r store1]. eexists. split; [done|]. split.
  { cbn [vs_ring]. unfold note_eviction. rewrite last_n_length, length_app. cbn [length]. f_equal. lia. }
  cbn. intros store' -> [= <-] [o Hg] flow' base' ts' Hk. cbn in Hd.
  unfold get_version. rewrite Hk. pose proof (kv_get_law (key_of flow) store1) as Hl. rewrite Hg in *. subst o.
  by rewrite (Hd (key_of flow)), view_set_eq.
Qed.

(** Git wins: once the baseline has another hash, the overlay no longer
    applies; it is evicted and noted, and the baseline is what runs, then and
    at the next resolution. *)
Theorem moved_baseline_evicts flow ov base ts st store :
  vs_store st = Some store → get_version store flow = Some ov →
  vstr_or "" ov "parent" ≠ hash_content base →
  ∃ st', resolve_source flow base ts st = (base, OEvicted (vstr_or "" ov "parent") (hash_content base), st') ∧
    length (vs_ring st') = Nat.min 50 (S (length (vs_ring st))) ∧
    ∀ store', fst (kv_delete (key_of flow) store) = Ok () → vs_store st' = Some store' →
      (∃ s, kv_get (key_of flow) store' = Ok s) →
      ∀ flow' base' ts', key_of flow' = key_of flow →
        resolve_source flow' base' ts' st' = (base', OBaseline, st').
Proof. apply other_baseline_evicts. Qed.

Lemma resolve_keeps_store flow base ts st src out st' store :
  resolve_source flow base ts st = (src, out, st') → vs_store st = Some store →
  ∃ store', vs_store st' = Some store'.
Proof.
  unfold resolve_source. intros E Hs. rewrite Hs in E.
  destruct (get_version store flow); [|simplify_eq; by eexists].
  destruct (String.eqb _ _); [simplify_eq; by eexists|].
  destruct (kv_delete _ store). simplify_eq. by eexists.
Qed.

(** Whatever the bucket holds, what runs is the baseline or the source of a
    record that names this very baseline as its parent. *)
Theorem resolved_source_justified flow base ts st src out st' :
  resolve_source flow base ts st = (src, out, st') →
  src = base ∨
  ∃ store ov, vs_store st = Some store ∧ get_version store flow = Some ov ∧
    vstr_or "" ov "parent" = hash_content base ∧ src = vstr_or base ov "source" ∧ st' = st.
Proof.
  unfold resolve_source. intros E. destruct (vs_store st) as [store|]; [|left; congruence].
  destruct (get_version store flow) as [ov|] eqn:Hov; [|left; congruence].
  destruct (String.eqb_spec (vstr_or "" ov "parent") (hash_content base)) as [Hp|_].
  - right. exists store, ov. by simplify_eq.
  - left. destruct (kv_delete _ store). congruence.
Qed.

End Facts.

(** Two flows may share a key: a package and a stem are joined by a colon
    that the key turns into an underscore, so resolving one flow evicts the live
    promote of the other. *)
Theorem shared_key_evicts {SD : Serde} {SO : SerdeOk} :
  key_of "flow:a:b_c" = key_of "flow:a_b:c" ∧
  ∃ store, let st := {| vs_store := Some store; vs_ring := [] |} in
    fst (fst (resolve_source "flow:a:b_c" "x = 1" 8 st)) = "x = 2" ∧
    let '(src, _, st') := resolve_source "flow:a_b:c" "y = 1" 9 st in
    src = "y = 1" ∧ fst (fst (resolve_source "flow:a:b_c" "x = 1" 10 st')) = "x = 1".
Proof.
  split; [vm_compute; reflexivity|].
  destruct (put_version "flow:a:b_c" "x = 2" (hash_content "x = 1") "ann" 7 empty_kv)
    as [[rev| | |] store] eqn:Hput; try done.
  exists store. cbn zeta.
  assert (version_ok "flow:a:b_c" "x = 2" "ann" 7) as Hok by (repeat split; done).
  pose proof (put_then_resolve "flow:a:b_c" "x = 2" "x = 1" "ann" 7 8 empty_kv rev store []
    Hok Hput ltac:(by eexists)) as H1. rewrite H1. split; [done|].
  pose proof (put_version_get _ _ _ _ _ _ _ _ Hok Hput ltac:(by eexists)) as Hg.
  assert (key_of "flow:a_b:c" = key_of "flow:a:b_c") as Hk by (vm_compute; reflexivity).
  assert (get_version store "flow:a_b:c" = get_version store "flow:a:b_c") as Hg'.
  { unfold get_version. by rewrite Hk. }
  rewrite Hg in Hg'.
  destruct (other_baseline_evicts "flow:a_b:c" _ "y = 1" 9
    {| vs_store := Some store; vs_ring := [] |} store eq_refl Hg' ltac:(by vm_compute))
    as (st' & Hr & _ & Hn).
  rewrite Hr. split; [done|].
  assert (∃ s', vs_store st' = Some s') as [s' Hs'].
  { by eapply resolve_keeps_store; [exact Hr|]. }
  specialize (Hn s' eq_refl Hs' ltac:(by eexists) "flow:a:b_c" "x = 1" 10 (eq_sym Hk)).
  by rewrite Hn.
Qed.

(** ** Witnesses *)

Section Witnesses.
Notation record := (version_record "flow:orders" "LIMIT = 20" (hash_content "LIMIT = 10") "ann" 7).
Definition promoted : MapKv :=
  snd (put_version "flow:orders" "LIMIT = 20" (hash_content "LIMIT = 10") "ann" 7 empty_kv).

Lemma promoted_ok : version_ok "flow:orders" "LIMIT = 20" "ann" 7.
Proof. repeat split; done. Qed.

Lemma promoted_get : get_version promoted "flow:orders" = Some record.
Proof.
  eapply (put_version_get _ _ "LIMIT = 10" _ _ empty_kv);
    [exact promoted_ok|reflexivity|by eexists].
Qed.

Lemma promote_then_resolve_witness :
  resolve_source "flow:orders" "LIMIT = 10" 8 {| vs_store := Some promoted; vs_ring := [] |} =
  ("LIMIT = 20", OOverlay, {| vs_store := Some promoted; vs_ring := [] |}).
Proof.
  exact (promote_then_resolve "flow:orders" "LIMIT = 20" "LIMIT = 10" "ann" 7 8 empty_kv 1
    promoted [] promoted_ok eq_refl (ex_intro _ _ eq_refl)).
Defined.

Lemma moved_baseline_evicts_witness :
  let st := {| vs_store := Some promoted; vs_ring := [] |} in
  ∃ st', resolve_source "flow:orders" "LIMIT = 11" 9 st =
      ("LIMIT = 11", OEvicted (vstr_or "" record "parent") (hash_content "LIMIT = 11"), st') ∧
    length (vs_ring st') = Nat.min 50 (S (length (vs_ring st))) ∧
    ∀ store', fst (kv_delete (key_of "flow:orders") promoted) = Ok () →
      vs_store st' = Some store' → (∃ s, kv_get (key_of "flow:orders") store' = Ok s) →
      ∀ flow' base' ts', key_of flow' = key_of "flow:orders" →
        resolve_source flow' base' ts' st' = (base', OBaseline, st').
Proof.
  apply (moved_baseline_evicts "flow:orders" record "LIMIT = 11" 9
    {| vs_store := Some promoted; vs_ring := [] |} promoted eq_refl promoted_get).
  by vm_compute.
Defined.

Lemma resolved_source_justified_witness :
  let st := {| vs_store := Some promoted; vs_ring := [] |} in
  "LIMIT = 20" = "LIMIT = 10" ∨
  ∃ store ov, vs_store st = Some store ∧ get_version store "flow:orders" = Some ov ∧
    vstr_or "" ov "parent" = hash_content "LIMIT = 10" ∧
    "LIMIT = 20" = vstr_or "LIMIT = 10" ov "source" ∧ st = st.
Proof.
  exact (resolved_source_justified "flow:orders" "LIMIT = 10" 8 _ "LIMIT = 20" OOverlay _
    (put_then_resolve "flow:orders" "LIMIT = 20" "LIMIT = 10" "ann" 7 8 empty_kv 1
      promoted [] promoted_ok eq_refl (ex_intro _ _ eq_refl))).
Defined.

Lemma shared_key_evicts_witness :
  key_of "flow:a:b_c" = key_of "flow:a_b:c" ∧
  ∃ store, let st := {| vs_store := Some store; vs_ring := [] |} in
    fst (fst (resolve_source "flow:a:b_c" "x = 1" 8 st)) = "x = 2" ∧
    let '(src, _, st') := resolve_source "flow:a_b:c" "y = 1" 9 st in
    src = "y = 1" ∧ fst (fst (resolve_source "flow:a:b_c" "x = 1" 10 st')) = "x = 1".
Proof. exact (@shared_key_evicts printer printer_ok). Defined.
End Witnesses.
