(* ===== verification/Paths.v ===== *)
(** * Paths

    The path arithmetic of core/src/main.rs over the textual paths of
    [std::path]: which file of the project a request may touch
    ([guard_path]), and the package and unit a file belongs to. The file
    system's answer to [canonicalize] is an argument. *)

From stdpp Require Import base gmap list strings.
From Stdlib Require Import ZArith Lia Ascii.
From S2P Require Import Prelude Text.
Open Scope string_scope.
Open Scope nat_scope.

(** ** Path text *)

Definition b_slash : byte := "/".

Definition drop_slashes (s : string) : string := trim_start_byte b_slash s.

(** The text up to the next slash, and the rest from that slash on. *)
Fixpoint take_segment (s : string) : string * string :=
  match s with
  | "" => ("", "")
  | String b r =>
    if Ascii.eqb b b_slash then ("", s)
    else let '(a, t) := take_segment r in (String b a, t)
  end.

Inductive component : Type := CRoot | CCur | CName (s : string).

#[export] Instance component_eq_dec : EqDecision component.
Proof. solve_decision. Defined.

(** The components after the first: empty and "." segments vanish. *)
Fixpoint segments_fuel (n : nat) (s : string) : list component :=
  match n with
  | O => []
  | S n =>
    match drop_slashes s with
    | "" => []
    | t =>
      let '(a, r) := take_segment t in
      if String.eqb a "." then segments_fuel n r else CName a :: segments_fuel n r
    end
  end.
Definition segments (s : string) : list component := segments_fuel (S (slen s)) s.

(** [Path::components]: a leading slash is the root, a leading "." is kept. *)
Definition components (s : string) : list component :=
  match s with
  | String b _ =>
    if Ascii.eqb b b_slash then CRoot :: segments s
    else if String.eqb (fst (take_segment s)) "." then CCur :: segments s
    else segments s
  | "" => []
  end.

(** [Path::starts_with], by components. *)
Definition path_starts_with (p base : string) : bool :=
  bool_decide (take (length (components base)) (components p) = components base).

Definition component_text (c : component) : string :=
  match c with CRoot => "" | CCur => "." | CName s => s end.

(** [Path::strip_prefix]: the rest of the components, put back together. *)
Definition path_strip_prefix (p base : string) : option string :=
  if path_starts_with p base
  then Some (str_join "/" (map component_text (drop (length (components base)) (components p))))
  else None.

(** [Path::file_name]: the last component when it is a name other than "..". *)
Definition file_name (p : string) : option string :=
  match last (components p) with
  | Some (CName s) => if String.eqb s ".." then None else Some s
  | _ => None
  end.

(** [Path::parent]. *)
Definition parent (p : string) : option string :=
  match rev (components p) with
  | [] | [CRoot] => None
  | _ :: r =>
    Some (match rev r with
          | CRoot :: l => "/" ++ str_join "/" (map component_text l)
          | l => str_join "/" (map component_text l)
          end)
  end.

(** [Path::file_stem]: the name up to its last dot, unless that dot is its
    first character. *)
Definition file_stem (p : string) : option string :=
  name ← file_name p;
  Some (match rsplit_once name "." with
        | Some (a, _) => if String.eqb a "" then name else a
        | None => name
        end).

(** ** The runtime's paths *)

(** core/src/main.rs [pkg_of_path] *)
Definition pkg_of_path (path : string) : string :=
  match nth_error (str_split path "packages/") 1 with
  | Some rest => match str_split rest "/" with pkg :: _ => pkg | [] => "default" end
  | None => "default"
  end.

(** core/src/main.rs [flow_proc_name] *)
Definition flow_proc_name (path : string) : string :=
  let stem := default "" (file_stem path) in
  let pkg := pkg_of_path path in
  if String.eqb pkg "default" then "flow:" ++ stem else "flow:" ++ pkg ++ ":" ++ stem.

(** [str::trim_start_matches] of a text. *)
Fixpoint trim_start_matches_fuel (n : nat) (s p : string) : string :=
  match n with
  | O => s
  | S n => match strip_prefix s p with Some r => trim_start_matches_fuel n r p | None => s end
  end.
Definition trim_start_matches (s p : string) : string := trim_start_matches_fuel (slen s) s p.

Section Guard.
(** The real path behind a path, if it exists. *)
Context (canonicalize : string → option string).

(** core/src/main.rs:2539-2548 [guard_path] *)
Definition stays_under (root p : string) : bool :=
  match canonicalize root with
  | None => false
  | Some canon_root =>
    match match canonicalize p with
          | Some c => Some c
          | None =>
            d ← parent p; d ← canonicalize d; f ← file_name p; Some (path_join d f)
          end with
    | Some resolved => path_starts_with resolved canon_root
    | None => false
    end
  end.

(** core/src/main.rs:2521-2527 [guard_path] *)
Definition allowed_name (rel : string) : bool :=
  existsb (starts_with rel) ["flows"; "services"; "connectors"; "packages"]
  && (ends_with rel ".vjs" || ends_with rel ".json").

(** core/src/main.rs [guard_path] *)
Definition guard_path (root rel : string) : option string :=
  if str_contains rel ".." then None
  else
    let rel := trim_start_matches rel "./" in
    let rel := default rel (path_strip_prefix rel root) in
    if negb (allowed_name rel) then None
    else
      let p := path_join root rel in
      if stays_under root p then Some p else None.

(** ** Facts *)

(** Where a link that leads to nothing points. *)
Context (dangling : string → option string).

(** The file that a path stands for when it is read or written: the one that is
    there, what a dangling link points to, or a new one beside the others. *)
Definition lands (p : string) : option string :=
  match canonicalize p, dangling p with
  | Some real, _ => Some real
  | None, Some target => Some target
  | None, None => d ← parent p; dir ← canonicalize d; f ← file_name p; Some (path_join dir f)
  end.

(** C38: what the guard of file names confines: a path it lets
    through is the root joined with a name that begins with one of the four
    words flows, services, connectors and packages and ends in .vjs or .json,
    and the file it is read from or written to, links that were there at the
    check followed, lies under the real root, unless the path is itself a link
    that leads to nothing.  The words need not be whole names of directories,
    and a write follows a dangling link wherever it points: both are findings,
    as is the one call that takes a path without asking the guard. *)
Theorem guard_path_confined root rel p :
  guard_path root rel = Some p →
  str_contains rel ".." = false ∧
  (∃ name dir, p = path_join root name ∧ dir ∈ ["flows"; "services"; "connectors"; "packages"] ∧
     starts_with name dir = true ∧ (ends_with name ".vjs" = true ∨ ends_with name ".json" = true)) ∧
  ∃ canon_root real, canonicalize root = Some canon_root ∧ lands p = Some real ∧
    (path_starts_with real canon_root = true ∨ canonicalize p = None ∧ dangling p = Some real).
Proof.
  unfold guard_path. destruct (str_contains rel ".."); [done|].
  set (name := default _ _). intros H.
  destruct (allowed_name name) eqn:Ha; cbn in H; [|done].
  destruct (stays_under _ _) eqn:Hs; [|done]. injection H as <-. split; [done|]. split.
  { unfold allowed_name in Ha. apply andb_true_iff in Ha as [(dir & Hd & Hn)%existsb_exists He%orb_true_iff].
    exists name, dir. by apply list_elem_of_In in Hd. }
  unfold stays_under in Hs. unfold lands.
  destruct (canonicalize root) as [cr|]; [|done]. exists cr.
  destruct (canonicalize (path_join root name)) as [c|]; [exists c; auto|].
  destruct (parent _) as [d|]; [|done]. cbn in Hs |- *.
  destruct (canonicalize d) as [dir|] eqn:Ed; [|done]. cbn in Hs |- *.
  destruct (file_name _) as [f|]; [|done]. cbn in Hs |- *.
  destruct (dangling _) as [t|]; [exists t; auto|]. eexists. eauto.
Qed.
End Guard.

(** A file system with a link out of the project. *)
Definition demo_real (p : string) : option string :=
  if String.eqb p "/srv/v" then Some "/srv/v"
  else if String.eqb p "/srv/v/flows/x.vjs" then Some "/srv/v/flows/x.vjs"
  else if String.eqb p "/srv/v/flows/evil.vjs" then Some "/etc/passwd"
  else if String.eqb p "/srv/v/flows" then Some "/srv/v/flows"
  else None.

Example guard_cases :
  guard_path demo_real "/srv/v" "flows/x.vjs" = Some "/srv/v/flows/x.vjs" ∧
  guard_path demo_real "/srv/v" "/srv/v/flows/x.vjs" = Some "/srv/v/flows/x.vjs" ∧
  guard_path demo_real "/srv/v" "flows/new.vjs" = Some "/srv/v/flows/new.vjs" ∧
  guard_path demo_real "/srv/v" "/etc/passwd" = None ∧
  guard_path demo_real "/srv/v" "flows/../secrets.json" = None ∧
  guard_path demo_real "/srv/v" "flows/evil.vjs" = None.
Proof. repeat split; vm_compute; reflexivity. Qed.

(** A name that only begins like a directory passes, and so does a link whose
    target is not there yet, which a write creates. *)
Definition demo_dangling (p : string) : option string :=
  if String.eqb p "/srv/v/flows/later.vjs" then Some "/etc/cron.d/job" else None.
Example guard_gaps :
  guard_path demo_real "/srv/v" "flows_old.json" = Some "/srv/v/flows_old.json" ∧
  guard_path demo_real "/srv/v" "flows/later.vjs" = Some "/srv/v/flows/later.vjs" ∧
  lands demo_real demo_dangling "/srv/v/flows/later.vjs" = Some "/etc/cron.d/job".
Proof. repeat split; vm_compute; reflexivity. Qed.

Example unit_names :
  flow_proc_name "root/flows/orders.vjs" = "flow:orders" ∧
  flow_proc_name "root/packages/erp/flows/orders.vjs" = "flow:erp:orders".
Proof. split; vm_compute; reflexivity. Qed.

Lemma guard_path_confined_witness :
  guard_path demo_real "/srv/v" "flows/new.vjs" = Some "/srv/v/flows/new.vjs" ∧
  str_contains "flows/new.vjs" ".." = false ∧
  (∃ name dir, "/srv/v/flows/new.vjs" = path_join "/srv/v" name ∧
     dir ∈ ["flows"; "services"; "connectors"; "packages"] ∧
     starts_with name dir = true ∧ (ends_with name ".vjs" = true ∨ ends_with name ".json" = true)) ∧
  ∃ canon_root real, demo_real "/srv/v" = Some canon_root ∧
    lands demo_real demo_dangling "/srv/v/flows/new.vjs" = Some real ∧
    (path_starts_with real canon_root = true ∨
     demo_real "/srv/v/flows/new.vjs" = None ∧ demo_dangling "/srv/v/flows/new.vjs" = Some real).
Proof.
  split; [vm_compute; reflexivity|].
  apply (guard_path_confined demo_real demo_dangling). vm_compute. reflexivity.
Defined.
