(* ===== verification/Gates.v ===== *)
(** * Credentials and gates

    Who may do what over HTTP and MCP (core/src/main.rs): the constant-time
    comparison of credentials, the routes that belong to the human, and the
    gates of governed and clustered deployments.  A request is its method, its
    path and its headers; the environment is an argument. *)

From stdpp Require Import base gmap list strings.
From Stdlib Require Import ZArith Lia Ascii.
From S2P Require Import Prelude Text.
Open Scope string_scope.
Open Scope Z_scope.

(** ** Comparison *)

Definition byte_at (s : string) (i : nat) : Z :=
  match sdrop i s with String b _ => Z.of_N (bval b) | "" => 0 end.

(** core/src/main.rs [ct_eq] *)
Definition ct_eq (a b : string) : bool :=
  let n := Nat.max (slen a) (slen b) in
  let diff0 := wrap 64 (Z.lxor (Z.of_nat (slen a)) (Z.of_nat (slen b))) in
  let diff :=
    fold_left (λ diff i, Z.lor diff (Z.lxor (byte_at a i) (byte_at b i))) (seq 0 n) diff0 in
  diff =? 0.

(** ** Requests *)

Inductive Method : Type := Get | Head | Post | Put | Patch | Delete | OtherMethod (name : string).

Record Request : Type := {
  rq_method : Method;
  rq_path : string;
  rq_headers : list (string * string)
}.

(** Header names are compared without regard to ASCII case. *)
Definition field_is (name : string) (h : string * string) : bool :=
  String.eqb (to_ascii_lowercase (fst h)) name.

Definition env := (string → option string).

Definition nonempty (o : option string) : option string :=
  s ← o; if String.eqb s "" then None else Some s.

(** core/src/main.rs [approval_token] *)
Definition approval_token (e : env) : option string := nonempty (e "VEJAS_APPROVAL_TOKEN").

(** core/src/main.rs [write_token] *)
Definition write_token (e : env) : option string := nonempty (e "VEJAS_TOKEN").

(** core/src/main.rs [header_actor] *)
Definition header_actor (rq : Request) (default_ : string) : string :=
  match List.find (field_is "x-vejas-actor") (rq_headers rq) with
  | Some (_, v) =>
    let s := trim v in
    if negb (String.eqb s "") && (slen s <=? 128)%nat then s else default_
  | None => default_
  end.

(** core/src/main.rs [approval_authorized] *)
Definition approval_authorized (e : env) (rq : Request) : bool :=
  match approval_token e with
  | Some tok => existsb (λ h, field_is "x-approval-token" h && ct_eq (snd h) tok) (rq_headers rq)
  | None => false
  end.

(** core/src/main.rs [is_human_route] *)
Definition is_human_route (path : string) : bool :=
  String.eqb path "/dlq/replay" || String.eqb path "/dlq/purge"
  || (starts_with path "/proposals/" && (ends_with path "/approve" || ends_with path "/reject")).

(** core/src/main.rs [bearer_authorized] *)
Definition bearer_authorized (rq : Request) (token : string) : bool :=
  existsb (λ h, field_is "authorization" h &&
                match strip_prefix (snd h) "Bearer " with Some t => ct_eq t token | None => false end)
    (rq_headers rq).

(** core/src/main.rs [is_read_method] *)
Definition is_read_method (m : Method) : bool :=
  match m with Get | Head => true | _ => false end.

Definition flag (o : option string) : bool :=
  match o with Some v => String.eqb v "1" || String.eqb v "true" | None => false end.

(** core/src/cluster.rs [clustered] *)
Definition clustered (e : env) : bool := flag (e "VEJAS_CLUSTER").

(** core/src/main.rs [require_approval] *)
Definition require_approval (e : env) : bool := flag (e "VEJAS_REQUIRE_APPROVAL").

Inductive gate_err : Type := DlqHumanAct | ApprovalRequired | Clustered.

(** core/src/main.rs [dlq_agent_gate] *)
Definition dlq_agent_gate (e : env) : res gate_err () :=
  if require_approval e then Err DlqHumanAct else Ok ().

(** core/src/main.rs [dlq_http_gate] *)
Definition dlq_http_gate (e : env) (rq : Request) : res Z () :=
  if negb (require_approval e) || approval_authorized e rq then Ok ()
  else if existsb (field_is "x-approval-token") (rq_headers rq) then Err 401
  else Err 409.

(** core/src/main.rs [approval_gate] *)
Definition approval_gate (e : env) : res gate_err () :=
  if require_approval e then Err ApprovalRequired else Ok ().

(** core/src/main.rs [cluster_write_guard] *)
Definition cluster_write_guard (e : env) : res gate_err () :=
  if clustered e then Err Clustered else Ok ().

(** ** Facts *)

Lemma bval_range b : 0 <= Z.of_N (bval b) < 256.
Proof. pose proof (N_ascii_bounded b). unfold bval. lia. Qed.

Lemma byte_at_range s i : 0 <= byte_at s i < 256.
Proof. unfold byte_at. destruct (sdrop i s); [lia|apply bval_range]. Qed.

Lemma bval_inj a b : Z.of_N (bval a) = Z.of_N (bval b) → a = b.
Proof. intros H. apply N2Z.inj in H. unfold bval in H. by rewrite <- (ascii_N_embedding a), H, ascii_N_embedding. Qed.

Lemma fold_lor_zero (f : nat → Z) l d :
  0 <= d → (∀ i, 0 <= f i) →
  fold_left (λ d i, Z.lor d (f i)) l d = 0 ↔ d = 0 ∧ Forall (λ i, f i = 0) l.
Proof.
  intros Hd Hf. revert d Hd. induction l as [|i l IH]; intros d Hd; cbn.
  { split; [intros ->; split; [done|constructor]|by intros []]. }
  rewrite IH by (apply Z.lor_nonneg; auto). rewrite Z.lor_eq_0_iff, Forall_cons. tauto.
Qed.

Lemma bytes_equal a b :
  slen a = slen b → (∀ i, (i < slen a)%nat → byte_at a i = byte_at b i) → a = b.
Proof.
  revert b. induction a as [|x a IH]; intros [|y b] Hl H; cbn in Hl; try done.
  assert (x = y) as -> by (apply bval_inj; apply (H 0%nat); cbn; lia).
  f_equal. apply IH; [lia|]. intros i Hi. apply (H (S i)). cbn. lia.
Qed.

(** The constant-time comparison decides equality, for credentials of any
    two lengths that fit a machine word. *)
Theorem ct_eq_spec a b :
  Z.of_nat (slen a) < 2 ^ 64 → Z.of_nat (slen b) < 2 ^ 64 → ct_eq a b = true ↔ a = b.
Proof.
  intros Ha Hb. unfold ct_eq. rewrite Z.eqb_eq, fold_lor_zero.
  2: { apply wrap_range. lia. }
  2: { intros i. apply Z.lxor_nonneg. pose proof (byte_at_range a i). pose proof (byte_at_range b i). lia. }
  assert (wrap 64 (Z.lxor (Z.of_nat (slen a)) (Z.of_nat (slen b))) = 0 ↔ slen a = slen b) as ->.
  { rewrite wrap_small.
    - rewrite Z.lxor_eq_0_iff. split; [apply Nat2Z.inj|by intros ->].
    - split; [apply Z.lxor_nonneg; lia|].
      destruct (Z.eq_dec (Z.lxor (Z.of_nat (slen a)) (Z.of_nat (slen b))) 0) as [->|Hz]; [lia|].
      assert (0 <= Z.lxor (Z.of_nat (slen a)) (Z.of_nat (slen b))) by (apply Z.lxor_nonneg; lia).
      apply Z.log2_lt_pow2; [lia|].
      pose proof (Z.log2_lxor (Z.of_nat (slen a)) (Z.of_nat (slen b)) ltac:(lia) ltac:(lia)).
      assert (∀ x, 0 <= x < 2 ^ 64 → Z.log2 x < 64) as Hl.
      { intros x Hx. destruct (Z.eq_dec x 0) as [->|]; [by vm_compute|]. apply Z.log2_lt_pow2; lia. }
      pose proof (Hl (Z.of_nat (slen a)) ltac:(lia)). pose proof (Hl (Z.of_nat (slen b)) ltac:(lia)). lia. }
  split.
  - intros [Hl Hf]. apply bytes_equal; [done|]. intros i Hi. rewrite Forall_forall in Hf.
    apply Z.lxor_eq_0_iff, Hf. apply elem_of_seq. lia.
  - intros ->. split; [done|]. apply Forall_forall. intros i _. apply Z.lxor_nilpotent.
Qed.

Lemma ct_eq_spec_witness : ct_eq "tok" "tok " = true ↔ "tok" = "tok ".
Proof. apply ct_eq_spec; vm_compute; reflexivity. Defined.

(** In governed mode the dead letters are out of an agent's reach: whatever
    the request carries, short of the approval token itself, it is refused, and
    so is every call through the agent's door. *)
Theorem dlq_needs_human e rq :
  require_approval e = true →
  (∀ tok h, approval_token e = Some tok → h ∈ rq_headers rq → field_is "x-approval-token" h = true →
     ct_eq (snd h) tok = false) →
  is_ok (dlq_http_gate e rq) = false ∧ is_ok (dlq_agent_gate e) = false.
Proof.
  intros Hr Hh. unfold dlq_http_gate, dlq_agent_gate, approval_authorized. rewrite Hr. split; [|done].
  cbn. destruct (approval_token e) as [tok|]; [|by destruct (existsb (field_is _) _)].
  destruct (existsb (λ h, field_is "x-approval-token" h && ct_eq (snd h) tok) (rq_headers rq)) eqn:E;
    [|by destruct (existsb (field_is _) _)].
  apply existsb_exists in E as (h & Hin & [Hf Hc]%andb_true_iff).
  rewrite (Hh tok h eq_refl) in Hc; [done|by apply list_elem_of_In|done].
Qed.

Lemma dlq_needs_human_witness :
  let e k := if String.eqb k "VEJAS_REQUIRE_APPROVAL" then Some "1"
             else if String.eqb k "VEJAS_APPROVAL_TOKEN" then Some "human" else None in
  let rq := {| rq_method := Post; rq_path := "/dlq/replay";
               rq_headers := [("Authorization", "Bearer agent"); ("X-Approval-Token", "guess")] |} in
  is_ok (dlq_http_gate e rq) = false ∧ is_ok (dlq_agent_gate e) = false.
Proof.
  apply dlq_needs_human; [reflexivity|]. cbn. intros tok h [= <-].
  rewrite !elem_of_cons, elem_of_nil. intros [->|[->|[]]]; [done|reflexivity].
Defined.
