(* ===== verification/Proposals.v ===== *)
(** * The proposal queue

    core/src/proposals.rs: proposals are records of a bucket, under their id,
    and change status as they are decided.  [new_id] takes the process's
    counter and gives the next. *)

From stdpp Require Import base gmap list strings.
From Stdlib Require Import ZArith Lia Ascii.
From S2P Require Import Prelude Text F64 Json Store Concrete.
Open Scope string_scope.
Open Scope Z_scope.

(** core/src/proposals.rs [new_id] *)
Definition new_id (ts : Z) (seq : Z) : string * Z :=
  ("p-" ++ dec_of_Z ts ++ "-" ++ dec_of_Z seq, wrap 64 (seq + 1)).

Section Proposals.
Context {SD : Serde} {K : Type} `{KvOps K}.

(** core/src/proposals.rs:52-61 [submit] *)
Definition proposal_record (id kind : string) (payload : Value) (author baseline : string)
    (evidence : Value) (ts : Z) : Value :=
  obj [("id", VString id); ("kind", VString kind); ("payload", payload);
       ("author", VString author); ("created_at", vint ts); ("baseline", VString baseline);
       ("evidence", evidence); ("status", VString "pending")].

(** core/src/proposals.rs [submit] *)
Definition submit (id kind : string) (payload : Value) (author baseline : string)
    (evidence : Value) (ts : Z) (store : K) : res string Value * K :=
  let record := proposal_record id kind payload author baseline evidence ts in
  let '(r, store) := kv_put id (to_json record) store in
  (_ ← r; Ok record, store).

(** core/src/proposals.rs [get] *)
Definition get (store : K) (id : string) : option Value :=
  match kv_get id store with
  | Ok (Some b) => from_json b
  | _ => None
  end.

Definition created_at (p : Value) : Z := default 0 (as_u64 (vindex p "created_at")).

(** A stable sort, the highest key first. *)
Fixpoint insert_desc (p : Value) (l : list Value) : list Value :=
  match l with
  | [] => [p]
  | q :: r => if created_at q <=? created_at p then p :: l else q :: insert_desc p r
  end.

(** core/src/proposals.rs [list] *)
Definition list_proposals (store : K) : list Value :=
  let keys := match kv_keys store with Ok l => l | _ => [] end in
  fold_right insert_desc [] (omap (get store) keys).

Definition put_field (k : string) (v : Value) (doc : Value) : Value :=
  match doc with VObject o => VObject (map_insert k v o) | _ => doc end.

(** core/src/proposals.rs:96-102 [set_status] *)
Definition stamped (status : string) (decided_by : option string) (ts : Z) (rec : Value) : Value :=
  let rec := put_field "decided_at" (vint ts) (put_field "status" (VString status) rec) in
  match decided_by with Some by_ => put_field "decided_by" (VString by_) rec | None => rec end.

(** core/src/proposals.rs [set_status] *)
Definition set_status (id status : string) (decided_by : option string) (ts : Z) (store : K)
  : res string Value * K :=
  match get store id with
  | None => (Err "proposal not found", store)
  | Some rec =>
    let rec := stamped status decided_by ts rec in
    let '(r, store) := kv_put id (to_json rec) store in
    (_ ← r; Ok rec, store)
  end.

End Proposals.

(** ** Facts *)

Section Facts.
Context {SD : Serde} {SO : SerdeOk} {K : Type} {KO : KvOps K} {KL : KvLaws K}.

(** Reading back what was written under an id. *)
Lemma get_put id v store rev store' :
  value_ok v = true → kv_put id (to_json v) store = (Ok rev, store') →
  (∃ o, kv_get id store' = Ok o) → get store' id = Some v.
Proof.
  intros Hv Hp [o Hg]. pose proof (kv_put_law id (to_json v) store) as [r Hl].
  rewrite Hp in Hl. destruct Hl as [Hl _]. cbn in Hl. unfold get.
  pose proof (kv_get_law id store') as H. rewrite Hg in *. subst o.
  rewrite (Hl id), view_set_eq. cbn. by apply serde_roundtrip.
Qed.

Lemma stamped_ok status by_ ts rec :
  value_ok rec = true → valid_utf8 status = true →
  (∀ b, by_ = Some b → valid_utf8 b = true) → 0 <= ts <= u64_max →
  value_ok (stamped status by_ ts rec) = true.
Proof.
  intros Hr Hs Hb Ht. unfold stamped.
  assert (∀ k v d, valid_utf8 k = true → value_ok_at 126 v = true → value_ok d = true →
    value_ok (put_field k v d) = true) as Hput.
  { intros k v [] ???; try done. by apply value_ok_insert. }
  assert (value_ok_at 126 (vint ts) = true) by (apply value_ok_int; unfold i64_min; lia).
  destruct by_ as [b|]; [specialize (Hb b eq_refl)|]; repeat apply Hput; done.
Qed.

Lemma put_field_get k v o k' :
  vindex (put_field k v (VObject o)) k' = if String.eqb k' k then v else vindex (VObject o) k'.
Proof.
  unfold vindex, vget. cbn. rewrite map_get_insert. by destruct (String.eqb k' k).
Qed.

(** What a decision leaves of a proposal. *)
Lemma stamped_fields status by_ ts o k :
  vindex (stamped status by_ ts (VObject o)) "status" = VString status ∧
  (k ∉ ["status"; "decided_at"; "decided_by"] →
   vindex (stamped status by_ ts (VObject o)) k = vindex (VObject o) k).
Proof.
  unfold stamped. cbn [put_field].
  split.
  - destruct by_; cbn [put_field]; unfold vindex, vget; by rewrite !map_get_insert.
  - rewrite !elem_of_cons, elem_of_nil. intros Hk.
    assert (String.eqb k "status" = false ∧ String.eqb k "decided_at" = false ∧
            String.eqb k "decided_by" = false) as (H1 & H2 & H3).
    { repeat split; apply String.eqb_neq; naive_solver. }
    destruct by_; cbn [put_field]; unfold vindex, vget; by rewrite !map_get_insert, ?H1, ?H2, ?H3.
Qed.
End Facts.

(** Ids are fresh within a process but not across the cluster: a second
    instance that submits in the same second at the same count takes the same
    id, and its proposal replaces the one of the first, which was waiting. *)
Theorem proposal_id_collides {SD : Serde} {SO : SerdeOk} {K : Type} {KO : KvOps K} {KL : KvLaws K}
    kind p1 p2 a1 a2 b1 b2 ev ts seq (store : K) rec1 rec2 store1 store2 :
  let id := fst (new_id ts seq) in
  let r1 := proposal_record id kind p1 a1 b1 ev ts in
  let r2 := proposal_record id kind p2 a2 b2 ev ts in
  value_ok r1 = true → value_ok r2 = true →
  submit id kind p1 a1 b1 ev ts store = (Ok rec1, store1) →
  submit id kind p2 a2 b2 ev ts store1 = (Ok rec2, store2) →
  (∃ o, kv_get id store1 = Ok o) → (∃ o, kv_get id store2 = Ok o) →
  get store1 id = Some r1 ∧ get store2 id = Some r2.
Proof.
  cbn zeta. intros Hok1 Hok2 Hs1 Hs2 Hg1 Hg2. unfold submit in Hs1, Hs2. split.
  - destruct (kv_put _ _ store) as [r store'] eqn:Hp. injection Hs1 as Hr ->.
    destruct r; try done. by eapply get_put.
  - destruct (kv_put _ _ store1) as [r store'] eqn:Hp. injection Hs2 as Hr ->.
    destruct r; try done. by eapply get_put.
Qed.

(** ** Witness *)

Section Witness.
Notation payload n := (obj [("file", VString "flows/x.vjs"); ("value", vint n)]).
Definition queue1 : MapKv :=
  snd (submit "p-7-1" "set_literal" (payload 1) "ann" "h" VNull 7 empty_kv).
Definition queue2 : MapKv :=
  snd (submit "p-7-1" "set_literal" (payload 2) "bob" "h" VNull 7 queue1).

Notation record n who := (proposal_record "p-7-1" "set_literal" (payload n) who "h" VNull 7).

Lemma proposal_id_collides_witness :
  fst (new_id 7 1) = "p-7-1" ∧
  get queue1 "p-7-1" = Some (record 1 "ann") ∧ get queue2 "p-7-1" = Some (record 2 "bob").
Proof.
  split; [vm_compute; reflexivity|].
  exact (proposal_id_collides "set_literal" (payload 1) (payload 2) "ann" "bob" "h" "h" VNull 7 1
    empty_kv (record 1 "ann") (record 2 "bob") queue1 queue2
    eq_refl eq_refl eq_refl eq_refl (ex_intro _ _ eq_refl) (ex_intro _ _ eq_refl)).
Defined.
End Witness.
