(* ===== verification/Govern.v ===== *)
(** * Governed change

    The life of a change to the business surface (core/src/main.rs): an agent
    submits a proposal pinned to the effective source its evidence saw; a human
    approves or rejects it; approval re-checks the pin and goes through the
    same paths as a direct promote, the version bucket of a cluster or the
    file of a single instance.  The world is what these operations read and
    change; the clock is read once for each operation. *)

From stdpp Require Import base gmap list strings.
From Stdlib Require Import ZArith Lia Ascii.
From S2P Require Import Prelude Text F64 Json Syntax Lexer Parser Edit Store Versions Paths Proposals Concrete.
Open Scope string_scope.
Open Scope Z_scope.

Inductive gerr : Type :=
| Unreachable
| PathNotAllowed
| IoError
| NoVersionStore
| NoProposalStore
| KvError (e : string)
| EditError (e : edit_err)
| ParseError (e : perr)
| BadKind
| UnknownKind (k : string)
| Missing (what : string)
| NotFound
| Already (status : Value)
| BaselineMoved.

Section Govern.
Context {SD : Serde} {K : Type} {KO : KvOps K}.

Record World : Type := {
  files : gmap string string;          (** the project on disk, by path *)
  bus_up : bool;                       (** whether the bus answers *)
  versions : vstate K;
  queue : option K;                    (** the proposal bucket *)
  next_seq : Z;                        (** the process's proposal counter *)
  audits : list (string * Value);      (** audit records by unit, oldest first *)
  events : list (string * Value);      (** events published, oldest first *)
  reloads : nat                        (** reloads of the registry asked for *)
}.

Definition set_files (f : gmap string string) (w : World) : World :=
  {| files := f; bus_up := bus_up w; versions := versions w; queue := queue w;
     next_seq := next_seq w; audits := audits w; events := events w; reloads := reloads w |}.
Definition set_versions (v : vstate K) (w : World) : World :=
  {| files := files w; bus_up := bus_up w; versions := v; queue := queue w;
     next_seq := next_seq w; audits := audits w; events := events w; reloads := reloads w |}.
Definition set_queue (q : option K) (w : World) : World :=
  {| files := files w; bus_up := bus_up w; versions := versions w; queue := q;
     next_seq := next_seq w; audits := audits w; events := events w; reloads := reloads w |}.
Definition set_seq (n : Z) (w : World) : World :=
  {| files := files w; bus_up := bus_up w; versions := versions w; queue := queue w;
     next_seq := n; audits := audits w; events := events w; reloads := reloads w |}.
Definition add_audit (a : string * Value) (w : World) : World :=
  {| files := files w; bus_up := bus_up w; versions := versions w; queue := queue w;
     next_seq := next_seq w; audits := (audits w ++ [a])%list; events := events w;
     reloads := reloads w |}.
Definition add_event (e : string * Value) (w : World) : World :=
  {| files := files w; bus_up := bus_up w; versions := versions w; queue := queue w;
     next_seq := next_seq w; audits := audits w; events := (events w ++ [e])%list;
     reloads := reloads w |}.
Definition add_reload (w : World) : World :=
  {| files := files w; bus_up := bus_up w; versions := versions w; queue := queue w;
     next_seq := next_seq w; audits := audits w; events := events w; reloads := S (reloads w) |}.

(** What does not change during an operation. *)
Context (root : string) (clustered : bool) (subj_root : string) (now : Z).
Context (canonicalize : string → option string).
(** The files that can be written, and whether the bus takes a publication. *)
Context (writable : string → bool) (publishes : string → bool).

Notation G := (sr World gerr).

Definition opt {A} (o : option A) (e : gerr) : G A := sr_lift (ok_or o e).

Definition connect : G () :=
  w ← sr_get; if bus_up w then mret () else sr_fail Unreachable.

Definition read_file (p : string) : G string := w ← sr_get; opt (files w !! p) IoError.

Definition write_file (p content : string) : G () :=
  if writable p then sr_mod (λ w, set_files (<[p := content]> (files w)) w) else sr_fail IoError.

Definition as_edit {A} (r : res edit_err A) : G A :=
  sr_lift match r with
          | Ok a => Ok a
          | Err e => Err (EditError e)
          | Panic => Panic
          | NoFuel => NoFuel
          end.

Definition parses (src : string) : G () :=
  sr_lift match parse src with
          | Ok _ => Ok ()
          | Err e => Err (ParseError e)
          | Panic => Panic
          | NoFuel => NoFuel
          end.

(** [versions::resolve_source] on the world's bucket. *)
Definition effective (unit baseline : string) : G string := λ w,
  let '(src, _, st) := resolve_source unit baseline now (versions w) in
  (Ok src, set_versions st w).

Definition put_version_in (unit source parent actor : string) : G () := λ w,
  match vs_store (versions w) with
  | None => (Err NoVersionStore, w)
  | Some store =>
    let '(r, store) := put_version unit source parent actor now store in
    let w := set_versions {| vs_store := Some store; vs_ring := vs_ring (versions w) |} w in
    match r with
    | Ok _ => (Ok (), w)
    | Err e => (Err (KvError e), w)
    | Panic => (Panic, w)
    | NoFuel => (NoFuel, w)
    end
  end.

(** An operation on the proposal bucket. *)
Definition on_queue {A} (f : K → res string A * K) : G A := λ w,
  match queue w with
  | None => (Err NoProposalStore, w)
  | Some q =>
    let '(r, q) := f q in
    let w := set_queue (Some q) w in
    match r with
    | Ok a => (Ok a, w)
    | Err e => (Err (KvError e), w)
    | Panic => (Panic, w)
    | NoFuel => (NoFuel, w)
    end
  end.

(** Audit and events are best effort: a failed publication is dropped. *)
Definition audit (unit : string) (record : Value) : G () :=
  w ← sr_get;
  if bus_up w && publishes "audit" then sr_mod (add_audit (unit, record)) else mret ().

(** core/src/main.rs [emit_proposal_event] *)
Definition emit_proposal_event (transition : string) (proposal : Value) : G () :=
  let subject := subj_root ++ ".proposals.events" in
  let ev := obj [("transition", VString transition); ("ts", vint now); ("proposal", proposal)] in
  if publishes subject then sr_mod (add_event (subject, ev)) else mret ().

(** core/src/main.rs [record_promote] *)
Definition record_promote (file name key : string) (before after : Value) (actor : string) : G () :=
  match guard_path canonicalize root file with
  | None => mret ()
  | Some path =>
    let unit := flow_proc_name path in
    audit unit (obj [("ts", vint now); ("actor", VString actor); ("unit", VString unit);
                     ("file", VString file); ("name", VString name); ("key", VString key);
                     ("before", before); ("after", after)])
  end.

Definition allowed (file : string) : G string := opt (guard_path canonicalize root file) PathNotAllowed.

(** core/src/main.rs [promote_version] *)
Definition promote_version (file name key : string) (value : Value) (actor : string) : G Value :=
  path ← allowed file;
  baseline ← read_file path;
  let unit := flow_proc_name path in
  _ ← connect;
  w ← sr_get;
  _ ← opt (vs_store (versions w)) NoVersionStore;
  current ← effective unit baseline;
  let before := default VNull (get_literal current name key) in
  new_src ← as_edit (set_literal current name key value);
  let parent := hash_content baseline in
  _ ← put_version_in unit new_src parent actor;
  _ ← record_promote file name key before value actor;
  mret (obj [("ok", VBool true); ("versioned", VBool true); ("flow", VString unit);
             ("parent", VString parent)]).

(** core/src/main.rs [effective_source_hash] *)
Definition effective_source_hash (file : string) : G string :=
  path ← allowed file;
  baseline ← read_file path;
  src ← effective (flow_proc_name path) baseline;
  mret (hash_content src).

(** The next proposal id of the process. *)
Definition fresh_id : G string := λ w,
  let '(id, n) := new_id now (next_seq w) in (Ok id, set_seq n w).

(** core/src/main.rs [submit_proposal] *)
Definition submit_proposal (kind : string) (payload : Value) (author : string) (evidence : Value)
  : G Value :=
  if negb (String.eqb kind "set_literal") && negb (String.eqb kind "version") then sr_fail BadKind
  else
    file ← opt (as_str (vindex payload "file")) (Missing "payload.file");
    _ ← connect;
    baseline ← effective_source_hash file;
    w ← sr_get;
    _ ← opt (queue w) NoProposalStore;
    id ← fresh_id;
    rec ← on_queue (submit id kind payload author baseline evidence now);
    _ ← emit_proposal_event "submitted" rec;
    mret rec.

(** [p[k] == "text"]. *)
Definition field_eq (p : Value) (k text : string) : bool := value_eqb (vindex p k) (VString text).

(** core/src/main.rs:704-724 [reconcile_and_list] *)
Definition reconcile_one (p : Value) : G Value :=
  if negb (field_eq p "status" "pending") then mret p
  else
    match as_str (vindex (vindex p "payload") "file") with
    | None => mret p
    | Some file =>
      current ← sr_try (effective_source_hash file);
      let current := default "" current in
      if negb (String.eqb current "") && negb (String.eqb current (vstr_or "" p "baseline")) then
        let id := vstr_or "" p "id" in
        updated ← sr_try (on_queue (set_status id "expired" None now));
        match updated with
        | None => mret p
        | Some updated =>
          _ ← audit "proposals"
                (obj [("ts", vint now); ("actor", VString "expiry");
                      ("kind", VString "proposal-expired"); ("proposal", VString id);
                      ("baseline_was", vindex p "baseline"); ("baseline_now", VString current)]);
          _ ← emit_proposal_event "expired" updated;
          mret updated
        end
      else mret p
    end.

Fixpoint g_map {A B} (f : A → G B) (l : list A) : G (list B) :=
  match l with
  | [] => mret []
  | x :: r => y ← f x; ys ← g_map f r; mret (y :: ys)
  end.

(** core/src/main.rs [reconcile_and_list] *)
Definition reconcile_and_list : G (list Value) :=
  _ ← connect;
  w ← sr_get;
  q ← opt (queue w) NoProposalStore;
  g_map reconcile_one (list_proposals q).

(** core/src/main.rs:740-756 [apply_approved] *)
Definition apply_literal (file : string) (payload : Value) (actor : string) : G Value :=
  name ← opt (as_str (vindex payload "name")) (Missing "payload.name");
  let key := vstr_or "-" payload "key" in
  let value := vindex payload "value" in
  if clustered then promote_version file name key value actor
  else
    path ← allowed file;
    src ← read_file path;
    let before := default VNull (get_literal src name key) in
    new_src ← as_edit (set_literal src name key value);
    _ ← write_file path new_src;
    _ ← record_promote file name key before value actor;
    _ ← sr_mod add_reload;
    mret (obj [("ok", VBool true); ("file", VString file); ("name", VString name);
               ("key", VString key)]).

(** core/src/main.rs:757-775 [apply_approved] *)
Definition apply_version (file : string) (payload : Value) (actor : string) : G Value :=
  candidate ← opt (as_str (vindex payload "candidate")) (Missing "payload.candidate");
  _ ← parses candidate;
  path ← allowed file;
  baseline ← read_file path;
  let unit := flow_proc_name path in
  _ ← connect;
  if clustered then
    w ← sr_get;
    _ ← opt (vs_store (versions w)) NoVersionStore;
    _ ← put_version_in unit candidate (hash_content baseline) actor;
    mret (obj [("ok", VBool true); ("versioned", VBool true); ("flow", VString unit)])
  else
    _ ← write_file path candidate;
    _ ← sr_mod add_reload;
    mret (obj [("ok", VBool true); ("file", VString file); ("written", VBool true)]).

(** core/src/main.rs [apply_approved] *)
Definition apply_approved (proposal : Value) (actor : string) : G Value :=
  let kind := vstr_or "" proposal "kind" in
  let payload := vindex proposal "payload" in
  file ← opt (as_str (vindex payload "file")) (Missing "payload.file");
  if String.eqb kind "set_literal" then apply_literal file payload actor
  else if String.eqb kind "version" then apply_version file payload actor
  else sr_fail (UnknownKind kind).

(** core/src/main.rs [decide_proposal] *)
Definition decide_proposal (id : string) (approve : bool) (decided_by : string) : G Value :=
  _ ← connect;
  w ← sr_get;
  q ← opt (queue w) NoProposalStore;
  proposal ← opt (get q id) NotFound;
  if negb (field_eq proposal "status" "pending") then sr_fail (Already (vindex proposal "status"))
  else if negb approve then
    updated ← on_queue (set_status id "rejected" (Some decided_by) now);
    _ ← audit "proposals" (obj [("ts", vint now); ("actor", VString decided_by);
                                ("kind", VString "proposal-rejected"); ("proposal", VString id)]);
    _ ← emit_proposal_event "rejected" updated;
    mret updated
  else
    file ← opt (as_str (vindex (vindex proposal "payload") "file")) (Missing "payload.file");
    current ← effective_source_hash file;
    if negb (String.eqb current (vstr_or "" proposal "baseline")) then
      updated ← on_queue (set_status id "expired" None now);
      _ ← emit_proposal_event "expired" updated;
      sr_fail BaselineMoved
    else
      result ← apply_approved proposal decided_by;
      _ ← audit "proposals" (obj [("ts", vint now); ("actor", VString decided_by);
                                  ("kind", VString "proposal-approved"); ("proposal", VString id);
                                  ("applied", result)]);
      updated ← on_queue (set_status id "approved" (Some decided_by) now);
      _ ← emit_proposal_event "approved" updated;
      mret (obj [("ok", VBool true); ("proposal", updated); ("applied", result)]).

End Govern.
