(* ===== verification/GovernProps.v ===== *)
(** * Governed change: properties

    A proposal is decided once, on the source its evidence saw, and only
    approval touches what runs. *)

From stdpp Require Import base gmap list strings.
From Stdlib Require Import ZArith Lia Ascii.
From S2P Require Import Prelude Text F64 Json Syntax Lexer Parser Edit Store Versions Paths Proposals Concrete Govern.
Open Scope string_scope.
Open Scope Z_scope.

Create HintDb frame.

Section Frames.
Context {SD : Serde} {K : Type} {KO : KvOps K}.
Notation G := (sr (@World K) gerr).

(** Every outcome of a computation leaves a world that [R] relates to the one
    before. *)
Definition frame (R : @World K → @World K → Prop) {A} (m : G A) : Prop := ∀ w, R w (snd (m w)).

Context (R : @World K → @World K → Prop) {PR : PreOrder R}.

Lemma frame_ret {A} (a : A) : frame R (mret a : G A).
Proof. intros w. cbn. reflexivity. Qed.

Lemma frame_bind {A B} (m : G A) (f : A → G B) :
  frame R m → (∀ a, frame R (f a)) → frame R (m ≫= f).
Proof.
  intros Hm Hf w. specialize (Hm w). unfold mbind, sr_bind.
  destruct (m w) as [[a|e| |] w1]; try done. cbn in Hm. by etransitivity; [|apply Hf].
Qed.

Lemma frame_try {A} (m : G A) : frame R m → frame R (sr_try m).
Proof. intros Hm w. specialize (Hm w). unfold sr_try. by destruct (m w) as [[] ?]. Qed.

Lemma frame_get : frame R (sr_get : G _).
Proof. intros w. cbn. reflexivity. Qed.
Lemma frame_lift {A} (r : res gerr A) : frame R (sr_lift r : G A).
Proof. intros w. cbn. reflexivity. Qed.
Lemma frame_fail {A} e : frame R (sr_fail e : G A).
Proof. intros w. cbn. reflexivity. Qed.
Lemma frame_mod f : (∀ w, R w (f w)) → frame R (sr_mod f : G ()).
Proof. intros Hf w. apply Hf. Qed.

Lemma frame_map {A B} (f : A → G B) l : (∀ a, frame R (f a)) → frame R (g_map f l).
Proof.
  intros Hf. induction l as [|a l IH]; cbn; [apply frame_ret|].
  apply frame_bind; [done|]. intros. apply frame_bind; [done|]. intros. apply frame_ret.
Qed.

Lemma frame_opt {A} (o : option A) e : frame R (opt o e : G A).
Proof. apply frame_lift. Qed.
Lemma frame_connect : frame R (connect : G ()).
Proof. apply frame_bind; [apply frame_get|]. intros w. destruct (bus_up w); [apply frame_ret|apply frame_fail]. Qed.
Lemma frame_read p : frame R (read_file p : G _).
Proof. apply frame_bind; [apply frame_get|]. intros w. apply frame_opt. Qed.
Lemma frame_as_edit {A} (r : res edit_err A) : frame R (as_edit r : G A).
Proof. apply frame_lift. Qed.
Lemma frame_parses src : frame R (parses src : G ()).
Proof. apply frame_lift. Qed.
Lemma frame_allowed root canon file : frame R (allowed root canon file : G _).
Proof. apply frame_opt. Qed.
End Frames.

#[export] Hint Resolve frame_ret frame_get frame_lift frame_fail frame_try frame_map frame_opt frame_connect
  frame_read frame_as_edit frame_parses frame_allowed : frame.

(** Prove a frame by walking through the binds; [frame_mod] asks what each
    change of the world does. *)
Ltac walk :=
  repeat match goal with
  | |- frame _ (mbind _ _) => apply frame_bind; [exact _| |intros]
  | |- frame _ (sr_mod _) => apply frame_mod; intros
  | |- frame _ (sr_try _) => apply frame_try
  | |- frame _ (if ?b then _ else _) => destruct b
  | |- frame _ (match ?x with _ => _ end) => destruct x
  | |- frame _ _ => solve [eauto with frame]
  end.

Section Props.
Context {SD : Serde} {SO : SerdeOk} {K : Type} {KO : KvOps K} {KL : KvLaws K}.
Context (root : string) (clustered : bool) (subj_root : string) (now : Z).
Context (canonicalize : string → option string) (writable publishes : string → bool).
Notation G := (sr (@World K) gerr).

(** What runs: the project's files, and the version records of the bucket but
    for evictions. *)
Definition same_files (w w' : @World K) : Prop := files w = files w'.
Definition same_bus (w w' : @World K) : Prop := bus_up w = bus_up w'.
Definition same_queue (w w' : @World K) : Prop := queue w = queue w'.

#[local] Instance same_files_pre : PreOrder same_files.
Proof. split; [done|]. unfold same_files. intros ???. congruence. Qed.
#[local] Instance same_bus_pre : PreOrder same_bus.
Proof. split; [done|]. unfold same_bus. intros ???. congruence. Qed.
#[local] Instance same_queue_pre : PreOrder same_queue.
Proof. split; [done|]. unfold same_queue. intros ???. congruence. Qed.

Section Common.
Context (R : @World K → @World K → Prop) {PR : PreOrder R}.
Context (Rv : ∀ v w, R w (set_versions v w)) (Ra : ∀ a w, R w (add_audit a w))
  (Re : ∀ e w, R w (add_event e w)).

Lemma frame_effective unit baseline : frame R (effective now unit baseline : G _).
Proof. intros w. unfold effective. destruct (resolve_source _ _ _ _) as [[??]?]. apply Rv. Qed.

Lemma frame_hash file : frame R (effective_source_hash root now canonicalize file : G _).
Proof.
  unfold effective_source_hash. walk. apply frame_effective.
Qed.

Lemma frame_audit unit r : frame R (audit publishes unit r : G _).
Proof. unfold audit. walk. apply Ra. Qed.

Lemma frame_event t p : frame R (emit_proposal_event subj_root now publishes t p : G _).
Proof. unfold emit_proposal_event. walk. apply Re. Qed.
End Common.

Lemma frame_on_queue {A} R (f : K → res string A * K) :
  PreOrder R → (∀ q w, R w (set_queue q w)) → frame R (on_queue f : G A).
Proof.
  intros HR Hq w. unfold on_queue. destruct (queue w) as [q|]; [|cbn; reflexivity].
  destruct (f q) as [[] q']; apply Hq.
Qed.

(** Changes that no relation of this file minds. *)
Class neutral (R : @World K → @World K → Prop) : Prop := {
  nv : ∀ v w, R w (set_versions v w);
  na : ∀ a w, R w (add_audit a w);
  ne : ∀ e w, R w (add_event e w);
  nr : ∀ w, R w (add_reload w);
  nf : ∀ f w, R w (set_files f w)
}.

Lemma frame_put_version R unit s p a :
  PreOrder R → neutral R → frame R (put_version_in now unit s p a : G _).
Proof.
  intros HR HN w. unfold put_version_in. destruct (vs_store _) as [store|]; [|cbn; reflexivity].
  destruct (put_version _ _ _ _ _ _) as [[] store']; apply nv.
Qed.

Lemma frame_write R p c : PreOrder R → neutral R → frame R (write_file writable p c : G _).
Proof. intros HR HN. unfold write_file. walk. apply nf. Qed.

Lemma frame_record R file name key b a actor :
  PreOrder R → neutral R →
  frame R (record_promote root now canonicalize publishes file name key b a actor : G _).
Proof.
  intros HR HN. unfold record_promote. destruct (guard_path _ _ _); [|apply frame_ret; exact _].
  apply frame_audit; [exact _|apply na].
Qed.

Lemma frame_promote R file name key v actor :
  PreOrder R → neutral R →
  frame R (promote_version root now canonicalize publishes file name key v actor : G _).
Proof.
  intros HR HN. unfold promote_version. walk.
  - apply frame_effective, nv.
  - by apply frame_put_version.
  - by apply frame_record.
Qed.

Lemma frame_apply R p actor :
  PreOrder R → neutral R →
  frame R (apply_approved root clustered now canonicalize writable publishes p actor : G _).
Proof.
  intros HR HN. unfold apply_approved, apply_literal, apply_version. walk;
    try (by apply frame_promote); try (by apply frame_write); try (by apply frame_record);
    try (by apply frame_put_version); try apply nr.
Qed.

#[local] Instance same_bus_neutral : neutral same_bus.
Proof. by constructor. Qed.
#[local] Instance same_queue_neutral : neutral same_queue.
Proof. by constructor. Qed.

Notation decide_proposal := (decide_proposal root clustered subj_root now canonicalize writable publishes).
Notation pending p := (field_eq p "status" "pending").

Lemma connect_Ok (w w' : @World K) u : connect w = (Ok u, w') → w' = w ∧ bus_up w = true.
Proof.
  unfold connect, mbind, sr_bind. cbn. destruct (bus_up w) eqn:E; cbn; [|done]. by intros [= _ <-].
Qed.

Lemma opt_Ok {A} (o : option A) e (w w' : @World K) a : opt o e w = (Ok a, w') → o = Some a ∧ w' = w.
Proof. unfold opt, sr_lift. destruct o; cbn; [|done]. by intros [= <- <-]. Qed.

Lemma read_Ok p (w w' : @World K) s : read_file p w = (Ok s, w') → files w !! p = Some s ∧ w' = w.
Proof. unfold read_file. intros (? & ? & [= <- <-] & H)%sr_bind_Ok. by apply opt_Ok in H. Qed.

(** The source that runs for a file: the baseline, or its valid overlay. *)
Definition running_source (path baseline : string) (w : @World K) : string :=
  fst (fst (resolve_source (flow_proc_name path) baseline now (versions w))).

Lemma effective_hash_Ok file h (w w' : @World K) :
  effective_source_hash root now canonicalize file w = (Ok h, w') →
  ∃ path baseline, guard_path canonicalize root file = Some path ∧
    files w !! path = Some baseline ∧ h = hash_content (running_source path baseline w).
Proof.
  unfold effective_source_hash. intros (path & w1 & H1 & H)%sr_bind_Ok.
  apply opt_Ok in H1 as [Hg ->]. apply sr_bind_Ok in H as (base & w2 & H2 & H).
  apply read_Ok in H2 as [Hb ->]. exists path, base. split; [done|]. split; [done|].
  apply sr_bind_Ok in H as (src & w3 & H3 & H). injection H as <- <-. f_equal.
  unfold effective in H3. unfold running_source.
  destruct (resolve_source _ _ _ _) as [[??]?]. by injection H3.
Qed.

(** A proposal that is not pending is left alone. *)
Lemma decide_decided id approve by_ (w : @World K) q p :
  bus_up w = true → queue w = Some q → get q id = Some p → pending p = false →
  decide_proposal id approve by_ w = (Err (Already (vindex p "status")), w).
Proof.
  intros Hb Hq Hg Hs. unfold Govern.decide_proposal, connect, mbind, sr_bind. cbn.
  rewrite Hb. cbn. rewrite Hq. cbn. rewrite Hg. cbn. by rewrite Hs.
Qed.

(** C23: a decided proposal stays decided: once its status is anything but
    pending, neither approval nor rejection touches anything. *)
Theorem decided_is_final id approve by_ (w : @World K) q p :
  bus_up w = true → queue w = Some q → get q id = Some p → pending p = false →
  decide_proposal id approve by_ w = (Err (Already (vindex p "status")), w).
Proof. apply decide_decided. Qed.

(** Rejecting changes nothing that runs: no file, no version. *)
Theorem rejection_changes_nothing id by_ (w : @World K) r w' :
  decide_proposal id false by_ w = (r, w') → files w' = files w ∧ versions w' = versions w.
Proof.
  set (same w w' := files w = files w' ∧ versions w = versions w' :> vstate K).
  assert (PreOrder same) as HP.
  { split; [done|]. intros ??? [? ?] [? ?]. split; congruence. }
  assert (frame same (decide_proposal id false by_)) as Hf.
  { unfold Govern.decide_proposal. cbn [negb]. walk; try done.
    - by apply frame_on_queue.
    - by apply frame_audit.
    - by apply frame_event. }
  intros E. specialize (Hf w). rewrite E in Hf. by destruct Hf.
Qed.

(** The steps of a decision, up to the proposal. *)
Lemma decide_start {A} id (f : Value → G A) (w : @World K) r w' :
  (_ ← connect; w ← sr_get; q ← opt (queue w) NoProposalStore;
   proposal ← opt (get q id) NotFound; f proposal) w = (Ok r, w') →
  ∃ q p, bus_up w = true ∧ queue w = Some q ∧ get q id = Some p ∧ f p w = (Ok r, w').
Proof.
  intros (u & w1 & Hc & H)%sr_bind_Ok. apply connect_Ok in Hc as [-> Hb].
  apply sr_bind_Ok in H as (? & ? & [= <- <-] & H).
  apply sr_bind_Ok in H as (q & w2 & Hq & H). apply opt_Ok in Hq as [Hq ->].
  apply sr_bind_Ok in H as (p & w3 & Hg & H). apply opt_Ok in Hg as [Hg ->]. by exists q, p.
Qed.

Lemma kept_both {A} (m : G A) w r w' :
  frame same_queue m → frame same_bus m → m w = (r, w') → queue w' = queue w ∧ bus_up w' = bus_up w.
Proof.
  intros HQ HB E. specialize (HQ w). specialize (HB w). rewrite E in HQ, HB.
  unfold same_queue, same_bus in *. cbn in *. split; congruence.
Qed.

(** C12: approval is pinned to the evidence: it goes through only if, when it is
    decided, the proposal is pending and the source that runs hashes to the
    baseline the proposal was submitted on. *)
Theorem approval_is_pinned id by_ (w : @World K) v w' :
  decide_proposal id true by_ w = (Ok v, w') →
  ∃ q p file path baseline, queue w = Some q ∧ get q id = Some p ∧ pending p = true ∧
    as_str (vindex (vindex p "payload") "file") = Some file ∧
    guard_path canonicalize root file = Some path ∧ files w !! path = Some baseline ∧
    hash_content (running_source path baseline w) = vstr_or "" p "baseline".
Proof.
  intros H. apply decide_start in H as (q & p & Hb & Hq & Hg & H).
  destruct (pending p) eqn:Hp; cbn [negb] in H; [|done].
  apply sr_bind_Ok in H as (file & w1 & Hf & H). apply opt_Ok in Hf as [Hf ->].
  apply sr_bind_Ok in H as (cur & w2 & Hh & H).
  apply effective_hash_Ok in Hh as (path & base & Hgp & Hbase & ->).
  exists q, p, file, path, base. do 6 (split; [done|]).
  destruct (String.eqb_spec (hash_content (running_source path base w)) (vstr_or "" p "baseline")) as [|_];
    [done|].
  cbn [negb] in H. apply sr_bind_Ok in H as (? & ? & _ & H).
  by apply sr_bind_Ok in H as (? & ? & _ & H).
Qed.

Lemma on_queue_Ok {A} (f : K → res string A * K) (w w' : @World K) a :
  on_queue f w = (Ok a, w') →
  ∃ q q', queue w = Some q ∧ f q = (Ok a, q') ∧ w' = set_queue (Some q') w.
Proof.
  unfold on_queue. destruct (queue w) as [q|]; [|done]. destruct (f q) as [[] q'] eqn:E; try done.
  intros [= <- <-]. by exists q, q'.
Qed.

Lemma set_status_Ok id s by_ ts (q q' : K) v :
  set_status id s by_ ts q = (Ok v, q') →
  ∃ p rev, get q id = Some p ∧ kv_put id (to_json (stamped s by_ ts p)) q = (Ok rev, q').
Proof.
  unfold set_status. destruct (get q id) as [p|]; [|done].
  destruct (kv_put _ _ _) as [[rev| | |] q1] eqn:E; try done. intros [= <- <-]. by exists p, rev.
Qed.

(** An approval that went through ends by storing the record as approved, on
    the queue it began with. *)
Lemma approve_stores id by_ (w : @World K) v w1 q p :
  decide_proposal id true by_ w = (Ok v, w1) → queue w = Some q → get q id = Some p →
  pending p = true ∧ bus_up w1 = true ∧ ∃ rev q1, queue w1 = Some q1 ∧
    kv_put id (to_json (stamped "approved" (Some by_) now p)) q = (Ok rev, q1).
Proof.
  intros H Hq Hg. apply decide_start in H as (q' & p' & Hb & Hq' & Hg' & H).
  rewrite Hq in Hq'. injection Hq' as <-. rewrite Hg in Hg'. injection Hg' as <-.
  destruct (pending p); cbn [negb] in H; [|done]. split; [done|].
  apply sr_bind_Ok in H as (file & w0 & Hf & H). apply opt_Ok in Hf as [_ ->].
  apply sr_bind_Ok in H as (cur & w2 & Hh & H).
  destruct (String.eqb cur _); cbn [negb] in H.
  2: { apply sr_bind_Ok in H as (? & ? & _ & H). by apply sr_bind_Ok in H as (? & ? & _ & H). }
  apply sr_bind_Ok in H as (res & w3 & Ha & H).
  apply sr_bind_Ok in H as (u & w4 & Hau & H).
  apply sr_bind_Ok in H as (upd & w5 & Hs & H).
  apply on_queue_Ok in Hs as (q4 & q5 & Hq4 & Hs & ->).
  apply sr_bind_Ok in H as (u' & w6 & He & H). injection H as <- <-.
  assert (queue w2 = queue w ∧ bus_up w2 = bus_up w) as [Q2 B2].
  { by apply (kept_both _ _ _ _ (frame_hash same_queue (λ _ _, eq_refl) file)
                (frame_hash same_bus (λ _ _, eq_refl) file)) in Hh. }
  assert (queue w3 = queue w2 ∧ bus_up w3 = bus_up w2) as [Q3 B3].
  { by apply (kept_both _ _ _ _ (frame_apply same_queue p by_ _ _)
                (frame_apply same_bus p by_ _ _)) in Ha. }
  assert (queue w4 = queue w3 ∧ bus_up w4 = bus_up w3) as [Q4 B4].
  { by apply (kept_both _ _ _ _ (frame_audit same_queue (λ _ _, eq_refl) _ _)
                (frame_audit same_bus (λ _ _, eq_refl) _ _)) in Hau. }
  apply (kept_both _ _ _ _ (frame_event same_queue (λ _ _, eq_refl) _ _)
                (frame_event same_bus (λ _ _, eq_refl) _ _)) in He as [Q6 B6].
  cbn in Q6, B6. split; [congruence|]. assert (q4 = q) as -> by congruence.
  apply set_status_Ok in Hs as (p0 & rev & Hp0 & Hput). rewrite Hg in Hp0. injection Hp0 as <-.
  by exists rev, q5.
Qed.

(** A proposal is applied once: after an approval that went through, the
    record says so, and deciding it again, either way, is refused and changes
    nothing. *)
Theorem approved_once id by_ (w : @World K) v w1 q p :
  decide_proposal id true by_ w = (Ok v, w1) →
  queue w = Some q → get q id = Some p → value_ok p = true → valid_utf8 by_ = true →
  0 <= now <= u64_max →
  ∃ q1, queue w1 = Some q1 ∧
    ((∃ o, kv_get id q1 = Ok o) →
     ∀ approve by', decide_proposal id approve by' w1 = (Err (Already (VString "approved")), w1)).
Proof.
  intros H Hq Hg Hv Hu Ht.
  destruct (approve_stores _ _ _ _ _ _ _ H Hq Hg) as (Hp & Hb1 & rev & q1 & Hq1 & Hput).
  exists q1. split; [done|]. intros Ho approve by'. destruct p as [| | | | |o]; try done.
  pose proof (stamped_ok "approved" (Some by_) now (VObject o) Hv eq_refl
    ltac:(by intros b [= <-]) Ht) as Hok.
  pose proof (get_put id _ q rev q1 Hok Hput Ho) as Hget.
  destruct (stamped_fields "approved" (Some by_) now o "") as [Hst _].
  rewrite <- Hst. apply (decide_decided id approve by' w1 q1); try done.
  unfold field_eq. by rewrite Hst.
Qed.
End Props.

(** ** Witnesses *)

Section Witnesses.
Definition demo_canon (p : string) : option string := Some p.
Definition always (_ : string) : bool := true.

(** One flow on disk, an empty bucket, nobody's proposal yet. *)
Definition start : @World MapKv :=
  {| files := {["/srv/flows/x.vjs" := "LIMIT = 10"]}; bus_up := true;
     versions := {| vs_store := Some empty_kv; vs_ring := [] |}; queue := Some empty_kv;
     next_seq := 0; audits := []; events := []; reloads := 0 |}.

Definition demo_payload : Value :=
  obj [("file", VString "flows/x.vjs"); ("name", VString "LIMIT"); ("value", vint 20)].

Definition submitted : res gerr Value * World :=
  submit_proposal "/srv" "vejas" 7 demo_canon always "set_literal" demo_payload "agent" VNull start.
Definition waiting : World := snd submitted.
Definition demo_record : Value :=
  proposal_record "p-7-0" "set_literal" demo_payload "agent" (hash_content "LIMIT = 10") VNull 7.
Definition demo_decide approve by_ :=
  decide_proposal "/srv" false "vejas" 7 demo_canon always always "p-7-0" approve by_ waiting.
Definition approved_world : World := snd (demo_decide true "ann").
Definition waiting_queue : MapKv := default empty_kv (queue waiting).

Lemma waiting_get : queue waiting = Some waiting_queue ∧ get waiting_queue "p-7-0" = Some demo_record.
Proof. split; vm_compute; reflexivity. Qed.

Definition ok_value (r : res gerr Value) : Value := match r with Ok v => v | _ => VNull end.
Definition approved_result : Value := ok_value (fst (demo_decide true "ann")).
Lemma demo_approves : demo_decide true "ann" = (Ok approved_result, approved_world).
Proof. vm_compute. reflexivity. Qed.

Definition decided_queue : MapKv := default empty_kv (queue approved_world).
Definition decided_record : Value := stamped "approved" (Some "ann") 7 demo_record.
Lemma decided_get :
  bus_up approved_world = true ∧ queue approved_world = Some decided_queue ∧
  get decided_queue "p-7-0" = Some decided_record.
Proof. split; [|split]; vm_compute; reflexivity. Qed.

Lemma decided_is_final_witness :
  decide_proposal "/srv" false "vejas" 7 demo_canon always always "p-7-0" true "bob" approved_world =
  (Err (Already (vindex decided_record "status")), approved_world).
Proof.
  destruct decided_get as (Hb & Hq & Hg).
  exact (decided_is_final "/srv" false "vejas" 7 demo_canon always always "p-7-0" true "bob"
    approved_world decided_queue decided_record Hb Hq Hg eq_refl).
Defined.

Lemma rejection_changes_nothing_witness :
  files (snd (demo_decide false "ann")) = files waiting ∧
  versions (snd (demo_decide false "ann")) = versions waiting.
Proof.
  exact (rejection_changes_nothing "/srv" false "vejas" 7 demo_canon always always "p-7-0" "ann"
    waiting (fst (demo_decide false "ann")) _ (surjective_pairing _)).
Defined.

Lemma approval_is_pinned_witness :
  ∃ q p file path baseline, queue waiting = Some q ∧ get q "p-7-0" = Some p ∧
    field_eq p "status" "pending" = true ∧
    as_str (vindex (vindex p "payload") "file") = Some file ∧
    guard_path demo_canon "/srv" file = Some path ∧ files waiting !! path = Some baseline ∧
    hash_content (running_source 7 path baseline waiting) = vstr_or "" p "baseline".
Proof.
  exact (approval_is_pinned "/srv" false "vejas" 7 demo_canon always always "p-7-0" "ann"
    waiting approved_result approved_world demo_approves).
Defined.

Lemma approved_once_witness :
  ∃ q1, queue approved_world = Some q1 ∧
    ((∃ o, kv_get "p-7-0" q1 = Ok o) →
     ∀ approve by', decide_proposal "/srv" false "vejas" 7 demo_canon always always "p-7-0" approve by'
       approved_world = (Err (Already (VString "approved")), approved_world)).
Proof.
  destruct waiting_get as [Hq Hg].
  exact (approved_once "/srv" false "vejas" 7 demo_canon always always "p-7-0" "ann"
    waiting approved_result approved_world waiting_queue demo_record demo_approves Hq Hg
    eq_refl eq_refl ltac:(split; vm_compute; discriminate)).
Defined.
End Witnesses.
