(* ===== verification/Mqtt.v ===== *)
(** * MQTT

    The MQTT 3.1.1 client (core/src/mqtt.rs), QoS 0 and 1: packets as bytes,
    the client over any stream that reads and writes, and the stream its tests
    run on.  Time is in nanoseconds. *)

From stdpp Require Import base list strings.
From Stdlib Require Import ZArith NArith Lia Ascii.
From S2P Require Import Prelude Text.
Open Scope string_scope.
Open Scope N_scope.

Arguments String.append : simpl never.

(** core/src/mqtt.rs:17-25 [packet types] *)
Definition CONNECT : N := 1.
Definition CONNACK : N := 2.
Definition PUBLISH : N := 3.
Definition PUBACK : N := 4.
Definition SUBSCRIBE : N := 8.
Definition SUBACK : N := 9.
Definition PINGREQ : N := 12.
Definition PINGRESP : N := 13.
Definition DISCONNECT : N := 14.

(** core/src/mqtt.rs [Packet] *)
Inductive Packet : Type :=
| ConnAck (session_present : bool) (code : N)
| Publish (topic payload : string) (qos pid : N)
| PubAck (pid : N)
| SubAck (pid code : N)
| PingResp
| Other (ptype : N).

(** What the operations fail with, the texts of the source as constructors. *)
Inductive merr : Type :=
| Io (e : string)
| ClosedByBroker
| MalformedLength
| ConnackRefused (code : N)
| SubackFailure (code : N)
| Unexpected (wanted : string) (got : Packet).

(** A byte from a number, high bits dropped. *)
Definition byte_of (n : N) : byte := ascii_of_N (n mod 256).
Definition one (b : byte) : string := String b "".

(** A sixteen-bit number, most significant byte first. *)
Definition be16 (n : N) : string := one (byte_of (N.shiftr n 8)) ++ one (byte_of n).

(** core/src/mqtt.rs [put_str] *)
Definition put_str (buf s : string) : string := buf ++ be16 (N.of_nat (slen s) mod 65536) ++ s.

(** core/src/mqtt.rs [put_remaining_len] *)
Fixpoint remaining_len (fuel : nat) (n : N) : string :=
  match fuel with
  | O => ""
  | S fuel =>
    let byte := n mod 128 in
    let n := n / 128 in
    if 0 <? n then one (byte_of (N.lor byte 128)) ++ remaining_len fuel n else one (byte_of byte)
  end.

(** core/src/mqtt.rs [put_remaining_len] *)
Definition put_remaining_len (buf : string) (n : N) : string :=
  buf ++ remaining_len (S (N.to_nat (N.log2 n))) n.

(** core/src/mqtt.rs [frame] *)
Definition frame (packet_type flags : N) (body : string) : string :=
  put_remaining_len (one (byte_of (N.lor (N.shiftl packet_type 4) (N.land flags 15))))
    (N.of_nat (slen body)) ++ body.

(** [body.get(i)], [body.get(i..j)], [body.get(i..)]. *)
Definition byte_at (s : string) (i : nat) : option N := option_map bval (String.get i s).
Definition get_range (s : string) (i n : nat) : option string :=
  if Nat.leb (i + n) (slen s) then Some (stake n (sdrop i s)) else None.
Definition get_from (s : string) (i : nat) : option string :=
  if Nat.leb i (slen s) then Some (sdrop i s) else None.

Definition u16_at (s : string) (i : nat) : N :=
  default 0 (byte_at s i) * 256 + default 0 (byte_at s (S i)).

(** core/src/mqtt.rs [parse] *)
Definition parse (b1 : N) (body : string) : Packet :=
  let ptype := N.shiftr b1 4 in
  if ptype =? CONNACK then
    ConnAck (match byte_at body 0 with Some b => N.land b 1 =? 1 | None => false end)
      (default 255 (byte_at body 1))
  else if ptype =? PUBACK then PubAck (u16_at body 0)
  else if ptype =? SUBACK then SubAck (u16_at body 0) (default 128 (byte_at body 2))
  else if ptype =? PINGRESP then PingResp
  else if ptype =? PUBLISH then
    let qos := N.land (N.shiftr b1 1) 3 in
    let tlen := N.to_nat (u16_at body 0) in
    let topic := from_utf8_lossy (default "" (get_range body 2 tlen)) in
    let i := (2 + tlen)%nat in
    let '(pid, i) := if 0 <? qos then (u16_at body i, (i + 2)%nat) else (0, i) in
    let payload := default "" (get_from body i) in
    Publish topic payload qos pid
  else Other ptype.

(** ** Streams *)

(** What one read of one byte answers: end of stream, a byte, a timeout of the
    socket, or an error. *)
Inductive rd : Type := RClosed | RByte (b : byte) | RTimeout | RErr (e : string).

Class Stream (S : Type) := {
  rd_one : S → rd * S;
  rd_exact : nat → S → res string string * S;
  wr_all : string → S → res string () * S    (** write all and flush *)
}.

(** What waits to be read, what was written.  What was written in full is all
    there; a write that fails may have left any part of it. *)
Class StreamLaws (S : Type) `{Stream S} := {
  inbound : S → string;
  outbound : S → string;
  rd_one_law s b r : inbound s = String b r →
    ∃ s', rd_one s = (RByte b, s') ∧ inbound s' = r ∧ outbound s' = outbound s;
  rd_exact_law s a r : inbound s = a ++ r →
    ∃ s', rd_exact (slen a) s = (Ok a, s') ∧ inbound s' = r ∧ outbound s' = outbound s;
  wr_all_law s b :
    match wr_all b s with
    | (Ok _, s') => inbound s' = inbound s ∧ outbound s' = outbound s ++ b
    | (Err _, s') => ∃ p q, b = p ++ q ∧ outbound s' = outbound s ++ p
    | _ => False
    end
}.

Section Client.
Context {S : Type} {ST : Stream S}.

(** core/src/mqtt.rs [Client] *)
Record Client : Type := { stream : S; next_pid : N; keepalive : N; last_out : N }.

Definition set_stream (s : S) (c : Client) : Client :=
  {| stream := s; next_pid := next_pid c; keepalive := keepalive c; last_out := last_out c |}.

Definition nanos : N := 1000000000.

(** core/src/mqtt.rs [new] *)
Definition new (s : S) (keepalive_secs now : N) : Client :=
  {| stream := s; next_pid := 1; keepalive := N.max keepalive_secs 1 * nanos; last_out := now |}.

Notation C := (sr Client merr).

Definition io {A} (r : res string A) : res merr A :=
  match r with Ok a => Ok a | Err e => Err (Io e) | Panic => Panic | NoFuel => NoFuel end.

(** core/src/mqtt.rs [pid] *)
Definition pid : C N := λ c,
  (Ok (next_pid c),
   {| stream := stream c; next_pid := N.max ((next_pid c + 1) mod 65536) 1;
      keepalive := keepalive c; last_out := last_out c |}).

(** core/src/mqtt.rs [send] *)
Definition send (now : N) (bytes : string) : C () := λ c,
  let '(r, s) := wr_all bytes (stream c) in
  match r with
  | Ok _ => (Ok (), {| stream := s; next_pid := next_pid c; keepalive := keepalive c; last_out := now |})
  | _ => (io r, set_stream s c)
  end.

(** core/src/mqtt.rs [read_exact] *)
Definition read_exact (n : nat) : C string := λ c,
  let '(r, s) := rd_exact n (stream c) in (io r, set_stream s c).

(** core/src/mqtt.rs [read_remaining_len] *)
Fixpoint read_len (rounds : nat) (mult value : N) : C N :=
  match rounds with
  | O => sr_fail MalformedLength
  | Datatypes.S rounds =>
    b ← read_exact 1;
    let byte := default 0 (byte_at b 0) in
    let value := value + N.land byte 127 * mult in
    if N.land byte 128 =? 0 then mret value else read_len rounds (mult * 128) value
  end.
(** core/src/mqtt.rs [read_remaining_len] *)
Definition read_remaining_len : C N := read_len 4 1 0.

(** core/src/mqtt.rs [read_packet] *)
Definition read_packet : C (option Packet) := λ c,
  let '(r, s) := rd_one (stream c) in
  let c := set_stream s c in
  match r with
  | RClosed => (Err ClosedByBroker, c)
  | RTimeout => (Ok None, c)
  | RErr e => (Err (Io e), c)
  | RByte b1 =>
    (remaining ← read_remaining_len;
     body ← read_exact (N.to_nat remaining);
     mret (Some (parse (bval b1) body))) c
  end.

(** core/src/mqtt.rs [read_packet_blocking] *)
Fixpoint read_packet_blocking (fuel : nat) : C Packet :=
  match fuel with
  | O => sr_lift NoFuel
  | Datatypes.S fuel =>
    p ← read_packet;
    match p with Some p => mret p | None => read_packet_blocking fuel end
  end.

(** core/src/mqtt.rs [connect] *)
Definition connect_body (ka : N) (client_id : string) (clean_session : bool) (user pass : option string)
  : string :=
  let body := put_str "" "MQTT" ++ one (byte_of 4) in
  let flags := if clean_session then 2 else 0 in
  let flags := match user with Some _ => N.lor flags 128 | None => flags end in
  let flags := match pass with Some _ => N.lor flags 64 | None => flags end in
  let body := body ++ one (byte_of flags) ++ be16 (ka mod 65536) in
  let body := put_str body client_id in
  let body := match user with Some u => put_str body u | None => body end in
  match pass with Some p => put_str body p | None => body end.

(** core/src/mqtt.rs [connect] *)
Definition connect (fuel : nat) (now : N) (client_id : string) (clean_session : bool)
  (user pass : option string) : C () :=
  c ← sr_get;
  _ ← send now (frame CONNECT 0
                  (connect_body (keepalive c / nanos) client_id clean_session user pass));
  p ← read_packet_blocking fuel;
  match p with
  | ConnAck _ 0 => mret ()
  | ConnAck _ code => sr_fail (ConnackRefused code)
  | other => sr_fail (Unexpected "CONNACK" other)
  end.

(** core/src/mqtt.rs [subscribe] *)
Definition subscribe (fuel : nat) (now : N) (topic : string) (qos : N) : C () :=
  p ← pid;
  let body := put_str (be16 p) topic ++ one (byte_of qos) in
  _ ← send now (frame SUBSCRIBE 2 body);
  p ← read_packet_blocking fuel;
  match p with
  | SubAck _ code =>
    if code <=? 2 then mret () else sr_fail (SubackFailure code)
  | other => sr_fail (Unexpected "SUBACK" other)
  end.

(** core/src/mqtt.rs [publish] *)
Definition publish (now : N) (topic payload : string) (qos : N) : C (option N) :=
  id ← (if 0 <? qos then p ← pid; mret (Some p) else mret None);
  let body := put_str "" topic ++ (match id with Some p => be16 p | None => "" end) ++ payload in
  let flags := N.shiftl (N.land qos 3) 1 in
  _ ← send now (frame PUBLISH flags body);
  mret id.

(** core/src/mqtt.rs [puback] *)
Definition puback (now p : N) : C () := send now (frame PUBACK 0 (be16 p)).

(** core/src/mqtt.rs [pingreq] *)
Definition pingreq (now : N) : C () := send now (frame PINGREQ 0 "").

(** core/src/mqtt.rs [disconnect] *)
Definition disconnect (now : N) : C () := _ ← sr_try (send now (frame DISCONNECT 0 "")); mret ().

(** core/src/mqtt.rs [keepalive_tick] *)
Definition keepalive_tick (now : N) : C () :=
  c ← sr_get;
  if keepalive c / 2 <=? now - last_out c then pingreq now else mret ().
End Client.
Arguments Client S : clear implicits.

(** core/src/mqtt.rs [Fake] *)
Record Fake : Type := { fk_in : string; fk_out : string }.

#[export] Instance fake_stream : Stream Fake := {|
  rd_one s := match fk_in s with
              | "" => (RClosed, s)
              | String b r => (RByte b, {| fk_in := r; fk_out := fk_out s |})
              end;
  rd_exact n s :=
    if Nat.leb n (slen (fk_in s))
    then (Ok (stake n (fk_in s)), {| fk_in := sdrop n (fk_in s); fk_out := fk_out s |})
    else (Err "failed to fill whole buffer", {| fk_in := ""; fk_out := fk_out s |});
  wr_all b s := (Ok (), {| fk_in := fk_in s; fk_out := fk_out s ++ b |})
|}.

#[export] Instance fake_laws : StreamLaws Fake.
Proof.
  refine {| inbound := fk_in; outbound := fk_out |}.
  - intros s b r E. cbn. rewrite E. by eexists.
  - intros s a r E. cbn. rewrite E, slen_app.
    replace (Nat.leb (slen a) (slen a + slen r)) with true by (symmetry; apply Nat.leb_le; lia).
    rewrite stake_app, sdrop_app. by eexists.
  - done.
Defined.

(** ** Bytes *)

Lemma bval_byte n : bval (byte_of n) = n mod 256.
Proof. unfold bval, byte_of. apply N_ascii_embedding. apply N.mod_lt. lia. Qed.

Lemma byte_at_0 b s : byte_at (String b s) 0 = Some (bval b).
Proof. done. Qed.

Lemma byte_at_app a s i : byte_at (a ++ s) (slen a + i) = byte_at s i.
Proof.
  unfold byte_at. f_equal. induction a as [|c a IH]; [done|]. exact IH.
Qed.

Lemma be16_app n s : be16 n ++ s = String (byte_of (N.shiftr n 8)) (String (byte_of n) s).
Proof. done. Qed.

Lemma be16_split n : n < 65536 → (N.shiftr n 8 mod 256) * 256 + n mod 256 = n.
Proof.
  intros H. rewrite N.shiftr_div_pow2. change (2 ^ 8) with 256.
  rewrite (N.mod_small (n / 256)) by (apply N.Div0.div_lt_upper_bound; lia).
  rewrite (N.Div0.div_mod n 256) at 3. lia.
Qed.

Lemma u16_be16 a n s : n < 65536 → u16_at (a ++ be16 n ++ s) (slen a) = n.
Proof.
  intros H. unfold u16_at. rewrite be16_app.
  pose proof (byte_at_app a (String (byte_of (N.shiftr n 8)) (String (byte_of n) s)) 0) as H0.
  pose proof (byte_at_app a (String (byte_of (N.shiftr n 8)) (String (byte_of n) s)) 1) as H1.
  rewrite Nat.add_0_r in H0. replace (S (slen a)) with (slen a + 1)%nat by lia. rewrite H0, H1. cbn.
  fold (bval (byte_of (N.shiftr n 8))) (bval (byte_of n)). rewrite !bval_byte. by apply be16_split.
Qed.

(** The bits of the two halves of a byte that continues a length. *)
Lemma len_byte_bits b : b < 128 →
  N.land b 127 = b ∧ N.land b 128 = 0 ∧ N.land (N.lor b 128) 127 = b ∧
  N.land (N.lor b 128) 128 = 128 ∧ N.lor b 128 < 256.
Proof.
  intros H. assert (N.land b 127 = b) as E1.
  { change 127 with (N.ones 7). rewrite N.land_ones. apply N.mod_small. exact H. }
  assert (N.land b 128 = 0) as E2.
  { rewrite <- E1, <- N.land_assoc. apply N.land_0_r. }
  assert (N.lor b 128 = b + 128) as E3.
  { symmetry. apply N.add_nocarry_lxor in E2 as E. rewrite E. by apply N.lxor_lor. }
  repeat split; try done.
  - rewrite N.land_lor_distr_l, E1. apply N.lor_0_r.
  - rewrite N.land_lor_distr_l, E2. done.
  - rewrite E3. lia.
Qed.

Section Reading.
Context {T : Type} {ST : Stream T} {SL : StreamLaws T}.
Notation C := (sr (Client T) merr).

(** What differs between two states of a client that only read. *)
Definition reads (c c' : Client T) (rest : string) : Prop :=
  inbound (stream c') = rest ∧ outbound (stream c') = outbound (stream c) ∧
  next_pid c' = next_pid c ∧ keepalive c' = keepalive c ∧ last_out c' = last_out c.

Lemma reads_trans c c1 c2 r1 r2 : reads c c1 r1 → reads c1 c2 r2 → reads c c2 r2.
Proof. unfold reads. intros (?&?&?&?&?) (?&?&?&?&?). repeat split; congruence. Qed.

Lemma read_exact_ok a r c : inbound (stream c) = a ++ r →
  ∃ c', read_exact (slen a) c = (Ok a, c') ∧ reads c c' r.
Proof.
  intros H. destruct (rd_exact_law _ _ _ H) as (s' & E & Hi & Ho).
  exists (set_stream s' c). unfold read_exact. rewrite E. done.
Qed.

Lemma read_one_ok b r c : inbound (stream c) = String b r →
  ∃ c', read_exact 1 c = (Ok (one b), c') ∧ reads c c' r.
Proof. intros H. exact (read_exact_ok (one b) r c H). Qed.

Lemma read_len_unfold rounds mult value c b r :
  inbound (stream c) = String b r →
  ∃ c', reads c c' r ∧
    read_len (S rounds) mult value c =
    (if N.land (bval b) 128 =? 0 then mret (value + N.land (bval b) 127 * mult)
     else read_len rounds (mult * 128) (value + N.land (bval b) 127 * mult) : C N) c'.
Proof.
  intros H. destruct (read_one_ok b r c H) as (c' & E & Hr). exists c'. split; [done|].
  cbn [read_len]. unfold mbind, sr_bind. rewrite E. done.
Qed.

Lemma remaining_len_step fuel n :
  remaining_len (S fuel) n =
  if n <? 128 then one (byte_of n)
  else one (byte_of (N.lor (n mod 128) 128)) ++ remaining_len fuel (n / 128).
Proof.
  cbn [remaining_len]. destruct (N.ltb_spec n 128) as [H|H].
  - rewrite N.div_small, N.mod_small by done. done.
  - assert (1 <= n / 128) by (apply N.div_le_lower_bound; lia).
    by destruct (N.ltb_spec 0 (n / 128)); [|lia].
Qed.

Lemma remaining_len_fuel fuel n : 128 <= n < 2 ^ N.of_nat (S fuel) →
  (0 < fuel)%nat ∧ n / 128 < 2 ^ N.of_nat fuel.
Proof.
  rewrite Nat2N.inj_succ, N.pow_succ_r'. intros [Hl Hu]. split.
  - destruct fuel; [|lia]. change (2 ^ N.of_nat 0) with 1 in Hu. lia.
  - apply N.Div0.div_lt_upper_bound. lia.
Qed.

(** Reading a length that was written gives it back, if it fits the rounds. *)
Lemma read_len_fits rounds : ∀ fuel n mult value rest (c : Client T),
  (0 < fuel)%nat → n < 2 ^ N.of_nat fuel → (0 < rounds)%nat → n < 128 ^ N.of_nat rounds →
  inbound (stream c) = remaining_len fuel n ++ rest →
  ∃ c', read_len rounds mult value c = (Ok (value + n * mult), c') ∧ reads c c' rest.
Proof.
  induction rounds as [|rounds IH]; [lia|]. intros [|fuel] n mult value rest c Hf Hn _ Hr Hi; [lia|].
  rewrite remaining_len_step in Hi. destruct (N.ltb_spec n 128) as [Hs|Hs].
  - destruct (read_len_unfold rounds mult value c _ _ Hi) as (c' & Hc & ->). exists c'.
    rewrite bval_byte, (N.mod_small n) by lia.
    destruct (len_byte_bits n Hs) as (-> & -> & _). done.
  - rewrite <- app_assoc_str in Hi.
    destruct (read_len_unfold rounds mult value c _ _ Hi) as (c1 & Hc & ->).
    pose proof (N.mod_lt n 128 ltac:(lia)) as Hm.
    destruct (len_byte_bits _ Hm) as (_ & _ & E1 & E2 & E3).
    rewrite bval_byte, (N.mod_small (N.lor _ _)), E1, E2 by done. cbn [N.eqb].
    destruct (remaining_len_fuel fuel n) as [Hf' Hn']; [done|].
    rewrite Nat2N.inj_succ, N.pow_succ_r' in Hr.
    assert (0 < rounds)%nat as Hr'.
    { destruct rounds; [|lia]. change (128 ^ N.of_nat 0) with 1 in Hr. lia. }
    destruct (IH fuel (n / 128) (mult * 128) (value + n mod 128 * mult) rest c1) as (c2 & E & Hc2);
      try done; [by apply N.Div0.div_lt_upper_bound|apply Hc|].
    exists c2. split; [|by eapply reads_trans]. rewrite E. do 2 f_equal.
    rewrite (N.Div0.div_mod n 128) at 3. lia.
Qed.

(** A length past the rounds is refused. *)
Lemma read_len_over rounds : ∀ fuel n mult value rest (c : Client T),
  (0 < fuel)%nat → n < 2 ^ N.of_nat fuel → 128 ^ N.of_nat rounds <= n →
  inbound (stream c) = remaining_len fuel n ++ rest →
  fst (read_len rounds mult value c) = Err MalformedLength.
Proof.
  induction rounds as [|rounds IH]; [done|]. intros [|fuel] n mult value rest c Hf Hn Hr Hi; [lia|].
  rewrite Nat2N.inj_succ, N.pow_succ_r' in Hr.
  pose proof (N.pow_nonzero 128 (N.of_nat rounds) ltac:(lia)) as Hp.
  rewrite remaining_len_step in Hi. destruct (N.ltb_spec n 128) as [Hs|Hs]; [lia|].
  rewrite <- app_assoc_str in Hi.
  destruct (read_len_unfold rounds mult value c _ _ Hi) as (c1 & Hc & ->).
  pose proof (N.mod_lt n 128 ltac:(lia)) as Hm.
  destruct (len_byte_bits _ Hm) as (_ & _ & E1 & E2 & E3).
  rewrite bval_byte, (N.mod_small (N.lor _ _)), E1, E2 by done. cbn [N.eqb].
  destruct (remaining_len_fuel fuel n) as [Hf' Hn']; [done|].
  apply (IH fuel (n / 128) _ _ rest); try done; [by apply N.div_le_lower_bound|apply Hc].
Qed.

Lemma log2_fuel n : (0 < S (N.to_nat (N.log2 n)))%nat ∧ n < 2 ^ N.of_nat (S (N.to_nat (N.log2 n))).
Proof.
  split; [lia|]. rewrite Nat2N.inj_succ, N2Nat.id. destruct (N.eq_dec n 0) as [->|]; [done|].
  apply N.log2_spec. lia.
Qed.

Definition max_body : N := 2 ^ 28.

(** Reading a frame that was written. *)
Lemma read_frame pt flags body rest (c : Client T) :
  inbound (stream c) = frame pt flags body ++ rest →
  let b1 := N.lor (N.shiftl pt 4) (N.land flags 15) mod 256 in
  if N.of_nat (slen body) <? max_body
  then ∃ c', read_packet c = (Ok (Some (parse b1 body)), c') ∧ reads c c' rest
  else fst (read_packet c) = Err MalformedLength.
Proof.
  unfold frame, put_remaining_len. rewrite <- !app_assoc_str. intros Hi.
  destruct (rd_one_law _ _ _ Hi) as (s1 & E1 & Hi1 & Ho1). cbv zeta. unfold read_packet. rewrite E1.
  set (c1 := set_stream s1 c). destruct (log2_fuel (N.of_nat (slen body))) as [Hf Hn].
  destruct (N.ltb_spec (N.of_nat (slen body)) max_body) as [Hl|Hl].
  - destruct (read_len_fits 4 _ _ 1 0 (body ++ rest) c1 Hf Hn) as (c2 & E2 & Hc2);
      [lia|exact Hl|exact Hi1|].
    unfold mbind, sr_bind. unfold read_remaining_len. rewrite E2. cbn beta iota.
    rewrite N.add_0_l, N.mul_1_r, Nat2N.id.
    destruct (read_exact_ok body rest c2) as (c3 & E3 & Hc3); [apply Hc2|].
    rewrite E3. exists c3. rewrite bval_byte. split; [done|].
    apply (reads_trans c c1 c3 (inbound s1)); [done|].
    exact (reads_trans _ _ _ _ _ Hc2 Hc3).
  - pose proof (read_len_over 4 _ _ 1 0 (body ++ rest) c1 Hf Hn Hl Hi1) as E.
    unfold mbind, sr_bind, read_remaining_len. destruct (read_len 4 1 0 c1) as [r ?].
    cbn in E. by rewrite E.
Qed.
End Reading.

(** ** Packets *)

Lemma get_range_app a b c : get_range (a ++ b ++ c) (slen a) (slen b) = Some b.
Proof.
  unfold get_range. rewrite !slen_app.
  replace (Nat.leb _ _) with true by (symmetry; apply Nat.leb_le; lia).
  by rewrite sdrop_app, stake_app.
Qed.

Lemma get_from_app a b : get_from (a ++ b) (slen a) = Some b.
Proof.
  unfold get_from. rewrite slen_app.
  replace (Nat.leb _ _) with true by (symmetry; apply Nat.leb_le; lia). by rewrite sdrop_app.
Qed.

(** The fields of a publication, found where they were written. *)
Lemma parse_publish topic payload qos p :
  qos < 4 → N.of_nat (slen topic) < 65536 → valid_utf8 topic = true → p < 65536 →
  parse (N.lor (N.shiftl PUBLISH 4) (N.land (N.shiftl (N.land qos 3) 1) 15) mod 256)
    (be16 (N.of_nat (slen topic)) ++ topic ++ (if 0 <? qos then be16 p else "") ++ payload) =
  Publish topic payload qos (if 0 <? qos then p else 0).
Proof.
  intros Hq Ht Hv Hp.
  assert (∃ b1, N.lor (N.shiftl PUBLISH 4) (N.land (N.shiftl (N.land qos 3) 1) 15) mod 256 = b1 ∧
    N.shiftr b1 4 = PUBLISH ∧ N.land (N.shiftr b1 1) 3 = qos) as (b1 & -> & Hty & Hqos).
  { eexists. split; [done|].
    assert (qos = 0 ∨ qos = 1 ∨ qos = 2 ∨ qos = 3) as [-> | [-> | [-> | ->]]] by lia; done. }
  unfold parse. rewrite Hty, Hqos. cbn [N.eqb PUBLISH CONNACK PUBACK SUBACK PINGRESP Pos.eqb].
  set (id := if 0 <? qos then be16 p else ""). set (head := be16 (N.of_nat (slen topic))).
  pose proof (u16_be16 "" _ (topic ++ id ++ payload) Ht : u16_at (head ++ topic ++ id ++ payload) 0 = _) as Hu.
  rewrite Hu, Nat2N.id.
  pose proof (get_range_app head topic (id ++ payload) : get_range _ 2 _ = _) as Hr. rewrite Hr.
  cbn [default]. unfold default, id. rewrite from_utf8_lossy_valid by done.
  destruct (0 <? qos).
  - rewrite !(app_assoc_str head topic). change (2 + slen topic)%nat with (slen head + slen topic)%nat.
    rewrite <- slen_app, u16_be16 by done. change 2%nat with (slen (be16 p)).
    rewrite <- slen_app, app_assoc_str. by rewrite get_from_app.
  - change (2 + slen topic)%nat with (slen head + slen topic)%nat.
    rewrite <- slen_app. change ("" ++ payload) with payload. by rewrite app_assoc_str, get_from_app.
Qed.

Section Packets.
Context {T : Type} {ST : Stream T} {SL : StreamLaws T}.

Lemma send_law now b (c : Client T) :
  match send now b c with
  | (Ok _, c') => inbound (stream c') = inbound (stream c) ∧ outbound (stream c') = outbound (stream c) ++ b
  | (Err _, c') => ∃ p q, b = p ++ q ∧ outbound (stream c') = outbound (stream c) ++ p
  | _ => False
  end.
Proof. unfold send. pose proof (wr_all_law (stream c) b) as H. by destruct (wr_all b (stream c)) as [[[]|e| |] s']. Qed.

(** C37: what a client publishes on a topic shorter than 64 KiB, its peer reads: the same topic, payload and
    quality of service, with the packet id the acknowledgement will carry; what
    follows on the wire is left for the next read.  The packet fits, unless
    the body reaches 2^28 bytes, which every reader refuses. *)
Theorem publish_arrives now topic payload qos (c : Client T) id c' :
  qos < 4 → N.of_nat (slen topic) < 65536 → valid_utf8 topic = true → next_pid c < 65536 →
  publish now topic payload qos c = (Ok id, c') →
  ∃ wire, outbound (stream c') = outbound (stream c) ++ wire ∧
    ∀ (d : Client T) rest, inbound (stream d) = wire ++ rest →
      (∃ d', read_packet d = (Ok (Some (Publish topic payload qos (default 0 id))), d') ∧
             reads d d' rest) ∨
      (max_body <= N.of_nat (slen topic + slen payload) + 4 ∧
       fst (read_packet d) = Err MalformedLength).
Proof.
  intros Hq Ht Hv Hp H.
  assert (∃ c0, outbound (stream c0) = outbound (stream c) ∧
    id = (if 0 <? qos then Some (next_pid c) else None) ∧
    send now (frame PUBLISH (N.shiftl (N.land qos 3) 1)
      (put_str "" topic ++ (if 0 <? qos then be16 (next_pid c) else "") ++ payload)) c0
    = (Ok (), c')) as (c0 & Ho & Hid & Hs).
  { unfold publish in H. apply sr_bind_Ok in H as (i & c0 & Hi & H).
    apply sr_bind_Ok in H as ([] & c1 & Hs & H). injection H as <- <-. exists c0.
    destruct (0 <? qos); cbn in Hi; injection Hi as <- <-; done. }
  pose proof (send_law now (frame PUBLISH (N.shiftl (N.land qos 3) 1)
      (put_str "" topic ++ (if 0 <? qos then be16 (next_pid c) else "") ++ payload)) c0) as Hout.
  rewrite Hs in Hout. destruct Hout as [_ Hout].
  eexists. split; [by rewrite Hout, Ho|]. intros d rest Hd.
  pose proof (read_frame _ _ _ _ _ Hd) as Hr. cbv zeta in Hr.
  unfold put_str in Hr. change ("" ++ be16 (N.of_nat (slen topic) mod 65536) ++ topic)
    with (be16 (N.of_nat (slen topic) mod 65536) ++ topic) in Hr.
  rewrite (N.mod_small (N.of_nat (slen topic))) in Hr by done.
  rewrite <- app_assoc_str, parse_publish in Hr by done.
  destruct (N.ltb_spec (N.of_nat (slen (be16 (N.of_nat (slen topic)) ++ topic ++
    (if 0 <? qos then be16 (next_pid c) else "") ++ payload))) max_body) as [Hl|Hl].
  - left. subst id. by destruct (0 <? qos).
  - right. split; [|done]. rewrite !slen_app in Hl.
    change (slen (be16 (N.of_nat (slen topic)))) with 2%nat in Hl.
    destruct (0 <? qos); [change (slen (be16 (next_pid c))) with 2%nat in Hl|cbn in Hl]; lia.
Qed.

(** The ids of [n] packets in a row. *)
Fixpoint take_pids (n : nat) (c : Client T) : list (res merr N) :=
  match n with O => [] | S n => let '(r, c) := pid c in r :: take_pids n c end.

Lemma next_pid_step k : N.max ((k mod 65535 + 1 + 1) mod 65536) 1 = (k + 1) mod 65535 + 1.
Proof.
  pose proof (N.mod_lt k 65535 ltac:(lia)). rewrite (N.Div0.add_mod k 1).
  change (1 mod 65535) with 1. generalize dependent (k mod 65535). clear k. intros k H.
  destruct (N.eq_dec k 65534) as [->|E]; [done|].
  rewrite (N.mod_small (k + 1 + 1) 65536), (N.mod_small (k + 1) 65535) by lia. lia.
Qed.

(** Packet ids count from one and never are zero, which the protocol
    reserves: after the last of the sixteen bits comes one again, and no id
    comes back before all the others. *)
Theorem packet_ids_cycle s ka now n i : (i < n)%nat →
  take_pids n (new s ka now) !! i = Some (Ok (N.of_nat i mod 65535 + 1)).
Proof.
  enough (∀ n (c : Client T) k, next_pid c = k mod 65535 + 1 → (i < n)%nat →
    take_pids n c !! i = Some (Ok ((k + N.of_nat i) mod 65535 + 1))) as H.
  { intros Hi. by rewrite (H n _ 0). }
  clear n. induction i as [|i IH]; intros [|n] c k Hk Hi; try lia.
  - cbn. rewrite Hk. by rewrite N.add_0_r.
  - cbn [take_pids pid lookup list_lookup]. rewrite (IH n _ (k + 1)); [|cbn [next_pid]|lia].
    + replace (k + 1 + N.of_nat i) with (k + N.of_nat (S i)) by lia. done.
    + rewrite Hk. apply next_pid_step.
Qed.
End Packets.

(** ** Witnesses *)

Section Witnesses.
Definition idle (inb : string) : Client Fake := new {| fk_in := inb; fk_out := "" |} 30 0.
Definition sent : res merr (option N) * Client Fake := publish 5 "t/1" "hi" 1 (idle "").

Lemma publish_arrives_witness :
  ∃ wire, outbound (stream (snd sent)) = outbound (stream (idle "")) ++ wire ∧
    ∀ (d : Client Fake) rest, inbound (stream d) = wire ++ rest →
      (∃ d', read_packet d = (Ok (Some (Publish "t/1" "hi" 1 1)), d') ∧ reads d d' rest) ∨
      (max_body <= N.of_nat (slen "t/1" + slen "hi") + 4 ∧
       fst (read_packet d) = Err MalformedLength).
Proof.
  exact (publish_arrives 5 "t/1" "hi" 1 (idle "") (Some 1) (snd sent) eq_refl eq_refl eq_refl eq_refl
    eq_refl).
Defined.

Lemma packet_ids_cycle_witness :
  take_pids 3 (idle "") !! 2%nat = Some (Ok 3).
Proof. apply (packet_ids_cycle {| fk_in := ""; fk_out := "" |} 30 0 3 2). lia. Defined.

Example connack : fst (connect 1 0 "vejas" false (Some "u") (Some "p")
  (idle (one (byte_of 32) ++ one (byte_of 2) ++ one (byte_of 0) ++ one (byte_of 0)))) = Ok ().
Proof. vm_compute. reflexivity. Qed.
End Witnesses.
