(* ===== verification/Cluster.v ===== *)
(** * Leases

    Singleton drivers run under a lease in a key-value bucket
    (core/src/cluster.rs): create to acquire, compare-and-set to renew, delete
    to release, the bucket's age limit after a crash.  The operations on the
    bucket are definitions; the instances of a cluster, with their renewal
    threads, take turns as a step relation.  Durations are in nanoseconds. *)

From stdpp Require Import base gmap list strings relations.
From Stdlib Require Import ZArith Lia.
From S2P Require Import Prelude Text Store.
Open Scope string_scope.
Open Scope Z_scope.

(** ** Configuration *)

Section Config.
Context (env : string → option string).

(** core/src/cluster.rs [instance_id] *)
Definition instance_id (etc_hostname : option string) (pid : Z) : string :=
  let named := match env "VEJAS_INSTANCE" with
               | Some v => if String.eqb v "" then None else Some v
               | None => None
               end in
  match named with
  | Some v => v
  | None =>
    let host := match env "HOSTNAME" with
                | Some h => if String.eqb h "" then etc_hostname else Some h
                | None => etc_hostname
                end in
    let host := match host with Some h => trim h | None => "host" end in
    host ++ "-" ++ dec_of_Z pid
  end.

(** core/src/cluster.rs [is_singleton] *)
Definition is_singleton (kind : string) : bool :=
  bool_decide (kind ∈ ["source:interval"; "source:poll"; "source:exec"; "source:stream"; "source:mqtt"]).

Definition secs (n : Z) : Z := n * 1000000000.
Definition millis (n : Z) : Z := n * 1000000.

(** core/src/cluster.rs [lease_ttl] *)
Definition lease_ttl : Z :=
  let n := match env "VEJAS_LEASE_TTL_SECS" with
           | Some s => match parse_u64 s with
                       | Some s => if 0 <? s then s else 10
                       | None => 10
                       end
           | None => 10
           end in
  secs n.

(** core/src/cluster.rs:134 [acquire_blocking] *)
Definition renew_every : Z := Z.max (lease_ttl / 3) (secs 1).
End Config.

(** The wait between two renewals, in ticks so that a stop is noticed: the time
    waited, or nothing when the stop flag, asked at a time, is found set. *)

(** core/src/cluster.rs:145-152 [acquire_blocking] *)
Fixpoint wait_ticks (fuel : nat) (every waited : Z) (stop : Z → bool) : res Empty_set (option Z) :=
  match fuel with
  | O => NoFuel
  | S fuel =>
    if waited <? every then
      if stop (waited + millis 200) then Ok None
      else wait_ticks fuel every (waited + millis 200) stop
    else Ok (Some waited)
  end.

(** ** The operations *)

Section Lease.
Context {K : Type} {KO : KvOps K}.

(** core/src/cluster.rs [LeaseGuard] *)
Record LeaseGuard : Type := {
  g_key : string;
  g_stop_renew : bool;
  g_rev : Z;           (** the renewal thread's revision *)
  g_renewing : bool;   (** the renewal thread has not ended *)
  g_running : bool     (** the driver's running flag *)
}.

(** core/src/cluster.rs:119-130 [acquire_blocking] *)
Definition try_acquire (key id : string) (store : K) : option LeaseGuard * K :=
  match kv_create key id store with
  | (Ok rev, store) =>
    (Some {| g_key := key; g_stop_renew := false; g_rev := rev; g_renewing := true;
             g_running := true |}, store)
  | (_, store) => (None, store)
  end.

(** core/src/cluster.rs:153-161 [acquire_blocking] *)
Definition renew (id : string) (g : LeaseGuard) (store : K) : LeaseGuard * K :=
  match kv_update (g_key g) id (g_rev g) store with
  | (Ok r, store) =>
    ({| g_key := g_key g; g_stop_renew := g_stop_renew g; g_rev := r; g_renewing := true;
        g_running := g_running g |}, store)
  | (_, store) =>
    ({| g_key := g_key g; g_stop_renew := g_stop_renew g; g_rev := g_rev g; g_renewing := false;
        g_running := false |}, store)
  end.

(** core/src/cluster.rs [drop] *)
Definition drop_guard (g : LeaseGuard) (store : K) : res string () * K := kv_delete (g_key g) store.

(** ** A cluster *)

(** The bucket, and the guards the instances hold on one unit's lease. *)
Record Cluster : Type := { bucket : K; guards : gmap string LeaseGuard }.
End Lease.
Arguments Cluster K : clear implicits.

(** Revisions are the sequence of the bucket's stream: every write takes a
    fresh one.  [seq_ok] is what a bucket that was always used so satisfies. *)
Section Fresh.
Context {K : Type} `{KL : KvLaws K} (seq_ok : K → Prop) (last_seq : K → Z).
Definition fresh_step (s s' : K) : Prop :=
  seq_ok s → seq_ok s' ∧ last_seq s <= last_seq s' ∧
  ∀ k v z, view s' k = Some (v, z) → view s k = Some (v, z) ∨ last_seq s < z.
Definition fresh_write (s : K) (r : res string Z * K) : Prop :=
  fresh_step s (snd r) ∧ ∀ z, fst r = Ok z → last_seq s < z.
End Fresh.

Class KvSeq (K : Type) `{KL : KvLaws K} := {
  last_seq : K → Z;
  seq_ok : K → Prop;
  seq_bound s k v r : seq_ok s → view s k = Some (v, r) → r <= last_seq s;
  seq_create k v s : fresh_write seq_ok last_seq s (kv_create k v s);
  seq_update k v n s : fresh_write seq_ok last_seq s (kv_update k v n s);
  seq_delete k s : fresh_step seq_ok last_seq s (snd (kv_delete k s))
}.

Section Steps.
Context {K : Type} {KO : KvOps K} {KL : KvLaws K} {KS : KvSeq K} (key : string).
Notation Cluster := (Cluster K).

(** The age limit passed: the value is gone. *)
Definition aged (b b' : K) : Prop :=
  fresh_step seq_ok last_seq b b' ∧ view_is (view b') (view_set key None (view b)).

(** A turn of one instance, or of the bucket.  An instance that holds no guard
    stands by; the guard drops when the driver returned, for any reason. *)
Inductive step (s : Cluster) : Cluster → Prop :=
| s_acquire p g b : guards s !! p = None → try_acquire key p (bucket s) = (Some g, b) →
    step s {| bucket := b; guards := <[p := g]> (guards s) |}
| s_standby p b : guards s !! p = None → try_acquire key p (bucket s) = (None, b) →
    step s {| bucket := b; guards := guards s |}
| s_renew p g g' b : guards s !! p = Some g → g_renewing g = true → g_stop_renew g = false →
    renew p g (bucket s) = (g', b) →
    step s {| bucket := b; guards := <[p := g']> (guards s) |}
| s_drop p g r b : guards s !! p = Some g → drop_guard g (bucket s) = (r, b) →
    step s {| bucket := b; guards := delete p (guards s) |}
| s_crash p : step s {| bucket := bucket s; guards := delete p (guards s) |}
| s_age b : aged (bucket s) b → step s {| bucket := b; guards := guards s |}.

(** Instances start standing by, on a bucket in use since it was made. *)
Definition initial (s : Cluster) : Prop := guards s = ∅ ∧ seq_ok (bucket s).
Definition reachable (s : Cluster) : Prop := ∃ s0, initial s0 ∧ rtc step s0 s.

(** The guard's revision is the one in the bucket. *)
Definition current (s : Cluster) (g : LeaseGuard) : Prop :=
  option_map snd (view (bucket s) key) = Some (g_rev g).
Definition holds (s : Cluster) (p : string) : Prop := ∃ g, guards s !! p = Some g ∧ current s g.
Definition fenced (s : Cluster) (p : string) : Prop := ∃ g, guards s !! p = Some g ∧ ¬ current s g.

(** Revisions held are the bucket's past, each by one instance. *)
Definition Inv (s : Cluster) : Prop :=
  seq_ok (bucket s) ∧
  (∀ p g, guards s !! p = Some g → g_key g = key ∧ g_rev g <= last_seq (bucket s)) ∧
  (∀ p q g h, guards s !! p = Some g → guards s !! q = Some h → g_rev g = g_rev h → p = q).

Lemma renew_spec p g b g' b' : renew p g b = (g', b') →
  fresh_write seq_ok last_seq b (fst (kv_update (g_key g) p (g_rev g) b), b') ∧
  g_key g' = g_key g ∧ g_stop_renew g' = g_stop_renew g ∧
  ((∃ z, fst (kv_update (g_key g) p (g_rev g) b) = Ok z ∧ g_rev g' = z ∧ g_running g' = g_running g) ∨
   (is_ok (fst (kv_update (g_key g) p (g_rev g) b)) = false ∧ g_rev g' = g_rev g ∧
    g_running g' = false ∧ g_renewing g' = false)).
Proof.
  unfold renew. pose proof (seq_update (g_key g) p (g_rev g) b) as Hs.
  destruct (kv_update _ _ _ _) as [[z|e| |] b1]; intros [= <- <-];
    (split; [exact Hs|]; split; [done|]; split; [done|]); [left; by exists z|by right..].
Qed.

Lemma acquire_spec p b g b' : try_acquire key p b = (Some g, b') →
  fresh_step seq_ok last_seq b b' ∧ g_key g = key ∧ last_seq b < g_rev g ∧ g_running g = true ∧
  g_renewing g = true ∧ kv_create key p b = (Ok (g_rev g), b').
Proof.
  unfold try_acquire. pose proof (seq_create key p b) as [Hs Hz].
  destruct (kv_create _ _ _) as [[z|e| |] b1]; try done. intros [= <- <-]. specialize (Hz z eq_refl). done.
Qed.

Lemma standby_spec p b b' : try_acquire key p b = (None, b') → fresh_step seq_ok last_seq b b'.
Proof.
  unfold try_acquire. pose proof (seq_create key p b) as [Hs _].
  by destruct (kv_create _ _ _) as [[z|e| |] b1]; intros [= <-].
Qed.

(** A write that answers with a revision put it in the bucket. *)
Lemma create_in_bucket p b z b' : kv_create key p b = (Ok z, b') →
  option_map snd (view b' key) = Some z.
Proof.
  intros E. pose proof (kv_create_law key p b) as H. rewrite E in H.
  destruct (view b key); [by destruct H as [[? ?] _]|].
  destruct H as (rev & Hc & Hz). cbn in Hc. rewrite (Hc key), view_set_eq. cbn. f_equal. symmetry. by apply Hz.
Qed.

Lemma update_in_bucket k v n b z b' : kv_update k v n b = (Ok z, b') →
  option_map snd (view b k) = Some n ∧ option_map snd (view b' k) = Some z.
Proof.
  intros E. pose proof (kv_update_law k v n b) as H. rewrite E in H.
  case_bool_decide as Hn; [|by destruct H as [[? ?] _]]. split; [done|].
  destruct H as (rev & Hc & Hz). cbn in Hc. rewrite (Hc k), view_set_eq. cbn. f_equal. symmetry. by apply Hz.
Qed.

(** What a step may do to the guards: keep them, drop one, or give one a fresh
    revision of the bucket after the step. *)
Inductive turn (s s' : Cluster) : Prop :=
| t_same : guards s' = guards s → turn s s'
| t_gone p : guards s' = delete p (guards s) → turn s s'
| t_kept p g g' : guards s !! p = Some g → guards s' = <[p := g']> (guards s) →
    g_key g' = g_key g → g_rev g' = g_rev g → turn s s'
| t_fresh p g' : (∀ g, guards s !! p = Some g → current s g) → guards s' = <[p := g']> (guards s) → g_key g' = key →
    last_seq (bucket s) < g_rev g' → current s' g' → turn s s'.

Lemma step_turn s s' : Inv s → step s s' →
  fresh_step seq_ok last_seq (bucket s) (bucket s') ∧ turn s s'.
Proof.
  intros (Hok & Hg & _) [p g b Hp Ha|p b Hp Ha|p g g' b Hp Hr Hs Hre|p g r b Hp Hd|p|b Hag]; cbn.
  - apply acquire_spec in Ha as (Hf & Hk & Hl & _ & _ & Hc). split; [done|].
    eapply t_fresh; [|done|done|done|by eapply create_in_bucket].
    intros g0. by rewrite Hp.
  - split; [by eapply standby_spec|by apply t_same].
  - destruct (Hg p g Hp) as [Hk _]. apply renew_spec in Hre as H.
    destruct H as ([Hf Hz] & Hk' & _ & [(z & Hok' & Hrev & _)|(_ & Hrev & _)]).
    + split; [done|]. unfold renew in Hre.
      destruct (kv_update _ _ _ _) as [r1 b1] eqn:E. cbn in *. subst r1. injection Hre as <- <-.
      apply update_in_bucket in E as [Hb0 Hb]. eapply t_fresh; [|done|exact Hk|by apply Hz|].
      * intros g0 Hg0. rewrite Hp in Hg0. injection Hg0 as <-. unfold current. by rewrite <- Hk.
      * unfold current. cbn. by rewrite <- Hk.
    + split; [done|]. by eapply t_kept.
  - split; [|by apply (t_gone _ _ p)]. pose proof (seq_delete (g_key g) (bucket s)) as Hf.
    unfold drop_guard in Hd. by rewrite Hd in Hf.
  - split; [|by apply (t_gone _ _ p)]. intros ?. split; [done|]. split; [lia|auto].
  - split; [apply Hag|by apply t_same].
Qed.

Lemma current_bound s g : seq_ok (bucket s) → current s g → g_rev g <= last_seq (bucket s).
Proof.
  intros Hok H. unfold current in H. destruct (view (bucket s) key) as [[v r]|] eqn:E; [|done].
  cbn in H. injection H as <-. by eapply seq_bound.
Qed.

Lemma step_inv s s' : Inv s → step s s' → Inv s'.
Proof.
  intros HI Hs. destruct (step_turn s s' HI Hs) as [Hf Ht]. destruct HI as (Hok & Hg & Hd).
  destruct (Hf Hok) as (Hok' & Hle & _). split; [done|].
  assert (∀ p g, guards s !! p = Some g → g_key g = key ∧ g_rev g <= last_seq (bucket s')) as Hg'.
  { intros p g Hp. destruct (Hg p g Hp). split; [done|lia]. }
  destruct Ht as [E|p E|p g g' Hp E Hk Hr|p g' _ E Hk Hl Hc]; rewrite E.
  - done.
  - split; [intros q g [_ Hq]%lookup_delete_Some; by eapply Hg'|].
    intros q q' g h [_ Hq]%lookup_delete_Some [_ Hq']%lookup_delete_Some. by eapply Hd.
  - split.
    + intros q h [[<- <-]|[_ Hq]]%lookup_insert_Some; [|by eapply Hg'].
      rewrite Hk, Hr. by eapply Hg'.
    + intros q q' h h' [[<- <-]|[? Hq]]%lookup_insert_Some [[<- <-]|[? Hq']]%lookup_insert_Some;
        rewrite ?Hr; try done; eauto.
  - split.
    + intros q h [[<- <-]|[_ Hq]]%lookup_insert_Some; [|by eapply Hg'].
      split; [done|]. by apply current_bound.
    + intros q q' h h' [[<- <-]|[? Hq]]%lookup_insert_Some [[<- <-]|[? Hq']]%lookup_insert_Some;
        try done; [| |by eauto]; intros Heq.
      * destruct (Hg q' h' Hq'). lia.
      * destruct (Hg q h Hq). lia.
Qed.

Lemma reachable_inv s : reachable s → Inv s.
Proof.
  intros (s0 & [H0 Hok] & Hr). assert (Inv s0) as HI.
  { split; [done|]. rewrite H0. split; intros *; by rewrite ?lookup_empty. }
  clear H0 Hok. induction Hr as [|s0 s1 s2 H1 _ IH]; [done|]. by eapply IH, step_inv.
Qed.

(** Fencing: an instance that lost the lease never has it back under the
    same guard: whatever happens next it is still fenced, or its guard is gone;
    and when its renewal thread runs, its driver is told to stop. *)
Theorem fenced_stands_down s s' p : reachable s → fenced s p → step s s' →
  (fenced s' p ∨ guards s' !! p = None) ∧
  ∀ g g' b, guards s !! p = Some g → renew p g (bucket s) = (g', b) →
    g_running g' = false ∧ g_renewing g' = false.
Proof.
  intros HI%reachable_inv (g & Hp & Hc) Hs. destruct (step_turn s s' HI Hs) as [Hf Ht].
  destruct HI as (Hok & Hg & _). destruct (Hf Hok) as (_ & _ & Hv).
  destruct (Hg p g Hp) as [Hkey Hle].
  assert (∀ h, g_rev h = g_rev g → ¬ current s' h) as Hno.
  { intros h Hh Hc'. unfold current in Hc'. destruct (view (bucket s') key) as [[v z]|] eqn:E; [|done].
    cbn in Hc'. injection Hc' as ->. destruct (Hv _ _ _ E) as [Hs1|]; [|lia].
    apply Hc. unfold current. rewrite Hs1. cbn. by f_equal. }
  split.
  - destruct Ht as [E|q E|q h h' Hq E Hk Hr|q h' Hcur E _ Hl _]; unfold fenced; rewrite E.
    + left. exists g. auto.
    + destruct (decide (p = q)) as [->|]; [by right; rewrite lookup_delete_eq|].
      left. exists g. rewrite lookup_delete_ne by done. auto.
    + left. destruct (decide (p = q)) as [->|].
      * exists h'. rewrite lookup_insert_eq. split; [done|]. apply Hno. congruence.
      * exists g. rewrite lookup_insert_ne by done. auto.
    + left. destruct (decide (p = q)) as [->|]; [by destruct (Hc (Hcur g Hp))|].
      exists g. rewrite lookup_insert_ne by done. auto.
  - intros g1 g' b Hp1 Hr. assert (g1 = g) as -> by congruence.
    unfold renew in Hr. destruct (kv_update _ _ _ _) as [[z|e| |] b1] eqn:E; injection Hr as <- <-; try done.
    apply update_in_bucket in E as [E _]. exfalso. apply Hc. unfold current. by rewrite <- Hkey.
Qed.
(** A fenced instance still opens the lease to others when its driver
    ends: its guard deletes the key without asking whose it is, so a third
    instance acquires while the second, whose renewals were all on time, runs
    on. *)
Theorem fenced_drop_opens_lease s p q r gp gq gr b1 b2 :
  reachable s → fenced s p → holds s q → guards s !! r = None → g_running gq = true →
  guards s !! p = Some gp → guards s !! q = Some gq →
  drop_guard gp (bucket s) = (Ok (), b1) → try_acquire key r b1 = (Some gr, b2) →
  ∃ s', rtc step s s' ∧ q ≠ r ∧
    guards s' !! q = Some gq ∧ g_running gq = true ∧
    guards s' !! r = Some gr ∧ g_running gr = true.
Proof.
  intros HI%reachable_inv (g & Hg & Hc) (h & Hh & Hc') Hr Hrun Hp Hq Hd Ha.
  rewrite Hp in Hg. injection Hg as <-. rewrite Hq in Hh. injection Hh as <-.
  assert (p ≠ q) by (intros ->; rewrite Hp in Hq; by injection Hq as <-).
  assert (q ≠ r) by (intros ->; congruence).
  exists {| bucket := b2; guards := <[r := gr]> (delete p (guards s)) |}. split.
  - eapply rtc_l; [by apply (s_drop s p gp (Ok ()) b1)|]. eapply rtc_l; [|apply rtc_refl].
    assert (delete p (guards s) !! r = None) as Hr'.
    { rewrite lookup_delete_ne; [done|]. intros ->. congruence. }
    exact (s_acquire {| bucket := b1; guards := delete p (guards s) |} r gr b2 Hr' Ha).
  - cbn. rewrite lookup_insert_eq, lookup_insert_ne, lookup_delete_ne by done.
    apply acquire_spec in Ha as (_ & _ & _ & Hgr & _). done.
Qed.
End Steps.

(** ** The renewal cadence *)

(** How long the renewal thread waits, when it is not stopped: the first tick
    at or past the cadence. *)
Lemma wait_ticks_ok stop every : (∀ t, stop t = false) → ∀ fuel waited,
  0 < millis 200 → every - waited < Z.of_nat fuel * millis 200 →
  waited < every + millis 200 →
  ∃ w, wait_ticks (S fuel) every waited stop = Ok (Some w) ∧ every <= w < every + millis 200.
Proof.
  intros Hs. induction fuel as [|fuel IH]; intros waited Ht Hf Hw.
  - exists waited. cbn. destruct (Z.ltb_spec waited every); [lia|]. split; [done|lia].
  - cbn [wait_ticks]. destruct (Z.ltb_spec waited every) as [Hlt|]; [|exists waited; split; [done|lia]].
    rewrite Hs. apply IH; lia.
Qed.

(** A live leader renews inside the age limit: for a limit of two seconds or
    more, unset or unreadable included, the wait between two renewals ends
    before the value ages out; at one second it does not. *)
Theorem renewal_inside_ttl env : 
  let every := renew_every env in
  ∃ fuel w, wait_ticks fuel every 0 (λ _, false) = Ok (Some w) ∧
    (w < lease_ttl env ↔ secs 2 <= lease_ttl env).
Proof.
  cbv zeta. set (every := renew_every env).
  assert (∃ n, 0 < n ∧ lease_ttl env = secs n) as (n & Hn & Httl).
  { unfold lease_ttl. destruct (env _) as [s|]; [|by exists 10].
    destruct (parse_u64 s) as [z|]; [|by exists 10]. destruct (Z.ltb_spec 0 z); [by exists z|by exists 10]. }
  assert (every = Z.max (secs n / 3) (secs 1)) as Hev by (unfold every, renew_every; by rewrite Httl).
  pose proof (Z.div_mod (secs n) 3 ltac:(lia)). pose proof (Z.mod_pos_bound (secs n) 3 ltac:(lia)).
  destruct (wait_ticks_ok (λ _, false) every ltac:(done) (Z.to_nat every) 0) as (w & E & Hw);
    unfold secs, millis in *; [lia..|].
  exists (S (Z.to_nat every)), w. split; [done|]. rewrite Httl. lia.
Qed.

(** ** An instance, and a run *)

Definition map_seq_ok (s : MapKv) : Prop := ∀ k v r, mk_map s !! k = Some (v, r) → r <= mk_rev s.

Lemma map_put_fresh k v s : fresh_write map_seq_ok mk_rev s (mk_put k v s).
Proof.
  split; [|intros z [= <-]; lia]. intros Hok. split; [|split; [cbn; lia|]].
  - intros k' v' r. cbn -[lookup insert]. intros [[<- [= <- <-]]|[_ H]]%lookup_insert_Some; [lia|].
    apply Hok in H. lia.
  - intros k' v' z. change (<[k:=(v, mk_rev s + 1)]> (mk_map s) !! k' = Some (v', z) →
      mk_map s !! k' = Some (v', z) ∨ mk_rev s < z).
    intros [[<- [= <- <-]]|[_ H]]%lookup_insert_Some; [right; lia|by left].
Qed.

Lemma map_id_fresh (e : string) s : fresh_write map_seq_ok mk_rev s (Err e, s).
Proof. split; [|done]. intros Hok. split; [done|]. split; [cbn; lia|auto]. Qed.

#[export] Instance map_kv_seq : KvSeq MapKv.
Proof.
  refine {| last_seq := mk_rev; seq_ok := map_seq_ok |}.
  - intros s k v r Hok H. exact (Hok k v r H).
  - intros k v s. unfold kv_create, map_kv. destruct (mk_map s !! k);
      [exact (map_id_fresh _ s)|exact (map_put_fresh k v s)].
  - intros k v n s. unfold kv_update, map_kv. case_bool_decide; [exact (map_put_fresh k v s)|exact (map_id_fresh _ s)].
  - intros k s Hok. cbn. split; [|split; [lia|]].
    + intros k' v r H. cbn in H. apply lookup_delete_Some in H as [_ H]. cbn. apply Hok in H. lia.
    + intros k' v z [_ H]%lookup_delete_Some. by left.
Defined.

Section Run.
Notation acquired p s := (default {| g_key := ""; g_stop_renew := true; g_rev := 0; g_renewing := false;
                                     g_running := false |} (fst (try_acquire "poll" p s)),
                          snd (try_acquire "poll" p s)).
(** [a] acquires and stalls until its value ages out, [b] acquires. *)
Definition bucket1 : MapKv := snd (acquired "a" empty_kv).
Definition guard_a : LeaseGuard := fst (acquired "a" empty_kv).
Definition bucket2 : MapKv := {| mk_map := delete "poll" (mk_map bucket1); mk_rev := mk_rev bucket1 |}.
Definition bucket3 : MapKv := snd (acquired "b" bucket2).
Definition guard_b : LeaseGuard := fst (acquired "b" bucket2).
Definition taken_over : Cluster MapKv :=
  {| bucket := bucket3; guards := <["b" := guard_b]> {["a" := guard_a]} |}.
Definition bucket4 : MapKv := snd (drop_guard guard_a bucket3).
Definition bucket5 : MapKv := snd (acquired "c" bucket4).
Definition guard_c : LeaseGuard := fst (acquired "c" bucket4).

Lemma bucket2_aged : aged "poll" bucket1 bucket2.
Proof.
  split.
  - intros Hok. split; [|split; [cbn; lia|]].
    + intros k v r H. apply (lookup_delete_Some (mk_map bucket1) "poll") in H as [_ H]. by apply Hok in H.
    + intros k v z H. left. by apply (lookup_delete_Some (mk_map bucket1) "poll") in H as [_ H].
  - intros k. cbn. unfold view_set. destruct (String.eqb_spec k "poll") as [->|]; [done|].
    by rewrite lookup_delete_ne.
Qed.

Lemma taken_over_reachable : reachable "poll" taken_over.
Proof.
  exists {| bucket := empty_kv; guards := ∅ |}. split.
  { split; [done|]. intros ???. cbn. by rewrite lookup_empty. }
  eapply rtc_l; [by apply (s_acquire _ _ "a" guard_a bucket1)|].
  eapply rtc_l; [by apply (s_age _ _ bucket2), bucket2_aged|].
  eapply rtc_l; [by apply (s_acquire _ _ "b" guard_b bucket3)|]. apply rtc_refl.
Qed.

Lemma taken_over_fenced : fenced "poll" taken_over "a".
Proof. exists guard_a. split; [reflexivity|]. by vm_compute. Qed.
Lemma taken_over_holds : holds "poll" taken_over "b".
Proof. exists guard_b. split; reflexivity. Qed.

Lemma fenced_stands_down_witness :
  let s' := {| bucket := bucket3; guards := <["a" := fst (renew "a" guard_a bucket3)]> (guards taken_over) |} in
  (fenced "poll" s' "a" ∨ guards s' !! "a" = None) ∧
  ∀ g g' b, guards taken_over !! "a" = Some g → renew "a" g (bucket taken_over) = (g', b) →
    g_running g' = false ∧ g_renewing g' = false.
Proof.
  apply (fenced_stands_down "poll" taken_over _ "a" taken_over_reachable taken_over_fenced).
  by apply (s_renew "poll" taken_over "a" guard_a _ bucket3).
Defined.

Lemma fenced_drop_opens_lease_witness :
  ∃ s', rtc (step "poll") taken_over s' ∧ "b" ≠ "c" ∧
    guards s' !! "b" = Some guard_b ∧ g_running guard_b = true ∧
    guards s' !! "c" = Some guard_c ∧ g_running guard_c = true.
Proof.
  exact (fenced_drop_opens_lease "poll" taken_over "a" "b" "c" guard_a guard_b guard_c bucket4 bucket5
    taken_over_reachable taken_over_fenced taken_over_holds eq_refl eq_refl eq_refl eq_refl eq_refl
    eq_refl).
Defined.
End Run.
