(* ===== verification/LeaseSpec.v ===== *)
(** * What a lease promises

    The abstract lock that the leases of core/src/cluster.rs implement: at most
    one holder, with a token that grows with every grant and every renewal.
    The steps of the cluster of [Cluster] and of the lock carry the same
    labels, and the cluster, with its timeouts, crashes and failed requests,
    simulates the lock label by label. *)

From stdpp Require Import base gmap list strings relations.
From Stdlib Require Import ZArith Lia.
From S2P Require Import Prelude Text Store Cluster.
Open Scope string_scope.
Open Scope Z_scope.

(** ** The lock *)

(** What an observer sees: an instance acquired with a token, asked in vain,
    renewed with a token, failed to renew, died, or let its guard go; the age
    limit passed. *)
Inductive event : Type :=
| Grant (p : string) (n : Z)
| Wait (p : string)
| Renew (p : string) (n : Z)
| Lose (p : string)
| Crash (p : string)
| Drop (p : string)
| Expire.

(** The holder and its token, and the last token that was given. *)
Record Lock : Type := { holder : option (string * Z); issued : Z }.
Definition freed (l : Lock) : Lock := {| holder := None; issued := issued l |}.
Definition given (p : string) (n : Z) : Lock := {| holder := Some (p, n); issued := n |}.

(** The lock is granted only when it is free and renewed only by its holder,
    each time with a token above all before.  Who asks in vain changes nothing;
    a failed renewal or a crash frees the lock of the one it happens to and of
    nobody else.  A guard that is let go frees the lock it holds, and perhaps
    that of its successor: the guard deletes the key without asking whose it
    is. *)
Inductive lock_step (l : Lock) : event → Lock → Prop :=
| l_grant p n : holder l = None → issued l < n → lock_step l (Grant p n) (given p n)
| l_wait p : lock_step l (Wait p) l
| l_renew p n n' : holder l = Some (p, n) → issued l < n' → lock_step l (Renew p n') (given p n')
| l_lose p n : holder l = Some (p, n) → lock_step l (Lose p) (freed l)
| l_lose_in_vain p : lock_step l (Lose p) l
| l_crash p n : holder l = Some (p, n) → lock_step l (Crash p) (freed l)
| l_crash_other p : (∀ n, holder l ≠ Some (p, n)) → lock_step l (Crash p) l
| l_drop p : lock_step l (Drop p) (freed l)
| l_drop_other p : (∀ n, holder l ≠ Some (p, n)) → lock_step l (Drop p) l
| l_expire : lock_step l Expire (freed l).

(** A run of labelled steps, with the state after each. *)
Fixpoint labelled {L S} (R : S → L → S → Prop) (s : S) (run : list (L * S)) : Prop :=
  match run with
  | [] => True
  | (a, s') :: run => R s a s' ∧ labelled R s' run
  end.

Section Refinement.
Context {K : Type} {KO : KvOps K} {KL : KvLaws K} {KS : KvSeq K} (key : string).
Notation Cluster := (Cluster K).
Notation current s g := (current key s g).

(** The steps of a cluster with their labels: a renewal that answered with a
    revision is one, any other is lost. *)
Inductive seen (s : Cluster) : event → Cluster → Prop :=
| o_grant p g b : guards s !! p = None → try_acquire key p (bucket s) = (Some g, b) →
    seen s (Grant p (g_rev g)) {| bucket := b; guards := <[p := g]> (guards s) |}
| o_wait p b : guards s !! p = None → try_acquire key p (bucket s) = (None, b) →
    seen s (Wait p) {| bucket := b; guards := guards s |}
| o_renew p g g' b : guards s !! p = Some g → g_renewing g = true → g_stop_renew g = false →
    renew p g (bucket s) = (g', b) →
    seen s (if g_renewing g' then Renew p (g_rev g') else Lose p)
      {| bucket := b; guards := <[p := g']> (guards s) |}
| o_drop p g r b : guards s !! p = Some g → drop_guard g (bucket s) = (r, b) →
    seen s (Drop p) {| bucket := b; guards := delete p (guards s) |}
| o_crash p : seen s (Crash p) {| bucket := bucket s; guards := delete p (guards s) |}
| o_age b : aged key (bucket s) b → seen s Expire {| bucket := b; guards := guards s |}.

(** The labels leave no step out and add none. *)
Lemma step_seen s s' : step key s s' ↔ ∃ a, seen s a s'.
Proof.
  split.
  - intros [p g b|p b|p g g' b|p g r b|p|b]; eexists; by econstructor.
  - intros [a [p g b|p b|p g g' b|p g r b|p|b]]; by econstructor.
Qed.

(** The lock that a cluster shows: its holder is the instance whose guard has
    the revision of the bucket. *)
Definition holds_as (s : Cluster) (p : string) (n : Z) : Prop :=
  ∃ g, guards s !! p = Some g ∧ current s g ∧ g_rev g = n.
Definition shows (s : Cluster) (l : Lock) : Prop :=
  Inv key s ∧ issued l <= last_seq (bucket s) ∧ ∀ p n, holder l = Some (p, n) ↔ holds_as s p n.

(** The holder after a step that only keeps or takes away. *)
Lemma shows_kept s s' l : shows s l → Inv key s' → last_seq (bucket s) <= last_seq (bucket s') →
  (∀ p n, holds_as s' p n ↔ holds_as s p n) → shows s' l.
Proof. intros (_ & Hn & Hh) HI Hl He. split; [done|]. split; [lia|]. intros p n. by rewrite Hh, He. Qed.
Lemma shows_freed s s' l : shows s l → Inv key s' → last_seq (bucket s) <= last_seq (bucket s') →
  (∀ p n, ¬ holds_as s' p n) → shows s' (freed l).
Proof. intros (_ & Hn & _) HI Hl Hno. split; [done|]. split; [done || cbn; lia|]. intros p n. split; [done|]. by intros ?%Hno. Qed.

(** Equal views and equal guards show the same holder. *)
Lemma holds_as_view b b' gs p n : view_is (view b') (view b) →
  holds_as {| bucket := b'; guards := gs |} p n ↔ holds_as {| bucket := b; guards := gs |} p n.
Proof. intros Hv. unfold holds_as, Cluster.current. cbn. by rewrite (Hv key). Qed.

(** Who holds when another guard is gone, or its own. *)
Lemma holds_as_delete s q p n :
  holds_as {| bucket := bucket s; guards := delete q (guards s) |} p n ↔ p ≠ q ∧ holds_as s p n.
Proof.
  unfold holds_as, Cluster.current. cbn. split.
  - intros (g & [Hq Hp]%lookup_delete_Some & H). eauto.
  - intros [Hq (g & Hp & H)]. exists g. by rewrite lookup_delete_ne.
Qed.

(** A guard of the past that is current now was current before. *)
Lemma holds_as_one s p q n m : Inv key s → holds_as s p n → holds_as s q m → p = q ∧ n = m.
Proof.
  intros (_ & _ & Hd) (g & Hp & Hg & <-) (h & Hq & Hh & <-). unfold Cluster.current in *.
  assert (g_rev g = g_rev h) as E by congruence. split; [by eapply Hd|done].
Qed.

(** A fresh revision: the instance that got it is the holder. *)
Lemma shows_fresh s' p g' : Inv key s' → guards s' !! p = Some g' → current s' g' → shows s' (given p (g_rev g')).
Proof.
  intros HI Hp Hc. assert (holds_as s' p (g_rev g')) as Hh by (exists g'; done).
  split; [done|]. split; [by apply HI in Hp as [_ ?]|]. cbn. intros q m. split; [by intros [= <- <-]|].
  intros Hq. by destruct (holds_as_one s' p q _ _ HI Hh Hq) as [-> ->].
Qed.

(** The key gone from the bucket, or under a revision nobody has: nobody holds. *)
Lemma nobody_holds s : view (bucket s) key = None → ∀ p n, ¬ holds_as s p n.
Proof. intros E p n (g & _ & Hc & _). unfold Cluster.current in Hc. by rewrite E in Hc. Qed.

Lemma unknown_revision s v r : view (bucket s) key = Some (v, r) →
  (∀ p g, guards s !! p = Some g → g_rev g ≠ r) → ∀ p n, ¬ holds_as s p n.
Proof.
  intros E Hn p n (g & Hp & Hc & _). unfold Cluster.current in Hc. rewrite E in Hc. injection Hc as Hr.
  by apply (Hn p g Hp).
Qed.

(** A guard gone, the bucket as it was: the lock is free when that guard held
    it, and as it was when not. *)
Lemma shows_gone s b p l :
  shows s l → Inv key {| bucket := b; guards := delete p (guards s) |} →
  last_seq (bucket s) <= last_seq b → view_is (view b) (view (bucket s)) →
  (∃ n, holder l = Some (p, n) ∧ shows {| bucket := b; guards := delete p (guards s) |} (freed l)) ∨
  (∀ n, holder l ≠ Some (p, n)) ∧ shows {| bucket := b; guards := delete p (guards s) |} l.
Proof.
  intros Hs HI Hl Hv. pose proof Hs as (HI0 & _ & Hh).
  assert (∀ q n, holds_as {| bucket := b; guards := delete p (guards s) |} q n ↔ q ≠ p ∧ holds_as s q n) as He.
  { intros q n. rewrite (holds_as_view (bucket s)) by done. apply holds_as_delete. }
  destruct (holder l) as [[q n]|] eqn:E; [destruct (decide (q = p)) as [->|Hq]|].
  - left. exists n. split; [done|]. apply (shows_freed s); [done..|]. intros q m [Hq Hm]%He.
    by destruct (holds_as_one s q p m n HI0 Hm (proj1 (Hh p n) eq_refl)) as [-> _].
  - right. split; [congruence|]. apply (shows_kept s); [done..|]. intros p' m. rewrite He. split; [by intros [_ ?]|].
    intros Hm. split; [|done]. by destruct (holds_as_one s p' q m n HI0 Hm (proj1 (Hh q n) eq_refl)) as [-> _].
  - right. split; [done|]. apply (shows_kept s); [done..|]. intros p' m. rewrite He. split; [by intros [_ ?]|].
    by intros Hm%Hh.
Qed.

(** A write that may have been made, with a revision nobody has. *)
Lemma nobody_after s b v rev gs : Inv key s → fresh_step seq_ok last_seq (bucket s) b →
  view_is (view b) (view_set key (Some (v, rev)) (view (bucket s))) →
  (view (bucket s) key ≠ Some (v, rev)) →
  (∀ p g, gs !! p = Some g → g_rev g <= last_seq (bucket s)) →
  ∀ p n, ¬ holds_as {| bucket := b; guards := gs |} p n.
Proof.
  intros (Hok & _) Hf Hv Hne Hg. assert (view b key = Some (v, rev)) as E by (rewrite (Hv key); apply view_set_eq).
  apply (unknown_revision {| bucket := b; guards := gs |} v rev E). cbn. intros p g Hp Hr.
  destruct (Hf Hok) as (_ & _ & Hv'). destruct (Hv' key v rev E) as [|]; [done|]. specialize (Hg p g Hp). lia.
Qed.

Lemma view_set_same k e v : v k = e → view_is (view_set k e v) v.
Proof. intros E k'. unfold view_set. by destruct (String.eqb_spec k' k) as [->|]. Qed.

(** One step of the cluster is the lock's step of the same label. *)
Lemma lease_simulates s a s' l : shows s l → seen s a s' → ∃ l', lock_step l a l' ∧ shows s' l'.
Proof.
  intros Hs Hstep. pose proof Hs as (HI & Hn & Hh). pose proof HI as (Hok & Hg & _).
  assert (Inv key s') as HI' by (apply (step_inv key s s' HI), step_seen; by exists a).
  assert (fresh_step seq_ok last_seq (bucket s) (bucket s')) as Hf
    by (apply (step_turn key s s' HI), step_seen; by exists a).
  destruct (Hf Hok) as (_ & Hl & _).
  destruct Hstep as [p g b Hp Ha|p b Hp Ha|p g g' b Hp Hr Hst Hre|p g r b Hp Hd|p|b Hag]; cbn [bucket guards] in *.
  - apply acquire_spec with (key := key) in Ha as (_ & _ & Hfresh & _ & _ & Hc).
    exists (given p (g_rev g)). split; [|apply shows_fresh; [done|cbn; by rewrite lookup_insert_eq|by eapply create_in_bucket]].
    constructor; [|lia]. destruct (holder l) as [[q m]|] eqn:El; [|done]. exfalso.
    destruct (proj1 (Hh q m) eq_refl) as (h & _ & Hcur & _). unfold Cluster.current in Hcur.
    pose proof (kv_create_law key p (bucket s)) as Hlaw. rewrite Hc in Hlaw.
    destruct (view (bucket s) key); [|done]. by destruct Hlaw as [[? ?] _].
  - exists l. split; [constructor|]. apply (shows_kept s); [done..|]. unfold try_acquire in Ha.
    pose proof (kv_create_law key p (bucket s)) as Hlaw. destruct (kv_create key p (bucket s)) as [r b1].
    assert (b1 = b) as -> by (destruct r; congruence).
    destruct (view (bucket s) key) as [e|] eqn:E.
    + destruct Hlaw as [_ Hv]. intros q n. destruct s. by apply holds_as_view.
    + destruct Hlaw as (rev & Hch & _). pose proof (nobody_holds s E) as Hno.
      assert (∀ q n, ¬ holds_as {| bucket := b; guards := guards s |} q n) as Hno'; [|intros q n; split; intros H; [by apply Hno' in H|by apply Hno in H]].
      destruct r as [z|e| |]; [done| |done..]. destruct Hch as [Hv|Hv].
      * intros q n. apply nobody_holds. cbn. by rewrite (Hv key).
      * eapply nobody_after; [exact HI|exact Hf|exact Hv|by rewrite E|by intros q h [_ ?]%Hg].
  - destruct (Hg p g Hp) as [Hk Hle]. unfold renew in Hre. rewrite Hk in Hre.
    pose proof (kv_update_law key p (g_rev g) (bucket s)) as Hlaw. pose proof (seq_update key p (g_rev g) (bucket s)) as [_ Hz].
    destruct (kv_update key p (g_rev g) (bucket s)) as [r b1] eqn:Eu. cbn [fst] in Hz.
    assert (b1 = b) as -> by (destruct r; congruence).
    assert (r ≠ Panic ∧ r ≠ NoFuel) as [Hnp Hnf] by (split; intros ->; (case_bool_decide; [by destruct Hlaw as (? & [] & _)|by destruct Hlaw as [[? ?] _]])).
    destruct r as [z|e| |]; [| |done..]; injection Hre as <-; cbn [g_renewing g_rev].
    + exists (given p z). apply update_in_bucket in Eu as [Hb0 Hb]. split.
      * apply (l_renew l p (g_rev g)); [|specialize (Hz z eq_refl); lia]. apply Hh. by exists g.
      * refine (shows_fresh _ p {| g_rev := z |} HI' _ _); [cbn; by rewrite lookup_insert_eq|done].
    + assert (∀ b', view_is (view b') (view (bucket s)) → ∀ q n, holds_as {| bucket := b'; guards := <[p := {| g_key := key; g_stop_renew := g_stop_renew g;
          g_rev := g_rev g; g_renewing := false; g_running := false |}]> (guards s) |} q n ↔ holds_as s q n) as Hsame.
      { intros b' Hv q n. rewrite (holds_as_view (bucket s)) by done. unfold holds_as, Cluster.current. cbn.
        destruct (decide (p = q)) as [<-|]; [rewrite lookup_insert_eq, Hp|by rewrite lookup_insert_ne].
        split; intros (h & [= <-] & Hc & Hr'); eexists; (split; [done|]); done. }
      case_bool_decide as Hb; [|exists l; split; [apply l_lose_in_vain|]; apply (shows_kept s); [done..|by apply Hsame, Hlaw]].
      destruct Hlaw as (rev & [Hv|Hv] & _); [exists l; split; [apply l_lose_in_vain|]; by apply (shows_kept s), Hsame|].
      destruct (decide (view (bucket s) key = Some (p, rev))) as [Eq|Ne].
      { exists l. split; [apply l_lose_in_vain|]. apply (shows_kept s), Hsame; [done..|]. by rewrite Hv, view_set_same. }
      exists (freed l). split; [apply (l_lose l p (g_rev g)), Hh; by exists g|]. apply (shows_freed s); [done..|].
      eapply nobody_after; [exact HI|exact Hf|exact Hv|done|].
      intros q h [[<- <-]|[_ Hq]]%lookup_insert_Some; [done|by apply Hg in Hq as [_ ?]].
  - destruct (Hg p g Hp) as [Hk Hle]. unfold drop_guard in Hd. rewrite Hk in Hd.
    pose proof (kv_delete_law key (bucket s)) as Hlaw. rewrite Hd in Hlaw.
    assert (view_is (view b) (view (bucket s)) ∨ view_is (view b) (view_set key None (view (bucket s)))) as [Hv|Hv]
      by (destruct r; [by right|done..]).
    + destruct (shows_gone s b p l Hs HI' Hl Hv) as [(n & E & H)|[E H]]; eexists;
        (split; [|exact H]); by constructor.
    + exists (freed l). split; [constructor|]. apply (shows_freed s); [done..|]. apply nobody_holds. cbn.
      rewrite (Hv key). apply view_set_eq.
  - destruct (shows_gone s (bucket s) p l Hs HI' Hl (reflexivity _)) as [(n & E & H)|[E H]]; eexists;
      (split; [|exact H]); by econstructor.
  - exists (freed l). split; [constructor|]. apply (shows_freed s); [done..|]. apply nobody_holds. cbn.
    destruct Hag as [_ Hv]. rewrite (Hv key). apply view_set_eq.
Qed.
(** C10: the lease is a lock with fencing tokens, step by step.  Every run of a
    cluster, whatever its timeouts, crashes, stalls and failed requests, is a
    run of the abstract lock with the same labels in the same order, and after
    every one of them the lock's holder and token are those of the instance
    whose guard has the bucket's revision.  The lock is granted only when it is
    free, and renewed only by its holder, with tokens above all those before;
    a failed request, a failed renewal or a crash takes it from nobody else;
    only the age limit and the drop of a guard can, the latter because it
    deletes the key without asking whose it is. *)
Theorem lease_refines_lock s0 run : initial s0 → labelled seen s0 run →
  ∃ run', labelled lock_step {| holder := None; issued := last_seq (bucket s0) |} run' ∧
    Forall2 (λ x y, fst y = fst x ∧ ∀ p n, holder (snd y) = Some (p, n) ↔ holds_as (snd x) p n) run run'.
Proof.
  intros [H0 Hok] Hr.
  assert (shows s0 {| holder := None; issued := last_seq (bucket s0) |}) as Hs.
  { split; [|split; [cbn; lia|]].
    - apply reachable_inv. exists s0. split; [done|apply rtc_refl].
    - intros p n. split; [done|]. intros (g & Hp & _). by rewrite H0, lookup_empty in Hp. }
  clear H0 Hok. revert Hs. generalize {| holder := None; issued := last_seq (bucket s0) |} as l. revert s0 Hr.
  induction run as [|[a s1] run IH]; intros s0 Hr l Hs; [by exists []|]. destruct Hr as [Ha Hr].
  destruct (lease_simulates s0 a s1 l Hs Ha) as (l1 & Hl & Hs1). destruct (IH s1 Hr l1 Hs1) as (run' & Hr' & HF).
  exists ((a, l1) :: run'). split; [done|]. constructor; [|done]. split; [done|apply Hs1].
Qed.
End Refinement.

(** [a] acquires and stalls past the age limit, [b] acquires, [a]'s renewal
    fails, [b] renews, and [a]'s guard, let go late, frees the lock that [b]
    holds. *)
Definition standing_by : Cluster MapKv := {| bucket := empty_kv; guards := ∅ |}.
Definition stalled : LeaseGuard := fst (renew "a" guard_a bucket3).
Definition renewed : LeaseGuard := fst (renew "b" guard_b bucket3).
Definition bucket_renewed : MapKv := snd (renew "b" guard_b bucket3).
Definition handover : list (event * Cluster MapKv) :=
  [(Grant "a" 1, {| bucket := bucket1; guards := {["a" := guard_a]} |});
   (Expire, {| bucket := bucket2; guards := {["a" := guard_a]} |});
   (Grant "b" 2, taken_over);
   (Lose "a", {| bucket := bucket3; guards := <["a" := stalled]> (guards taken_over) |});
   (Renew "b" 3, {| bucket := bucket_renewed; guards := <["b" := renewed]> (<["a" := stalled]> (guards taken_over)) |});
   (Drop "a", {| bucket := snd (drop_guard stalled bucket_renewed);
                 guards := delete "a" (<["b" := renewed]> (<["a" := stalled]> (guards taken_over))) |})].

(** The cluster after the first steps of it. *)
Definition stood (n : nat) : Cluster MapKv := default standing_by (option_map snd (handover !! n)).

Lemma lease_refines_lock_witness :
  ∃ run', labelled lock_step {| holder := None; issued := last_seq (bucket standing_by) |} run' ∧
    Forall2 (λ x y, fst y = fst x ∧ ∀ p n, holder (snd y) = Some (p, n) ↔ holds_as "poll" (snd x) p n) handover run'.
Proof.
  apply (lease_refines_lock "poll" standing_by handover).
  - split; [done|]. intros ???. cbn. by rewrite lookup_empty.
  - split; [exact (o_grant "poll" standing_by "a" guard_a bucket1 eq_refl eq_refl)|].
    split; [exact (o_age "poll" (stood 0) bucket2 bucket2_aged)|].
    split; [exact (o_grant "poll" (stood 1) "b" guard_b bucket3 eq_refl eq_refl)|].
    split; [exact (o_renew "poll" (stood 2) "a" guard_a stalled bucket3 eq_refl eq_refl eq_refl eq_refl)|].
    split; [exact (o_renew "poll" (stood 3) "b" guard_b renewed bucket_renewed eq_refl eq_refl eq_refl eq_refl)|].
    split; [|done]. exact (o_drop "poll" (stood 4) "a" stalled (Ok ()) _ eq_refl eq_refl).
Defined.
