(* ===== verification/Bus.v ===== *)
(** * The bus

    What the runtime keeps of the bus on its side (core/src/bus.rs): the batch
    of publishes held until one barrier, the barrier itself, the delivery
    counts read from an ack subject, the rounds of a pull consumer.  The client
    library under it is the class [Net]; [NetLaws] has what the code relies on:
    a connection's messages are read in the order they were sent, and nothing
    is promised across a reconnect. *)

From stdpp Require Import base list strings.
From Stdlib Require Import ZArith Lia Ascii.
From S2P Require Import Prelude Text F64 Json.
Open Scope string_scope.
Open Scope Z_scope.

(** A message as the client library hands it over. *)
Record Incoming : Type := {
  in_subject : string;
  in_reply : option string;
  in_payload : string;
  in_status : option Z;
  in_description : option string
}.

Notation pub := (string * string)%type.

Class Net (N : Type) := {
  net_up : N → bool;
  net_epoch : N → Z;                 (** moves on every reconnect *)
  net_max_payload : N → Z;
  net_publish : string → string → N → res string () * N;
  net_echoes : string → N → list string * N;  (** heard on a subject while a barrier waits *)
  net_store : string → string → N → res string Z * N;  (** a JetStream publish, acknowledged *)
  net_receive : N → option Incoming * N  (** the next message of an inbox, or the deadline *)
}.

(** The history of a connection: what it took, with the epoch it took it in;
    what the server has read; what a stream has stored. *)
Class NetLaws (N : Type) `{Net N} := {
  taken : N → list (Z * pub);
  read : N → list pub;
  stored : N → list pub;
  publish_law s p n : let '(r, n') := net_publish s p n in
    net_epoch n <= net_epoch n' ∧ (∀ m, m ∈ read n → m ∈ read n') ∧ stored n' = stored n ∧
    match r with
    | Ok _ => ∃ e, net_epoch n <= e <= net_epoch n' ∧ taken n' = (taken n ++ [(e, (s, p))])%list
    | _ => taken n' = taken n ∨ ∃ e, taken n' = (taken n ++ [(e, (s, p))])%list
    end;
  echoes_law s n : let '(ps, n') := net_echoes s n in
    net_epoch n <= net_epoch n' ∧ (∀ m, m ∈ read n → m ∈ read n') ∧ stored n' = stored n ∧
    taken n' = taken n ∧
    ∀ p, p ∈ ps → ∃ before e after, taken n = (before ++ (e, (s, p)) :: after)%list ∧
      ∀ m, (e, m) ∈ before → m ∈ read n';
  store_law s p n : let '(r, n') := net_store s p n in
    net_epoch n <= net_epoch n' ∧ (∀ m, m ∈ read n → m ∈ read n') ∧ taken n' = taken n ∧
    match r with
    | Ok _ => stored n' = (stored n ++ [(s, p)])%list
    | _ => stored n' = stored n ∨ stored n' = (stored n ++ [(s, p)])%list
    end
}.

Inductive berr : Type :=
| BadSubject (s : string)
| OverLimit (len limit : Z)
| ConnectionDown
| NetErr (e : string)
| NoEcho
| Replaced.

Definition net_res {A} (r : res string A) : res berr A :=
  match r with Ok a => Ok a | Err e => Err (NetErr e) | Panic => Panic | NoFuel => NoFuel end.

(** [u64::to_be_bytes] and back. *)
Fixpoint be_bytes (w : nat) (n : Z) (acc : string) : string :=
  match w with
  | O => acc
  | S w => be_bytes w (n / 256) (String (ascii_of_N (Z.to_N (n mod 256))) acc)
  end.
Fixpoint of_be (s : string) (acc : Z) : Z :=
  match s with "" => acc | String b r => of_be r (acc * 256 + Z.of_N (bval b)) end.

Section Bus.
Context {N : Type} {NET : Net N}.

(** core/src/bus.rs:~93 [Link] *)
Record Link : Type := { client : N; echo : string; next_id : Z; waiting : list Z }.

Definition set_client (n : N) (l : Link) : Link :=
  {| client := n; echo := echo l; next_id := next_id l; waiting := waiting l |}.

(** core/src/bus.rs [up] *)
Definition up (l : Link) : bool := net_up (client l).

(** core/src/bus.rs [epoch] *)
Definition epoch (l : Link) : Z := net_epoch (client l).

(** What a link's task does with an echo: whoever waits for its id is told. *)
(** core/src/bus.rs:122-132 [open] *)
Definition on_echo (payload : string) (waiting : list Z) : list Z :=
  if Nat.eqb (slen payload) 8 then filter (.≠ of_be payload 0) waiting else waiting.

Definition forget (id : Z) (l : Link) : Link :=
  {| client := client l; echo := echo l; next_id := next_id l; waiting := filter (.≠ id) (waiting l) |}.

(** core/src/bus.rs [barrier] *)
Definition barrier (l : Link) : res berr () * Link :=
  let id := next_id l in
  let l := {| client := client l; echo := echo l; next_id := wrap 64 (id + 1);
              waiting := id :: waiting l |} in
  let '(r, n) := net_publish (echo l) (be_bytes 8 id "") (client l) in
  let l := set_client n l in
  match r with
  | Ok _ =>
    let '(payloads, n) := net_echoes (echo l) (client l) in
    let l := {| client := n; echo := echo l; next_id := next_id l;
                waiting := fold_left (λ w p, on_echo p w) payloads (waiting l) |} in
    if bool_decide (id ∈ waiting l) then (Err NoEcho, forget id l) else (Ok (), l)
  | Err e => (Err (NetErr e), forget id l)
  | Panic => (Panic, l)
  | NoFuel => (NoFuel, l)
  end.

(** core/src/bus.rs [barrier_since] *)
Definition barrier_since (e : Z) (l : Link) : res berr () * Link :=
  let '(r, l) := barrier l in
  (_ ← r; if epoch l =? e then Ok () else Err Replaced, l).

(** core/src/bus.rs:~360 [Batch] *)
Record Batch : Type := { held : list pub }.

Definition bad_subject_byte (b : byte) : bool :=
  bool_decide (b ∈ [" "; "009"; "013"; "010"]%char).

(** core/src/bus.rs:370-385 [Batch::publish] *)
Definition batch_publish (subject payload : string) (b : Batch) (l : Link) : res berr Batch :=
  if String.eqb subject "" || existsb bad_subject_byte (String.list_ascii_of_string subject)
  then Err (BadSubject subject)
  else
    let limit := net_max_payload (client l) in
    if limit <? Z.of_nat (slen payload) then Err (OverLimit (Z.of_nat (slen payload)) limit)
    else Ok {| held := (held b ++ [(subject, payload)])%list |}.

(** core/src/bus.rs:412-417 [confirm] *)
Fixpoint send_all (ms : list pub) (n : N) : res berr () * N :=
  match ms with
  | [] => (Ok (), n)
  | (s, p) :: ms =>
    match net_publish s p n with
    | (Ok _, n) => send_all ms n
    | (r, n) => (net_res r, n)
    end
  end.

(** core/src/bus.rs [confirm] *)
Definition confirm (b : Batch) (l : Link) : res berr () * Batch * Link :=
  match held b with
  | [] => (Ok (), b, l)
  | ms =>
    let empty := {| held := [] |} in
    if negb (up l) then (Err ConnectionDown, empty, l)
    else
      let e := epoch l in
      let '(r, n) := send_all ms (client l) in
      let l := set_client n l in
      match r with
      | Ok _ => let '(r, l) := barrier_since e l in (r, empty, l)
      | r => (r, empty, l)
      end
  end.

(** ** Messages *)

(** core/src/bus.rs [Delivery] *)
Record Delivery : Type := { delivered : Z; stream_seq : Z }.

(** core/src/bus.rs:~450 [Message] *)
Record Message : Type := { subject : string; data : string; reply : option string }.

(** core/src/bus.rs:459-466 [Message::new] *)
Definition message_of (m : Incoming) : Message :=
  {| subject := in_subject m; data := in_payload m; reply := in_reply m |}.

(** core/src/bus.rs [parse_ack_subject] *)
Definition parse_ack_subject (reply : string) : option Delivery :=
  rest ← strip_prefix reply "$JS.ACK.";
  let tokens := str_split rest "." in
  at_ ← (match length tokens with
         | 7%nat => Some 2%nat
         | n => if Nat.leb 9 n then Some 4%nat else None
         end);
  d ← tokens !! at_;
  d ← parse_i64 d;
  s ← tokens !! S at_;
  s ← parse_u64 s;
  Some {| delivered := d; stream_seq := s |}.

(** core/src/bus.rs [delivery] *)
Definition delivery (m : Message) : option Delivery := r ← reply m; parse_ack_subject r.

(** core/src/bus.rs [answer] *)
Definition answer (payload : string) (m : Message) (l : Link) : res berr () * Link :=
  match reply m with
  | None => (Ok (), l)
  | Some r => let '(x, n) := net_publish r payload (client l) in (net_res x, set_client n l)
  end.
(** core/src/bus.rs [ack] *)
Definition ack : Message → Link → res berr () * Link := answer "".
(** core/src/bus.rs [nak] *)
Definition nak : Message → Link → res berr () * Link := answer "-NAK".
(** core/src/bus.rs [respond] *)
Definition respond (payload : string) : Message → Link → res berr () * Link := answer payload.

(** core/src/bus.rs [ack_all] *)
Fixpoint ack_all (ms : list Message) (l : Link) : res berr () * Link :=
  match ms with
  | [] => (Ok (), l)
  | m :: ms =>
    match ack m l with
    | (Ok _, l) => ack_all ms l
    | r => r
    end
  end.

(** ** Pull rounds *)

(** core/src/bus.rs [PULL_BATCH] *)
Definition PULL_BATCH : nat := 64.

(** core/src/bus.rs [Pulled] *)
Inductive Pulled : Type := PMessage | PNothing | POver | PGone (status : Z) (description : string).

(** core/src/bus.rs [classify] *)
Definition classify (m : Incoming) : Pulled :=
  let description := default "" (in_description m) in
  match in_status m with
  | None => PMessage
  | Some status =>
    if status =? 200 then PMessage
    else if status =? 404 then PNothing
    else if status =? 408 then POver
    else if (status =? 409) && negb (str_contains description "Deleted") then POver
    else PGone status description
  end.

(** core/src/bus.rs:~542 [Puller] *)
Record Puller : Type := { inbox : N; fault : option (Z * string) }.

(** The next message of a round that has given [taken] already. *)
(** core/src/bus.rs:610-628 [next] *)
Fixpoint round_next (fuel : nat) (taken : nat) (p : Puller) : res (Z * string) (option Message) * nat * Puller :=
  match fuel with
  | O => (NoFuel, taken, p)
  | S fuel =>
    if Nat.leb PULL_BATCH taken then (Ok None, taken, p)
    else
      let '(m, n) := net_receive (inbox p) in
      let p := {| inbox := n; fault := fault p |} in
      match m with
      | None => (Ok None, taken, p)
      | Some m =>
        match classify m with
        | PMessage => (Ok (Some (message_of m)), S taken, p)
        | PNothing => round_next fuel taken p
        | POver => (Ok None, taken, p)
        | PGone s d => (Ok None, taken, {| inbox := inbox p; fault := Some (s, d) |})
        end
      end
  end.

End Bus.
Arguments Link N : clear implicits.
Arguments Puller N : clear implicits.

(** ** The barrier *)

Lemma of_be_bytes w : ∀ n acc a, of_be (be_bytes w n acc) a = of_be acc (a * 256 ^ Z.of_nat w + n mod 256 ^ Z.of_nat w).
Proof.
  induction w as [|w IH]; intros n acc a.
  - cbn [be_bytes]. f_equal. rewrite Z.pow_0_r, Z.mod_1_r. lia.
  - cbn [be_bytes]. rewrite IH. cbn [of_be]. f_equal. rewrite Nat2Z.inj_succ, Z.pow_succ_r by lia.
    unfold bval. rewrite N_ascii_embedding.
    2: { pose proof (Z.mod_pos_bound n 256). lia. }
    rewrite Z2N.id by (apply Z.mod_pos_bound; lia).
    rewrite (Z.rem_mul_r n 256) by (try apply Z.pow_nonzero; lia). lia.
Qed.

Lemma slen_be w : ∀ n acc, slen (be_bytes w n acc) = (w + slen acc)%nat.
Proof. induction w as [|w IH]; intros n acc; [done|]. cbn [be_bytes]. rewrite IH. cbn. lia. Qed.

Lemma last_unique {A} (before after : list A) x y T :
  (before ++ x :: after = T ++ [y])%list → x ∉ T → before = T ∧ x = y.
Proof.
  intros E Hx. destruct after as [|z after' _] using rev_ind.
  - by apply app_inj_tail in E.
  - rewrite app_comm_cons, app_assoc in E. apply app_inj_tail in E as [E _].
    destruct Hx. rewrite <- E. apply elem_of_app. right. apply elem_of_cons. by left.
Qed.

Section Facts.
Context {N : Type} {NET : Net N} {NL : NetLaws N}.
Notation Link := (Link N).

(** The ids a link has echoed so far are those it has given out. *)
Definition link_ok (l : Link) : Prop :=
  0 <= next_id l < 2 ^ 64 - 1 ∧
  ∀ e p, (e, (echo l, p)) ∈ taken (client l) → slen p = 8%nat → of_be p 0 < next_id l.

(** What a step over the connection keeps: what was read stays read, what was
    taken stays taken. *)
Definition later (n n' : N) : Prop :=
  net_epoch n <= net_epoch n' ∧ (∀ m, m ∈ read n → m ∈ read n') ∧ (∀ m, m ∈ stored n → m ∈ stored n').

#[export] Instance later_pre : PreOrder later.
Proof.
  split; [intros n; split; [lia|auto]|].
  intros a b c (? & ? & ?) (? & ? & ?). split; [lia|auto].
Qed.

Lemma publish_later s p n : later n (snd (net_publish s p n)).
Proof.
  pose proof (publish_law s p n) as H. destruct (net_publish s p n) as [r n'].
  destruct H as (? & ? & Hs & _). split; [done|]. split; [done|]. cbn. by rewrite Hs.
Qed.

Lemma send_all_Ok ms : ∀ n n' u, send_all ms n = (Ok u, n') →
  later n n' ∧ ∃ l, taken n' = (taken n ++ l)%list ∧ map snd l = ms ∧
    Forall (λ x, net_epoch n <= fst x <= net_epoch n') l.
Proof.
  induction ms as [|[s p] ms IH]; intros n n' u H; cbn in H.
  - injection H as _ <-. split; [reflexivity|]. exists []. by rewrite app_nil_r.
  - pose proof (publish_law s p n) as Hl. pose proof (publish_later s p n) as Hlt.
    destruct (net_publish s p n) as [r n1]. destruct r as [v|e| |]; try done.
    destruct Hl as (He & _ & _ & e & Hee & Ht). apply IH in H as (Hlater & l & Hl & Hm & Hf).
    split; [by etransitivity|]. exists ((e, (s, p)) :: l). rewrite Hl, Ht, <- app_assoc.
    split; [done|]. split; [cbn; by f_equal|]. destruct Hlater as (? & _). constructor; [cbn; lia|].
    eapply Forall_impl; [exact Hf|]. cbn. lia.
Qed.

Lemma on_echo_in id p w : id ∈ w → id ∉ on_echo p w → slen p = 8%nat ∧ of_be p 0 = id.
Proof.
  unfold on_echo. destruct (Nat.eqb_spec (slen p) 8) as [E|]; [|done].
  intros Hin Hn. split; [done|]. destruct (decide (id = of_be p 0)) as [|Hne]; [done|].
  destruct Hn. by apply list_elem_of_filter.
Qed.

Lemma echoes_heard id ps : ∀ w, id ∈ w → id ∉ fold_left (λ w p, on_echo p w) ps w →
  ∃ p, p ∈ ps ∧ slen p = 8%nat ∧ of_be p 0 = id.
Proof.
  induction ps as [|p ps IH]; intros w Hin Hn; cbn in Hn; [done|].
  destruct (decide (id ∈ on_echo p w)) as [Hp|Hp].
  - destruct (IH _ Hp Hn) as (q & ? & ?). exists q. split; [by right|done].
  - exists p. split; [by left|]. by eapply on_echo_in.
Qed.

(** The barrier came back: everything this connection took before, in the epoch
    the echo left in, has been read. *)
Lemma barrier_Ok (l : Link) l' u : link_ok l → barrier l = (Ok u, l') →
  later (client l) (client l') ∧ echo l' = echo l ∧ next_id l' = next_id l + 1 ∧
  ∃ e, epoch l <= e <= epoch l' ∧
    (∀ m, (e, m) ∈ taken (client l) → m ∈ read (client l')) ∧
    taken (client l') = (taken (client l) ++ [(e, (echo l, be_bytes 8 (next_id l) ""))])%list.
Proof.
  intros [Hid Hfresh] H. unfold barrier in H. set (id := next_id l) in *. cbn [client echo] in H.
  pose proof (publish_law (echo l) (be_bytes 8 id "") (client l)) as Hp.
  pose proof (publish_later (echo l) (be_bytes 8 id "") (client l)) as Hl1.
  destruct (net_publish _ _ _) as [r n1]. destruct r as [v|x| |]; try done.
  destruct Hp as (_ & _ & _ & e & He & Ht). cbn [set_client client echo next_id waiting] in H.
  pose proof (echoes_law (echo l) n1) as Hh. destruct (net_echoes (echo l) n1) as [ps n2].
  destruct Hh as (He2 & Hr2 & Hs2 & Ht2 & Hh). cbn [waiting] in H. case_bool_decide as Hw; [done|].
  injection H as _ <-. cbn. unfold epoch. cbn.
  destruct (echoes_heard id ps (id :: waiting l)) as (p & Hps & Hlen & Hof);
    [by left|done|].
  destruct (Hh p Hps) as (before & e' & after & Hsplit & Hread). rewrite Ht in Hsplit.
  symmetry in Hsplit. apply last_unique in Hsplit as [-> [= ->]].
  2: { intros Hin. specialize (Hfresh _ _ Hin Hlen). rewrite Hof in Hfresh. unfold id in Hfresh. lia. }
  split; [|split; [done|split; [apply wrap_small; unfold id; lia|]]].
  - etransitivity; [exact Hl1|]. cbn. split; [done|]. split; [done|]. by rewrite Hs2.
  - exists e. split; [lia|]. split; [done|]. by rewrite Ht2.
Qed.

Lemma barrier_keeps_ok (l l' : Link) e :
  link_ok l → echo l' = echo l → next_id l' = next_id l + 1 → next_id l < 2 ^ 64 - 2 →
  taken (client l') = (taken (client l) ++ [(e, (echo l, be_bytes 8 (next_id l) ""))])%list → link_ok l'.
Proof.
  intros [Hid Hf] He Hn Hlt Ht. split; [lia|]. rewrite He, Hn, Ht.
  intros e' p [Hin|Hin]%elem_of_app Hp; [specialize (Hf _ _ Hin Hp); lia|].
  apply list_elem_of_singleton in Hin. assert (p = be_bytes 8 (next_id l) "") as -> by congruence.
  rewrite of_be_bytes. cbn [of_be].
  rewrite Z.mod_small; lia.
Qed.

(** Nothing else that goes out on a link is an echo. *)
Lemma taken_keeps_ok (l : Link) n t :
  link_ok l → taken n = (taken (client l) ++ t)%list → Forall (λ x, fst (snd x) ≠ echo l) t →
  link_ok (set_client n l).
Proof.
  intros [Hid Hf] Ht Ha. split; [done|]. cbn. rewrite Ht. intros e p [Hin|Hin]%elem_of_app Hp.
  - by eapply Hf.
  - rewrite Forall_forall in Ha. by apply Ha in Hin.
Qed.

Lemma confirm_Ok b (l : Link) u b' l' :
  link_ok l → next_id l < 2 ^ 64 - 2 → Forall (λ m, fst m ≠ echo l) (held b) →
  confirm b l = (Ok u, b', l') →
  held b' = [] ∧ (∀ m, m ∈ held b → m ∈ read (client l')) ∧ later (client l) (client l') ∧
  echo l' = echo l ∧ link_ok l'.
Proof.
  intros Hok Hlt Hne H. unfold confirm in H. destruct (held b) as [|m0 ms] eqn:Hb.
  { injection H as _ <- <-. split; [done|]. split; [by intros m ?%elem_of_nil|]. split; [reflexivity|done]. }
  destruct (up l); cbn [negb] in H; [|done]. cbv zeta in H.
  destruct (send_all (m0 :: ms) (client l)) as [[v|x| |] n1] eqn:Es; try done.
  apply send_all_Ok in Es as (Hl1 & t & Ht & Hm & Hf).
  assert (link_ok (set_client n1 l)) as Hok1.
  { eapply taken_keeps_ok; [done|exact Ht|]. apply Forall_forall. intros x Hx.
    rewrite Forall_forall in Hne. apply Hne. rewrite <- Hm. by apply list_elem_of_fmap_2. }
  unfold barrier_since in H. destruct (barrier (set_client n1 l)) as [r l2] eqn:Eb.
  injection H as Hr <- <-. destruct r as [v'|x| |]; try done.
  apply barrier_Ok in Eb as (Hl2 & He2 & Hn2 & e & He & Hread & Ht2); [|done]. cbn in *.
  destruct (Z.eqb_spec (epoch l2) (epoch l)) as [Hep|]; [|done].
  split; [done|]. split; [|split; [by etransitivity|split; [done|]]].
  - intros m Hin. apply Hread. rewrite Ht. apply elem_of_app. right.
    rewrite <- Hm in Hin. apply list_elem_of_fmap in Hin as ([e' m'] & -> & Hin).
    rewrite Forall_forall in Hf. specialize (Hf _ Hin). cbn in *.
    unfold epoch in *. cbn in *. destruct Hl1, Hl2. by replace e with e' by lia.
  - by eapply (barrier_keeps_ok (set_client n1 l)).
Qed.

(** What else an operation sends is what it was asked to. *)
Lemma publish_taken s p n : ∃ t, taken (snd (net_publish s p n)) = (taken n ++ t)%list ∧
  Forall (λ x, snd x = (s, p)) t.
Proof.
  pose proof (publish_law s p n) as H. destruct (net_publish s p n) as [r n']. cbn.
  destruct H as (_ & _ & _ & H).
  assert (taken n' = taken n ∨ ∃ e, taken n' = (taken n ++ [(e, (s, p))])%list) as [->|[e ->]].
  { destruct r; try done. destruct H as (e & _ & H). right. by exists e. }
  - exists []. by rewrite app_nil_r.
  - exists [(e, (s, p))]. split; [done|]. by repeat constructor.
Qed.

Lemma answer_taken p m (l : Link) : let l' := snd (answer p m l) in
  later (client l) (client l') ∧ echo l' = echo l ∧ next_id l' = next_id l ∧
  ∃ t, taken (client l') = (taken (client l) ++ t)%list ∧
    Forall (λ x, reply m = Some (fst (snd x)) ∧ snd (snd x) = p) t.
Proof.
  cbv zeta. unfold answer. destruct (reply m) as [rp|] eqn:Hr.
  - pose proof (publish_taken rp p (client l)) as (t & Ht & Hf).
    pose proof (publish_later rp p (client l)) as Hl.
    destruct (net_publish rp p (client l)) as [r n]. cbn in *. do 3 (split; [done|]).
    exists t. split; [done|]. eapply Forall_impl; [exact Hf|]. by intros [e m'] ->.
  - cbn. do 2 (split; [done|]). split; [done|]. exists []. rewrite app_nil_r. done.
Qed.

Lemma ack_all_taken ms : ∀ l : Link, let l' := snd (ack_all ms l) in
  later (client l) (client l') ∧ echo l' = echo l ∧ next_id l' = next_id l ∧
  ∃ t, taken (client l') = (taken (client l) ++ t)%list ∧
    Forall (λ x, ∃ m, m ∈ ms ∧ reply m = Some (fst (snd x))) t.
Proof.
  induction ms as [|m ms IH]; intros l; cbn.
  { do 3 (split; [done|]). exists []. by rewrite app_nil_r. }
  destruct (answer_taken "" m l) as (Hl & He & Hn & t & Ht & Hf). unfold ack.
  destruct (answer "" m l) as [r l1]. cbn in *.
  assert (Forall (λ x : Z * pub, ∃ m', m' ∈ m :: ms ∧ reply m' = Some (fst (snd x))) t) as Hf'.
  { eapply Forall_impl; [exact Hf|]. intros x [Hx _]. exists m. split; [by left|done]. }
  destruct r as [u|e| |]; cbn; [|by eauto 7..].
  destruct (IH l1) as (Hl2 & He2 & Hn2 & t2 & Ht2 & Hf2).
  split; [by etransitivity|]. split; [congruence|]. split; [congruence|].
  exists (t ++ t2)%list. rewrite Ht2, Ht, app_assoc. split; [done|]. apply Forall_app. split; [done|].
  eapply Forall_impl; [exact Hf2|]. intros x (m' & Hm' & Hx). exists m'. split; [by right|done].
Qed.

Lemma send_all_taken ms : ∀ n, ∃ t, taken (snd (send_all ms n)) = (taken n ++ t)%list ∧
  Forall (λ x, snd x ∈ ms) t.
Proof.
  induction ms as [|[s p] ms IH]; intros n; cbn.
  { exists []. by rewrite app_nil_r. }
  destruct (publish_taken s p n) as (t & Ht & Hf). destruct (net_publish s p n) as [r n1]. cbn in Ht.
  assert (Forall (λ x : Z * pub, snd x ∈ (s, p) :: ms) t) as Hf'.
  { eapply Forall_impl; [exact Hf|]. intros x ->. by left. }
  destruct r; cbn; [|by eauto..]. destruct (IH n1) as (t2 & Ht2 & Hf2).
  exists (t ++ t2)%list. rewrite Ht2, Ht, app_assoc. split; [done|]. apply Forall_app. split; [done|].
  eapply Forall_impl; [exact Hf2|]. intros x Hx. by right.
Qed.

Lemma barrier_taken (l : Link) : ∃ t, taken (client (snd (barrier l))) = (taken (client l) ++ t)%list ∧
  Forall (λ x, snd x = (echo l, be_bytes 8 (next_id l) "")) t.
Proof.
  unfold barrier. cbn [client echo].
  destruct (publish_taken (echo l) (be_bytes 8 (next_id l) "") (client l)) as (t & Ht & Hf).
  destruct (net_publish _ _ _) as [r n1]. cbn in Ht.
  destruct r; [|exists t; by cbn..]. cbn [set_client client echo next_id waiting].
  pose proof (echoes_law (echo l) n1) as H. destruct (net_echoes (echo l) n1) as [ps n2].
  destruct H as (_ & _ & _ & H & _). exists t. split; [|done]. rewrite <- Ht, <- H.
  by case_bool_decide.
Qed.

Lemma send_all_later ms : ∀ n, later n (snd (send_all ms n)).
Proof.
  induction ms as [|[s p] ms IH]; intros n; cbn; [reflexivity|].
  pose proof (publish_later s p n) as Hl. destruct (net_publish s p n) as [[] n1]; cbn in *; try done.
  by etransitivity.
Qed.

Lemma barrier_later (l : Link) : later (client l) (client (snd (barrier l))).
Proof.
  unfold barrier. cbn [client echo].
  pose proof (publish_later (echo l) (be_bytes 8 (next_id l) "") (client l)) as Hl.
  destruct (net_publish _ _ _) as [[] n1]; cbn in Hl |- *; try done.
  pose proof (echoes_law (echo l) n1) as H. destruct (net_echoes (echo l) n1) as [ps n2].
  destruct H as (? & ? & Hs & _). etransitivity; [exact Hl|].
  by case_bool_decide; cbn; (split; [done|]; split; [done|]; rewrite Hs).
Qed.

Lemma confirm_later b (l : Link) : later (client l) (client (snd (confirm b l))).
Proof.
  unfold confirm. destruct (held b) as [|m ms]; cbn [snd]; [reflexivity|].
  destruct (up l); cbn [negb]; [|reflexivity]. cbv zeta.
  pose proof (send_all_later (m :: ms) (client l)) as Hl.
  destruct (send_all _ _) as [[] n1]; cbn in Hl |- *; try done.
  unfold barrier_since. pose proof (barrier_later (set_client n1 l)) as Hl2.
  destruct (barrier _) as [r l2]. cbn in *. by etransitivity.
Qed.

(** What a confirmation sends is what was held, and its echo. *)
Lemma confirm_taken b (l : Link) : let l' := snd (confirm b l) in
  ∃ t, taken (client l') = (taken (client l) ++ t)%list ∧
    Forall (λ x, snd x ∈ held b ∨ slen (snd (snd x)) = 8%nat) t.
Proof.
  cbv zeta. unfold confirm. destruct (held b) as [|m ms] eqn:Hb; cbn [snd].
  { exists []. by rewrite app_nil_r. }
  destruct (up l); cbn [negb]; [|exists []; by rewrite app_nil_r]. cbv zeta.
  destruct (send_all_taken (m :: ms) (client l)) as (t & Ht & Hf).
  assert (Forall (λ x : Z * pub, snd x ∈ m :: ms ∨ slen (snd (snd x)) = 8%nat) t) as Hf'.
  { eapply Forall_impl; [exact Hf|]. auto. }
  destruct (send_all (m :: ms) (client l)) as [r n1]. cbn in Ht.
  destruct r; [|exists t; by cbn..]. unfold barrier_since.
  destruct (barrier_taken (set_client n1 l)) as (t2 & Ht2 & Hf2).
  destruct (barrier (set_client n1 l)) as [r2 l2]. cbn in *. exists (t ++ t2)%list.
  rewrite Ht2, Ht, app_assoc. split; [done|]. apply Forall_app. split; [done|].
  eapply Forall_impl; [exact Hf2|]. intros x Hx. right. rewrite Hx. exact (slen_be 8 (next_id l) "").
Qed.

(** C8: the publish-before-ack barrier: when a batch is confirmed, the server
    has read every publish of it, reconnects and lost buffers included, and
    nothing is held any more; when it is not, nothing is held either, so no
    later batch confirms what this one lost. *)
Theorem confirm_proves b (l : Link) r b' l' :
  link_ok l → next_id l < 2 ^ 64 - 2 → Forall (λ m, fst m ≠ echo l) (held b) →
  confirm b l = (r, b', l') →
  held b' = [] ∧ (is_ok r = true → ∀ m, m ∈ held b → m ∈ read (client l')).
Proof.
  intros Hok Hlt Hne H. destruct (is_ok r) eqn:Er.
  - destruct r as [u|e| |]; try done.
    destruct (confirm_Ok b l u b' l' Hok Hlt Hne H) as (? & ? & _). done.
  - split; [|done]. unfold confirm in H. destruct (held b) eqn:Hb; [by injection H as <- <- <-|].
    destruct (up l); cbn [negb] in H; [|by injection H as <- <- <-]. cbv zeta in H.
    destruct (send_all _ _) as [[] ?]; try (by injection H as <- <- <-).
    destruct (barrier_since _ _). by injection H as <- <- <-.
Qed.
End Facts.

(** ** An instance *)

(** A connection that never fails: the server reads at once. *)
Record SimNet : Type := {
  sim_taken : list (Z * pub);
  sim_stored : list pub;
  sim_inbox : list Incoming;
  sim_limit : Z                  (** on a payload *)
}.

#[export] Instance sim_net : Net SimNet := {|
  net_up _ := true;
  net_epoch _ := 1;
  net_max_payload := sim_limit;
  net_publish s p n :=
    (Ok (), {| sim_taken := (sim_taken n ++ [(1, (s, p))])%list; sim_stored := sim_stored n;
               sim_inbox := sim_inbox n; sim_limit := sim_limit n |});
  net_echoes s n := (map (λ x, snd (snd x)) (filter (λ x, fst (snd x) = s) (sim_taken n)), n);
  net_store s p n :=
    (Ok (Z.of_nat (S (length (sim_stored n)))),
     {| sim_taken := sim_taken n; sim_stored := (sim_stored n ++ [(s, p)])%list;
        sim_inbox := sim_inbox n; sim_limit := sim_limit n |});
  net_receive n :=
    match sim_inbox n with
    | [] => (None, n)
    | m :: r => (Some m, {| sim_taken := sim_taken n; sim_stored := sim_stored n; sim_inbox := r;
                               sim_limit := sim_limit n |})
    end
|}.

#[export] Instance sim_laws : NetLaws SimNet.
Proof.
  refine {| taken := sim_taken; read n := map snd (sim_taken n); stored := sim_stored |}.
  - intros s p n. cbn. split; [lia|]. split.
    + intros m Hm. rewrite map_app. apply elem_of_app. by left.
    + split; [done|]. exists 1. split; [lia|done].
  - intros s n. cbn. split; [lia|]. do 3 (split; [done|]).
    intros p (x & -> & [Hs Hx]%list_elem_of_filter)%list_elem_of_fmap.
    apply list_elem_of_split in Hx as (before & after & E). destruct x as [e [s' p]]. cbn in *. subst s'.
    exists before, e, after. split; [done|]. intros m Hm. rewrite E, map_app. apply elem_of_app. left.
    apply list_elem_of_fmap. by exists (e, m).
  - intros s p n. cbn. split; [lia|]. done.
Defined.

Definition sim_start : SimNet := 
  {| sim_taken := []; sim_stored := []; sim_inbox := []; sim_limit := 1048576 |}.
Definition sim_link : Link SimNet := {| client := sim_start; echo := "_INBOX.e"; next_id := 0; waiting := [] |}.

Lemma sim_link_ok : link_ok sim_link.
Proof. split; [done|]. by intros e p ?%elem_of_nil. Qed.

Definition two_held : Batch := {| held := [("vx.a", "1"); ("vx.b", "2")] |}.
Definition two_sent : res berr () * Batch * Link SimNet := confirm two_held sim_link.

Lemma confirm_proves_witness :
  held (snd (fst two_sent)) = [] ∧
  (is_ok (fst (fst two_sent)) = true → ∀ m, m ∈ held two_held → m ∈ read (client (snd two_sent))).
Proof.
  refine (confirm_proves two_held sim_link (fst (fst two_sent)) (snd (fst two_sent)) (snd two_sent)
    sim_link_ok _ _ _).
  - by vm_compute.
  - by repeat constructor.
  - by vm_compute.
Defined.

Example two_sent_ok : is_ok (fst (fst two_sent)) = true.
Proof. reflexivity. Qed.

Example ack_subjects :
  parse_ack_subject "$JS.ACK.VEJAS.flow_x.3.17.9.1793984542000000000.0" =
    Some {| delivered := 3; stream_seq := 17 |} ∧
  parse_ack_subject "$JS.ACK.dom.ACC.VEJAS.flow_x.2.41.9.1793984542000000000.5.token" =
    Some {| delivered := 2; stream_seq := 41 |} ∧
  parse_ack_subject "$JS.ACK.too.few" = None.
Proof. repeat split; vm_compute; reflexivity. Qed.
