(* ===== verification/Dlq.v ===== *)
(** * Dead letters

    Poison messages are parked in a stream of their own as envelopes, and
    announced, at most one event a unit per gap, each event standing for the
    letters since the last (core/src/connectors.rs). *)

From stdpp Require Import base gmap list strings.
From Stdlib Require Import ZArith Lia.
From S2P Require Import Prelude Text F64 Json Bus.
Open Scope string_scope.
Open Scope Z_scope.

(** core/src/connectors.rs [dlq_unit_token] *)
Definition dlq_unit_token (unit : string) : string :=
  map_chars (λ c s, if is_ascii_alphanumeric c || (c =? 95)%N then s else "_") unit.

(** core/src/connectors.rs [DLQ_ROOT] *)
Definition DLQ_ROOT : string := "vxdlq".

(** core/src/connectors.rs [DlqAnnouncement] *)
Record DlqAnnouncement : Type := {
  last_sent : Z;
  count : Z;
  a_subject : string;
  a_attempts : Z;
  a_version : string
}.

Definition no_announcement : DlqAnnouncement :=
  {| last_sent := 0; count := 0; a_subject := ""; a_attempts := 0; a_version := "" |}.

(** The announcements held back, and whether the flusher thread runs. *)
Record Dlq : Type := { pending : gmap string DlqAnnouncement; flusher : bool }.

(** core/src/connectors.rs:1265-1265 [take_due_dlq_events] *)
Definition is_due (now gap : Z) (a : DlqAnnouncement) : bool :=
  (0 <? count a) && (gap <=? sat_sub now (last_sent a)).

(** core/src/connectors.rs:1267-1271 [take_due_dlq_events] *)
Definition dlq_event (now : Z) (unit : string) (a : DlqAnnouncement) : Value :=
  obj [("transition", VString "dead-lettered"); ("ts", vint now); ("unit", VString unit);
       ("subject", VString (a_subject a)); ("attempts", vint (a_attempts a));
       ("version", VString (a_version a)); ("count", vint (count a))].

Definition sent_now (now : Z) (a : DlqAnnouncement) : DlqAnnouncement :=
  {| last_sent := now; count := 0; a_subject := a_subject a; a_attempts := a_attempts a;
     a_version := a_version a |}.

(** The order of the events is the hash map's, which promises none. *)
(** core/src/connectors.rs [take_due_dlq_events] *)
Definition take_due_dlq_events (pending : gmap string DlqAnnouncement) (now gap : Z)
  : gmap string DlqAnnouncement * list Value :=
  let due := filter (λ ua, is_due now gap (snd ua)) (map_to_list pending) in
  ((λ a, if is_due now gap a then sent_now now a else a) <$> pending,
   map (λ ua, dlq_event now (fst ua) (snd ua)) due).

Section Dlq.
Context {SD : Serde} {N : Type} {NET : Net N} (env : string → option string).

(** core/src/connectors.rs [dlq_events_subject] *)
Definition dlq_events_subject : string :=
  default "vx" (env "VEJAS_SUBJECT_ROOT") ++ ".dlq.events".

(** core/src/connectors.rs [dlq_event_gap] *)
Definition dlq_event_gap : Z := default 60 (env "VEJAS_DLQ_EVENT_SECS" ≫= parse_u64).

(** core/src/connectors.rs [publish_dlq_event] *)
Definition publish_dlq_event (event : Value) (n : N) : N :=
  snd (net_store dlq_events_subject (to_json event) n).

Definition publish_all (events : list Value) (n : N) : N :=
  fold_left (λ n e, publish_dlq_event e n) events n.

(** core/src/connectors.rs:1303-1309 [announce_dead_letter] *)
Definition count_letter (unit subject : string) (attempts : Z) (version : string)
  (pending : gmap string DlqAnnouncement) : gmap string DlqAnnouncement :=
  let a := default no_announcement (pending !! unit) in
  <[unit := {| last_sent := last_sent a; count := count a + 1; a_subject := subject;
               a_attempts := attempts; a_version := version |}]> pending.

(** The events of a letter, and whether the flusher thread could start. *)
(** core/src/connectors.rs [announce_dead_letter] *)
Definition announce_dead_letter (unit subject : string) (attempts : Z) (version : string)
  (now : Z) (spawns : bool) (d : Dlq) : Dlq * list Value :=
  if String.eqb subject dlq_events_subject then (d, [])
  else
    let pending := count_letter unit subject attempts version (pending d) in
    let '(pending, due) := take_due_dlq_events pending now dlq_event_gap in
    let flusher := if (0 <? dlq_event_gap) && negb (flusher d) then spawns else flusher d in
    ({| pending := pending; flusher := flusher |}, due).

(** core/src/connectors.rs:1317-1327 [announce_dead_letter] *)
Definition flush_tick (now : Z) (d : Dlq) : Dlq * list Value :=
  let '(pending, due) := take_due_dlq_events (pending d) now dlq_event_gap in
  ({| pending := pending; flusher := flusher d |}, due).

(** The death envelope. *)
(** core/src/connectors.rs:1196-1210 [to_dlq] *)
Definition envelope (unit subject : string) (attempts : Z) (last_error payload version : string)
  (now : Z) : Value :=
  obj [("original_subject", VString subject); ("unit", VString unit); ("attempts", vint attempts);
       ("first_seen", vint now); ("dead_at", vint now); ("last_error", VString last_error);
       ("version", VString version); ("payload", VString (from_utf8_lossy payload))].

(** core/src/connectors.rs [to_dlq] *)
Definition to_dlq (unit subject : string) (attempts : Z) (last_error payload version : string)
  (now : Z) (spawns : bool) (d : Dlq) (n : N) : res string () * Dlq * N :=
  let body := to_json (envelope unit subject attempts last_error payload version now) in
  let '(r, n) := net_store (DLQ_ROOT ++ "." ++ dlq_unit_token unit) body n in
  match r with
  | Ok _ =>
    let '(d, due) := announce_dead_letter unit subject attempts version now spawns d in
    (Ok (), d, publish_all due n)
  | Err e => (Err e, d, n)
  | Panic => (Panic, d, n)
  | NoFuel => (NoFuel, d, n)
  end.
End Dlq.

(** ** No letter goes untold *)

Section Facts.
Context (env : string → option string).

(** What happens to the announcements: a letter, or the flusher's turn. *)
Inductive turn : Type :=
| Letter (unit subject : string) (attempts : Z) (version : string) (now : Z) (spawns : bool)
| Tick (now : Z).

Definition turn_step (t : turn) (d : Dlq) : Dlq * list Value :=
  match t with
  | Letter unit subject attempts version now spawns =>
    announce_dead_letter env unit subject attempts version now spawns d
  | Tick now => flush_tick env now d
  end.

Fixpoint turns (ts : list turn) (d : Dlq) : Dlq * list Value :=
  match ts with
  | [] => (d, [])
  | t :: ts =>
    let '(d, e1) := turn_step t d in
    let '(d, e2) := turns ts d in
    (d, (e1 ++ e2)%list)
  end.

(** The letters of a unit: that died, that events stand for, that wait. *)
Definition letter_of (u : string) (t : turn) : nat :=
  match t with
  | Letter unit subject _ _ _ _ =>
    if String.eqb unit u && negb (String.eqb subject (dlq_events_subject env)) then 1 else 0
  | Tick _ => 0
  end.
Definition died (u : string) (ts : list turn) : nat := list_sum (map (letter_of u) ts).
Definition told (u : string) (events : list Value) : Z :=
  foldr (λ e n, (if value_eqb (vindex e "unit") (VString u)
                 then match vindex e "count" with VNumber (NInt z) => z | _ => 0 end else 0) + n) 0 events.
Definition waits (u : string) (p : gmap string DlqAnnouncement) : Z :=
  match p !! u with Some a => count a | None => 0 end.

Definition counts_ok (p : gmap string DlqAnnouncement) : Prop :=
  ∀ u a, p !! u = Some a → 0 <= count a.

Lemma told_app u a b : told u (a ++ b) = told u a + told u b.
Proof. induction a as [|e a IH]; [done|]. unfold told in *. cbn. rewrite IH. lia. Qed.

Lemma told_cons u e l : told u (e :: l) = told u [e] + told u l.
Proof. exact (told_app u [e] l). Qed.

Lemma told_event u now unit a :
  told u [dlq_event now unit a] = if String.eqb unit u then count a else 0.
Proof.
  unfold told. cbn [foldr].
  change (vindex (dlq_event now unit a) "unit") with (VString unit).
  change (vindex (dlq_event now unit a) "count") with (vint (count a)).
  cbn [value_eqb]. destruct (String.eqb unit u); [cbn; lia|done].
Qed.

Lemma told_perm u (f : string * DlqAnnouncement → Value) l1 l2 :
  l1 ≡ₚ l2 → told u (map f l1) = told u (map f l2).
Proof. unfold told. induction 1; cbn; try lia. Qed.

(** What a take tells of a unit is what waited, if it was due. *)
Lemma take_due_told u now gap p : counts_ok p →
  told u (snd (take_due_dlq_events p now gap)) =
  match p !! u with Some a => if is_due now gap a then count a else 0 | None => 0 end.
Proof.
  unfold take_due_dlq_events. cbn [snd]. induction p as [|k a p Hk IH] using map_ind; intros Hc.
  { rewrite map_to_list_empty, lookup_empty. done. }
  assert (counts_ok p) as Hp.
  { intros u' a' Hu. apply (Hc u'). rewrite lookup_insert_ne; [done|]. intros ->. congruence. }
  rewrite (told_perm _ _ _ (filter (λ ua, is_due now gap (snd ua)) ((k, a) :: map_to_list p))).
  2: { by rewrite map_to_list_insert. }
  rewrite filter_cons. cbn [snd]. specialize (IH Hp). destruct (decide (k = u)) as [->|Hne].
  - rewrite lookup_insert_eq. rewrite Hk in IH. destruct (decide (is_due now gap a)) as [Hd|Hd].
    + cbn [map]. rewrite told_cons, told_event, String.eqb_refl, IH by done.
      cbn [snd]. destruct (is_due now gap a); [lia|done].
    + rewrite IH. by destruct (is_due now gap a).
  - rewrite lookup_insert_ne by done. rewrite <- IH. destruct (decide _); [|done].
    cbn [map]. rewrite told_cons, told_event. cbn [fst snd].
    apply String.eqb_neq in Hne as ->. lia.
Qed.

Lemma take_due_waits u now gap p :
  waits u (fst (take_due_dlq_events p now gap)) =
  match p !! u with Some a => if is_due now gap a then 0 else count a | None => 0 end.
Proof.
  unfold waits, take_due_dlq_events. cbn [fst]. rewrite lookup_fmap.
  destruct (p !! u) as [a|]; [|done]. cbn. by destruct (is_due now gap a).
Qed.

Lemma take_due_ok now gap p : counts_ok p → counts_ok (fst (take_due_dlq_events p now gap)).
Proof.
  intros Hc u a. unfold take_due_dlq_events. cbn [fst]. rewrite lookup_fmap.
  destruct (p !! u) as [b|] eqn:E; [|done]. cbn. intros [= <-]. specialize (Hc _ _ E).
  by destruct (is_due now gap b).
Qed.

Lemma take_due_conserves u now gap p p' ev : counts_ok p →
  take_due_dlq_events p now gap = (p', ev) → told u ev + waits u p' = waits u p ∧ counts_ok p'.
Proof.
  intros Hc E. pose proof (take_due_told u now gap p Hc) as Ht.
  pose proof (take_due_waits u now gap p) as Hw. pose proof (take_due_ok now gap p Hc) as Hk.
  rewrite E in Ht, Hw, Hk. cbn [fst snd] in *. split; [|done]. rewrite Ht, Hw. unfold waits.
  destruct (p !! u) as [a|]; [|done]. destruct (is_due now gap a); lia.
Qed.

Lemma count_letter_waits u unit subject attempts version p : counts_ok p →
  waits u (count_letter unit subject attempts version p) =
    waits u p + (if String.eqb unit u then 1 else 0) ∧
  counts_ok (count_letter unit subject attempts version p).
Proof.
  intros Hc. unfold count_letter. split.
  - unfold waits. destruct (String.eqb_spec unit u) as [->|Hne].
    + rewrite lookup_insert_eq. cbn. destruct (p !! u); cbn; lia.
    + rewrite lookup_insert_ne by done. lia.
  - intros u' a [[<- <-]|[_ H]]%lookup_insert_Some; [|by eapply Hc]. cbn.
    destruct (p !! unit) as [b|] eqn:E; cbn; [|lia]. specialize (Hc _ _ E). lia.
Qed.

(** The window delays the news of dead letters without losing any: over any
    run of letters and flushes, what the events of a unit stand for and what
    still waits is what died, letters of the event subject itself aside. *)
Theorem letters_all_told u ts d : counts_ok (pending d) →
  told u (snd (turns ts d)) + waits u (pending (fst (turns ts d))) =
  waits u (pending d) + Z.of_nat (died u ts).
Proof.
  revert d. induction ts as [|t ts IH]; intros d Hc; [cbn; lia|]. cbn [turns].
  destruct (turn_step t d) as [d1 e1] eqn:E. specialize (IH d1).
  destruct (turns ts d1) as [d2 e2]. cbn [fst snd] in *. rewrite told_app.
  enough (told u e1 + waits u (pending d1) = waits u (pending d) + Z.of_nat (letter_of u t) ∧
          counts_ok (pending d1)) as [H1 H2].
  { specialize (IH H2). change (died u (t :: ts)) with (letter_of u t + died u ts)%nat. lia. }
  clear IH. destruct t as [unit subject att ver now sp|now]; cbn [turn_step letter_of] in *.
  - unfold announce_dead_letter in E. destruct (String.eqb subject (dlq_events_subject env)).
    + injection E as <- <-. rewrite andb_false_r. cbn. split; [lia|done].
    + destruct (count_letter_waits u unit subject att ver (pending d) Hc) as [Hw Hk].
      destruct (take_due_dlq_events _ _ _) as [p ev] eqn:Et. injection E as <- <-. cbn [pending].
      destruct (take_due_conserves u _ _ _ _ _ Hk Et) as [Ht Hp]. rewrite Ht, Hw. split; [|done].
      rewrite andb_true_r. by destruct (String.eqb unit u).
  - unfold flush_tick in E. destruct (take_due_dlq_events _ _ _) as [p ev] eqn:Et. injection E as <- <-.
    cbn [pending]. destruct (take_due_conserves u _ _ _ _ _ Hc Et) as [Ht Hp]. rewrite Ht. split; [lia|done].
Qed.
End Facts.

Section Witness.
Definition day : list turn :=
  [Letter "flow:a" "vx.in" 5 "h" 100 true; Letter "flow:a" "vx.in" 5 "h" 101 true;
   Letter "flow:b" "vx.in" 5 "h" 102 true; Letter "flow:a" "vx.dlq.events" 5 "h" 103 true; Tick 200].
Definition quiet : Dlq := {| pending := ∅; flusher := false |}.

Lemma letters_all_told_witness :
  told "flow:a" (snd (turns (λ _, None) day quiet)) +
    waits "flow:a" (pending (fst (turns (λ _, None) day quiet))) =
  waits "flow:a" (pending quiet) + Z.of_nat (died (λ _, None) "flow:a" day).
Proof. apply (letters_all_told (λ _, None)). intros u a. cbn. by rewrite lookup_empty. Defined.

Example day_told : told "flow:a" (snd (turns (λ _, None) day quiet)) = 2.
Proof. vm_compute. reflexivity. Qed.
End Witness.
