(* ===== verification/Traces.v ===== *)
(** * Traces

    The last events each unit processed (core/src/main.rs): a ring of fifty a
    unit, numbered across units, and what of it goes out. *)

From stdpp Require Import base gmap list strings.
From Stdlib Require Import ZArith Lia Sorted.
From S2P Require Import Prelude Text F64 Json Concrete.
Open Scope string_scope.
Open Scope Z_scope.

Record Traces : Type := { rings : gmap string (list Value); trace_seq : Z }.

Definition opt_str (o : option string) : Value := match o with Some s => VString s | None => VNull end.

Section Traces.
Context {SD : Serde}.

(** core/src/main.rs:155-162 [record_trace_full] *)
Definition trace_entry (seq now : Z) (unit subject : string) (ok : bool) (error : option string)
  (emits : list string) (preview : string) (event : option Value) (response : option string) : Value :=
  obj [("seq", vint seq); ("ts", vint now); ("flow", VString unit); ("subject", VString subject);
       ("ok", VBool ok); ("error", opt_str error); ("emits", VArray (map VString emits));
       ("preview", VString preview); ("response", opt_str response);
       ("event", default VNull event)].

(** core/src/main.rs [record_trace_full] *)
Definition record_trace_full (now : Z) (unit subject : string) (ok : bool) (error : option string)
  (emits : list string) (preview : string) (event : option Value) (response : option string)
  (t : Traces) : Traces :=
  let seq := trace_seq t in
  let ring := default [] (rings t !! unit) in
  let ring := (ring ++ [trace_entry seq now unit subject ok error emits preview event response])%list in
  {| rings := <[unit := last_n 50 ring]> (rings t); trace_seq := wrap 64 (seq + 1) |}.

(** core/src/main.rs [record_trace] *)
Definition record_trace (now : Z) (unit subject : string) (ok : bool) (error : option string)
  (emits : list string) (preview : string) (event : option Value) : Traces → Traces :=
  record_trace_full now unit subject ok error emits preview event None.

(** core/src/main.rs [preview_of] *)
Definition preview_of (v : Value) : string :=
  let s := to_json v in
  if Nat.ltb 160 (count_chars s) then take_chars 159 s ++ String (Ascii.ascii_of_nat 226)
    (String (Ascii.ascii_of_nat 128) (String (Ascii.ascii_of_nat 166) "")) else s.

(** core/src/main.rs [trace_preview] *)
Definition trace_preview (entry : Value) : string :=
  match vget "preview" entry ≫= as_str with
  | Some p => if String.eqb p "" then default "" (option_map preview_of (vget "event" entry)) else p
  | None => default "" (option_map preview_of (vget "event" entry))
  end.

(** core/src/main.rs:175-187 [events_json] *)
Definition outgoing (e : Value) : Value :=
  match e with
  | VObject o =>
    let o := match vget "preview" e ≫= as_str with
             | Some p => if String.eqb p "" then
                           map_insert "preview" (VString (default "" (option_map preview_of (vget "event" e)))) o
                         else o
             | None => map_insert "preview" (VString (default "" (option_map preview_of (vget "event" e)))) o
             end in
    VObject (map_remove "event" o)
  | e => e
  end.

Definition seq_of (e : Value) : Z := default 0 (as_u64 (vindex e "seq")).

(** A stable sort, the latest first. *)
Fixpoint insert_seq (e : Value) (l : list Value) : list Value :=
  match l with
  | [] => [e]
  | x :: r => if seq_of e <? seq_of x then x :: insert_seq e r else e :: l
  end.
Definition sort_seq (l : list Value) : list Value := foldr insert_seq [] l.

(** core/src/main.rs [events_json] *)
Definition events_of (flow : option string) (t : Traces) : list Value :=
  let rs := match flow with
            | Some f => filter (λ ur, fst ur = f) (map_to_list (rings t))
            | None => map_to_list (rings t)
            end in
  let all := flat_map (λ ur, map outgoing (snd ur)) rs in
  take 100 (sort_seq all).
(** core/src/main.rs [events_json] *)
Definition events_json (flow : option string) (t : Traces) : string :=
  to_json (obj [("events", VArray (events_of flow t))]).

(** ** Bounds and privacy *)

(** Rings as they are kept: no more than fifty entries, each an object. *)
Definition traces_ok (t : Traces) : Prop :=
  ∀ u r, rings t !! u = Some r → (length r <= 50)%nat ∧ Forall (λ e, ∃ o, e = VObject o) r.

Lemma record_trace_ok now unit subject ok error emits preview event response t :
  traces_ok t → traces_ok (record_trace_full now unit subject ok error emits preview event response t).
Proof.
  intros Ht u r. cbn. intros [[<- <-]|[_ H]]%lookup_insert_Some; [|by eapply Ht].
  split; [rewrite last_n_length; lia|]. apply Forall_drop, Forall_app. split; [|by repeat econstructor].
  destruct (rings t !! unit) as [r|] eqn:E; [|constructor]. by apply (Ht unit r).
Qed.

Lemma insert_seq_perm e l : insert_seq e l ≡ₚ e :: l.
Proof.
  induction l as [|x l IH]; [done|]. cbn. destruct (seq_of e <? seq_of x); [|done].
  rewrite IH. constructor.
Qed.
Lemma sort_seq_perm l : sort_seq l ≡ₚ l.
Proof. induction l as [|x l IH]; [done|]. unfold sort_seq in *. cbn. by rewrite insert_seq_perm, IH. Qed.

Definition newest_first : list Value → Prop := StronglySorted (λ a b, seq_of b <= seq_of a).

Lemma insert_seq_sorted e l : newest_first l → newest_first (insert_seq e l).
Proof.
  induction 1 as [|x l Hs IH Hf]; cbn; [repeat constructor|].
  destruct (Z.ltb_spec (seq_of e) (seq_of x)).
  - constructor; [done|]. rewrite insert_seq_perm. constructor; [lia|done].
  - constructor; [by constructor|]. constructor; [lia|]. eapply Forall_impl; [exact Hf|]. cbn. lia.
Qed.
Lemma sort_seq_sorted l : newest_first (sort_seq l).
Proof. induction l; [constructor|]. by apply insert_seq_sorted. Qed.

Lemma sorted_take n l : newest_first l → newest_first (take n l).
Proof.
  intros H. revert n. induction H as [|x l Hs IH Hf]; intros [|n]; cbn; try constructor; [apply IH|].
  by apply Forall_take.
Qed.

Lemma outgoing_private o : vget "event" (outgoing (VObject o)) = None.
Proof. cbn [outgoing vget]. by rewrite map_get_remove. Qed.

(** What the events route shows: a hundred entries at most, the newest
    first, each a trace of one of the units asked for, without the event that
    was kept for replay. *)
Theorem events_private flow t : traces_ok t →
  (length (events_of flow t) <= 100)%nat ∧ newest_first (events_of flow t) ∧
  Forall (λ e, vget "event" e = None ∧
    ∃ u r e0, rings t !! u = Some r ∧ e0 ∈ r ∧ e = outgoing e0 ∧ (∀ f, flow = Some f → u = f))
    (events_of flow t).
Proof.
  intros Ht. unfold events_of. set (rs := match flow with Some _ => _ | None => _ end).
  assert (∀ u r, (u, r) ∈ rs → rings t !! u = Some r ∧ ∀ f, flow = Some f → u = f) as Hrs.
  { intros u r. unfold rs. destruct flow as [f|].
    - intros [Hf Hin]%list_elem_of_filter. apply elem_of_map_to_list in Hin. split; [done|].
      cbn in Hf. congruence.
    - intros Hin. by apply elem_of_map_to_list in Hin. }
  split; [rewrite length_take; lia|]. split; [apply sorted_take, sort_seq_sorted|].
  apply Forall_take. rewrite sort_seq_perm. apply Forall_forall. intros e He.
  apply list_elem_of_In, in_flat_map in He as ([u r] & Hin & He). apply list_elem_of_In in Hin.
  apply in_map_iff in He as (e0 & <- & He0). apply list_elem_of_In in He0. cbn in He0.
  destruct (Hrs u r Hin) as [Hr Hf]. destruct (Ht u r Hr) as [_ Ho].
  rewrite Forall_forall in Ho. destruct (Ho e0 He0) as [o ->]. split; [apply outgoing_private|].
  by exists u, r, (VObject o).
Qed.

End Traces.

(** ** Witness *)

Definition no_traces : Traces := {| rings := ∅; trace_seq := 0 |}.
Definition traced : Traces :=
  record_trace 8 "flow:b" "vx.in" true None ["vx.out"] "" (Some (obj [("n", vint 2)]))
    (record_trace 7 "flow:a" "vx.in" true None [] "" (Some (obj [("n", vint 1)])) no_traces).

Lemma no_traces_ok : traces_ok no_traces.
Proof. intros u r. cbn. by rewrite lookup_empty. Qed.

Lemma events_private_witness :
  (length (events_of None traced) <= 100)%nat ∧ newest_first (events_of None traced) ∧
  Forall (λ e, vget "event" e = None ∧
    ∃ u r e0, rings traced !! u = Some r ∧ e0 ∈ r ∧ e = outgoing e0 ∧ (∀ f, None = Some f → u = f))
    (events_of None traced).
Proof. apply (events_private None traced). by apply record_trace_ok, record_trace_ok, no_traces_ok. Defined.
