(* ===== verification/Flow.v ===== *)
(** * Consuming

    How a flow works through the messages of a pull round
    ([supervise_vjs] of core/src/main.rs): each is run, its emits held; a
    poison message is dead-lettered; at the end of the round one barrier
    confirms the emits, and only then are their source messages acknowledged.
    The counters of core/src/metrics.rs are left out, the clock is read once a
    round, and the texts of errors are a parameter. *)

From stdpp Require Import base gmap list strings.
From Stdlib Require Import ZArith Lia.
From S2P Require Import Prelude Text F64 Json Syntax Analysis Lexer Parser Secrets Eval Bus Dlq Traces.
Open Scope string_scope.
Open Scope Z_scope.

(** core/src/main.rs [MAX_DELIVERIES] *)
Definition MAX_DELIVERIES : Z := 5.

(** A dash between spaces, as UTF-8. *)
Definition dash : string :=
  " " ++ String (Ascii.ascii_of_nat 226) (String (Ascii.ascii_of_nat 128)
    (String (Ascii.ascii_of_nat 148) " ")).

(** Why a message failed. *)
Inductive failure : Type :=
| BadJson
| RunFailed (e : verr)
| PublishFailed (subject : string) (e : berr).

Section Flow.
Context {SD : Serde} {CT : CaseTables} {FL : FloatLib} {N : Type} {NET : Net N}.
(** The project, the environment, and the text of a failure on some data. *)
Context (files : string → option string) (env : string → option string)
  (text : failure → string → string).
(** The unit, its program and the version it runs; the round's clock, whether a
    thread can be spawned, and whether the unit may go on at a message. *)
Context (unit : string) (prog : Program) (version : string) (now : Z) (spawns : bool)
  (alive : nat → bool).

Record Round : Type := {
  link : Link N;
  engine : Engine;
  dlq : Dlq;
  traces : Traces;
  batch : Batch;
  to_ack : list Message
}.

Notation R := (sr Round string).

Definition set_link (l : Link N) (s : Round) : Round :=
  {| link := l; engine := engine s; dlq := dlq s; traces := traces s; batch := batch s;
     to_ack := to_ack s |}.
Definition set_engine (e : Engine) (s : Round) : Round :=
  {| link := link s; engine := e; dlq := dlq s; traces := traces s; batch := batch s;
     to_ack := to_ack s |}.
Definition set_dlq (d : Dlq) (l : Link N) (s : Round) : Round :=
  {| link := l; engine := engine s; dlq := d; traces := traces s; batch := batch s;
     to_ack := to_ack s |}.
Definition set_traces (t : Traces) (s : Round) : Round :=
  {| link := link s; engine := engine s; dlq := dlq s; traces := t; batch := batch s;
     to_ack := to_ack s |}.
Definition set_batch (b : Batch) (s : Round) : Round :=
  {| link := link s; engine := engine s; dlq := dlq s; traces := traces s; batch := b;
     to_ack := to_ack s |}.
Definition push_ack (m : Message) (s : Round) : Round :=
  {| link := link s; engine := engine s; dlq := dlq s; traces := traces s; batch := batch s;
     to_ack := (to_ack s ++ [m])%list |}.

(** [delivery().map(..).unwrap_or(1)] *)
Definition attempts (m : Message) : Z := match delivery m with Some d => delivered d | None => 1 end.

(** An answer whose failure is dropped. *)
Definition answer_quietly (payload : string) (m : Message) : R () :=
  sr_mod (λ s, set_link (snd (answer payload m (link s))) s).

Definition trace (m : Message) (ok : bool) (error : option string) (emits : list string)
  (preview : string) (event : option Value) : R () :=
  sr_mod (λ s, set_traces (record_trace now unit (subject m) ok error emits preview event (traces s)) s).

(** Park a message; the answer is why that failed, if it did. *)
Definition flow_dlq (m : Message) (err : string) : R (option string) := λ s,
  let '(r, d, n) := to_dlq env unit (subject m) (attempts m) err (data m) version now spawns (dlq s)
                      (client (link s)) in
  let s := set_dlq d (set_client n (link s)) s in
  match r with
  | Ok _ => (Ok None, s)
  | Err e => (Ok (Some e), s)
  | Panic => (Panic, s)
  | NoFuel => (NoFuel, s)
  end.

(** core/src/main.rs:1228-1252 [supervise_vjs] *)
Definition bad_json (m : Message) : R () :=
  let err := text BadJson (data m) in
  let prev := take_chars 160 (from_utf8_lossy (data m)) in
  failed ← flow_dlq m err;
  match failed with
  | None =>
    _ ← trace m false (Some (err ++ dash ++ "dead-lettered")) [] prev None;
    answer_quietly "" m
  | Some de =>
    _ ← trace m false (Some (err ++ dash ++ "DLQ publish failed: " ++ de)) [] prev None;
    answer_quietly "-NAK" m
  end.

(** core/src/main.rs:1260-1264 [supervise_vjs] *)
Fixpoint hold (emits : list emit) (b : Batch) (l : Link N) : res failure () * Batch :=
  match emits with
  | [] => (Ok (), b)
  | (subj, payload) :: emits =>
    match batch_publish subj (to_json payload) b l with
    | Ok b => hold emits b l
    | Err e => (Err (PublishFailed subj e), b)
    | Panic => (Panic, b)
    | NoFuel => (NoFuel, b)
    end
  end.

(** The run of a message, and its emits held: those before a refusal stay. *)
(** core/src/main.rs:1259-1266 [supervise_vjs] *)
Definition run_event (event : Value) : R (Ctx + failure) := λ s,
  let '(r, eng) := run files prog event (engine s) in
  let s := set_engine eng s in
  match r with
  | Ok ctx =>
    let '(h, b) := hold (emits ctx) (batch s) (link s) in
    let s := set_batch b s in
    match h with
    | Ok _ => (Ok (inl ctx), s)
    | Err e => (Ok (inr e), s)
    | Panic => (Panic, s)
    | NoFuel => (NoFuel, s)
    end
  | Err e => (Ok (inr (RunFailed e)), s)
  | Panic => (Panic, s)
  | NoFuel => (NoFuel, s)
  end.

(** core/src/main.rs:1254-1334 [supervise_vjs] *)
Definition good_json (m : Message) (event : Value) : R () :=
  outcome ← run_event event;
  match outcome with
  | inl ctx =>
    _ ← trace m true None (map fst (emits ctx)) "" (Some event);
    sr_mod (push_ack m)
  | inr e =>
    let err := text e (data m) in
    if MAX_DELIVERIES <=? attempts m then
      failed ← flow_dlq m err;
      match failed with
      | None =>
        _ ← trace m false (Some (err ++ dash ++ "dead-lettered after " ++ dec_of_Z (attempts m) ++
                                 " deliveries")) [] "" (Some event);
        answer_quietly "" m
      | Some de =>
        _ ← trace m false (Some (err ++ dash ++ "DLQ publish failed: " ++ de)) [] "" (Some event);
        answer_quietly "-NAK" m
      end
    else trace m false (Some err) [] "" (Some event)
  end.

(** core/src/main.rs:1226-1334 [supervise_vjs] *)
Definition process (m : Message) : R () :=
  match from_json (data m) with
  | None => bad_json m
  | Some event => good_json m event
  end.

(** The messages of a round, until the unit is told to stop. *)
(** core/src/main.rs:1218-1335 [supervise_vjs] *)
Fixpoint messages (i : nat) (ms : list Message) : R bool :=
  match ms with
  | [] => mret true
  | m :: ms =>
    if alive i then _ ← process m; messages (S i) ms else mret false
  end.

(** core/src/main.rs:1341-1352 [supervise_vjs] *)
Definition finish : R () := λ s,
  let '(r, b, l) := confirm (batch s) (link s) in
  let s := set_batch b (set_link l s) in
  match r with
  | Ok _ => (Ok (), set_link (snd (ack_all (to_ack s) (link s))) s)
  | _ => (Ok (), s)
  end.

(** One turn of the loop: [true] when the loop goes on. *)
(** core/src/main.rs:1201-1361 [supervise_vjs] *)
Definition round (ms : list Message) : R bool :=
  if negb (alive 0) then mret false
  else
    _ ← sr_mod (λ s, {| link := link s; engine := invalidate (engine s); dlq := dlq s;
                        traces := traces s; batch := batch s; to_ack := [] |});
    go ← messages 1 ms;
    if (go : bool) then _ ← finish; mret true else mret false.
End Flow.
Arguments Round N : clear implicits.
