(* ===== verification/FlowProps.v ===== *)
(** * Consuming: nothing is acknowledged too early

    At least once: whatever happens in a round, a message is acknowledged only
    after its dead letter was stored, or after the server read everything its
    run emitted. *)

From stdpp Require Import base gmap list strings.
From Stdlib Require Import ZArith Lia.
From S2P Require Import Prelude Triples Text F64 Json Syntax Analysis Lexer Parser Secrets Eval Bus Dlq Traces Flow Concrete.
Open Scope string_scope.
Open Scope Z_scope.

Section Props.
Context {SD : Serde} {SO : SerdeOk} {CT : CaseTables} {FL : FloatLib} {N : Type} {NET : Net N}
  {NL : NetLaws N}.
Context (files env : string → option string) (text : failure → string → string).
Context (unit : string) (prog : Program) (version : string) (now : Z) (spawns : bool)
  (alive : nat → bool).
Notation Round := (Round N).
Notation out s := (client (link s)).

Lemma store_later s p (n : N) : later n (snd (net_store s p n)) ∧
  taken (snd (net_store s p n)) = taken n ∧
  (is_ok (fst (net_store s p n)) = true → (s, p) ∈ stored (snd (net_store s p n))).
Proof.
  pose proof (store_law s p n) as H. destruct (net_store s p n) as [r n']. cbn in *.
  destruct H as (He & Hr & Ht & Hs). split; [|split; [done|]].
  - split; [done|]. split; [done|]. destruct r; [rewrite Hs| | |]; try destruct Hs as [-> | ->]; try done;
      intros m Hm; apply elem_of_app; by left.
  - destruct r; try done. intros _. rewrite Hs. apply elem_of_app. right. by apply list_elem_of_singleton.
Qed.

Lemma publish_all_later evs : ∀ n : N,
  later n (publish_all env evs n) ∧ taken (publish_all env evs n) = taken n.
Proof.
  induction evs as [|e evs IH]; intros n; cbn; [split; [reflexivity|done]|].
  destruct (store_later (dlq_events_subject env) (to_json e) n) as (Hl & Ht & _).
  destruct (IH (publish_dlq_event env e n)) as [Hl2 Ht2]. split; [by etransitivity|].
  etransitivity; [exact Ht2|exact Ht].
Qed.

(** The dead letter of a message is stored. *)
Definition dead (m : Message) (n : N) : Prop :=
  ∃ err, (DLQ_ROOT ++ "." ++ dlq_unit_token unit,
          to_json (envelope unit (subject m) (attempts m) err (data m) version now)) ∈ stored n.

(** A run of a message that ended well, with its emits among some publishes. *)
Definition ran (m : Message) (pubs : pub → Prop) : Prop :=
  ∃ ev c eng eng', from_json (data m) = Some ev ∧ run files prog ev eng = (Ok c, eng') ∧
    ∀ em, em ∈ emits c → pubs (fst em, to_json (snd em)).

Lemma dead_later m n n' : later n n' → dead m n → dead m n'.
Proof. intros (_ & _ & Hs) [err H]. exists err. by apply Hs. Qed.

Lemma ran_mono m (P Q : pub → Prop) : (∀ x, P x → Q x) → ran m P → ran m Q.
Proof. intros H (ev & c & e & e' & ? & ? & Hem). exists ev, c, e, e'. eauto. Qed.

(** The messages of the round answer elsewhere than on the link's own subject,
    and the flow publishes nothing there. *)
Section Round.
Context (ms : list Message) (s0 : Round).
Hypothesis replies_elsewhere : ∀ m, m ∈ ms → reply m ≠ Some (echo (link s0)).
Hypothesis emits_elsewhere : ∀ ev eng c eng' em,
  run files prog ev eng = (Ok c, eng') → em ∈ emits c → fst em ≠ echo (link s0).

(** What left so far: an empty payload is the ack of a dead letter. *)
Definition sent_ok (n : N) (x : Z * pub) : Prop :=
  fst (snd x) ≠ echo (link s0) ∧
  (snd (snd x) = "" → ∃ m, m ∈ ms ∧ reply m = Some (fst (snd x)) ∧ dead m n).

Definition Inv (s : Round) : Prop :=
  link_ok (link s) ∧ echo (link s) = echo (link s0) ∧ next_id (link s) = next_id (link s0) ∧
  (∃ t, taken (out s) = (taken (out s0) ++ t)%list ∧ Forall (sent_ok (out s)) t) ∧
  Forall (λ p, fst p ≠ echo (link s0) ∧ snd p ≠ "") (held (batch s)) ∧
  Forall (λ m, m ∈ ms ∧ ran m (λ p, p ∈ held (batch s))) (to_ack s).

Lemma sent_ok_later n n' x : later n n' → sent_ok n x → sent_ok n' x.
Proof.
  intros Hl [He Hs]. split; [done|]. intros H. destruct (Hs H) as (m & ? & ? & ?).
  exists m. split; [done|]. split; [done|]. by eapply dead_later.
Qed.

(** Moving along the connection, sending only what is accounted for. *)
Lemma inv_sends s l t :
  Inv s → later (out s) (client l) → echo l = echo (link s) → next_id l = next_id (link s) →
  taken (client l) = (taken (out s) ++ t)%list → Forall (sent_ok (client l)) t →
  Inv (set_link l s).
Proof.
  intros (Hok & He & Hn & (t0 & Ht0 & Hf0) & Hh & Ha) Hl He' Hn' Ht Hf.
  assert (link_ok l) as Hok'.
  { destruct Hok as [Hid Hfr]. split; [lia|]. rewrite He', Hn', Ht.
    intros e p [Hin|Hin]%elem_of_app Hp; [by eapply Hfr|].
    rewrite Forall_forall in Hf. destruct (Hf _ Hin) as [Hne _]. cbn in Hne. congruence. }
  split; [done|]. split; [cbn; congruence|]. split; [cbn; congruence|].
  split; [|done]. exists (t0 ++ t)%list. cbn. rewrite Ht, Ht0, app_assoc. split; [done|].
  apply Forall_app. split; [|done]. eapply Forall_impl; [exact Hf0|]. intros x.
  by apply sent_ok_later.
Qed.

Notation T := (triple Inv).

Lemma trace_triple (P : Round → Prop) m ok err em pv ev :
  (∀ s, P s → Inv s) → (∀ s t, P s → P (set_traces t s)) →
  T P (trace unit now m ok err em pv ev) (λ _, P).
Proof.
  intros HI HP. apply triple_mod. intros s Hs.
  assert (P (set_traces (record_trace now unit (subject m) ok err em pv ev (traces s)) s)) by auto.
  split; [by apply HI|done].
Qed.

Lemma dlq_triple m err :
  T Inv (flow_dlq env unit version now spawns m err)
    (λ r s, Inv s ∧ (r = None → dead m (out s))).
Proof.
  intros s Hs. unfold flow_dlq, to_dlq.
  pose proof (store_later (DLQ_ROOT ++ "." ++ dlq_unit_token unit)
    (to_json (envelope unit (subject m) (attempts m) err (data m) version now)) (out s)) as (Hl & Ht & Hd).
  destruct (net_store _ _ _) as [r n]. cbn in Hl, Ht, Hd.
  assert (∀ d n', later n n' → taken n' = taken n → Inv (set_dlq d (set_client n' (link s)) s)) as HI.
  { intros d n' Hl' Ht'.
    refine (inv_sends s (set_client n' (link s)) [] Hs _ eq_refl eq_refl _ _); cbn;
      [by etransitivity|by rewrite Ht', Ht, app_nil_r|done]. }
  destruct r as [z|e| |]; cbn [fst snd].
  - destruct (announce_dead_letter _ _ _ _ _ _ _ _) as [d due].
    destruct (publish_all_later due n) as [Hl2 Ht2].
    split; [by apply HI|]. split; [by apply HI|]. intros _. exists err. cbn. apply Hl2. by apply Hd.
  - split; [apply HI; [reflexivity|done]|]. split; [apply HI; [reflexivity|done]|done].
  - split; [apply HI; [reflexivity|done]|done].
  - split; [apply HI; [reflexivity|done]|done].
Qed.

Lemma answer_triple payload m : m ∈ ms →
  T (λ s, Inv s ∧ (payload = "" → dead m (out s))) (answer_quietly payload m) (λ _, Inv).
Proof.
  intros Hm. apply triple_mod. intros s [Hs Hd].
  destruct (answer_taken payload m (link s)) as (Hl & He & Hn & t & Ht & Hf).
  assert (Inv (set_link (snd (answer payload m (link s))) s)) as HI; [|done].
  eapply inv_sends; [done|done|done|done|exact Ht|]. eapply Forall_impl; [exact Hf|].
  intros [e [rp p]] [Hr Hp]. cbn in Hr, Hp. subst p. split; cbn.
  - intros ->. by apply (replies_elsewhere m Hm).
  - intros ->. exists m. split; [done|]. split; [done|]. eapply dead_later; [exact Hl|]. auto.
Qed.

Lemma hold_spec ems l : ∀ b,
  Forall (λ p, fst p ≠ echo (link s0) ∧ snd p ≠ "") (held b) →
  (∀ em, em ∈ ems → fst em ≠ echo (link s0)) →
  Forall (λ p, fst p ≠ echo (link s0) ∧ snd p ≠ "") (held (snd (hold ems b l))) ∧
  (∀ p, p ∈ held b → p ∈ held (snd (hold ems b l))) ∧
  (is_ok (fst (hold ems b l)) = true →
   ∀ em, em ∈ ems → (fst em, to_json (snd em)) ∈ held (snd (hold ems b l))).
Proof.
  induction ems as [|[s v] ems IH]; intros b Hb He; cbn.
  { split; [done|]. split; [done|]. by intros _ em ?%elem_of_nil. }
  unfold batch_publish. destruct (_ || _); cbn; [done|]. destruct (_ <? _); cbn; [done|].
  set (b' := {| held := (held b ++ [(s, to_json v)])%list |}).
  destruct (IH b') as (H1 & H2 & H3).
  - apply Forall_app. split; [done|]. constructor; [|done]. split; [|apply serde_nonempty].
    apply (He (s, v)). by left.
  - intros em Hem. apply He. by right.
  - split; [done|]. split; [intros p Hp; apply H2, elem_of_app; by left|].
    intros Hok em [->|Hem]%elem_of_cons; [|by apply H3].
    apply H2, elem_of_app. right. by apply list_elem_of_singleton.
Qed.

Lemma run_triple m ev : from_json (data m) = Some ev →
  T Inv (run_event files prog ev)
    (λ o s, Inv s ∧ ∀ c, o = inl c → ran m (λ p, p ∈ held (batch s))).
Proof.
  intros Hev s (Hok & He & Hn & Ht & Hh & Ha). unfold run_event.
  destruct (run files prog ev (engine s)) as [r eng] eqn:Hr.
  destruct r as [c|e| |]; try (split; [|split]; done).
  pose proof (hold_spec (emits c) (link (set_engine eng s)) (batch (set_engine eng s)) Hh) as Hs.
  destruct Hs as (H1 & H2 & H3); [intros em Hem; by eapply emits_elsewhere|].
  destruct (hold _ _ _) as [h b]. cbn in H1, H2, H3.
  assert (Inv (set_batch b (set_engine eng s))) as HI.
  { do 4 (split; [done|]). split; [done|]. eapply Forall_impl; [exact Ha|]. intros m' [Hm' Hran].
    split; [done|]. eapply ran_mono; [|exact Hran]. exact H2. }
  destruct h as [u|e| |]; cbn [snd]; split; try done; split; try done.
  intros c' [= <-]. exists ev, c, (engine s), eng. auto.
Qed.

Lemma process_triple m : m ∈ ms →
  T Inv (process files env text unit prog version now spawns m) (λ _, Inv).
Proof.
  intros Hm.
  assert (∀ err f ev pv, T Inv
    (failed ← flow_dlq env unit version now spawns m err;
     match failed with
     | None => _ ← trace unit now m false (Some (f (@None string))) [] pv ev; answer_quietly "" m
     | Some de => _ ← trace unit now m false (Some (f (Some de))) [] pv ev; answer_quietly "-NAK" m
     end) (λ _, Inv)) as Hdead.
  { intros err f ev pv. eapply triple_bind; [apply dlq_triple|]. intros [de|]; cbn.
    - eapply triple_bind; [apply trace_triple|intros []; eapply triple_weaken; [by apply answer_triple|..]];
        cbn; naive_solver.
    - eapply triple_bind; [apply trace_triple|intros []; eapply triple_weaken; [by apply answer_triple|..]];
        cbn; naive_solver. }
  unfold process. destruct (from_json (data m)) as [ev|] eqn:Hev.
  - unfold good_json. eapply triple_bind; [by apply run_triple|]. intros [c|e]; cbn.
    + eapply triple_bind; [apply trace_triple|]; cbn.
      * naive_solver.
      * naive_solver.
      * intros []. apply triple_mod. intros s [(Hok & He & Hn & Ht & Hh & Ha) Hc].
        assert (Inv (push_ack m s)) as HI; [|done]. do 5 (split; [done|]).
        apply Forall_app. split; [done|]. repeat constructor; [done|]. by apply (Hc c).
    + destruct (_ <=? _).
      * eapply triple_weaken; [apply (Hdead _ (λ o, match o with
          | None => text e (data m) ++ dash ++ "dead-lettered after " ++ dec_of_Z (attempts m) ++ " deliveries"
          | Some de => text e (data m) ++ dash ++ "DLQ publish failed: " ++ de end))|..]; cbn; naive_solver.
      * eapply triple_weaken; [apply (trace_triple Inv)|..]; cbn; naive_solver.
  - apply (Hdead _ (λ o, match o with
      | None => text BadJson (data m) ++ dash ++ "dead-lettered"
      | Some de => text BadJson (data m) ++ dash ++ "DLQ publish failed: " ++ de end)).
Qed.

Lemma messages_triple l : ∀ i, (∀ m, m ∈ l → m ∈ ms) →
  T Inv (messages files env text unit prog version now spawns alive i l) (λ _, Inv).
Proof.
  induction l as [|m l IH]; intros i Hl; cbn [messages].
  - by apply triple_ret.
  - destruct (alive i); [|by apply triple_ret].
    eapply triple_bind; [apply process_triple, Hl; by left|]. intros [].
    apply IH. intros m' Hm'. apply Hl. by right.
Qed.

(** Every acknowledgement sent since the start is earned. *)
Definition earned (n : N) (x : Z * pub) : Prop :=
  snd (snd x) = "" → ∃ m, m ∈ ms ∧ reply m = Some (fst (snd x)) ∧
    (dead m n ∨ ran m (λ p, p ∈ read n)).
Definition all_earned (s : Round) : Prop :=
  ∃ t, taken (out s) = (taken (out s0) ++ t)%list ∧ Forall (earned (out s)) t.

Lemma inv_earned s : Inv s → all_earned s.
Proof.
  intros (_ & _ & _ & (t & Ht & Hf) & _). exists t. split; [done|].
  eapply Forall_impl; [exact Hf|]. intros x [_ Hs] Hx. destruct (Hs Hx) as (m & ? & ? & ?).
  exists m. auto.
Qed.

Lemma earned_later n n' x : later n n' → earned n x → earned n' x.
Proof.
  intros Hl He Hx. destruct (He Hx) as (m & Hm & Hr & Hd). exists m. split; [done|]. split; [done|].
  destruct Hd as [Hd|Hd]; [left; by eapply dead_later|right].
  eapply ran_mono; [|exact Hd]. intros p. apply Hl.
Qed.

Lemma finish_earned s : next_id (link s0) < 2 ^ 64 - 2 → Inv s → all_earned (snd (finish s)).
Proof.
  intros Hid (Hok & He & Hn & (t & Ht & Hf) & Hh & Ha). unfold finish.
  pose proof (confirm_taken (batch s) (link s)) as (t1 & Ht1 & Hf1).
  pose proof (confirm_later (batch s) (link s)) as Hl1.
  destruct (confirm (batch s) (link s)) as [[r b] l] eqn:Hc. cbn [snd] in *.
  assert (Forall (earned (client l)) (t ++ t1)) as Hf'.
  { apply Forall_app. split.
    - eapply Forall_impl; [exact Hf|]. intros x [_ Hs] Hx. destruct (Hs Hx) as (m & ? & ? & ?).
      exists m. split; [done|]. split; [done|]. left. by eapply dead_later.
    - eapply Forall_impl; [exact Hf1|]. intros [e [rp p]] Hx Hp. cbn in *. subst p.
      destruct Hx as [Hx|Hx]; [|done]. rewrite Forall_forall in Hh. by destruct (Hh _ Hx). }
  assert (all_earned (set_batch b (set_link l s))) as Hfail.
  { exists (t ++ t1)%list. cbn. rewrite Ht1, Ht, app_assoc. done. }
  destruct r as [u|x| |]; try exact Hfail. cbn [set_batch set_link link to_ack].
  destruct (confirm_Ok (batch s) (link s) u b l Hok ltac:(lia)) as (_ & Hread & _); [|done|].
  { rewrite He. eapply Forall_impl; [exact Hh|]. by intros x [? _]. }
  destruct (ack_all_taken (to_ack s) l) as (Hl2 & _ & _ & t2 & Ht2 & Hf2).
  exists ((t ++ t1) ++ t2)%list. cbn. rewrite Ht2, Ht1, Ht, !app_assoc. split; [done|].
  apply Forall_app. split; [eapply Forall_impl; [exact Hf'|]; intros x; by apply earned_later|].
  eapply Forall_impl; [exact Hf2|]. intros x (m & Hm & Hr) _. rewrite Forall_forall in Ha.
  destruct (Ha m Hm) as [Hin Hran]. exists m. split; [done|]. split; [done|]. right.
  eapply ran_mono; [|exact Hran]. intros p Hp. apply Hl2. by apply Hread.
Qed.
End Round.

(** A round that starts with nothing held earns what it acknowledges. *)
Lemma round_earned ms (s : Round) r s' :
  link_ok (link s) → next_id (link s) < 2 ^ 64 - 2 → held (batch s) = [] →
  (∀ m, m ∈ ms → reply m ≠ Some (echo (link s))) →
  (∀ ev eng c eng' em, run files prog ev eng = (Ok c, eng') → em ∈ emits c → fst em ≠ echo (link s)) →
  round files env text unit prog version now spawns alive ms s = (r, s') → all_earned ms s s'.
Proof.
  intros Hok Hid Hb Hre Hem H. unfold round in H. destruct (alive 0); cbn [negb] in H.
  2: { injection H as _ <-. exists []. by rewrite app_nil_r. }
  set (s1 := {| link := link s; engine := invalidate (engine s); dlq := dlq s;
                traces := traces s; batch := batch s; to_ack := [] |}).
  assert (Inv ms s s1) as HI.
  { split; [done|]. do 2 (split; [done|]). split; [exists []; by rewrite app_nil_r|]. cbn. by rewrite Hb. }
  pose proof (messages_triple ms s Hre Hem ms 1 ltac:(auto) s1 HI) as [HI2 Hq].
  unfold mbind, sr_bind, sr_mod in H. cbn beta iota in H. fold s1 in H.
  destruct (messages _ _ _ _ _ _ _ _ _ _ _ s1) as [r2 s2].
  destruct r2 as [[]|e| |]; try (injection H as <- <-; by apply inv_earned).
  assert (all_earned ms s (snd (finish s2))) as Hfin by (eapply finish_earned; eauto).
  unfold finish in *. destruct (confirm (batch s2) (link s2)) as [[[u|x| |] b] l];
    injection H as <- <-; exact Hfin.
Qed.

(** C1: at least once: whatever happens in a round (a failing run, a panic, a
    stop, a bus that fails anywhere), a message whose acknowledgement was sent
    is one whose dead letter is stored, or whose run ended well and whose every
    emit the server has read. *)
Theorem acked_after_effect ms (s : Round) r s' :
  link_ok (link s) → next_id (link s) < 2 ^ 64 - 2 → held (batch s) = [] →
  (∀ m, m ∈ ms → reply m ≠ Some (echo (link s))) →
  (∀ ev eng c eng' em, run files prog ev eng = (Ok c, eng') → em ∈ emits c → fst em ≠ echo (link s)) →
  round files env text unit prog version now spawns alive ms s = (r, s') →
  ∃ t, taken (out s') = (taken (out s) ++ t)%list ∧
    ∀ e rp, (e, (rp, "")) ∈ t → ∃ m, m ∈ ms ∧ reply m = Some rp ∧
      (dead m (out s') ∨ ran m (λ p, p ∈ read (out s'))).
Proof.
  intros Hok Hid Hb Hre Hem H. destruct (round_earned ms s r s' Hok Hid Hb Hre Hem H) as (t & Ht & Hf).
  exists t. split; [done|]. intros e rp Hin. rewrite Forall_forall in Hf. by apply (Hf _ Hin).
Qed.
(** What is held stays held. *)
Lemma hold_keeps ems (l : Link N) : ∀ b p, p ∈ held b → p ∈ held (snd (hold ems b l)).
Proof.
  induction ems as [|[s v] ems IH]; intros b p Hp; cbn; [done|].
  unfold batch_publish. destruct (_ || _); cbn; [done|]. destruct (_ <? _); cbn; [done|].
  apply IH. cbn. apply elem_of_app. by left.
Qed.

(** A run that fails on a later emit leaves its earlier ones in the batch:
    they go out with it, although the message is not acknowledged and its next
    delivery emits them again. *)
Theorem failed_run_emits_leave m ev (s : Round) c eng subj v ems e :
  from_json (data m) = Some ev → run files prog ev (engine s) = (Ok c, eng) →
  emits c = (subj, v) :: ems →
  fst (hold ((subj, v) :: ems) (batch s) (link s)) = Err e →
  is_ok (batch_publish subj (to_json v) (batch s) (link s)) = true → attempts m < MAX_DELIVERIES →
  let s' := snd (process files env text unit prog version now spawns m s) in
  to_ack s' = to_ack s ∧ (subj, to_json v) ∈ held (batch s').
Proof.
  intros Hev Hr Hem Hh Hb Ha. cbv zeta. unfold process. rewrite Hev. unfold good_json, mbind, sr_bind.
  unfold run_event. rewrite Hr. cbn [set_engine batch link]. rewrite Hem.
  destruct (hold ((subj, v) :: ems) (batch s) (link s)) as [h b] eqn:Eh. cbn in Hh. subst h.
  destruct (Z.leb_spec MAX_DELIVERIES (attempts m)); [lia|]. cbn. split; [done|].
  cbn [hold] in Eh. unfold batch_publish in Eh, Hb. destruct (_ || _) in Eh, Hb; [done|].
  cbv zeta in Eh, Hb. destruct (_ <? _) in Eh, Hb; [done|].
  pose proof (hold_keeps ems (link s) {| held := (held (batch s) ++ [(subj, to_json v)])%list |}
    (subj, to_json v)) as Hk. rewrite Eh in Hk. apply Hk. cbn. apply elem_of_app. right.
  by apply list_elem_of_singleton.
Qed.
End Props.

(** ** Witness *)

Section Witness.
Definition no_files (_ : string) : option string := None.
Definition no_env (_ : string) : option string := None.
Definition some_text (_ : failure) (_ : string) : string := "failed".
Definition go (_ : nat) : bool := true.
Definition flow_prog (src : string) : Program :=
  match parse src with Ok p => p | _ => Parser.finish heading0 end.
Definition out_prog : Program := flow_prog (script "source 'vx.in'|emit 'vx.out', {n: 1}|").

Lemma out_runs ev eng :
  match run no_files out_prog ev eng with
  | (Ok c, _) => emits c = [("vx.out", obj [("n", vint 1)])]
  | _ => False
  end.
Proof. vm_compute. reflexivity. Qed.

Definition flow_start : Round SimNet :=
  {| link := sim_link; engine := live {| ss_kind := "echo"; ss_get r := Ok r |} "root" "default";
     dlq := quiet; traces := no_traces; batch := {| held := [] |}; to_ack := [] |}.
Definition good_message : Message :=
  {| subject := "vx.in"; data := to_json (obj [("a", vint 1)]);
     reply := Some "$JS.ACK.V.f.1.1.1.1.0" |}.
Definition poison : Message :=
  {| subject := "vx.in"; data := "not json"; reply := Some "$JS.ACK.V.f.1.2.2.1.0" |}.
Definition one_round : res string bool * Round SimNet :=
  round no_files no_env some_text "flow:f" out_prog "v1" 7 true go [good_message; poison] flow_start.

Lemma one_round_eq :
  round no_files no_env some_text "flow:f" out_prog "v1" 7 true go [good_message; poison] flow_start =
  (fst one_round, snd one_round).
Proof. unfold one_round. by destruct (round _ _ _ _ _ _ _ _ _ _ _). Qed.

Lemma acked_after_effect_witness :
  ∃ t, taken (client (link (snd one_round))) = (taken (client (link flow_start)) ++ t)%list ∧
    ∀ e rp, (e, (rp, "")) ∈ t → ∃ m, m ∈ [good_message; poison] ∧ reply m = Some rp ∧
      (dead "flow:f" "v1" 7 m (client (link (snd one_round))) ∨
       ran no_files out_prog m (λ p, p ∈ read (client (link (snd one_round))))).
Proof.
  apply (acked_after_effect no_files no_env some_text "flow:f" out_prog "v1" 7 true go
    [good_message; poison] flow_start (fst one_round)).
  - exact sim_link_ok.
  - by vm_compute.
  - done.
  - intros m [-> | [-> | []%elem_of_nil]%elem_of_cons]%elem_of_cons; done.
  - intros ev eng c eng' em Hr Hin. pose proof (out_runs ev eng) as H. rewrite Hr in H. rewrite H in Hin.
    by apply list_elem_of_singleton in Hin as ->.
  - exact one_round_eq.
Defined.

(** Both were acknowledged: the one after its emit, the other dead. *)
Example one_round_acks :
  map (λ x, fst (snd x)) (taken (client (link (snd one_round)))) =
  ["$JS.ACK.V.f.1.2.2.1.0"; "vx.out"; "_INBOX.e"; "$JS.ACK.V.f.1.1.1.1.0"].
Proof. vm_compute. reflexivity. Qed.


(** A bus that takes small payloads only: the second emit is refused. *)
Definition small_link : Link SimNet :=
  {| client := {| sim_taken := []; sim_stored := []; sim_inbox := []; sim_limit := 12 |};
     echo := "_INBOX.e"; next_id := 0; waiting := [] |}.
Definition two_prog : Program :=
  flow_prog (script "source 'vx.in'|emit 'vx.out', 1|emit 'vx.big', {a: {b: {c: {d: 'long'}}}}|").
Definition small_start : Round SimNet := set_link small_link flow_start.
Definition two_ctx : Ctx :=
  match fst (run no_files two_prog (obj [("a", vint 1)]) (engine small_start)) with
  | Ok c => c
  | _ => event_ctx VNull
  end.

Lemma failed_run_emits_leave_witness :
  let s' := snd (process no_files no_env some_text "flow:f" two_prog "v1" 7 true good_message small_start) in
  to_ack s' = to_ack small_start ∧ ("vx.out", to_json (vint 1)) ∈ held (batch s').
Proof.
  apply (failed_run_emits_leave no_files no_env some_text "flow:f" two_prog "v1" 7 true good_message
    (obj [("a", vint 1)]) small_start two_ctx
    (snd (run no_files two_prog (obj [("a", vint 1)]) (engine small_start)))
    "vx.out" (vint 1) [("vx.big", obj [("a", obj [("b", obj [("c", obj [("d", VString "long")])])])])]
    (PublishFailed "vx.big" (OverLimit
      (Z.of_nat (slen (to_json (obj [("a", obj [("b", obj [("c", obj [("d", VString "long")])])])])))) 12))).
  - by vm_compute.
  - by vm_compute.
  - by vm_compute.
  - by vm_compute.
  - by vm_compute.
  - by vm_compute.
Defined.
End Witness.
