(* ===== verification/Connect.v ===== *)
(** * Connectors: configuration and helpers

    What the connector drivers share (core/src/connectors.rs): the manifest's
    values as a configuration, the catalogue of drivers, subjects, bounded
    slots, URLs, dates, and the snapshots of detect units as they are stored. *)

From stdpp Require Import base gmap list strings.
From Stdlib Require Import ZArith Lia Ascii.
From S2P Require Import Prelude Text F64 Json Dlq Concrete.
Open Scope string_scope.
Open Scope Z_scope.

(** ** Configuration *)

(** core/src/connectors.rs:~33 [Config] *)
Notation Config := (smap Value).

Section Config.
Context {SD : Serde}.
Implicit Types c : Config.

(** core/src/connectors.rs:36-38 [Config::str] *)
Definition cfg_str c (key : string) : option string := map_get key c ≫= as_str.
(** core/src/connectors.rs:39-41 [Config::str_or] *)
Definition cfg_str_or c (key dflt : string) : string := default dflt (cfg_str c key).
(** core/src/connectors.rs:42-44 [Config::u64_or] *)
Definition cfg_u64_or c (key : string) (dflt : Z) : Z := default dflt (map_get key c ≫= as_u64).
(** core/src/connectors.rs:45-47 [Config::value] *)
Definition cfg_value c (key : string) : option Value := map_get key c.
Definition cfg_bool c (key : string) : bool := default false (map_get key c ≫= as_bool).

(** core/src/connectors.rs:51-61 [Config::headers] *)
Definition cfg_headers c : list (string * string) :=
  match map_get "HEADERS" c ≫= as_object with
  | Some o => omap (λ kv, s ← as_str (snd kv); Some (fst kv, s)) o
  | None => []
  end.

(** core/src/connectors.rs:66-79 [Config::env_vars] *)
Definition cfg_env_vars c : list (string * string) :=
  match map_get "ENV" c ≫= as_object with
  | Some o => map (λ kv, (fst kv, match snd kv with VString s => s | v => to_json v end)) o
  | None => []
  end.
End Config.

(** Which of a manifest's variables are the driver's configuration. *)
(** core/src/main.rs:1958-1966 [supervise_connector] *)
Definition config_key (k : string) : bool :=
  negb (String.eqb k "event")
  && all_chars (λ c, is_ascii_uppercase c || (c =? 95)%N || is_ascii_digit c) k
  && any_char is_ascii_uppercase k.

(** core/src/main.rs:1958-1966 [supervise_connector] *)
Definition config_of (vars : smap Value) : Config :=
  map_extend [] (filter (λ kv, config_key (fst kv) = true) vars).

(** core/src/connectors.rs:105-111 [Ctx::subject] *)
Definition full_subject (subj_root raw : string) : string :=
  if starts_with raw (subj_root ++ ".") then raw else subj_root ++ "." ++ raw.

(** ** Drivers *)

(** The drivers the binary has. *)
Inductive Driver : Type :=
| HttpIn | Timer | HttpPoll | OAuthPoll | SlackOut | HttpOut
| ExecSource | ExecSink | ExecStreamSource | ExecRpc | MqttIn | MqttOut.

(** core/src/connectors.rs [driver_for] *)
Definition driver_for (name : string) : option Driver :=
  match name with
  | "http-in" => Some HttpIn
  | "timer" => Some Timer
  | "http-poll" => Some HttpPoll
  | "oauth-poll" => Some OAuthPoll
  | "slack-out" => Some SlackOut
  | "http-out" => Some HttpOut
  | "exec-source" => Some ExecSource
  | "exec-sink" => Some ExecSink
  | "exec-stream-source" => Some ExecStreamSource
  | "exec-rpc" => Some ExecRpc
  | "mqtt-in" => Some MqttIn
  | "mqtt-out" => Some MqttOut
  | _ => None
  end.

(** [Driver::kind] of each. *)
Definition driver_kind (d : Driver) : string :=
  match d with
  | HttpIn => "source:webhook"
  | Timer => "source:interval"
  | HttpPoll | OAuthPoll => "source:poll"
  | SlackOut | HttpOut => "sink"
  | ExecSource => "source:exec"
  | ExecSink => "sink:exec"
  | ExecStreamSource => "source:stream"
  | ExecRpc => "rpc:exec"
  | MqttIn => "source:mqtt"
  | MqttOut => "sink:mqtt"
  end.

(** The descriptions of the catalogue. *)
(** core/src/connectors.rs:184-186 [HttpIn::about] *)
Definition about_HttpIn : string := "HTTP webhook: POST /ingest/<suffix> publishes the JSON body on vx.<suffix>. Config: PORT, MAX_CONNECTIONS (default 512, past it a 503), ALLOW (optional list of permitted subject suffixes/prefixes — this port is unauthenticated, so restrict it to your ingest subjects; without ALLOW any vx.* subject is reachable).".
(** core/src/connectors.rs:472-474 [Timer::about] *)
Definition about_Timer : string := "Emits PAYLOAD on SUBJECT every INTERVAL_SECS; an object payload gains a ts field (ISO 8601 UTC) when absent. Config: SUBJECT, INTERVAL_SECS, PAYLOAD.".
(** core/src/connectors.rs:508-510 [HttpPoll::about] *)
Definition about_HttpPoll : string := quoted "GETs a URL every INTERVAL_SECS and publishes the JSON body. Config: URL, SUBJECT, INTERVAL_SECS, HEADERS (optional doc, e.g. {~Authorization~: …}), ENVELOPE (optional bool: when true, publish {endpoint, fetched_at, body} like oauth-poll so a stateless flow gets a collected_at — the language has no clock).".
(** core/src/connectors.rs:792-794 [OAuthPoll::about] *)
Definition about_OAuthPoll : string := quoted "OAuth2 client-credentials REST poller: takes a token from TOKEN_URL, GETs each of ENDPOINTS with the Bearer (pagination via NEXT_LINK_FIELD, default ~@odata.nextLink~, capped by MAX_PAGES), publishes one {endpoint, fetched_at, body} message per page on SUBJECT every INTERVAL_SECS. EXPAND = [{name, list, detail, key, as, list_field?}] does a client-side $expand: each item of the list response's array (list_field, default ~value~; use ~resources~/~data~ for other APIs; a bare-string item becomes {key: id}) is enriched with its per-item detail call ({key} substituted in the detail path) and the page ships as ONE envelope under endpoint=name — sized for list APIs without a server-side expand (sequential detail calls, keep pages small). Config: TOKEN_URL, CLIENT_ID, CLIENT_SECRET (use secret()), SCOPE (optional — omitted when empty, e.g. CrowdStrike), BASE_URL, ENDPOINTS and/or EXPAND, SUBJECT, INTERVAL_SECS, MAX_PAGES.".
(** core/src/connectors.rs:1505-1507 [SlackOut::about] *)
Definition about_SlackOut : string := "Consumes vx.slack.out and posts {text} to a Slack webhook (DRY-RUN if unset). Config: SUBJECT, WEBHOOK_URL.".
(** core/src/connectors.rs:1538-1540 [HttpOut::about] *)
Definition about_HttpOut : string := quoted "Consumes a subject and POSTs each message body to a URL. Config: SUBJECT, URL, HEADERS (optional doc — put credentials there via secret(), e.g. {~Authorization~: …}), TEST_BODY (optional harmless payload enabling the test probe).".
(** core/src/connectors.rs:1590-1592 [ExecSource::about] *)
Definition about_ExecSource : string := "Runs CMD every INTERVAL_SECS; each JSON line it prints on stdout is published to SUBJECT. Any language, no NATS client. Config: CMD, SUBJECT, INTERVAL_SECS.".
(** core/src/connectors.rs:1638-1640 [ExecSink::about] *)
Definition about_ExecSink : string := quoted "Consumes SUBJECT; pipes each message body to CMD's stdin. Any language, no NATS client. ENV = {~KEY~: secret(~…~)} is handed to the child environment (secrets never touch argv). Config: CMD, SUBJECT, ENV (optional).".
(** core/src/connectors.rs:1677-1679 [ExecStreamSource::about] *)
Definition about_ExecStreamSource : string := quoted "Runs CMD as a long-running process and publishes each JSON line it streams on stdout to SUBJECT — line by line, with back-pressure (a bounded internal buffer; when the bus is slow the child's stdout blocks, so a burst can't overrun memory). For push sources like SAP IDoc inbound, Salesforce Bulk 2.0, and Kafka (wrap kcat). ENV = {~KEY~: secret(~…~)} is handed to the child's environment (secrets never touch argv). On child exit it restarts after RESTART_SECS. Optional offset RESUME (Kafka etc.): set OFFSET_KV to a key and the driver hands the child the last committed offset as $OFFSET at (re)start and commits each record's OFFSET_FIELD (default ~offset~) after publishing it — publish-before-commit, at-least-once, resume in OUR JetStream KV; OFFSET_START (default ~end~) is used on the first run. Config: CMD, SUBJECT, ENV (optional), RESTART_SECS (optional, default 2), OFFSET_KV/OFFSET_FIELD/OFFSET_START (optional).".
(** core/src/connectors.rs:1915-1917 [MqttIn::about] *)
Definition about_MqttIn : string := "Subscribes to an MQTT topic and publishes each message to SUBJECT (hand-rolled sync client, 3.1.1, QoS 0/1). At-least-once maps onto QoS 1 with no KV: the PUBACK to the broker is sent only AFTER the bus publish is confirmed, so the broker retransmits anything not yet acked — CLEAN_SESSION=false keeps the subscription across reconnects. Singleton (structural in 3.1.1). Config: BROKER (host:port), TOPIC, SUBJECT, QOS (0/1, default 1), CLIENT_ID (default vejas-<name>), USERNAME/PASSWORD (secret()), KEEPALIVE_SECS (default 30), TLS (bool, default false → rustls). QoS2/MQTT5 → mosquitto exec-bridge.".
(** core/src/connectors.rs:1979-1981 [MqttOut::about] *)
Definition about_MqttOut : string := "Consumes SUBJECT and PUBLISHes each message to an MQTT topic (hand-rolled sync client, 3.1.1, QoS 0/1). QoS 1: PUBLISH → await the broker's PUBACK → THEN ack the bus message (side-effect-before-ack); a crash between them redelivers → duplicate PUBLISH (standard at-least-once). Competing-safe (durable pull). Config: BROKER, TOPIC, SUBJECT, QOS (default 1), CLIENT_ID, USERNAME/PASSWORD (secret()), KEEPALIVE_SECS. TLS + QoS2/MQTT5 → mosquitto exec-bridge.".
(** core/src/connectors.rs:2033-2035 [ExecRpc::about] *)
Definition about_ExecRpc : string := quoted "Runs CMD as a long-running request/reply process (one JSON request per line on stdin -> one JSON reply per line on stdout) and serves it over NATS request/reply on REQUEST_SUBJECT — so MCP tools (and flows) can drive an interactive connector like SAP (sap_list / sap_describe / sap_call). Keep REQUEST_SUBJECT OUTSIDE the vx.* JetStream subjects (e.g. ~vxrpc.sap~). ENV = {~KEY~: secret(~…~)} is handed to the child environment (secrets never touch argv). One SAP logon is held open and requests are serialized. Config: CMD, REQUEST_SUBJECT, ENV (optional).".
Definition driver_about (d : Driver) : string :=
  match d with
  | HttpIn => about_HttpIn
  | Timer => about_Timer
  | HttpPoll => about_HttpPoll
  | OAuthPoll => about_OAuthPoll
  | SlackOut => about_SlackOut
  | HttpOut => about_HttpOut
  | ExecSource => about_ExecSource
  | ExecSink => about_ExecSink
  | ExecStreamSource => about_ExecStreamSource
  | ExecRpc => about_ExecRpc
  | MqttIn => about_MqttIn
  | MqttOut => about_MqttOut
  end.

(** core/src/connectors.rs [catalog] *)
Definition catalog : list (string * string * string) :=
  omap (λ n, d ← driver_for n; Some (n, driver_kind d, driver_about d))
    ["http-in"; "timer"; "http-poll"; "oauth-poll"; "slack-out"; "http-out"; "exec-source";
     "exec-sink"; "exec-stream-source"; "exec-rpc"; "mqtt-in"; "mqtt-out"].

(** core/src/connectors.rs [humanize] *)
Definition humanize (e : string) : string :=
  let dash := " " ++ String (ascii_of_nat 226) (String (ascii_of_nat 128) (String (ascii_of_nat 148) " ")) in
  if str_contains e "HTTP 401" || str_contains e "HTTP 403" then
    "authentication refused (invalid or expired secret?)" ++ dash ++ e
  else if str_contains e "not set" || str_contains e "not found (set env"
          || (str_contains e "secret" && str_contains e "not found") then
    "missing secret" ++ dash ++ e
  else if starts_with e "http:" || str_contains e "Connection refused"
          || str_contains e "Could not resolve" || str_contains e "timed out" then
    "unreachable (network, URL, proxy?)" ++ dash ++ e
  else e.

(** ** Permissions and bounds *)

(** core/src/connectors.rs [suffix_allowed] *)
Definition suffix_allowed (suffix : string) (allow : list string) : bool :=
  existsb (λ e, String.eqb suffix e || starts_with suffix (e ++ ".")) allow.

(** core/src/connectors.rs [is_runtime_credential] *)
Definition is_runtime_credential (name : string) : bool :=
  String.eqb name "VEJAS_TOKEN" || String.eqb name "VEJAS_APPROVAL_TOKEN"
  || String.eqb name "VAULT_TOKEN" || starts_with name "VEJAS_SECRET_".

(** The environment a child inherits. *)
(** core/src/connectors.rs [without_runtime_credentials] *)
Definition without_runtime_credentials (vars : list (string * string)) : list (string * string) :=
  filter (λ kv, is_runtime_credential (fst kv) = false) vars.

(** A counter of the slots that are taken. *)
(** core/src/connectors.rs [Slot::try_take] *)
Definition try_take (max : Z) (open : Z) : bool * Z :=
  if open <? max then (true, wrap 64 (open + 1)) else (false, open).
(** core/src/connectors.rs:314-318 [Slot::drop] *)
Definition drop_slot (open : Z) : Z := wrap 64 (open - 1).

(** [Duration::from_secs_f64] of a positive float, in nanoseconds: to the
    nearest, ties to even; a panic when it does not fit. *)
Definition nanos_of_secs {E} (x : f64) : res E Z :=
  match x with
  | SpecFloat.S754_finite false m e =>
    let n := Zpos m * 1000000000 in
    let ns := if 0 <=? e then Z.shiftl n e
              else let q := Z.shiftr n (- e) in
                   let r := 2 * (n - Z.shiftl q (- e)) in
                   if (2 ^ (- e) <? r) || ((r =? 2 ^ (- e)) && Z.odd q) then q + 1 else q in
    if ns <? 2 ^ 64 * 1000000000 then Ok ns else Panic
  | SpecFloat.S754_zero _ => Ok 0
  | _ => Panic
  end.

(** How long a consumer waits for an acknowledgement, in nanoseconds; zero
    leaves it to the server. *)
(** core/src/connectors.rs [ack_wait] *)
Definition ack_wait {E} (env : string → option string) : res E Z :=
  match env "VEJAS_ACK_WAIT_SECS" ≫= parse_f64 with
  | Some s =>
    if f64_ltb f64_zero s
    then nanos_of_secs (if f64_ltb s (f64_of_Z 1) then f64_of_Z 1 else s)
    else Ok 0
  | None => Ok 0
  end.

(** NATS subject matching. *)
(** core/src/connectors.rs [subject_matches] *)
Fixpoint tokens_match (p s : list string) : bool :=
  match p, s with
  | [], [] => true
  | a :: p, b :: s =>
    String.eqb a ">" || ((String.eqb a "*" || String.eqb a b) && tokens_match p s)
  | _, _ => false
  end.
(** core/src/connectors.rs [subject_matches] *)
Definition subject_matches (pattern subject : string) : bool :=
  tokens_match (str_split pattern ".") (str_split subject ".").

(** ** Text *)

(** core/src/connectors.rs:1118-1120 [trace_preview] *)
Definition bytes_preview (bytes : string) : string := take_chars 160 (from_utf8_lossy bytes).

(** core/src/connectors.rs [summarize] *)
Definition summarize (bytes : string) : option string :=
  let s := trim (from_utf8_lossy bytes) in
  if String.eqb s "" then None else Some (take_chars 200 s).

Definition newline : string := String "010" "".
Definition cr : string := String "013" "".

(** [str::lines]. *)
Definition lines (s : string) : list string :=
  let ls := str_split s newline in
  let ls := match rev ls with "" :: r => rev r | _ => ls end in
  map (λ l, if ends_with l cr then stake (slen l - 1) l else l) ls.

(** core/src/connectors.rs [content_length] *)
Fixpoint content_length_of (ls : list string) : Z :=
  match ls with
  | [] => 0
  | l :: ls =>
    match strip_prefix (to_ascii_lowercase l) "content-length:" with
    | Some v => default 0 (parse_u64 (trim v))
    | None => content_length_of ls
    end
  end.
(** core/src/connectors.rs [content_length] *)
Definition content_length (head : string) : Z := content_length_of (lines head).

Definition unreserved (b : byte) : bool :=
  is_ascii_alphanumeric (bval b) || existsb (Ascii.eqb b) ["-"; "_"; "."; "~"]%char.
(** core/src/connectors.rs [urlencode] *)
Fixpoint urlencode (s : string) : string :=
  match s with
  | "" => ""
  | String b r =>
    if unreserved b then String b (urlencode r)
    else String "%" (String (hex_char true (bval b / 16)) (String (hex_char true (bval b mod 16)) (urlencode r)))
  end.

(** core/src/connectors.rs [join_url] *)
Definition join_url (base endpoint : string) : string :=
  if starts_with endpoint "http://" || starts_with endpoint "https://" then endpoint
  else trim_end_byte "/" base ++ "/" ++ trim_start_byte "/" endpoint.

(** core/src/connectors.rs [next_url] *)
Definition next_url (base : string) (body : Value) (field : string) : option string :=
  s ← vget field body ≫= as_str;
  if String.eqb s "" then None else Some (join_url base s).

(** core/src/connectors.rs [fill_template] *)
Definition fill_template (template key value : string) : string :=
  str_replace template ("{" ++ key ++ "}") value.

(** ** Dates *)

(** Decimal with leading zeros to a width. *)
Fixpoint zeros (n : nat) : string := match n with O => "" | S n => String "0" (zeros n) end.
Definition pad (w : nat) (z : Z) : string := let s := dec_of_Z z in zeros (w - slen s) ++ s.

(** Year, month and day of a day count. *)
(** core/src/connectors.rs:2229-2237 [iso8601_utc] *)
Definition civil (days : Z) : Z * Z * Z :=
  let z := days + 719468 in
  let era := z / 146097 in
  let doe := z mod 146097 in
  let yoe := (doe - doe / 1460 + doe / 36524 - doe / 146096) / 365 in
  let doy := doe - (365 * yoe + yoe / 4 - yoe / 100) in
  let mp := (5 * doy + 2) / 153 in
  let d := doy - (153 * mp + 2) / 5 + 1 in
  let mo := if mp <? 10 then mp + 3 else mp - 9 in
  let y := yoe + era * 400 + (if mo <=? 2 then 1 else 0) in
  (y, mo, d).

(** core/src/connectors.rs [iso8601_utc] *)
Definition iso8601_utc (secs : Z) : string :=
  let rem := secs mod 86400 in
  let '(y, mo, d) := civil (secs / 86400) in
  pad 4 y ++ "-" ++ pad 2 mo ++ "-" ++ pad 2 d ++ "T" ++ pad 2 (rem / 3600) ++ ":" ++
  pad 2 (rem mod 3600 / 60) ++ ":" ++ pad 2 (rem mod 60) ++ "Z".

(** core/src/connectors.rs [stamp_ts] *)
Definition stamp_ts (payload : Value) (secs : Z) : Value :=
  match payload with
  | VObject o =>
    if map_contains "ts" o then payload else VObject (map_insert "ts" (VString (iso8601_utc secs)) o)
  | v => v
  end.

(** ** Stored snapshots *)

(** core/src/connectors.rs [Snapshot] *)
Record Snapshot : Type := { sn_version : string; sn_seq : Z; sn_taken_at : Z; sn_state : string }.

Section Snapshots.
Context {SD : Serde}.

(** core/src/connectors.rs [snapshot_put] *)
Definition snapshot_bytes (s : Snapshot) : string :=
  to_json (obj [("version", VString (sn_version s)); ("seq", vint (sn_seq s));
                ("taken_at", vint (sn_taken_at s)); ("bytes", vint (Z.of_nat (slen (sn_state s))))])
  ++ newline ++ sn_state s.

Inductive snapshot_err : Type := SnapshotNoHeader | SnapshotHeader.

(** core/src/connectors.rs [snapshot_get] *)
Definition snapshot_read (bytes : string) : res snapshot_err Snapshot :=
  nl ← ok_or (str_find bytes newline) SnapshotNoHeader;
  header ← ok_or (from_json (stake nl bytes)) SnapshotHeader;
  Ok {| sn_version := vstr_or "" header "version"; sn_seq := default 0 (as_u64 (vindex header "seq"));
        sn_taken_at := default 0 (as_u64 (vindex header "taken_at")); sn_state := sdrop (S nl) bytes |}.

(** The committed offset of a stream source, as the bucket has it. *)
(** core/src/connectors.rs [offset_get] *)
Definition offset_get (stored : option string) : option string :=
  b ← stored; let s := trim (from_utf8_lossy b) in if String.eqb s "" then None else Some s.
End Snapshots.

(** ** Facts *)

Definition leap (y : Z) : bool := (y mod 4 =? 0) && (negb (y mod 100 =? 0) || (y mod 400 =? 0)).
Definition days_in_month (y m : Z) : Z :=
  if m =? 2 then (if leap y then 29 else 28)
  else if (m =? 4) || (m =? 6) || (m =? 9) || (m =? 11) then 30 else 31.
(** The date of the next day, by the rules of the calendar. *)
Definition next_date (t : Z * Z * Z) : Z * Z * Z :=
  let '(y, m, d) := t in
  if d <? days_in_month y m then (y, m, d + 1)
  else if m <? 12 then (y, m + 1, 1) else (y + 1, 1, 1).

Lemma leap_era y k : leap (y + 400 * k) = leap y.
Proof.
  unfold leap.
  replace ((y + 400 * k) mod 4) with (y mod 4) by (replace (y + 400 * k) with (y + (100 * k) * 4) by lia; by rewrite Z_mod_plus_full).
  replace ((y + 400 * k) mod 100) with (y mod 100) by (replace (y + 400 * k) with (y + (4 * k) * 100) by lia; by rewrite Z_mod_plus_full).
  by replace ((y + 400 * k) mod 400) with (y mod 400) by (replace (y + 400 * k) with (y + k * 400) by lia; by rewrite Z_mod_plus_full).
Qed.

Definition date_eqb (a b : Z * Z * Z) : bool :=
  let '(y, m, d) := a in let '(y', m', d') := b in (y =? y') && (m =? m') && (d =? d').
Lemma date_eqb_eq a b : date_eqb a b = true → a = b.
Proof.
  destruct a as [[y m] d], b as [[y' m'] d']. cbn. rewrite !andb_true_iff, !Z.eqb_eq. by intros [[-> ->] ->].
Qed.

(** Years start in March here: the year of an era, its first and last day. *)
Definition year_of (doe : Z) : Z := (doe - doe / 1460 + doe / 36524 - doe / 146096) / 365.
Definition ystart (y : Z) : Z := 365 * y + y / 4 - y / 100.
Definition ylen (y : Z) : Z := if leap (y + 1) then 366 else 365.
Definition month_day (doy : Z) : Z * Z :=
  let mp := (5 * doy + 2) / 153 in
  (if mp <? 10 then mp + 3 else mp - 9, doy - (153 * mp + 2) / 5 + 1).

Definition below (n : nat) (f : Z → bool) : bool := forallb f (map Z.of_nat (seq 0 n)).
Lemma below_spec n f i : below n f = true → 0 <= i < Z.of_nat n → f i = true.
Proof.
  unfold below. rewrite forallb_forall. intros H Hi. apply H, in_map_iff.
  exists (Z.to_nat i). split; [lia|]. apply in_seq. lia.
Qed.

Lemma sub_div_mono n a b : 0 < n → a <= b → a - a / n <= b - b / n.
Proof.
  intros Hn H. assert (b / n <= a / n + (b - a)); [|lia].
  rewrite <- Z.div_add by lia. apply Z.div_le_mono; nia.
Qed.

Lemma year_of_mono a b : 0 <= a <= b → year_of a <= year_of b.
Proof.
  intros H. unfold year_of. apply Z.div_le_mono; [lia|].
  change 146096 with (36524 * 4). rewrite <- !Z.div_div by lia.
  pose proof (Z.div_le_mono a b 36524 ltac:(lia) ltac:(lia)) as Hc.
  pose proof (sub_div_mono 1460 a b ltac:(lia) ltac:(lia)) as H1.
  pose proof (sub_div_mono 4 _ _ ltac:(lia) Hc) as H4.
  revert H1 H4. generalize (a / 1460) (b / 1460) (a / 36524 / 4) (b / 36524 / 4). lia.
Qed.

(** The years of an era tile its days, and [year_of] finds them. *)
Lemma years_tile : below 400 (λ y,
  (year_of (ystart y) =? y) && (year_of (ystart y + ylen y - 1) =? y) &&
  (ystart y + ylen y =? if y =? 399 then 146097 else ystart (y + 1))) = true.
Proof. vm_compute. reflexivity. Qed.

Lemma year_before (n : nat) doe : (n <= 399)%nat → 0 <= doe < ystart (Z.of_nat n) →
  ∃ y, 0 <= y < Z.of_nat n ∧ ystart y <= doe < ystart (y + 1).
Proof.
  intros Hn. induction n as [|n IH]; intros Hd; [change (ystart (Z.of_nat 0)) with 0 in Hd; lia|].
  replace (Z.of_nat (S n)) with (Z.of_nat n + 1) in * by lia.
  destruct (Z.lt_ge_cases doe (ystart (Z.of_nat n))) as [H|H].
  - destruct IH as (y & Hy & ?); [lia|lia|]. exists y. split; [lia|done].
  - exists (Z.of_nat n). split; [lia|lia].
Qed.

Lemma year_spec doe : 0 <= doe < 146097 →
  let y := year_of doe in 0 <= y < 400 ∧ ystart y <= doe < ystart y + ylen y ∧
    ystart y + ylen y = (if y =? 399 then 146097 else ystart (y + 1)).
Proof.
  intros Hd. cbv zeta.
  assert (∃ y, 0 <= y < 400 ∧ ystart y <= doe < ystart y + ylen y ∧ year_of (ystart y) = y ∧
    year_of (ystart y + ylen y - 1) = y ∧
    ystart y + ylen y = (if y =? 399 then 146097 else ystart (y + 1))) as (y & Hy & Hb & H1 & H2 & H3).
  { destruct (Z.lt_ge_cases doe (ystart 399)) as [H|H].
    - destruct (year_before 399 doe ltac:(lia) ltac:(change (Z.of_nat 399) with 399; lia)) as (y & Hy & Hb). exists y.
      pose proof (below_spec _ _ y years_tile ltac:(lia)) as Ht. cbn beta in Ht.
      rewrite !andb_true_iff, !Z.eqb_eq in Ht. destruct Ht as [[? ?] Ht].
      repeat split; try done; try lia. rewrite Ht. destruct (Z.eqb_spec y 399); lia.
    - exists 399. change (ystart 399 + ylen 399) with 146097. repeat split; try lia; reflexivity. }
  assert (year_of doe = y) as ->.
  { pose proof (year_of_mono (ystart y) doe). pose proof (year_of_mono doe (ystart y + ylen y - 1)).
    assert (0 <= ystart y) by (unfold ystart; Z.to_euclidean_division_equations; lia). lia. }
  done.
Qed.

Lemma year_of_unique doe y : 0 <= y < 400 → 0 <= doe < 146097 → ystart y <= doe < ystart y + ylen y →
  year_of doe = y.
Proof.
  intros Hy Hd Hb. destruct (year_spec _ Hd) as (Hy' & Hb' & He). set (y' := year_of doe) in *.
  assert (∀ a b, 0 <= a < b → b < 400 → ystart a + ylen a <= ystart b) as Hmono.
  { intros a b Ha Hb1. pose proof (below_spec _ _ a years_tile ltac:(lia)) as Ht. cbn beta in Ht.
    rewrite !andb_true_iff, !Z.eqb_eq in Ht. destruct Ht as [_ ->]. destruct (Z.eqb_spec a 399); [lia|].
    unfold ystart. Z.to_euclidean_division_equations. lia. }
  destruct (Z.lt_trichotomy y y') as [H|[H|H]]; [|done|].
  - pose proof (Hmono y y'). lia.
  - pose proof (Hmono y' y). lia.
Qed.

(** The months of a year that starts in March. *)
Lemma months_follow :
  below 364 (λ doy,
    let '(m, d) := month_day doy in let '(m', d') := month_day (doy + 1) in
    negb ((m =? 2) && (28 <=? d)) &&
    date_eqb (next_date (if m <=? 2 then 1 else 0, m, d)) (if m' <=? 2 then 1 else 0, m', d')) = true.
Proof. vm_compute. reflexivity. Qed.

(** Off the end of February a day's successor is the same in every year. *)
Lemma next_date_plain y k m d : (m =? 2) && (28 <=? d) = false →
  next_date (y + k, m, d) = let '(k', m', d') := next_date (k, m, d) in (y + k', m', d').
Proof.
  intros H. unfold next_date, days_in_month. destruct (m =? 2) eqn:Em.
  - apply Z.eqb_eq in Em as ->. cbn in H. apply Z.leb_gt in H.
    assert (∀ b : bool, (d <? (if b then 29 else 28)) = true) as Hd by (intros []; lia).
    by rewrite !Hd.
  - destruct (d <? _); [done|]. destruct (m <? 12); [done|]. by rewrite Z.add_assoc.
Qed.

(** The date of a day of a year that starts in March. *)
Definition date_in (y doy : Z) : Z * Z * Z :=
  let '(m, d) := month_day doy in (y + (if m <=? 2 then 1 else 0), m, d).

Lemma date_in_next y doy : 0 <= doy < ylen y →
  next_date (date_in y doy) = if doy + 1 <? ylen y then date_in y (doy + 1) else date_in (y + 1) 0.
Proof.
  intros Hd. assert (ylen y = 366 ∨ ylen y = 365) as Hl by (unfold ylen; destruct (leap _); auto).
  destruct (Z.lt_ge_cases doy 364) as [H|H].
  - pose proof (below_spec _ _ doy months_follow ltac:(lia)) as Hm. cbn beta in Hm. unfold date_in.
    destruct (Z.ltb_spec (doy + 1) (ylen y)); [|lia].
    destruct (month_day doy) as [m d], (month_day (doy + 1)) as [m' d'].
    apply andb_true_iff in Hm as [Hf%negb_true_iff He%date_eqb_eq].
    by rewrite next_date_plain, He.
  - unfold date_in, ylen in *. assert (doy = 364 ∨ doy = 365) as [->| ->] by (destruct Hl; lia).
    + change (month_day 364) with (2, 28). change (month_day (364 + 1)) with (2, 29).
      change (month_day 0) with (3, 1). unfold next_date, days_in_month. cbn.
      destruct (leap (y + 1)); [done|]. cbn. by rewrite Z.add_0_r.
    + change (month_day 365) with (2, 29). change (month_day 0) with (3, 1).
      destruct (leap (y + 1)) eqn:E; [|lia].
      unfold next_date, days_in_month. cbn. rewrite E. cbn. by rewrite Z.add_0_r.
Qed.

(** The date of a day count, through the day of its era. *)
Lemma civil_in days :
  let z := days + 719468 in let y := year_of (z mod 146097) in
  civil days = date_in (y + z / 146097 * 400) (z mod 146097 - ystart y).
Proof.
  cbv zeta. unfold civil, date_in, month_day, ystart, year_of. cbv zeta.
  set (doe := (days + 719468) mod 146097). set (y := (doe - _ + _ - _) / 365).
  replace (doe - (365 * y + y / 4 - y / 100)) with (doe - (365 * y + y / 4 - y / 100)) by done. done.
Qed.

(** Dates are the Gregorian calendar: day zero is the first of January
    1970, and every later day is the calendar's successor of the day before. *)
Theorem civil_is_gregorian :
  civil 0 = (1970, 1, 1) ∧ ∀ day, 0 <= day → civil (day + 1) = next_date (civil day).
Proof.
  split; [reflexivity|]. intros day _. rewrite !civil_in. cbv zeta.
  replace (day + 1 + 719468) with (day + 719468 + 1) by lia. set (z := day + 719468).
  pose proof (Z.mod_pos_bound z 146097 ltac:(lia)) as Hr.
  destruct (year_spec _ Hr) as (Hy & Hb & He). set (y := year_of (z mod 146097)) in *.
  set (k := z / 146097) in *.
  assert (∀ n, ylen (n + k * 400) = ylen n) as Hper.
  { intros n. unfold ylen. replace (n + k * 400 + 1) with (n + 1 + 400 * k) by lia. by rewrite leap_era. }
  rewrite date_in_next, Hper by (rewrite ?Hper; lia).
  destruct (Z.ltb_spec (z mod 146097 - ystart y + 1) (ylen y)) as [H|H].
  - (* the same year *)
    assert (z mod 146097 + 1 < 146097) as Hlt.
    { destruct (Z.eqb_spec y 399) as [E|E]; [lia|].
      assert (ystart (y + 1) <= ystart 399) by (unfold ystart; Z.to_euclidean_division_equations; lia).
      change (ystart 399) with 145731 in *. lia. }
    assert ((z + 1) mod 146097 = z mod 146097 + 1 ∧ (z + 1) / 146097 = k) as [-> ->].
    { subst k. clear - Hlt. Z.to_euclidean_division_equations. lia. }
    rewrite (year_of_unique (z mod 146097 + 1) y) by lia. f_equal. lia.
  - destruct (Z.eqb_spec y 399) as [E|E].
    + assert ((z + 1) mod 146097 = 0 ∧ (z + 1) / 146097 = k + 1) as [-> ->].
      { subst k. assert (z mod 146097 = 146096) by lia. clear - H0. Z.to_euclidean_division_equations. lia. }
      change (year_of 0) with 0. change (0 - ystart 0) with 0. rewrite E.
      unfold date_in. cbn. f_equal. f_equal. lia.
    + assert (ystart (y + 1) < 146097).
      { assert (ystart (y + 1) <= ystart 399) by (unfold ystart; Z.to_euclidean_division_equations; lia).
        change (ystart 399) with 145731 in *. lia. }
      assert ((z + 1) mod 146097 = z mod 146097 + 1 ∧ (z + 1) / 146097 = k) as [-> ->].
      { subst k. assert (z mod 146097 + 1 < 146097) by lia. clear - H1. Z.to_euclidean_division_equations. lia. }
      assert (0 < ylen (y + 1)) by (unfold ylen; destruct (leap _); lia).
      rewrite (year_of_unique (z mod 146097 + 1) (y + 1)) by lia.
      replace (z mod 146097 + 1 - ystart (y + 1)) with 0 by lia. f_equal. lia.
Qed.

(** A byte that does not occur in a text is first found after it. *)
Lemma find_from_none n k s p : find_from n s p = None → find_from k s p = None.
Proof.
  revert n k. induction s as [|d s IH]; intros n k; cbn [find_from]; destruct (starts_with _ p); try done.
  apply IH.
Qed.

Lemma starts_one_byte c d s : starts_with (String d s) (String c "") = Ascii.eqb c d.
Proof.
  unfold starts_with. cbn [String.prefix]. destruct (Ascii.eqb_spec c d), (ascii_dec c d); try done.
  by destruct s.
Qed.

Lemma find_after i a c b : str_contains a (String c "") = false →
  find_from i (a ++ String c b) (String c "") = Some (i + slen a)%nat.
Proof.
  unfold str_contains, str_find. destruct (find_from 0 a (String c "")) eqn:E; [done|]. intros _.
  revert i E. induction a as [|d a IH]; intros i E.
  - change ("" ++ String c b) with (String c b). cbn [find_from]. rewrite starts_one_byte, Ascii.eqb_refl.
    cbn. f_equal. lia.
  - cbn [find_from] in E. cbn [String.append find_from]. rewrite starts_one_byte in *.
    destruct (Ascii.eqb c d); [done|]. rewrite IH by (by eapply find_from_none).
    cbn. f_equal. lia.
Qed.

(** A snapshot reads back as it was stored: the engine's bytes as they are,
    whatever they hold, and the header. *)
Theorem snapshot_roundtrip `{SerdeOk} s :
  valid_utf8 (sn_version s) = true → 0 <= sn_seq s <= u64_max → 0 <= sn_taken_at s <= u64_max →
  Z.of_nat (slen (sn_state s)) <= u64_max →
  snapshot_read (snapshot_bytes s) = Ok s.
Proof.
  intros Hv Hs Ht Hb. unfold snapshot_read, snapshot_bytes.
  match goal with |- context [to_json ?d] => set (doc := d) end.
  assert (value_ok doc = true) as Hok by (subst doc; doc_ok).
  unfold str_find. change (newline ++ sn_state s) with (String "010" (sn_state s)).
  rewrite find_after by apply serde_one_line. cbn [ok_or mbind res_mbind res_bind Nat.add].
  rewrite stake_app, serde_roundtrip by done. cbn [ok_or mbind res_mbind res_bind]. f_equal.
  replace (to_json doc ++ String "010" (sn_state s)) with ((to_json doc ++ newline) ++ sn_state s)
    by (by rewrite <- app_assoc_str).
  replace (S (slen (to_json doc))) with (slen (to_json doc ++ newline)) by (rewrite slen_app; cbn; lia).
  rewrite sdrop_app. subst doc. destruct s as [v q t st]. cbn in *.
  assert (∀ z, 0 <= z <= u64_max → default 0 (as_u64 (vint z)) = z) as Hz.
  { intros z Hz. cbn. by rewrite (proj2 (Z.leb_le 0 z)), (proj2 (Z.leb_le z _)) by lia. }
  change ({| sn_version := v; sn_seq := default 0 (as_u64 (vint q));
             sn_taken_at := default 0 (as_u64 (vint t)); sn_state := st |} =
          {| sn_version := v; sn_seq := q; sn_taken_at := t; sn_state := st |}).
  by rewrite !Hz.
Qed.

Lemma snapshot_roundtrip_witness :
  let s := {| sn_version := "v1"; sn_seq := 7; sn_taken_at := 9; sn_state := newline ++ "x" |} in
  snapshot_read (snapshot_bytes s) = Ok s.
Proof. apply (snapshot_roundtrip (H0 := printer_ok)); [reflexivity|vm_compute; split; discriminate..|vm_compute; discriminate]. Defined.

(** The value of a percent-encoded text. *)
Definition hex_val (b : byte) : N :=
  let n := bval b in if (n <? 65)%N then (n - 48)%N else (n - 55)%N.
Fixpoint urldecode (s : string) : string :=
  match s with
  | String "%" (String a (String b r)) => String (ascii_of_N (16 * hex_val a + hex_val b)) (urldecode r)
  | String b r => String b (urldecode r)
  | "" => ""
  end.
Definition form_byte (b : byte) : bool := unreserved b || Ascii.eqb b "%".

(** An encoded value cannot end its form field: it is made of unreserved
    characters and percent signs, and it decodes to the value. *)
Theorem urlencode_roundtrip s :
  urldecode (urlencode s) = s ∧ forallb form_byte (String.list_ascii_of_string (urlencode s)) = true.
Proof.
  induction s as [|b s [IH1 IH2]]; [done|]. cbn [urlencode]. destruct (unreserved b) eqn:Eu.
  - cbn -[form_byte urldecode]. split.
    + assert (b ≠ "%"%char) by (intros ->; done). 
      transitivity (String b (urldecode (urlencode s))); [|by rewrite IH1].
      destruct b as [[] [] [] [] [] [] [] []]; try reflexivity. done.
    + unfold form_byte at 1. by rewrite Eu.
  - split.
    + cbn [urldecode]. rewrite IH1. f_equal. by destruct b as [[] [] [] [] [] [] [] []].
    + cbn -[form_byte]. rewrite IH2, !andb_true_r. by destruct b as [[] [] [] [] [] [] [] []].
Qed.

(** ** The wait for an acknowledgement *)

Definition ack_env (v : string) (k : string) : option string :=
  if String.eqb k "VEJAS_ACK_WAIT_SECS" then Some v else None.
Example ack_wait_values : map (λ v, ack_wait (E := ()) (ack_env v)) ["0.25"; "2.5"; "-3"; "x"; "NaN"] =
  [Ok 1000000000; Ok 2500000000; Ok 0; Ok 0; Ok 0].
Proof. vm_compute. reflexivity. Qed.
(** A value that is no duration takes the thread with it. *)
Example ack_wait_panics : map (λ v, ack_wait (E := ()) (ack_env v)) ["inf"; "1e20"] = [Panic; Panic].
Proof. vm_compute. reflexivity. Qed.
