(* ===== verification/Project.v ===== *)
(** * The project on disk

    Which units, scripts and manifests a project has, and the read-only views
    of it (core/src/main.rs): the scan of flows, connectors and detects, the
    graph, the business surface, the rules, the preview of a flow on its
    fixture, the inventory of secrets.  The file system is an argument: what a
    directory lists, in the order it does, what is a directory, what a file
    reads as, its modification time. *)

From stdpp Require Import base gmap list strings.
From Stdlib Require Import ZArith Lia Ascii Sorted.
From S2P Require Import Prelude Text F64 Json Syntax Analysis Lexer Parser Secrets Eval EvalFacts RunProps Paths Connect Concrete.
Open Scope string_scope.
Open Scope Z_scope.

Record FS : Type := {
  ls : string → option (list string);
  is_dir : string → bool;
  file_exists : string → bool;
  reads : string → option string;
  mtime : string → Z
}.

(** ** Paths *)

(** [Path::extension]. *)
Definition extension (p : string) : option string :=
  name ← file_name p;
  match rsplit_once name "." with
  | Some (a, b) => if String.eqb a "" then None else Some b
  | None => None
  end.

Definition comp_cmp (a b : component) : comparison :=
  match a, b with
  | CRoot, CRoot | CCur, CCur => Eq
  | CRoot, _ => Lt
  | _, CRoot => Gt
  | CCur, _ => Lt
  | _, CCur => Gt
  | CName x, CName y => str_cmp x y
  end.
Fixpoint comps_cmp (p q : list component) : comparison :=
  match p, q with
  | [], [] => Eq
  | [], _ => Lt
  | _, [] => Gt
  | a :: p, b :: q => match comp_cmp a b with Eq => comps_cmp p q | c => c end
  end.
(** [Path]s are ordered by their components. *)
Definition path_cmp (p q : string) : comparison := comps_cmp (components p) (components q).

Definition file_leb (a b : string * string) : bool :=
  match path_cmp (fst a) (fst b) with
  | Lt => true
  | Gt => false
  | Eq => match str_cmp (snd a) (snd b) with Gt => false | _ => true end
  end.

Fixpoint trim_end_matches_fuel (n : nat) (s p : string) : string :=
  match n with
  | O => s
  | S n => if ends_with s p && negb (String.eqb p "")
           then trim_end_matches_fuel n (stake (slen s - slen p) s) p else s
  end.
(** [str::trim_end_matches] of a text. *)
Definition trim_end_matches (s p : string) : string := trim_end_matches_fuel (slen s) s p.

(** core/src/main.rs [fixture_path_for] *)
Definition fixture_path_for (flow_path : string) : string :=
  let stem := default "" (file_stem flow_path) in
  path_join (path_join (default "." (parent flow_path)) "fixtures") (stem ++ ".json").

(** ** Units *)

(** core/src/main.rs [Kind] *)
Inductive Kind : Type := KFlow | KConnector | KDetect.
#[export] Instance kind_eq_dec : EqDecision Kind.
Proof. solve_decision. Defined.

(** core/src/main.rs [Spec] *)
Record Spec : Type := {
  sp_name : string;
  sp_path : string;
  sp_pkg : string;
  sp_kind : Kind;
  sp_mtime : Z
}.

(** What a file parses to: [None] when it cannot be read or does not parse. *)
Definition parsed_opt {E} (src : option string) : res E (option Program) :=
  match src with
  | None => Ok None
  | Some src =>
    match parse src with
    | Ok p => Ok (Some p)
    | Err _ => Ok None
    | Panic => Panic
    | NoFuel => NoFuel
    end
  end.

Definition surface_value (p : Program) (name : string) : option Value :=
  option_map se_value (surface_find (p_surface p) name).

Section Project.
Context (fs : FS) (root : string).

(** core/src/main.rs [package_enabled] *)
Definition package_enabled {E} (pkg_dir : string) : res E bool :=
  p ← parsed_opt (reads fs (path_join pkg_dir "package.vjs"));
  Ok match p ≫= λ p, surface_value p "ENABLED" with
     | Some v => default true (as_bool v)
     | None => true
     end.

Definition prefix_of (k : Kind) : string :=
  match k with KFlow => "flow" | KConnector => "connector" | KDetect => "detect" end.
Definition ext_of (k : Kind) : string := match k with KDetect => ".vpl" | _ => ".vjs" end.

(** core/src/main.rs:1025-1046 [scan_units] *)
Definition unit_of (dir pkg : string) (kind : Kind) (entry : string) : option Spec :=
  let path := path_join dir entry in
  fname ← file_name path;
  if negb (valid_utf8 fname) || starts_with fname "_" || negb (ends_with fname (ext_of kind)) then None
  else
    let stem := trim_end_matches fname (ext_of kind) in
    let name := if String.eqb pkg "default" then prefix_of kind ++ ":" ++ stem
                else prefix_of kind ++ ":" ++ pkg ++ ":" ++ stem in
    Some {| sp_name := name; sp_path := path; sp_pkg := pkg; sp_kind := kind;
            sp_mtime := mtime fs path |}.

(** core/src/main.rs [scan_units] *)
Definition scan_units (dir pkg : string) (kind : Kind) : list Spec :=
  omap (unit_of dir pkg kind) (default [] (ls fs dir)).

(** core/src/main.rs:1054-1067 [scan_all] *)
Fixpoint scan_packages {E} (pkgs : list string) : res E (list Spec) :=
  match pkgs with
  | [] => Ok []
  | p :: pkgs =>
    let dir := path_join (path_join root "packages") p in
    let pkg := from_utf8_lossy p in
    enabled ← (if is_dir fs dir then package_enabled dir else Ok false);
    rest ← scan_packages pkgs;
    Ok (if (enabled : bool) then
          scan_units (path_join dir "flows") pkg KFlow ++
          scan_units (path_join dir "connectors") pkg KConnector ++
          scan_units (path_join dir "detects") pkg KDetect ++ rest
        else rest)%list
  end.

Definition name_leb (a b : Spec) : bool :=
  match str_cmp (sp_name a) (sp_name b) with Gt => false | _ => true end.

(** core/src/main.rs [scan_all] *)
Definition scan_all {E} : res E (list Spec) :=
  pkgs ← scan_packages (default [] (ls fs (path_join root "packages")));
  Ok (stable_sort name_leb
        (scan_units (path_join root "flows") "default" KFlow ++
         scan_units (path_join root "connectors") "default" KConnector ++
         scan_units (path_join root "detects") "default" KDetect ++ pkgs)%list).

(** ** Scripts *)

Definition is_vjs (p : string) : bool := bool_decide (extension p = Some "vjs").

(** core/src/main.rs:2296-2307 [vjs_files] *)
Definition vjs_dir (dir pkg : string) : list (string * string) :=
  omap (λ e, let p := path_join dir e in
             if is_vjs p && negb (bool_decide (file_name p = Some "package.vjs"))
             then Some (p, pkg) else None)
    (default [] (ls fs dir)).

(** core/src/main.rs [vjs_files] *)
Definition vjs_files : list (string * string) :=
  stable_sort file_leb
    (vjs_dir (path_join root "flows") "default" ++
     vjs_dir (path_join root "services") "default" ++
     flat_map (λ p, let dir := path_join (path_join root "packages") p in
                    vjs_dir (path_join dir "flows") (from_utf8_lossy p) ++
                    vjs_dir (path_join dir "services") (from_utf8_lossy p))%list
       (default [] (ls fs (path_join root "packages"))))%list.

(** core/src/main.rs:2324-2333 [push_dir] *)
Definition connector_dir (dir pkg : string) : list (string * string) :=
  omap (λ e, let p := path_join dir e in if is_vjs p then Some (p, pkg) else None)
    (default [] (ls fs dir)).

(** core/src/main.rs [connector_files] *)
Definition connector_files : list (string * string) :=
  stable_sort file_leb
    (connector_dir (path_join root "connectors") "default" ++
     flat_map (λ p, connector_dir (path_join (path_join (path_join root "packages") p) "connectors")
                      (from_utf8_lossy p))
       (default [] (ls fs (path_join root "packages"))))%list.

(** ** Views *)

(** The files that read and parse, in order. *)
Fixpoint parsed_files {E} (files : list (string * string)) : res E (list (string * string * Program)) :=
  match files with
  | [] => Ok []
  | (path, pkg) :: files =>
    p ← parsed_opt (reads fs path);
    rest ← parsed_files files;
    Ok match p with Some prog => (path, pkg, prog) :: rest | None => rest end
  end.

(** core/src/main.rs [vjs_kind_of] *)
Definition vjs_kind_of (name : string) (value : Value) : string :=
  if starts_with name "MAPPING" && is_object value then "mapping"
  else if is_object value then "table" else "constant".

Definition is_service (path : string) : bool :=
  bool_decide (parent path ≫= file_name = Some "services").
Definition is_array (v : Value) : bool := match v with VArray _ => true | _ => false end.

(** core/src/main.rs:2347-2384 [surface_json] *)
Fixpoint script_cards (files : list (string * string * Program)) (entries : list Value) : list Value :=
  match files with
  | [] => entries
  | (path, pkg, prog) :: files =>
    let service := is_service path in
    let entries := (entries ++ map (λ e,
      obj [("file", VString path); ("name", VString (se_name e));
           ("kind", VString (vjs_kind_of (se_name e) (se_value e))); ("value", se_value e);
           ("list", VBool (is_array (se_value e))); ("lang", VString "vjs"); ("pkg", VString pkg);
           ("service", VBool service)]) (p_surface prog))%list in
    let entries :=
      if forallb (λ v, negb (bool_decide (as_str (vindex v "file") = Some path))) entries
      then (entries ++ [obj [("file", VString path); ("name", VString ""); ("kind", VString "none");
                             ("value", VNull); ("lang", VString "vjs"); ("pkg", VString pkg);
                             ("service", VBool service)]])%list
      else entries in
    script_cards files entries
  end.

(** core/src/main.rs:2387-2419 [surface_json] *)
Definition connector_cards (f : string * string * Program) : list Value :=
  let '(path, pkg, prog) := f in
  match p_driver prog with
  | None => []
  | Some driver =>
    let kind := match driver_for driver with Some d => driver_kind d | None => "unknown" end in
    let card name k value extra :=
      obj ([("file", VString path); ("lang", VString "vjs"); ("pkg", VString pkg);
            ("service", VBool false); ("connector", VBool true); ("driver", VString driver);
            ("driver_kind", VString kind); ("name", VString name); ("kind", VString k);
            ("value", value)] ++ extra)%list in
    match p_surface prog with
    | [] => [card "" "none" VNull []]
    | es => map (λ e, card (se_name e) (vjs_kind_of (se_name e) (se_value e)) (se_value e)
                        [("list", VBool (is_array (se_value e)))]) es
    end
  end.

(** core/src/main.rs [surface_json] *)
Definition surface_json {E} : res E Value :=
  scripts ← parsed_files vjs_files;
  manifests ← parsed_files connector_files;
  Ok (VArray (script_cards scripts [] ++ flat_map connector_cards manifests)%list).

(** core/src/main.rs:2247-2275 [connector_graph] *)
Definition connector_node (path : string) (prog : Program) : option Value :=
  driver ← p_driver prog;
  let subject :=
    last (map se_value (filter (λ e, se_name e = "SUBJECT") (p_surface prog))) ≫= as_str in
  let kind := match driver_for driver with Some d => driver_kind d | None => "unknown" end in
  let name := default "" (file_stem path) in
  let subjects :=
    if starts_with kind "source" then [("subjects_out", VArray [VString (default "vx.*" subject)])]
    else match subject with Some s => [("subjects_in", VArray [VString s])] | None => [] end in
  let refs :=
    match p_secret_refs prog with
    | [] => []
    | rs => [("secret_refs", VArray (map (λ nr, obj [("var", VString (fst nr)); ("ref", VString (snd nr))]) rs))]
    end in
  Some (obj ([("name", VString name); ("driver", VString driver); ("kind", VString kind)]
             ++ subjects ++ refs)%list).

(** core/src/main.rs [connector_graph] *)
Definition connector_graph {E} : res E (list Value) :=
  let in_dir dir := connector_dir dir "" in
  let files :=
    (in_dir (path_join root "connectors") ++
     flat_map (λ p, in_dir (path_join (path_join (path_join root "packages") p) "connectors"))
       (default [] (ls fs (path_join root "packages"))))%list in
  parsed ← parsed_files files;
  Ok (list_omap _ _ (λ f : string * string * Program, connector_node (fst (fst f)) (snd f)) parsed).

(** core/src/main.rs:2427-2447 [graph_json] *)
Definition graph_node (f : string * string * Program) : Value :=
  let '(path, pkg, prog) := f in
  let stem := default "" (file_stem path) in
  obj [("file", VString path);
       ("name", VString (if String.eqb pkg "default" then stem else pkg ++ ":" ++ stem));
       ("sources", VArray match p_source prog with Some s => [VString s] | None => [] end);
       ("emits", VArray (map VString (p_emit_subjects prog)));
       ("invokes", VArray (map VString (p_invokes prog))); ("lang", VString "vjs");
       ("pkg", VString pkg)].

(** core/src/main.rs [graph_json] *)
Definition graph_json {E} : res E Value :=
  connectors ← connector_graph;
  scripts ← parsed_files vjs_files;
  let service f := is_service (fst (fst f)) in
  Ok (obj [("flows", VArray (map graph_node (List.filter (λ f, negb (service f)) scripts)));
           ("services", VArray (map graph_node (List.filter service scripts)));
           ("connectors", VArray connectors)]).

(** ** Secrets *)

(** The inventory: the references in order of text, each with the files that
    use it, in order of the scan. *)
Definition note_use (r path : string) (m : smap (list string)) : smap (list string) :=
  map_insert r (default [] (map_get r m) ++ [path])%list m.

(** core/src/main.rs [secrets_inventory] *)
Definition secrets_inventory {E} : res E (smap (list string)) :=
  scripts ← parsed_files vjs_files;
  manifests ← parsed_files connector_files;
  Ok (fold_left (λ m f, let '(path, _, prog) := f in
                        fold_left (λ m nr, note_use (snd nr) path m) (p_secret_refs prog) m)
        (scripts ++ manifests)%list []).

(** core/src/main.rs [secrets_json] *)
Definition secrets_json {E} `{SD : Serde} (store : SecretStore) (rotations : list string) : res E string :=
  inventory ← secrets_inventory;
  let entry ru :=
    obj [("ref", VString (fst ru)); ("used_by", VArray (map VString (snd ru)));
         ("status", VString (if is_ok (ss_get store (fst ru)) then "ok" else "missing"));
         ("rotation_requested", VBool (bool_decide (fst ru ∈ rotations)))] in
  Ok (to_json (obj [("backend", VString (ss_kind store));
                    ("writable", VBool (negb (String.eqb (ss_kind store) "env")));
                    ("secrets", VArray (map entry inventory))])).
End Project.

(** ** Rules and previews *)

Inductive view_err : Type :=
| VPathNotAllowed
| VUnreadable
| VParse (e : perr)
| VFixture.

Section Views.
Context {SD : Serde} {CT : CaseTables} {FL : FloatLib}.
Context (fs : FS) (root : string) (canonicalize : string → option string) (store : SecretStore)
  (text : verr → string).

Definition open_script (file : string) : res view_err (string * string * Program) :=
  path ← ok_or (guard_path canonicalize root file) VPathNotAllowed;
  src ← ok_or (reads fs path) VUnreadable;
  match parse src with
  | Ok p => Ok (path, src, p)
  | Err e => Err (VParse e)
  | Panic => Panic
  | NoFuel => NoFuel
  end.

(** core/src/main.rs [rules_json] *)
Definition rules_json (file : string) : res view_err string :=
  '(_, src, prog) ← open_script file;
  Ok (to_json (obj [("file", VString file); ("rules", VArray (flow_rules prog src (p_surface prog)))])).

Definition emits_value (l : list emit) : Value :=
  VArray (map (λ sp, obj [("subject", VString (fst sp)); ("payload", snd sp)]) l).

(** core/src/main.rs [preview_json] *)
Definition preview_json (file : string) : res view_err string :=
  '(path, _, prog) ← open_script file;
  let fixture := fixture_path_for path in
  if negb (file_exists fs fixture) then
    Ok (to_json (obj [("fixture", VNull); ("entries", obj []); ("emits", VArray []); ("error", VNull)]))
  else
    content ← ok_or (reads fs fixture) VUnreadable;
    event ← ok_or (from_json content) VFixture;
    let answer emits error pipeline :=
      to_json (obj [("fixture", VString fixture); ("input", event); ("entries", obj []);
                    ("emits", emits); ("pipeline", pipeline); ("error", error);
                    ("invokes", VArray (map VString (p_invokes prog)))]) in
    match fst (run (reads fs) prog event (shadow store root (pkg_of_path path))) with
    | Ok c => Ok (answer (emits_value (emits c)) VNull (VObject (map_remove "event" (vars c))))
    | Err e => Ok (answer (VArray []) (VString (text e)) VNull)
    | Panic => Panic
    | NoFuel => NoFuel
    end.

(** core/src/main.rs [run_flow_on_input] *)
Definition run_flow_on_input (file : string) (input : Value) : res (view_err + verr) (list Value) :=
  match open_script file with
  | Ok (path, _, prog) =>
    match fst (run (reads fs) prog input (shadow store root (pkg_of_path path))) with
    | Ok c => Ok (map (λ sp, obj [("subject", VString (fst sp)); ("payload", snd sp)]) (emits c))
    | Err e => Err (inr e)
    | Panic => Panic
    | NoFuel => NoFuel
    end
  | Err e => Err (inl e)
  | Panic => Panic
  | NoFuel => NoFuel
  end.
End Views.

(** ** What is scanned *)

Section Scan.
Context (fs : FS) (root : string).

(** The directory of a kind. *)
Definition kind_dir (k : Kind) : string :=
  match k with KFlow => "flows" | KConnector => "connectors" | KDetect => "detects" end.

Definition unit_in (dir pkg : string) (s : Spec) : Prop :=
  ∃ kind entries entry, ls fs (path_join dir (kind_dir kind)) = Some entries ∧ entry ∈ entries ∧
    unit_of fs (path_join dir (kind_dir kind)) pkg kind entry = Some s.

Lemma scan_units_elem dir pkg kind s :
  s ∈ scan_units fs dir pkg kind ↔
  ∃ entries entry, ls fs dir = Some entries ∧ entry ∈ entries ∧ unit_of fs dir pkg kind entry = Some s.
Proof.
  unfold scan_units. rewrite list_elem_of_omap. destruct (ls fs dir) as [es|]; cbn.
  - split; [intros (e & ? & ?); by exists es, e|by intros (? & e & [= <-] & ? & ?); eauto].
  - split; [intros (e & He & _); by apply elem_of_nil in He|by intros (? & ? & ? & _)].
Qed.

Lemma three_kinds dir pkg s :
  s ∈ (scan_units fs (path_join dir "flows") pkg KFlow ++
       scan_units fs (path_join dir "connectors") pkg KConnector ++
       scan_units fs (path_join dir "detects") pkg KDetect)%list ↔ unit_in dir pkg s.
Proof.
  rewrite !elem_of_app, !scan_units_elem. split.
  - intros [(es & e & ?)|[(es & e & ?)|(es & e & ?)]];
      [exists KFlow|exists KConnector|exists KDetect]; eauto.
  - intros ([] & es & e & ?); eauto 8.
Qed.

Definition package_dir (p : string) : string := path_join (path_join root "packages") p.

Lemma scan_packages_elem {E} pkgs (l : list Spec) s : scan_packages fs root pkgs = @Ok E _ l →
  s ∈ l ↔ ∃ p, p ∈ pkgs ∧ is_dir fs (package_dir p) = true ∧
               package_enabled fs (package_dir p) = @Ok E _ true ∧
               unit_in (package_dir p) (from_utf8_lossy p) s.
Proof.
  revert l. induction pkgs as [|p pkgs IH]; intros l; cbn [scan_packages].
  { intros [= <-]. rewrite elem_of_nil. split; [done|]. intros (p & Hp & _). by apply elem_of_nil in Hp. }
  fold (package_dir p). intros H. apply bind_Ok in H as (enabled & He & H).
  apply bind_Ok in H as (rest & Hr & [= <-]). specialize (IH rest Hr).
  assert (s ∈ (if enabled then scan_units fs (path_join (package_dir p) "flows") (from_utf8_lossy p) KFlow ++
    scan_units fs (path_join (package_dir p) "connectors") (from_utf8_lossy p) KConnector ++
    scan_units fs (path_join (package_dir p) "detects") (from_utf8_lossy p) KDetect ++ rest else rest)%list ↔
    (enabled = true ∧ unit_in (package_dir p) (from_utf8_lossy p) s) ∨ s ∈ rest) as ->.
  { destruct enabled; [|naive_solver]. rewrite <- three_kinds, !elem_of_app. tauto. }
  rewrite IH. setoid_rewrite elem_of_cons. split.
  - intros [[-> Hu]|(q & ? & ?)]; [|by eauto]. exists p.
    destruct (is_dir fs (package_dir p)); [|done]. by repeat split; [left|..].
  - intros (q & [-> |Hq] & Hd & Hen & Hu); [|right; eauto]. left. rewrite Hd, Hen in He.
    injection He as <-. done.
Qed.

(** What runs is what the project has: a unit is scanned exactly when it is
    a script of one of the three directories of the root, or of a package that
    is a directory and is not disabled; and units are listed by name. *)
Theorem scan_exact {E} (l : list Spec) : scan_all fs root = @Ok E _ l →
  (∀ s, s ∈ l ↔ unit_in root "default" s ∨
     ∃ pkgs p, ls fs (path_join root "packages") = Some pkgs ∧ p ∈ pkgs ∧
       is_dir fs (package_dir p) = true ∧ package_enabled fs (package_dir p) = @Ok E _ true ∧
       unit_in (package_dir p) (from_utf8_lossy p) s) ∧
  Sorted (λ a b, name_leb a b = true) l.
Proof.
  unfold scan_all. intros H. apply bind_Ok in H as (ps & Hp & [= <-]). split.
  - intros s. rewrite stable_sort_elem, !app_assoc, elem_of_app, <- app_assoc, three_kinds.
    rewrite (scan_packages_elem _ _ s Hp). apply or_iff_compat_l.
    destruct (ls fs (path_join root "packages")) as [pkgs|]; cbn.
    + split; [intros (p & ?); exists pkgs, p; by split|by intros (? & p & [= <-] & ?); exists p].
    + split; [intros (p & Hin & _); by apply elem_of_nil in Hin|by intros (? & ? & ? & _)].
  - apply stable_sort_sorted. intros a b. unfold name_leb, str_cmp.
    rewrite String.compare_antisym. by destruct (String.compare (sp_name b) (sp_name a)).
Qed.
End Scan.

(** ** Views show no secret *)

Section Hidden.
Context {SD : Serde} {CT : CaseTables} {FL : FloatLib}.
Context (fs : FS) (root : string) (canonicalize : string → option string) (s1 s2 : SecretStore)
  (text : verr → string).
Hypotheses (Hret : store_returns s1) (Hdom : same_domain s1 s2) (Hkind : ss_kind s1 = ss_kind s2).

Lemma secrets_json_agree {E} rotations :
  secrets_json (E := E) fs root s1 rotations = secrets_json fs root s2 rotations.
Proof.
  unfold secrets_json. destruct (secrets_inventory fs root) as [m|e| |]; try done.
  cbn [mbind res_mbind res_bind]. rewrite Hkind. do 8 f_equal. apply List.map_ext. intros ru.
  do 5 f_equal. specialize (Hdom (fst ru)). by destruct (ss_get s1 (fst ru)), (ss_get s2 (fst ru)).
Qed.

Lemma preview_json_agree file :
  preview_json fs root canonicalize s1 text file = preview_json fs root canonicalize s2 text file.
Proof.
  unfold preview_json. destruct (open_script _ _ _ _) as [[[p src] prog]|e| |]; try done.
  cbn [mbind res_mbind res_bind]. destruct (negb _); [done|].
  destruct (ok_or (reads fs _) _) as [content|e| |]; try done. cbn [mbind res_mbind res_bind].
  destruct (ok_or (from_json content) _) as [ev|e| |]; try done. cbn [mbind res_mbind res_bind].
  by rewrite (shadow_runs_agree _ _ _ _ _ s1 s2).
Qed.

Lemma run_flow_agree file input :
  run_flow_on_input fs root canonicalize s1 file input = run_flow_on_input fs root canonicalize s2 file input.
Proof.
  unfold run_flow_on_input. destruct (open_script _ _ _ _) as [[[p src] prog]|e| |]; try done.
  by rewrite (shadow_runs_agree _ _ _ _ _ s1 s2).
Qed.

(** What the project shows of its secrets is which references resolve: two
    stores of a kind that resolve the same references give the same inventory,
    the same previews and the same trial runs. *)
Theorem views_hide_values {E} rotations file input :
  secrets_json (E := E) fs root s1 rotations = secrets_json fs root s2 rotations ∧
  preview_json fs root canonicalize s1 text file = preview_json fs root canonicalize s2 text file ∧
  run_flow_on_input fs root canonicalize s1 file input = run_flow_on_input fs root canonicalize s2 file input.
Proof. split; [apply secrets_json_agree|split; [apply preview_json_agree|apply run_flow_agree]]. Qed.
End Hidden.

(** ** A project *)

Definition demo_fs : FS := {|
  ls d := match d with
          | "/srv/flows" => Some ["b.vjs"; "a.vjs"; "_draft.vjs"; "notes.txt"]
          | "/srv/packages" => Some ["off"; "on"]
          | "/srv/packages/on/connectors" => Some ["in.vjs"]
          | "/srv/packages/off/flows" => Some ["c.vjs"]
          | _ => None
          end;
  is_dir _ := true;
  file_exists p := String.eqb p "/srv/flows/fixtures/a.json";
  reads p := match p with
             | "/srv/packages/off/package.vjs" => Some "ENABLED = false"
             | "/srv/flows/a.vjs" => Some (script "source 'vx.in'|k = secret('a/b')|emit 'vx.out', {k: k}|")
             | "/srv/flows/b.vjs" => Some "LIMIT = 10"
             | "/srv/packages/on/connectors/in.vjs" => Some (script "driver 'timer'|SUBJECT = 'in'|")
             | "/srv/flows/fixtures/a.json" => Some (to_json (obj [("x", vint 1)]))
             | _ => None
             end;
  mtime _ := 7
|}.
Definition demo_units : list Spec :=
  match scan_all (E := ()) demo_fs "/srv" with Ok l => l | _ => [] end.

Lemma demo_scanned : scan_all (E := ()) demo_fs "/srv" = Ok demo_units.
Proof. vm_compute. reflexivity. Qed.
Example demo_names : map sp_name demo_units = ["connector:on:in"; "flow:a"; "flow:b"].
Proof. vm_compute. reflexivity. Qed.

Lemma scan_exact_witness :
  (∀ s, s ∈ demo_units ↔ unit_in demo_fs "/srv" "default" s ∨
     ∃ pkgs p, ls demo_fs (path_join "/srv" "packages") = Some pkgs ∧ p ∈ pkgs ∧
       is_dir demo_fs (package_dir "/srv" p) = true ∧
       package_enabled demo_fs (package_dir "/srv" p) = @Ok () _ true ∧
       unit_in demo_fs (package_dir "/srv" p) (from_utf8_lossy p) s) ∧
  Sorted (λ a b, name_leb a b = true) demo_units.
Proof. exact (scan_exact demo_fs "/srv" demo_units demo_scanned). Defined.

Definition demo_real (p : string) : option string := Some p.
Lemma views_hide_values_witness :
  preview_json demo_fs "/srv" demo_real Demo.store (λ _, "failed") "flows/a.vjs" =
  preview_json demo_fs "/srv" demo_real Demo.other_store (λ _, "failed") "flows/a.vjs".
Proof.
  exact (proj1 (proj2 (views_hide_values (E := ()) demo_fs "/srv" demo_real Demo.store Demo.other_store
    (λ _, "failed") Demo.store_fine Demo.stores_same eq_refl [] "flows/a.vjs" VNull))).
Defined.
