(* ===== verification/Registry.v ===== *)
(** * The registry of units

    The supervised units of the process (core/src/main.rs): a handle for each
    start of a unit, shared between the registry and the thread that runs it,
    and the operations that start and stop them: reload, restart, the write of
    a secret, the watch of versions.  A handle that is replaced in the registry
    lives on in its thread until its stop flag is up, so handles are objects
    with an index.  What runs on a thread is supervised elsewhere; here it is
    only whether the thread could be had. *)

From stdpp Require Import base gmap sets list strings.
From Stdlib Require Import ZArith Lia Ascii.
From S2P Require Import Prelude Text F64 Json Syntax Lexer Parser Secrets Versions Traces Project.
Open Scope string_scope.
Open Scope Z_scope.

(** core/src/main.rs [ProcState] *)
Record ProcState : Type := {
  st_status : string;
  st_restarts : Z;
  st_started_at : option Z;
  st_last_error : option string
}.

(** core/src/main.rs [Handle] *)
Record Handle : Type := { h_spec : Spec; h_state : ProcState; h_stop : bool }.

(** The registry, every handle there was, and the rotations asked for. *)
Record Units : Type := {
  registry : gmap string nat;
  handles : list Handle;
  rotations : gset string
}.

Definition handle_of (name : string) (u : Units) : option Handle :=
  i ← registry u !! name; handles u !! i.
Definition set_handle (i : nat) (h : Handle) (u : Units) : Units :=
  {| registry := registry u; handles := <[i := h]> (handles u); rotations := rotations u |}.
Definition set_rotations (r : gset string) (u : Units) : Units :=
  {| registry := registry u; handles := handles u; rotations := r |}.

Definition halted (h : Handle) : Handle :=
  {| h_spec := h_spec h; h_state := h_state h; h_stop := true |}.
(** Raise the stop flag of a registered unit. *)
Definition stop_unit (name : string) (u : Units) : Units :=
  match registry u !! name with
  | Some i => match handles u !! i with Some h => set_handle i (halted h) u | None => u end
  | None => u
  end.

(** core/src/main.rs [flag_rotation] *)
Definition flag_rotation (reference : string) (u : Units) : Units :=
  set_rotations ({[reference]} ∪ rotations u) u.
(** core/src/main.rs [rotation_flagged] *)
Definition rotation_flagged (reference : string) (u : Units) : bool :=
  bool_decide (reference ∈ rotations u).
(** core/src/main.rs [clear_rotation] *)
Definition clear_rotation (reference : string) (u : Units) : Units :=
  set_rotations (rotations u ∖ {[reference]}) u.

Section Registry.
Context (fs : FS) (root : string).
(** Whether a thread can be had for a unit, and what it says when not. *)
Context (spawns : string → bool) (no_thread : string).

(** core/src/main.rs [start_proc] *)
Definition start_proc (spec : Spec) (u : Units) : Units :=
  let state :=
    if spawns (sp_name spec)
    then {| st_status := "starting"; st_restarts := 0; st_started_at := None; st_last_error := None |}
    else {| st_status := "failed"; st_restarts := 0; st_started_at := None;
            st_last_error := Some ("cannot start its thread: " ++ no_thread) |} in
  {| registry := <[sp_name spec := length (handles u)]> (registry u);
     handles := (handles u ++ [{| h_spec := spec; h_state := state; h_stop := false |}])%list;
     rotations := rotations u |}.

(** core/src/main.rs [restart_unit] *)
Definition restart_unit {E} (name : string) (u : Units) : res E (bool * Units) :=
  specs ← scan_all fs root;
  match List.find (λ s, String.eqb (sp_name s) name) specs with
  | None => Ok (false, u)
  | Some spec => Ok (true, start_proc spec (stop_unit name u))
  end.

(** ** Reload *)

(** core/src/main.rs:2174-2177 [reload] *)
Definition wanted_of (specs : list Spec) : gmap string Spec :=
  fold_left (λ m s, <[sp_name s := s]> m) specs ∅.

(** Stop the units that are no longer wanted; what is left, as it is seen. *)
(** core/src/main.rs:2180-2191 [reload] *)
Definition reload_stop (wanted : gmap string Spec) (u : Units) : gmap string (bool * Z) * Z * Units :=
  let gone := List.filter (λ n, match wanted !! n, handle_of n u with
                                | None, Some h => negb (h_stop h)
                                | _, _ => false
                                end) (map fst (map_to_list (registry u))) in
  let u := fold_left (λ u n, stop_unit n u) gone u in
  (omap (λ i, h ← handles u !! i; Some (h_stop h, sp_mtime (h_spec h))) (registry u),
   Z.of_nat (length gone), u).

(** Whether a wanted unit is started, and whether it is stopped first. *)
(** core/src/main.rs:2194-2204 [reload] *)
Definition reload_verdict (seen : option (bool * Z)) (spec : Spec) : bool * bool :=
  match seen with
  | None => (true, false)
  | Some (true, _) => (true, false)
  | Some (false, old) => if old =? sp_mtime spec then (false, false) else (true, true)
  end.

(** core/src/main.rs:2193-2209 [reload] *)
Fixpoint reload_start (current : gmap string (bool * Z)) (wanted : list (string * Spec))
  (started stopped : Z) (u : Units) : Z * Z * Units :=
  match wanted with
  | [] => (started, stopped, u)
  | (name, spec) :: wanted =>
    let '(start, stop) := reload_verdict (current !! name) spec in
    let u := if (stop : bool) then stop_unit name u else u in
    let u := if (start : bool) then start_proc spec u else u in
    reload_start current wanted (if start then started + 1 else started)
      (if stop then stopped + 1 else stopped) u
  end.

(** core/src/main.rs [reload] *)
Definition reload {E} (u : Units) : res E (Z * Z * Z * Units) :=
  specs ← scan_all fs root;
  let wanted := wanted_of specs in
  let '(current, stopped, u) := reload_stop wanted u in
  let '(started, stopped, u) := reload_start current (map_to_list wanted) 0 stopped u in
  Ok (Z.of_nat (size wanted), started, stopped, u).

(** ** Secrets and versions *)

(** core/src/main.rs:2161-2170 [set_secret] *)
Fixpoint restart_users {E} (reference : string) (specs : list Spec) (u : Units) : res E (list string * Units) :=
  match specs with
  | [] => Ok ([], u)
  | spec :: specs =>
    p ← parsed_opt (reads fs (sp_path spec));
    '(hit, u) ← match p with
                | Some prog =>
                  if existsb (λ nr, String.eqb (snd nr) reference) (p_secret_refs prog)
                  then restart_unit (sp_name spec) u else Ok (false, u)
                | None => Ok (false, u)
                end;
    '(names, u) ← restart_users reference specs u;
    Ok (if (hit : bool) then sp_name spec :: names else names, u)
  end.

(** [written] is the answer of the store's [set]. *)
(** core/src/main.rs [set_secret] *)
Definition set_secret (written : res serr ()) (reference : string) (u : Units) : res serr (list string * Units) :=
  _ ← written;
  specs ← scan_all fs root;
  restart_users reference specs (clear_rotation reference u).

(** A key of the version bucket changed. *)
(** core/src/main.rs:2092-2100 [version_watch] *)
Definition version_changed {E} (key : string) (u : Units) : res E Units :=
  match List.find (λ n, String.eqb (key_of n) key) (map fst (map_to_list (registry u))) with
  | Some name => '(_, u) ← restart_unit name u; Ok u
  | None => Ok u
  end.

(** core/src/main.rs:2220-2231 [topology_json] *)
Definition unit_entry (h : Handle) : Value :=
  let st := h_state h in
  obj [("name", VString (sp_name (h_spec h))); ("file", VString (sp_path (h_spec h)));
       ("pkg", VString (sp_pkg (h_spec h)));
       ("lang", VString (match sp_kind (h_spec h) with KDetect => "vpl" | _ => "vjs" end));
       ("status", VString (st_status st)); ("restarts", vint (st_restarts st));
       ("started_at", match st_started_at st with Some t => vint t | None => VNull end);
       ("last_error", opt_str (st_last_error st))].

(** core/src/main.rs [topology_json] *)
Definition topology_json (u : Units) : Value :=
  let hs := list_omap _ _ (λ ni : string * nat, handles u !! snd ni) (map_to_list (registry u)) in
  let those k := VArray (map unit_entry (List.filter (λ h, bool_decide (sp_kind (h_spec h) = k)) hs)) in
  obj [("flows", those KFlow); ("connectors", those KConnector); ("detects", those KDetect)].

(** ** One live handle a unit *)

(** The registry points at handles of the right name. *)
Definition registry_ok (u : Units) : Prop :=
  ∀ n i, registry u !! n = Some i → ∃ h, handles u !! i = Some h ∧ sp_name (h_spec h) = n.

(** A handle that was not told to stop is the registered one, or one of those out
    of reach. *)
Definition units_ok_but (lost : nat → Prop) (u : Units) : Prop :=
  registry_ok u ∧
  ∀ i h, handles u !! i = Some h → h_stop h = false → registry u !! sp_name (h_spec h) = Some i ∨ lost i.
Definition units_ok : Units → Prop := units_ok_but (λ _, False).

(** A handle that goes on running though the registry does not reach it. *)
Definition orphan (u : Units) (i : nat) : Prop :=
  ∃ h, handles u !! i = Some h ∧ h_stop h = false ∧ ∀ n, registry u !! n ≠ Some i.

Lemma ok_but_orphans u : registry_ok u → units_ok_but (orphan u) u.
Proof.
  intros Hr. split; [done|]. intros i h Hi Hs.
  destruct (decide (registry u !! sp_name (h_spec h) = Some i)) as [|Hne]; [by left|]. right.
  exists h. split; [done|]. split; [done|]. intros n Hn. destruct (Hr n i Hn) as (h' & Hi' & <-). congruence.
Qed.
Lemma orphan_lost lost u i : units_ok_but lost u → orphan u i → lost i.
Proof. intros [_ Hl] (h & Hi & Hs & Hn). destruct (Hl i h Hi Hs) as [H|]; [by apply Hn in H|done]. Qed.

Section Lost.
Context (lost : nat → Prop).

Lemma handle_of_Some n u h : handle_of n u = Some h ↔ ∃ i, registry u !! n = Some i ∧ handles u !! i = Some h.
Proof. unfold handle_of. destruct (registry u !! n); naive_solver. Qed.

Lemma stop_unit_of n m u : units_ok_but lost u →
  handle_of n (stop_unit m u) = if String.eqb n m then halted <$> handle_of n u else handle_of n u.
Proof.
  intros [Hr _]. unfold stop_unit. destruct (registry u !! m) as [i|] eqn:Em.
  - destruct (Hr m i Em) as (h & Hi & Hn). rewrite Hi. unfold handle_of. cbn [set_handle registry handles].
    destruct (String.eqb_spec n m) as [-> |Hne].
    + rewrite Em. cbn. rewrite Hi. cbn. apply list_lookup_insert_eq. by eapply lookup_lt_Some.
    + destruct (registry u !! n) as [j|] eqn:En; [|done]. cbn.
      destruct (Hr n j En) as (h' & Hj & Hn'). apply list_lookup_insert_ne. intros ->. congruence.
  - destruct (String.eqb_spec n m) as [-> |]; [|done]. unfold handle_of. by rewrite Em.
Qed.

Lemma stop_unit_ok m u : units_ok_but lost u → units_ok_but lost (stop_unit m u).
Proof.
  intros [Hr Hl]. unfold stop_unit. destruct (registry u !! m) as [i|] eqn:Em; [|done].
  destruct (Hr m i Em) as (h & Hi & Hn). rewrite Hi. split; [unfold registry_ok|]; cbn.
  - intros n j Hj. destruct (Hr n j Hj) as (h' & Hj' & Hn').
    destruct (decide (i = j)) as [<-|Hij].
    + exists (halted h). rewrite list_lookup_insert_eq by (by eapply lookup_lt_Some).
      split; [done|]. cbn. congruence.
    + exists h'. by rewrite list_lookup_insert_ne.
  - intros j h'. intros [(_ & <- & _)|[_ H]]%list_lookup_insert_Some; [done|]. by apply Hl.
Qed.

Definition fresh_handle (spec : Spec) (h : Handle) : Prop := h_spec h = spec ∧ h_stop h = false.

Lemma start_proc_of n spec u : units_ok_but lost u →
  (n = sp_name spec → ∃ h, handle_of n (start_proc spec u) = Some h ∧ fresh_handle spec h) ∧
  (n ≠ sp_name spec → handle_of n (start_proc spec u) = handle_of n u).
Proof.
  intros [Hr _]. unfold handle_of. cbn. split.
  - intros ->. rewrite lookup_insert_eq. cbn. eexists. rewrite lookup_app_r, Nat.sub_diag by lia. by cbn.
  - intros Hn. rewrite lookup_insert_ne by done. destruct (registry u !! n) as [i|] eqn:En; [|done].
    cbn. apply lookup_app_l. destruct (Hr n i En) as (h & Hi & _). by eapply lookup_lt_Some.
Qed.

Definition stopped_or_absent (n : string) (u : Units) : Prop :=
  ∀ h, handle_of n u = Some h → h_stop h = true.

Lemma start_proc_ok spec u : units_ok_but lost u → stopped_or_absent (sp_name spec) u → units_ok_but lost (start_proc spec u).
Proof.
  intros [Hr Hl] Hno. split; [unfold registry_ok|]; cbn.
  - intros n i [(<- & <-)|[_ H]]%lookup_insert_Some.
    + eexists. rewrite lookup_app_r, Nat.sub_diag by lia. by cbn.
    + destruct (Hr n i H) as (h & Hi & Hn). exists h. split; [|done]. by apply lookup_app_l_Some.
  - intros i h [H|[Hge H]]%lookup_app_Some Hlive.
    + destruct (Hl i h H Hlive) as [Hreg|]; [left|by right].
      rewrite lookup_insert_ne; [done|]. intros E.
      assert (h_stop h = true); [|congruence]. apply Hno. rewrite E. apply handle_of_Some. eauto.
    + left. apply list_lookup_singleton_Some in H as [Hz <-]. cbn. rewrite lookup_insert_eq. f_equal. lia.
Qed.

Lemma halted_stopped h : h_stop h = true → halted h = h.
Proof. destruct h. cbn. by intros ->. Qed.

Lemma stop_all_of ns n u : units_ok_but lost u →
  units_ok_but lost (fold_left (λ u n, stop_unit n u) ns u) ∧
  handle_of n (fold_left (λ u n, stop_unit n u) ns u) =
    if bool_decide (n ∈ ns) then halted <$> handle_of n u else handle_of n u.
Proof.
  revert u. induction ns as [|m ns IH]; intros u Hu; cbn [fold_left]; [done|].
  destruct (IH (stop_unit m u) (stop_unit_ok m u Hu)) as [Hok ->]. split; [done|].
  rewrite stop_unit_of by done. rewrite (bool_decide_ext (n ∈ m :: ns) (n = m ∨ n ∈ ns)) by apply elem_of_cons.
  destruct (String.eqb_spec n m) as [-> |Hne]; repeat case_bool_decide; try tauto.
  by destruct (handle_of m u) as [[]|].
Qed.

(** What the snapshot of a reload says of a unit. *)
Definition seen_as (h : Handle) : bool * Z := (h_stop h, sp_mtime (h_spec h)).

Lemma reload_stop_spec wanted u current stopped u1 : units_ok_but lost u →
  reload_stop wanted u = (current, stopped, u1) →
  units_ok_but lost u1 ∧ (∀ n, current !! n = seen_as <$> handle_of n u1) ∧
  ∀ n, handle_of n u1 = match wanted !! n with Some _ => handle_of n u | None => halted <$> handle_of n u end.
Proof.
  intros Hu. unfold reload_stop. set (gone := List.filter _ _). intros [= <- <- <-].
  destruct (stop_all_of gone "" u Hu) as [Hok _]. split; [done|]. split.
  - intros n. rewrite lookup_omap. unfold handle_of, seen_as. destruct (registry _ !! n) as [i|]; [|done].
    cbn. by destruct (handles _ !! i).
  - intros n. rewrite (proj2 (stop_all_of gone n u Hu)).
    assert (n ∈ gone ↔ wanted !! n = None ∧ ∃ h, handle_of n u = Some h ∧ h_stop h = false) as Hg.
    { subst gone. rewrite list_elem_of_In, filter_In, in_map_iff. split.
      - intros [_ H]. destruct (wanted !! n); [done|]. destruct (handle_of n u) as [h|]; [|done].
        split; [done|]. exists h. split; [done|]. by apply negb_true_iff.
      - intros [-> (h & Hh & Hs)]. split.
        + apply handle_of_Some in Hh as Hh'. destruct Hh' as (i & Hi & _). exists (n, i).
          split; [done|]. apply list_elem_of_In. by apply elem_of_map_to_list.
        + by rewrite Hh, Hs. }
    case_bool_decide as Hin.
    + apply Hg in Hin as [-> _]. done.
    + destruct (wanted !! n) eqn:Ew; [done|]. destruct (handle_of n u) as [h|] eqn:Eh; [|done]. cbn.
      rewrite halted_stopped; [done|]. destruct (h_stop h) eqn:Es; [done|].
      exfalso. apply Hin, Hg. split; [done|]. by exists h.
Qed.

(** A unit after the starts: as it was when it is current, fresh otherwise. *)
Definition settled (spec : Spec) (before after : option Handle) : Prop :=
  ∃ h, after = Some h ∧ h_stop h = false ∧ sp_mtime (h_spec h) = sp_mtime spec ∧
    (before = Some h ∨ h_spec h = spec).

(** One unit decided on: it is settled and the others are as they were. *)
Lemma verdict_settles name spec u : units_ok_but lost u → sp_name spec = name →
  let '(start, stop) := reload_verdict (seen_as <$> handle_of name u) spec in
  let u1 := if stop then stop_unit name u else u in
  let u2 := if start then start_proc spec u1 else u1 in
  units_ok_but lost u2 ∧ (∀ n, n ≠ name → handle_of n u2 = handle_of n u) ∧ settled spec (handle_of name u) (handle_of name u2).
Proof.
  intros Hu Hname. unfold reload_verdict. destruct (handle_of name u) as [h|] eqn:Eh; cbn.
  - destruct (h_stop h) eqn:Es; cbn.
    + split; [|split].
      * apply start_proc_ok; [done|]. intros h'. rewrite Hname, Eh. by intros [= <-].
      * intros n Hn. rewrite (proj2 (start_proc_of n spec u Hu)) by congruence. done.
      * destruct (proj1 (start_proc_of name spec u Hu)) as (h' & -> & Hs & Hl); [done|].
        exists h'. rewrite Hs. auto.
    + destruct (Z.eqb_spec (sp_mtime (h_spec h)) (sp_mtime spec)) as [Em|Em]; cbn.
      { split; [done|]. split; [done|]. rewrite Eh. exists h. auto. }
      assert (units_ok_but lost (stop_unit name u)) as Hu1 by (by apply stop_unit_ok). split; [|split].
      * apply start_proc_ok; [done|]. intros h'. rewrite Hname, stop_unit_of, String.eqb_refl, Eh by done.
        by intros [= <-].
      * intros n Hn. rewrite (proj2 (start_proc_of n spec _ Hu1)) by congruence.
        rewrite stop_unit_of by done. by destruct (String.eqb_spec n name).
      * destruct (proj1 (start_proc_of name spec _ Hu1)) as (h' & -> & Hs & Hl); [done|].
        exists h'. rewrite Hs. auto.
  - split; [|split].
    + apply start_proc_ok; [done|]. intros h'. by rewrite Hname, Eh.
    + intros n Hn. rewrite (proj2 (start_proc_of n spec u Hu)) by congruence. done.
    + destruct (proj1 (start_proc_of name spec u Hu)) as (h' & -> & Hs & Hl); [done|].
      exists h'. rewrite Hs. auto.
Qed.

Lemma reload_start_spec current wanted started stopped u r1 r2 u' :
  units_ok_but lost u → NoDup (map fst wanted) → (∀ n s, (n, s) ∈ wanted → sp_name s = n) →
  (∀ n, n ∈ map fst wanted → current !! n = seen_as <$> handle_of n u) →
  reload_start current wanted started stopped u = (r1, r2, u') →
  units_ok_but lost u' ∧ (∀ n, n ∉ map fst wanted → handle_of n u' = handle_of n u) ∧
  (∀ n s, (n, s) ∈ wanted → settled s (handle_of n u) (handle_of n u')).
Proof.
  revert started stopped u. induction wanted as [|[name spec] wanted IH]; intros started stopped u Hu Hnd Hnm Hcur.
  { cbn. intros [= _ _ <-]. split; [done|]. split; [done|]. intros n s H. by apply elem_of_nil in H. }
  cbn [reload_start]. cbn [map fst] in *. apply NoDup_cons in Hnd as [Hni Hnd].
  pose proof (verdict_settles name spec u Hu (Hnm _ _ ltac:(left))) as Hv. rewrite (Hcur name ltac:(left)).
  destruct (reload_verdict _ spec) as [start stop]. cbv zeta in Hv.
  set (u2 := if start then _ else _) in Hv. destruct Hv as (Hu2 & Hne2 & Hset).
  intros H. change (reload_start current wanted (if start then started + 1 else started)
    (if stop then stopped + 1 else stopped) u2 = (r1, r2, u')) in H.
  eapply IH in H as (Hok & Hrest & Hdone); [|done|done| |].
  2: { intros n s Hin. apply Hnm. by right. }
  2: { intros n Hin. rewrite Hcur by (by right). rewrite Hne2; [done|]. by intros ->. }
  split; [done|]. split.
  - intros n Hn. rewrite elem_of_cons in Hn. rewrite Hrest, Hne2; [done|naive_solver..].
  - intros n s [[= -> ->]|Hin]%elem_of_cons.
    + by rewrite Hrest.
    + assert (n ≠ name). { intros ->. apply Hni. apply (list_elem_of_fmap_2 fst _ _ Hin). }
      specialize (Hdone n s Hin). by rewrite Hne2 in Hdone.
Qed.

Lemma wanted_name specs n s : wanted_of specs !! n = Some s → sp_name s = n.
Proof.
  unfold wanted_of. assert (∀ m : gmap string Spec, (∀ n s, m !! n = Some s → sp_name s = n) →
    ∀ n s, fold_left (λ m s, <[sp_name s := s]> m) specs m !! n = Some s → sp_name s = n) as H.
  { induction specs as [|s' specs IH]; intros m Hm; cbn [fold_left]; [done|]. apply IH.
    intros n' s1 [(<- & <-)|[_ H]]%lookup_insert_Some; [done|by apply Hm]. }
  by apply H.
Qed.

(** A reload makes what runs what the project has, and keeps what is
    current: afterwards a unit that is not in the scan is stopped, a unit of
    the scan has one live handle, of the file's modification time, the handle
    it had when that was live and current, and no other handle is live but
    those that were out of reach before. *)
Lemma reload_settles {E} u specs : units_ok_but lost u → scan_all fs root = @Ok E _ specs →
  ∃ n started stopped u', reload u = @Ok E _ (n, started, stopped, u') ∧ units_ok_but lost u' ∧
    (∀ name, wanted_of specs !! name = None → stopped_or_absent name u') ∧
    (∀ name spec, wanted_of specs !! name = Some spec →
       settled spec (handle_of name u) (handle_of name u')).
Proof.
  intros Hu Hs. unfold reload. rewrite Hs. cbn [mbind res_mbind res_bind]. set (wanted := wanted_of specs).
  destruct (reload_stop wanted u) as [[current stopped] u1] eqn:E1.
  apply reload_stop_spec in E1 as (Hu1 & Hcur & Hof); [|done].
  destruct (reload_start current (map_to_list wanted) 0 stopped u1) as [[a b] u'] eqn:E2.
  apply reload_start_spec in E2 as (Hok & Hrest & Hdone); [|done|apply NoDup_fst_map_to_list| |].
  2: { intros n s Hin%elem_of_map_to_list. by eapply wanted_name. }
  2: { intros n _. apply Hcur. }
  do 4 eexists. split; [done|]. split; [done|]. split.
  - intros n Hn h. rewrite Hrest, Hof, Hn.
    + destruct (handle_of n u); [|done]. by intros [= <-].
    + intros ([n' s] & -> & Hin%elem_of_map_to_list)%list_elem_of_fmap_1. cbn in Hn. congruence.
  - intros n spec Hn. specialize (Hdone n spec ltac:(by apply elem_of_map_to_list)).
    rewrite Hof, Hn in Hdone. done.
Qed.

End Lost.

(** Where no handle is out of reach, none is after. *)
Theorem reload_converges {E} u specs : units_ok u → scan_all fs root = @Ok E _ specs →
  ∃ n started stopped u', reload u = @Ok E _ (n, started, stopped, u') ∧ units_ok u' ∧
    (∀ name, wanted_of specs !! name = None → stopped_or_absent name u') ∧
    (∀ name spec, wanted_of specs !! name = Some spec →
       settled spec (handle_of name u) (handle_of name u')).
Proof. apply reload_settles. Qed.

(** Two reloads at once can leave a unit running twice: when both look at
    the registry before either starts the new unit, both start it, and nothing
    in the registry reaches the first of the two any more. *)
Theorem concurrent_reloads_duplicate spec u current stopped u1 current' stopped' u2 :
  units_ok u → handle_of (sp_name spec) u = None →
  reload_stop {[sp_name spec := spec]} u = (current, stopped, u1) →
  reload_stop {[sp_name spec := spec]} u1 = (current', stopped', u2) →
  let start c u := snd (reload_start c [(sp_name spec, spec)] 0 0 u) in
  let u' := start current' (start current u2) in
  ∃ i j hi hj, i ≠ j ∧ handles u' !! i = Some hi ∧ handles u' !! j = Some hj ∧
    fresh_handle spec hi ∧ fresh_handle spec hj ∧ ∀ n, registry u' !! n ≠ Some i.
Proof.
  intros Hu Hno H1 H2. apply (reload_stop_spec (λ _, False)) in H1 as (Hu1 & Hc1 & Ho1); [|done].
  apply (reload_stop_spec (λ _, False)) in H2 as (Hu2 & Hc2 & Ho2); [|done].
  assert (handle_of (sp_name spec) u1 = None) as E1 by (rewrite Ho1, lookup_singleton_eq; done).
  assert (handle_of (sp_name spec) u2 = None) as E2 by (rewrite Ho2, lookup_singleton_eq; done).
  cbn zeta. cbn [reload_start]. rewrite Hc1, E1, Hc2, E2. cbn [fmap option_fmap option_map reload_verdict snd].
  unfold start_proc. cbn. rewrite length_app. cbn. set (l := length (handles u2)).
  exists l, (l + 1)%nat. do 2 eexists. split; [lia|]. split.
  { apply lookup_app_l_Some. rewrite lookup_app_r, Nat.sub_diag by (subst l; lia). reflexivity. }
  split. { rewrite lookup_app_r by (rewrite length_app; cbn; lia). rewrite length_app. cbn.
    replace (l + 1 - (length (handles u2) + 1))%nat with 0%nat by (subst l; lia). reflexivity. }
  split; [done|]. split; [done|]. intros n Hn.
  rewrite insert_insert_eq in Hn. apply lookup_insert_Some in Hn as [[_ Hn]|[_ Hn]]; [lia|].
  destruct Hu2 as [Hr _]. destruct (Hr n l Hn) as (h & Hh & _). apply lookup_lt_Some in Hh. subst l. lia.
Qed.

End Registry.

(** ** Witnesses *)

Definition no_units : Units := {| registry := ∅; handles := []; rotations := ∅ |}.
Lemma no_units_ok : units_ok no_units.
Proof. split; [intros n i H|intros i h H]; cbn in H; by rewrite ?lookup_nil, ?lookup_empty in H. Qed.

Definition up (_ : string) : bool := true.
Example first_reload :
  (r ← reload (E := ()) demo_fs "/srv" up "" no_units;
   let '(n, started, stopped, u) := r in
   Ok (n, started, stopped, map (λ h, (sp_name (h_spec h), h_stop h)) (handles u))) =
  Ok (3, 3, 0, [("connector:on:in", false); ("flow:a", false); ("flow:b", false)]).
Proof. vm_compute. reflexivity. Qed.

Lemma reload_converges_witness :
  ∃ n started stopped u', reload (E := ()) demo_fs "/srv" up "" no_units = Ok (n, started, stopped, u') ∧
    units_ok u' ∧
    (∀ name, wanted_of demo_units !! name = None → stopped_or_absent name u') ∧
    (∀ name spec, wanted_of demo_units !! name = Some spec →
       settled spec (handle_of name no_units) (handle_of name u')).
Proof. exact (reload_converges demo_fs "/srv" up "" no_units demo_units no_units_ok demo_scanned). Defined.

Definition flow_a : Spec :=
  {| sp_name := "flow:a"; sp_path := "/srv/flows/a.vjs"; sp_pkg := "default"; sp_kind := KFlow; sp_mtime := 7 |}.
Lemma concurrent_reloads_duplicate_witness :
  let start u := snd (reload_start up "" ∅ [("flow:a", flow_a)] 0 0 u) in
  let u' := start (start no_units) in
  ∃ i j hi hj, i ≠ j ∧ handles u' !! i = Some hi ∧ handles u' !! j = Some hj ∧
    fresh_handle flow_a hi ∧ fresh_handle flow_a hj ∧ ∀ n, registry u' !! n ≠ Some i.
Proof.
  exact (concurrent_reloads_duplicate "/srv" up "" flow_a no_units ∅ 0 no_units ∅ 0 no_units no_units_ok
    eq_refl eq_refl eq_refl).
Defined.
