(* ===== verification/Metrics.v ===== *)
(** * Metrics

    The counters of the units and their text, and the spans that are exported
    (core/src/metrics.rs).  The table of units is a map; the counters are
    64-bit and wrap.  The clock and the exporter's queue are arguments. *)

From stdpp Require Import base gmap list strings.
From Stdlib Require Import ZArith Lia Ascii SpecFloat Znumtheory Zpow_facts Sorted.
From S2P Require Import Prelude Text F64 Json.
Open Scope string_scope.
Open Scope Z_scope.

(** ** Floats as text

    [Display] writes the shortest decimal that reads back as the number, the
    closest one when there are two, and no exponent; [{:.6}] rounds the exact
    value, to even on a tie. *)

(** The exact value of a positive finite float as a fraction. *)
Definition frac_of (m : positive) (e : Z) : Z * Z :=
  if 0 <=? e then (Zpos m * 2 ^ e, 1) else (Zpos m, 2 ^ (- e)).

(** The power of ten of the first digit of [n / d]. *)
Fixpoint exp10_down (fuel : nat) (n d : Z) : Z :=
  match fuel with
  | O => 0
  | S fuel => if d <=? n then 0 else exp10_down fuel (n * 10) d - 1
  end.
Fixpoint exp10_up (fuel : nat) (n d : Z) : Z :=
  match fuel with
  | O => 0
  | S fuel => if n <? d * 10 then 0 else exp10_up fuel n (d * 10) + 1
  end.
Definition exp10 (n d : Z) : Z :=
  if n <? d then exp10_down 400 n d else exp10_up 400 n d.

Definition pow10_ratio (k : Z) : Z * Z := if 0 <=? k then (10 ^ k, 1) else (1, 10 ^ (- k)).

(** The decimals of [count] digits next to the number, the nearer one first. *)
Definition near_decimals (n d : Z) (scale : Z) : list Z :=
  let '(a, b) := pow10_ratio scale in
  let lo := (n * a) / (d * b) in
  if 2 * ((n * a) mod (d * b)) <=? d * b then [lo; lo + 1] else [lo + 1; lo].

Fixpoint shortest (fuel : nat) (count : Z) (x : f64) (n d p : Z) : Z * Z :=
  let scale := count - 1 - p in
  match List.find (λ c, f64_eqb (f64_of_dec false (Z.to_N c) (- scale)) x) (near_decimals n d scale), fuel with
  | Some c, _ => (c, - scale)
  | None, S fuel => shortest fuel (count + 1) x n d p
  | None, O => (default 0 (head (near_decimals n d scale)), - scale)
  end.

Fixpoint zeros (n : nat) : string := match n with O => "" | S n => String "0" (zeros n) end.

(** The digits [c] with the point [k] places from their end, trailing zeros of
    the fraction dropped. *)
Definition place_point (c k : Z) : string :=
  if 0 <=? k then dec_of_Z (c * 10 ^ k)
  else
    let w := Z.to_nat (- k) in
    let t := dec_of_Z c in
    let t := (if (slen t <=? w)%nat then zeros (S w - slen t) ++ t else t) in
    let frac := trim_end_byte "0" (sdrop (slen t - w) t) in
    stake (slen t - w) t ++ (if String.eqb frac "" then "" else "." ++ frac).

Definition show_f64 (x : f64) : string :=
  match x with
  | S754_nan => "NaN"
  | S754_infinity s => if s then "-inf" else "inf"
  | S754_zero s => if s then "-0" else "0"
  | S754_finite s m e =>
    let '(n, d) := frac_of m e in
    let '(c, k) := shortest 16 1 (S754_finite false m e) n d (exp10 n d) in
    (if s then "-" else "") ++ place_point c k
  end.

(** Division to the nearest, ties to even. *)
Definition div_even (n d : Z) : Z :=
  let q := n / d in
  match 2 * (n mod d) ?= d with
  | Lt => q
  | Gt => q + 1
  | Eq => if Z.even q then q else q + 1
  end.

Definition show_micros (x : f64) : string :=
  match x with
  | S754_nan => "NaN"
  | S754_infinity s => if s then "-inf" else "inf"
  | S754_zero s => if s then "-0.000000" else "0.000000"
  | S754_finite s m e =>
    let '(n, d) := frac_of m e in
    let c := div_even (n * 1000000) d in
    let frac := dec_of_Z (c mod 1000000) in
    (if s then "-" else "") ++ dec_of_Z (c / 1000000) ++ "." ++ zeros (6 - slen frac) ++ frac
  end.

Example shown : map (λ s, show_f64 (default f64_zero (parse_f64 s))) ["0.0005"; "5"; "0.1"; "1e3"; "2.5"; "1e-7"] =
  ["0.0005"; "5"; "0.1"; "1000"; "2.5"; "0.0000001"].
Proof. vm_compute. reflexivity. Qed.
Example shown_sum : show_f64 (f64_add (default f64_zero (parse_f64 "0.1")) (default f64_zero (parse_f64 "0.2"))) =
  "0.30000000000000004".
Proof. vm_compute. reflexivity. Qed.
Example shown_micros : show_micros (default f64_zero (parse_f64 "12.3456785")) = "12.345678".
Proof. vm_compute. reflexivity. Qed.

(** ** Counters *)

(** core/src/metrics.rs:16-18 [BUCKETS] *)
Definition BUCKETS : list f64 := Eval vm_compute in
  map (λ s, default f64_zero (parse_f64 s))
    ["0.0005"; "0.001"; "0.0025"; "0.005"; "0.01"; "0.025"; "0.05"; "0.1"; "0.25"; "0.5"; "1.0"; "2.5"; "5.0"].

(** core/src/metrics.rs [Unit] *)
Record Unit : Type := {
  u_ok : Z;
  u_err : Z;
  u_emits : Z;
  u_dead : Z;
  u_rejected : Z;
  fetch_rounds : Z;
  fetch_messages : Z;
  round_fetch_secs : f64;
  round_process_secs : f64;
  round_barrier_secs : f64;
  u_buckets : list Z;
  u_sum : f64;
  u_count : Z;
  snapshots : Z;
  snapshot_seq : Z;
  snapshot_size : Z;
  snapshot_secs : f64;
  restores : Z;
  restore_seq : Z
}.

Definition no_unit : Unit :=
  {| u_ok := 0; u_err := 0; u_emits := 0; u_dead := 0; u_rejected := 0; fetch_rounds := 0;
     fetch_messages := 0; round_fetch_secs := f64_zero; round_process_secs := f64_zero;
     round_barrier_secs := f64_zero; u_buckets := repeat 0 13; u_sum := f64_zero; u_count := 0;
     snapshots := 0; snapshot_seq := 0; snapshot_size := 0; snapshot_secs := f64_zero;
     restores := 0; restore_seq := 0 |}.

Notation UNITS := (gmap string Unit).

(** A counter of 64 bits. *)
Definition add64 (a b : Z) : Z := wrap 64 (a + b).

(** The entry of a unit, made on first use. *)
Definition on_unit (unit : string) (f : Unit → Unit) (m : UNITS) : UNITS :=
  <[unit := f (default no_unit (m !! unit))]> m.

(** core/src/metrics.rs:77-81 [observe] *)
Definition bump_buckets (secs : f64) (counts : list Z) : list Z :=
  zip_with (λ bound n, if f64_leb secs bound then add64 n 1 else n) BUCKETS counts.

(** core/src/metrics.rs [observe] *)
Definition observe (unit : string) (ok : bool) (emits : Z) (secs : f64) : UNITS → UNITS :=
  on_unit unit (λ u,
    {| u_ok := if ok then add64 (u_ok u) 1 else u_ok u;
       u_err := if ok then u_err u else add64 (u_err u) 1;
       u_emits := add64 (u_emits u) emits; u_dead := u_dead u; u_rejected := u_rejected u;
       fetch_rounds := fetch_rounds u; fetch_messages := fetch_messages u;
       round_fetch_secs := round_fetch_secs u; round_process_secs := round_process_secs u;
       round_barrier_secs := round_barrier_secs u;
       u_buckets := bump_buckets secs (u_buckets u);
       u_sum := f64_add (u_sum u) secs; u_count := add64 (u_count u) 1;
       snapshots := snapshots u; snapshot_seq := snapshot_seq u; snapshot_size := snapshot_size u;
       snapshot_secs := snapshot_secs u; restores := restores u; restore_seq := restore_seq u |}).

(** core/src/metrics.rs [observe_tick_emits] *)
Definition observe_tick_emits (unit : string) (emits : Z) : UNITS → UNITS :=
  on_unit unit (λ u,
    {| u_ok := u_ok u; u_err := u_err u; u_emits := add64 (u_emits u) emits; u_dead := u_dead u;
       u_rejected := u_rejected u; fetch_rounds := fetch_rounds u; fetch_messages := fetch_messages u;
       round_fetch_secs := round_fetch_secs u; round_process_secs := round_process_secs u;
       round_barrier_secs := round_barrier_secs u; u_buckets := u_buckets u; u_sum := u_sum u;
       u_count := u_count u; snapshots := snapshots u; snapshot_seq := snapshot_seq u;
       snapshot_size := snapshot_size u; snapshot_secs := snapshot_secs u; restores := restores u;
       restore_seq := restore_seq u |}).

(** core/src/metrics.rs [observe_fetch] *)
Definition observe_fetch (unit : string) (messages : Z) : UNITS → UNITS :=
  on_unit unit (λ u,
    {| u_ok := u_ok u; u_err := u_err u; u_emits := u_emits u; u_dead := u_dead u;
       u_rejected := u_rejected u; fetch_rounds := add64 (fetch_rounds u) 1;
       fetch_messages := add64 (fetch_messages u) messages;
       round_fetch_secs := round_fetch_secs u; round_process_secs := round_process_secs u;
       round_barrier_secs := round_barrier_secs u; u_buckets := u_buckets u; u_sum := u_sum u;
       u_count := u_count u; snapshots := snapshots u; snapshot_seq := snapshot_seq u;
       snapshot_size := snapshot_size u; snapshot_secs := snapshot_secs u; restores := restores u;
       restore_seq := restore_seq u |}).

(** core/src/metrics.rs [observe_round] *)
Definition observe_round (unit : string) (fetch process barrier : f64) : UNITS → UNITS :=
  on_unit unit (λ u,
    {| u_ok := u_ok u; u_err := u_err u; u_emits := u_emits u; u_dead := u_dead u;
       u_rejected := u_rejected u; fetch_rounds := fetch_rounds u; fetch_messages := fetch_messages u;
       round_fetch_secs := f64_add (round_fetch_secs u) fetch;
       round_process_secs := f64_add (round_process_secs u) process;
       round_barrier_secs := f64_add (round_barrier_secs u) barrier; u_buckets := u_buckets u;
       u_sum := u_sum u; u_count := u_count u; snapshots := snapshots u;
       snapshot_seq := snapshot_seq u; snapshot_size := snapshot_size u;
       snapshot_secs := snapshot_secs u; restores := restores u; restore_seq := restore_seq u |}).

(** core/src/metrics.rs [observe_snapshot] *)
Definition observe_snapshot (unit : string) (seq bytes : Z) (secs : f64) : UNITS → UNITS :=
  on_unit unit (λ u,
    {| u_ok := u_ok u; u_err := u_err u; u_emits := u_emits u; u_dead := u_dead u;
       u_rejected := u_rejected u; fetch_rounds := fetch_rounds u; fetch_messages := fetch_messages u;
       round_fetch_secs := round_fetch_secs u; round_process_secs := round_process_secs u;
       round_barrier_secs := round_barrier_secs u; u_buckets := u_buckets u; u_sum := u_sum u;
       u_count := u_count u; snapshots := add64 (snapshots u) 1; snapshot_seq := seq;
       snapshot_size := bytes; snapshot_secs := f64_add (snapshot_secs u) secs;
       restores := restores u; restore_seq := restore_seq u |}).

(** core/src/metrics.rs [observe_restore] *)
Definition observe_restore (unit : string) (seq : Z) : UNITS → UNITS :=
  on_unit unit (λ u,
    {| u_ok := u_ok u; u_err := u_err u; u_emits := u_emits u; u_dead := u_dead u;
       u_rejected := u_rejected u; fetch_rounds := fetch_rounds u; fetch_messages := fetch_messages u;
       round_fetch_secs := round_fetch_secs u; round_process_secs := round_process_secs u;
       round_barrier_secs := round_barrier_secs u; u_buckets := u_buckets u; u_sum := u_sum u;
       u_count := u_count u; snapshots := snapshots u; snapshot_seq := snapshot_seq u;
       snapshot_size := snapshot_size u; snapshot_secs := snapshot_secs u;
       restores := add64 (restores u) 1; restore_seq := seq |}).

(** core/src/metrics.rs [inc_dead_letter] *)
Definition inc_dead_letter (unit : string) : UNITS → UNITS :=
  on_unit unit (λ u,
    {| u_ok := u_ok u; u_err := u_err u; u_emits := u_emits u; u_dead := add64 (u_dead u) 1;
       u_rejected := u_rejected u; fetch_rounds := fetch_rounds u; fetch_messages := fetch_messages u;
       round_fetch_secs := round_fetch_secs u; round_process_secs := round_process_secs u;
       round_barrier_secs := round_barrier_secs u; u_buckets := u_buckets u; u_sum := u_sum u;
       u_count := u_count u; snapshots := snapshots u; snapshot_seq := snapshot_seq u;
       snapshot_size := snapshot_size u; snapshot_secs := snapshot_secs u; restores := restores u;
       restore_seq := restore_seq u |}).

(** core/src/metrics.rs [inc_rejected] *)
Definition inc_rejected (unit : string) : UNITS → UNITS :=
  on_unit unit (λ u,
    {| u_ok := u_ok u; u_err := u_err u; u_emits := u_emits u; u_dead := u_dead u;
       u_rejected := add64 (u_rejected u) 1; fetch_rounds := fetch_rounds u;
       fetch_messages := fetch_messages u; round_fetch_secs := round_fetch_secs u;
       round_process_secs := round_process_secs u; round_barrier_secs := round_barrier_secs u;
       u_buckets := u_buckets u; u_sum := u_sum u; u_count := u_count u; snapshots := snapshots u;
       snapshot_seq := snapshot_seq u; snapshot_size := snapshot_size u;
       snapshot_secs := snapshot_secs u; restores := restores u; restore_seq := restore_seq u |}).

(** ** The exposition *)

Definition nl_byte : byte := "010".
Definition line (l : list string) : string := str_join "" l ++ String nl_byte "".

(** The replacements of one byte at a time. *)
Definition replace_byte (b : byte) (by_ : string) (s : string) : string :=
  str_join "" (map (λ c, if Ascii.eqb c b then by_ else String c "") (String.list_ascii_of_string s)).

Definition backslash : byte := "092".
Definition quote : byte := "034".
Definition nl_letter : byte := "n".
(** core/src/metrics.rs [esc] *)
Definition esc (s : string) : string :=
  let s := replace_byte backslash (String backslash (String backslash "")) s in
  let s := replace_byte quote (String backslash (String quote "")) s in
  replace_byte nl_byte (String backslash (String nl_letter "")) s.

(** [name{unit="u",k="v"} value]. *)
Definition sample (name unit : string) (labels : list (string * string)) (value : string) : string :=
  let q := String quote "" in
  line ([name; "{unit="; q; esc unit; q]
        ++ flat_map (λ kv, [","; fst kv; "="; q; snd kv; q]) labels ++ ["} "; value])%list.

(** A family of samples, one a unit. *)
Definition family (name kind help : string) (rows : list string) : string :=
  line ["# HELP "; name; " "; help] ++ line ["# TYPE "; name; " "; kind] ++ str_join "" rows.

Definition per_unit (name : string) (value : Unit → string) (units : list (string * Unit)) : list string :=
  map (λ ku, sample name (fst ku) [] (value (snd ku))) units.

(** core/src/metrics.rs:155-169 [render] *)
Definition units_text (gauges : list (string * string * Z)) : string :=
  let connectors := length (List.filter (λ g, String.eqb (snd (fst g)) "connector") gauges) in
  let flows := (length gauges - connectors)%nat in
  let q := String quote "" in
  line ["# HELP vejas_units Supervised units by kind."] ++ line ["# TYPE vejas_units gauge"] ++
  line ["vejas_units{kind="; q; "flow"; q; "} "; dec_of_Z (Z.of_nat flows)] ++
  line ["vejas_units{kind="; q; "connector"; q; "} "; dec_of_Z (Z.of_nat connectors)].

(** core/src/metrics.rs:180-191 [render] *)
Definition processed_rows (units : list (string * Unit)) : list string :=
  flat_map (λ ku : string * Unit, let '(k, u) := ku in
    [sample "vejas_events_processed_total" k [("result", "ok")] (dec_of_Z (u_ok u));
     sample "vejas_events_processed_total" k [("result", "error")] (dec_of_Z (u_err u))]) units.

(** core/src/metrics.rs:245-259 [render] *)
Definition round_rows (units : list (string * Unit)) : list string :=
  flat_map (λ ku : string * Unit, let '(k, u) := ku in
    [sample "vejas_round_seconds_sum" k [("phase", "fetch")] (show_f64 (round_fetch_secs u));
     sample "vejas_round_seconds_sum" k [("phase", "process")] (show_f64 (round_process_secs u));
     sample "vejas_round_seconds_sum" k [("phase", "barrier")] (show_f64 (round_barrier_secs u))]) units.

(** core/src/metrics.rs:291-312 [render] *)
Definition duration_rows (ku : string * Unit) : list string :=
  let '(k, u) := ku in
  (zip_with (λ bound n, sample "vejas_event_duration_seconds_bucket" k [("le", show_f64 bound)] (dec_of_Z n))
     BUCKETS (u_buckets u) ++
   [sample "vejas_event_duration_seconds_bucket" k [("le", "+Inf")] (dec_of_Z (u_count u));
    sample "vejas_event_duration_seconds_sum" k [] (show_f64 (u_sum u));
    sample "vejas_event_duration_seconds_count" k [] (dec_of_Z (u_count u))])%list.

(** The units are listed in the order of the map. *)
(** core/src/metrics.rs [render] *)
Definition render (gauges : list (string * string * Z)) (m : UNITS) : string :=
  let units := map_to_list m in
  let count name help value := family name "counter" help (per_unit name value units) in
  let gauge name help value := family name "gauge" help (per_unit name value units) in
  line ["# HELP vejas_up 1 while the runtime is serving."] ++
  line ["# TYPE vejas_up gauge"] ++ line ["vejas_up 1"] ++
  units_text gauges ++
  family "vejas_flow_restarts" "gauge" "Supervisor restarts of a unit since it was (re)loaded."
    (map (λ g, sample "vejas_flow_restarts" (fst (fst g)) [] (dec_of_Z (snd g))) gauges) ++
  family "vejas_events_processed_total" "counter" "Events a unit processed, by result." (processed_rows units) ++
  count "vejas_fetch_rounds_total" "Pull rounds a unit's consumer loop made." (λ u, dec_of_Z (fetch_rounds u)) ++
  count "vejas_fetch_messages_total" "Messages those pull rounds returned." (λ u, dec_of_Z (fetch_messages u)) ++
  count "vejas_snapshots_total" "Snapshots a detect unit took of its engine state." (λ u, dec_of_Z (snapshots u)) ++
  gauge "vejas_snapshot_seq" "Stream sequence the unit's latest snapshot stands for: everything up to it is in the state, everything after it replays on restart." (λ u, dec_of_Z (snapshot_seq u)) ++
  gauge "vejas_snapshot_bytes" "Size of the unit's latest snapshot." (λ u, dec_of_Z (snapshot_size u)) ++
  count "vejas_snapshot_seconds_sum" "Time spent taking and storing snapshots." (λ u, show_micros (snapshot_secs u)) ++
  count "vejas_restores_total" "Restarts that restored a snapshot and resumed the consumer after it." (λ u, dec_of_Z (restores u)) ++
  gauge "vejas_restore_seq" "Stream sequence the unit's last restore resumed at." (λ u, dec_of_Z (restore_seq u)) ++
  family "vejas_round_seconds_sum" "counter" "Wall time of the consumer loop by phase: fetch (wait for the first message of a round), process, barrier (flush + acks)." (round_rows units) ++
  count "vejas_emits_published_total" "Messages a unit published to the bus." (λ u, dec_of_Z (u_emits u)) ++
  family "vejas_http_rejected_total" "counter" "Connections or requests refused past a bound, or for want of a thread."
    (per_unit "vejas_http_rejected_total" (λ u, dec_of_Z (u_rejected u))
       (List.filter (λ ku, 0 <? u_rejected (snd ku)) units)) ++
  count "vejas_dead_letters_total" "Messages a unit dead-lettered (ADR-0015)." (λ u, dec_of_Z (u_dead u)) ++
  family "vejas_event_duration_seconds" "histogram" "In-process per-event processing time."
    (flat_map duration_rows units).

(** ** Spans *)

(** core/src/metrics.rs [Span] *)
Record Span : Type := {
  s_unit : string;
  s_subject : string;
  s_ok : bool;
  s_error : option string;
  start_nanos : Z;
  end_nanos : Z;
  s_emits : Z
}.

Definition hex16 (z : Z) : string := hex_fixed 16 (Z.to_N (wrap 64 z)) "".
(** The counter takes one number an id; the clock is read for each. *)
(** core/src/metrics.rs [id_hex] *)
Definition id_hex (bytes : Z) (now : Z) (seq : Z) : string * Z :=
  (if bytes =? 16 then hex16 now ++ hex16 (seq * 0x9E3779B97F4A7C15)
   else hex16 (Z.lxor seq (wrap 64 now) * 0xD6E8FEB86659FD93), add64 seq 1).

(** core/src/metrics.rs:400-428 [otlp_payload] *)
Definition span_json (now : Z) (s : Span) (seq : Z) : Value * Z :=
  let text k v := obj [("key", VString k); ("value", obj [("stringValue", VString v)])] in
  let attrs := ([text "vejas.unit" (s_unit s); text "messaging.destination.name" (s_subject s);
                 obj [("key", VString "vejas.emits"); ("value", obj [("intValue", vint (s_emits s))])]]
                ++ match s_error s with Some e => [text "error.message" e] | None => [] end)%list in
  let '(trace, seq) := id_hex 16 now seq in
  let '(span, seq) := id_hex 8 now seq in
  (obj [("traceId", VString trace); ("spanId", VString span); ("name", VString (s_unit s));
        ("kind", vint 5); ("startTimeUnixNano", VString (dec_of_Z (start_nanos s)));
        ("endTimeUnixNano", VString (dec_of_Z (end_nanos s))); ("attributes", VArray attrs);
        ("status", obj [("code", vint (if s_ok s then 1 else 2))])], seq).
(** core/src/metrics.rs:396-428 [otlp_payload] *)
Fixpoint spans_json (now : Z) (l : list Span) (seq : Z) : list Value * Z :=
  match l with
  | [] => ([], seq)
  | s :: l =>
    let '(v, seq) := span_json now s seq in
    let '(vs, seq) := spans_json now l seq in
    (v :: vs, seq)
  end.
(** core/src/metrics.rs [otlp_payload] *)
Definition otlp_payload `{Serde} (service : string) (spans : list Span) (now seq : Z) : string * Z :=
  let '(l, seq) := spans_json now spans seq in
  (to_json (obj [("resourceSpans", VArray [obj [
     ("resource", obj [("attributes", VArray [obj [("key", VString "service.name");
        ("value", obj [("stringValue", VString service)])]])]);
     ("scopeSpans", VArray [obj [("scope", obj [("name", VString "vejas.runtime")]);
                                 ("spans", VArray l)]])]])]), seq).

(** The exporter's queue: bounded, a span that finds it full is dropped.
    [None] when no endpoint is configured. *)
Definition queue_bound : nat := 4096.
(** core/src/metrics.rs [span] *)
Definition span (s : Span) (tx : option (list Span)) : option (list Span) :=
  match tx with
  | None => None
  | Some q => if (length q <? queue_bound)%nat then Some (q ++ [s])%list else Some q
  end.
(** A turn of the exporter: what it takes and posts, and what stays queued. *)
(** core/src/metrics.rs:362-379 [otlp_init] *)
Definition export_turn (q : list Span) : option (list Span * list Span) :=
  match q with
  | [] => None
  | _ => Some (take 512 q, drop 512 q)
  end.
(** core/src/metrics.rs:347-357 [otlp_init] *)
Definition otlp_init (env : string → option string) : option (string * string * list Span) :=
  endpoint ← env "OTEL_EXPORTER_OTLP_ENDPOINT";
  Some (trim_end_byte "/" endpoint ++ "/v1/traces", default "vejas" (env "OTEL_SERVICE_NAME"), []).

(** ** The histogram *)

(** The order on floats is transitive through a positive bound. *)
Definition positive_finite (x : f64) : Prop := match x with S754_finite false _ _ => True | _ => False end.

Lemma leb_trans x a b : positive_finite a → positive_finite b →
  f64_leb x a = true → f64_leb a b = true → f64_leb x b = true.
Proof.
  unfold f64_leb, SFleb. destruct a as [| | |[] ma ea], b as [| | |[] mb eb]; try done. intros _ _.
  destruct x as [|[]| |[] mx ex]; cbn [SFcompare]; try done.
  destruct (Z.compare_spec ex ea), (Z.compare_spec ea eb); subst; try done;
    try (by rewrite (proj2 (Z.compare_lt_iff _ _)) by lia).
  - rewrite Z.compare_refl. rewrite !Pos.compare_cont_spec; cbn.
    destruct (Pos.compare_spec mx ma), (Pos.compare_spec ma mb); subst; try done; intros _ _;
      try (by rewrite Pos.compare_refl); rewrite (proj2 (Pos.compare_lt_iff _ _)) by lia; done.
Qed.

Definition is_positive (x : f64) : bool := match x with S754_finite false _ _ => true | _ => false end.
Fixpoint ascending (l : list f64) : bool :=
  match l with
  | a :: (b :: _) as r => is_positive a && is_positive b && f64_leb a b && ascending r
  | _ => true
  end.
Lemma bounds_ascend : ascending BUCKETS = true.
Proof. vm_compute. reflexivity. Qed.

(** The samples of a unit: whether it went well, its emits, its time. *)
Notation samples := (list (bool * Z * f64)).
Definition within (bound : f64) (l : samples) : Z :=
  Z.of_nat (length (List.filter (λ s, f64_leb (snd s) bound) l)).
Definition observe_all (unit : string) (l : samples) (m : UNITS) : UNITS :=
  fold_left (λ m s, observe unit (fst (fst s)) (snd (fst s)) (snd s) m) l m.

Lemma within_snoc b l s : within b (l ++ [s]) = within b l + (if f64_leb (snd s) b then 1 else 0).
Proof. unfold within. rewrite List.filter_app, length_app. cbn. destruct (f64_leb _ _); cbn; lia. Qed.
Lemma within_bound b l : 0 <= within b l <= Z.of_nat (length l).
Proof.
  unfold within. pose proof (List.filter_length_le (λ s : bool * Z * f64, f64_leb (snd s) b) l). lia.
Qed.
Lemma within_mono a b l : is_positive a = true → is_positive b = true → f64_leb a b = true →
  within a l <= within b l.
Proof.
  intros Ha Hb Hab. induction l as [|s l IH] using rev_ind; [done|]. rewrite !within_snoc.
  assert (f64_leb (snd s) a = true → f64_leb (snd s) b = true).
  { intros H. by apply (leb_trans (snd s) a b); [destruct a as [| | |[]]|destruct b as [| | |[]]|..]. }
  destruct (f64_leb (snd s) a), (f64_leb (snd s) b); naive_solver lia.
Qed.

Lemma bump_within l s :
  Z.of_nat (length l) < u64_max →
  bump_buckets (snd s) (map (λ b, within b l) BUCKETS) = map (λ b, within b (l ++ [s])) BUCKETS.
Proof.
  intros Hl. unfold bump_buckets. generalize BUCKETS as bounds. intros bounds.
  induction bounds as [|b bounds IH]; cbn; [done|]. f_equal; [|exact IH].
  rewrite within_snoc. pose proof (within_bound b l). unfold add64. destruct (f64_leb _ _); [|lia].
  apply wrap_small. unfold u64_max in *. lia.
Qed.

(** What one event does to its unit. *)
Lemma observe_fields unit ok e t m :
  let u := default no_unit (m !! unit) in
  let v := default no_unit (observe unit ok e t m !! unit) in
  u_buckets v = bump_buckets t (u_buckets u) ∧ u_count v = add64 (u_count u) 1 ∧
  u_ok v = (if ok then add64 (u_ok u) 1 else u_ok u) ∧
  u_err v = (if ok then u_err u else add64 (u_err u) 1).
Proof. cbv zeta. unfold observe, on_unit. by rewrite lookup_insert_eq. Qed.
Lemma observe_other unit ok e t m k : k ≠ unit → observe unit ok e t m !! k = m !! k.
Proof. intros H. unfold observe, on_unit. by rewrite lookup_insert_ne. Qed.

Lemma ascending_within l bounds : ascending bounds = true →
  Sorted Z.le (map (λ b, within b l) bounds ++ [Z.of_nat (length l)]).
Proof.
  induction bounds as [|a [|b bounds] IH]; intros H; cbn.
  - by repeat constructor.
  - repeat constructor. apply within_bound.
  - cbn [ascending] in H. rewrite !andb_true_iff in H. destruct H as [[[Ha Hb] Hab] H].
    constructor; [by apply IH|]. constructor. by apply within_mono.
Qed.

(** The buckets of a unit's histogram are the counts the exposition calls
    for: each is the number of events that took at most its bound, so they
    ascend and end in the number of events, which is that of the successes and
    the failures; and no other unit is touched. *)
Theorem histogram_cumulative unit (l : samples) (m : UNITS) :
  m !! unit = None → Z.of_nat (length l) < 2 ^ 64 →
  let u := default no_unit (observe_all unit l m !! unit) in
  u_buckets u = map (λ b, within b l) BUCKETS ∧ u_count u = Z.of_nat (length l) ∧
  u_ok u + u_err u = u_count u ∧ Sorted Z.le (u_buckets u ++ [u_count u]) ∧
  (∀ k, k ≠ unit → observe_all unit l m !! k = m !! k).
Proof.
  intros Hm Hl u.
  assert (u_buckets u = map (λ b, within b l) BUCKETS ∧ u_count u = Z.of_nat (length l) ∧
    u_ok u + u_err u = Z.of_nat (length l) ∧ 0 <= u_ok u ∧ 0 <= u_err u ∧
    (∀ k, k ≠ unit → observe_all unit l m !! k = m !! k)) as (Hb & Hc & Ho & _ & _ & Hk).
  { subst u. induction l as [|s l IH] using rev_ind.
    { cbn [observe_all fold_left]. rewrite Hm. repeat split; done. }
    rewrite length_app in Hl |- *. cbn [length] in *.
    destruct IH as (Hb & Hc & Ho & H1 & H2 & Hk); [lia|].
    unfold observe_all in *. rewrite fold_left_app. cbn [fold_left]. destruct s as [[ok e] t]. cbn [fst snd].
    destruct (observe_fields unit ok e t (fold_left (λ m s, observe unit (fst (fst s)) (snd (fst s)) (snd s) m) l m))
      as (-> & -> & -> & ->).
    rewrite Hb, Hc, <- (bump_within l (ok, e, t)) by (unfold u64_max; lia). unfold add64.
    split; [done|]. rewrite (wrap_small 64 (Z.of_nat (length l) + 1)) by lia. split; [lia|].
    destruct ok; (rewrite wrap_small by lia); (split; [lia|]); (split; [lia|]); (split; [lia|]);
      intros k Hn; (rewrite observe_other by done); by apply Hk. }
  split; [done|]. split; [done|]. split; [lia|]. split; [|done]. rewrite Hb, Hc.
  apply ascending_within, bounds_ascend.
Qed.

Definition two_samples : samples :=
  [(true, 2, default f64_zero (parse_f64 "0.003")); (false, 0, default f64_zero (parse_f64 "0.02"))].
Lemma histogram_cumulative_witness :
  let u := default no_unit (observe_all "flow:t" two_samples ∅ !! "flow:t") in
  u_buckets u = [0; 0; 0; 1; 1; 2; 2; 2; 2; 2; 2; 2; 2] ∧ u_count u = 2.
Proof.
  destruct (histogram_cumulative "flow:t" two_samples ∅) as (Hb & Hc & _); [reflexivity|reflexivity|].
  split; [|exact Hc]. cbv zeta in Hb. etransitivity; [exact Hb|]. vm_compute. reflexivity.
Defined.

(** ** Labels *)

(** Reading a quoted label of the text format: up to the quote that closes it. *)
Fixpoint read_label (s : string) : option (string * string) :=
  match s with
  | "" => None
  | String c r =>
    if Ascii.eqb c quote then Some ("", r)
    else if Ascii.eqb c nl_byte then None
    else if Ascii.eqb c backslash then
      match r with
      | "" => None
      | String d r =>
        '(v, rest) ← read_label r;
        if Ascii.eqb d nl_letter then Some (String nl_byte v, rest)
        else if Ascii.eqb d quote || Ascii.eqb d backslash then Some (String d v, rest)
        else None
      end
    else '(v, rest) ← read_label r; Some (String c v, rest)
  end.

Lemma replace_byte_cons b by_ c s :
  replace_byte b by_ (String c s) = (if Ascii.eqb c b then by_ else String c "") ++ replace_byte b by_ s.
Proof.
  unfold replace_byte. cbn [String.list_ascii_of_string map str_join String.concat].
  destruct (map _ (String.list_ascii_of_string s)); cbn; [by rewrite app_nil_str|done].
Qed.

Lemma esc_cons c s :
  esc (String c s) =
  (if Ascii.eqb c backslash then String backslash (String backslash "")
   else if Ascii.eqb c quote then String backslash (String quote "")
   else if Ascii.eqb c nl_byte then String backslash (String nl_letter "")
   else String c "") ++ esc s.
Proof.
  assert (Ascii.eqb backslash quote = false ∧ Ascii.eqb backslash nl_byte = false ∧
          Ascii.eqb quote nl_byte = false ∧ Ascii.eqb nl_letter nl_byte = false ∧
          Ascii.eqb nl_byte nl_byte = true ∧ Ascii.eqb quote quote = true ∧ Ascii.eqb nl_byte quote = false)
    as (E1 & E2 & E3 & E4 & E5 & E6 & E7)
    by (repeat split).
  unfold esc. rewrite replace_byte_cons.
  destruct (Ascii.eqb_spec c backslash) as [-> |Hb];
    [|destruct (Ascii.eqb_spec c quote) as [-> |Hq];
      [|destruct (Ascii.eqb_spec c nl_byte) as [-> |Hn]]]; cbn [String.append];
    repeat (rewrite replace_byte_cons, ?E1, ?E2, ?E3, ?E4, ?E5, ?E6, ?E7; cbn [String.append]); try done.
  apply Ascii.eqb_neq in Hq, Hn. rewrite Hq. cbn [String.append]. by rewrite replace_byte_cons, Hn.
Qed.

(** Whatever a unit is called, its label in the exposition reads back as
    its name, and the reader stops at the quote that closes the label: a name
    cannot break out of it. *)
Theorem labels_roundtrip s rest : read_label (esc s ++ String quote rest) = Some (s, rest).
Proof.
  induction s as [|c s IH]; [done|]. rewrite esc_cons, <- app_assoc_str.
  destruct (Ascii.eqb_spec c backslash) as [-> |Hb]; [cbn; by rewrite IH|].
  destruct (Ascii.eqb_spec c quote) as [-> |Hq]; [cbn; by rewrite IH|].
  destruct (Ascii.eqb_spec c nl_byte) as [-> |Hn]; [cbn; by rewrite IH|].
  cbn [String.append read_label]. apply Ascii.eqb_neq in Hb, Hq, Hn. rewrite Hb, Hq, Hn, IH. done.
Qed.

(** ** Ids *)

Lemma hex_char_inj a b : (a < 16)%N → (b < 16)%N → hex_char false a = hex_char false b → a = b.
Proof.
  intros Ha Hb. unfold hex_char. intros H.
  repeat case_match; apply (f_equal N_of_ascii) in H; rewrite !N_ascii_embedding in H by lia; lia.
Qed.

Lemma hex_fixed_inj w n n' acc acc' : slen acc = slen acc' →
  hex_fixed w n acc = hex_fixed w n' acc' →
  acc = acc' ∧ (n mod 16 ^ N.of_nat w = n' mod 16 ^ N.of_nat w)%N.
Proof.
  revert n n' acc acc'. induction w as [|w IH]; intros n n' acc acc' Hl; cbn [hex_fixed].
  { intros ->. by rewrite !N.mod_1_r. }
  intros H. apply IH in H as [H1 H2]; [|cbn; lia]. injection H1 as Hc ->. split; [done|].
  apply hex_char_inj in Hc; [|apply N.mod_lt; lia..].
  rewrite Nat2N.inj_succ, N.pow_succ_r', !N.Div0.mod_mul_r. lia.
Qed.

Lemma hex16_inj a b : hex16 a = hex16 b → wrap 64 a = wrap 64 b.
Proof.
  unfold hex16. intros H. apply hex_fixed_inj in H as [_ H]; [|done].
  pose proof (wrap_range 64 a ltac:(lia)). pose proof (wrap_range 64 b ltac:(lia)).
  change (16 ^ N.of_nat 16)%N with (Z.to_N (2 ^ 64)) in H.
  rewrite !N.mod_small in H by lia. lia.
Qed.

Lemma odd_mul_inj c a b : Z.odd c = true → 0 <= a < 2 ^ 64 → 0 <= b < 2 ^ 64 →
  wrap 64 (a * c) = wrap 64 (b * c) → a = b.
Proof.
  intros Hc Ha Hb H. unfold wrap in H.
  assert ((2 ^ 64 | c * (a - b))) as Hd.
  { apply Z.mod_divide; [lia|]. replace (c * (a - b)) with (a * c - b * c) by ring.
    rewrite Zminus_mod, H, Z.sub_diag. done. }
  apply Gauss in Hd.
  - destruct Hd as [k Hk]. nia.
  - apply rel_prime_sym, rel_prime_Zpower_r; [lia|]. apply rel_prime_sym.
    apply prime_rel_prime; [apply prime_2|]. intros [k ->]. rewrite Z.mul_comm, Z.odd_mul in Hc. done.
Qed.

Lemma slen_hex16 a : slen (hex16 a) = 16%nat.
Proof. unfold hex16. by rewrite slen_hex_fixed. Qed.

Lemma app_inj_length a b x y : slen a = slen b → a ++ x = b ++ y → x = y.
Proof.
  revert b. induction a as [|c a IH]; intros [|d b] Hl; cbn in *; try done.
  intros [= _ H]. apply (IH b); [lia|done].
Qed.

(** Two spans never share a trace id, whatever the clock said: the ids
    made from different numbers of the counter differ. *)
Theorem trace_ids_distinct now1 now2 seq1 seq2 :
  0 <= seq1 < 2 ^ 64 → 0 <= seq2 < 2 ^ 64 → seq1 ≠ seq2 →
  fst (id_hex 16 now1 seq1) ≠ fst (id_hex 16 now2 seq2).
Proof.
  intros H1 H2 Hne. unfold id_hex. rewrite Z.eqb_refl. cbn [fst]. intros H.
  apply app_inj_length in H; [|by rewrite !slen_hex16]. apply hex16_inj, odd_mul_inj in H; done.
Qed.
Lemma trace_ids_distinct_witness : fst (id_hex 16 7 1) ≠ fst (id_hex 16 7 2).
Proof. apply trace_ids_distinct; [lia|lia|done]. Defined.
