(* ===== verification/Ops.v ===== *)
(** * Programs over the runtime's operations

    A request handler of core/src/main.rs is a program that calls the
    operations of the runtime one after the other and answers.  [Op] lists the
    operations with the type of their answers; those that read the state of a
    component give a snapshot of it, on which the definitions of that component
    compute; those that change something are named by their arguments.  [Prog]
    are the programs, [wp] the logic for what they call and what they return. *)

From stdpp Require Import base gmap list strings.
From Stdlib Require Import ZArith Lia Ascii.
From S2P Require Import Prelude Text F64 Json Secrets Versions Traces Connect Project Registry Metrics.
Open Scope string_scope.
Open Scope Z_scope.

(** ** Operations *)

Inductive Op : Type → Type :=
(* Snapshots. *)
| Look : Op FS
| Now : Op Z
| Store : Op SecretStore
| UnitTable : Op Units
| TraceRings : Op Traces
| Counters : Op UNITS
| Evictions : Op (list Value)
(* Queries of the bus. *)
| AuditRecent (unit : string) (n : Z) : Op (res string (list Value))
| DlqList (n : Z) : Op (res string (list Value))
| ReplayLiteral (file name key : string) (value : Value) (n : Z) : Op (res string Value)
| TimeTravel (file candidate : string) (n : Z) : Op (res string Value)
| CanaryRead (file : string) : Op (res string Value)
| ListProposals : Op (res string (list Value))
(* Requests to the outside. *)
| Probe (driver : Driver) (name subj_root : string) (config : Config) : Op (res string string)
| CheckVpl (src : string) : Op (res string ())
| Rpc (subject payload : string) : Op (res string string)
| AskAgent (command prompt : string) : Op (res string string)
(* Changes. *)
| WriteFile (path content : string) : Op (res string ())
| MakeDirs (path : string) : Op (res string ())
| Reload : Op (Z * Z * Z)
| RestartUnit (unit : string) : Op bool
| FlagRotation (reference : string) : Op ()
| SetSecret (reference value : string) : Op (res string (list string))
| PromoteVersion (file name key : string) (value : Value) (actor : string) : Op (res string Value)
| RecordPromote (file name key : string) (before after : Value) (actor : string) : Op ()
| SubmitProposal (kind : string) (payload : Value) (author : string) (evidence : Value) : Op (res string Value)
| DecideProposal (id : string) (approve : bool) (by_ : string) : Op (res string Value)
| CanaryStart (file candidate : string) : Op (res string Value)
| CanaryStop (file : string) : Op (res string Value)
| DlqReplay (seq : option Z) (unit : option string) (actor : string) : Op (res string Value)
| DlqPurge (seq : option Z) (unit : option string) (actor : string) : Op (res string Value)
| ProvisionTenant (template slug : string) (params : smap Value) (force : bool) : Op (res string Value)
| RunApi (file : string) (event : Value) : Op (Z * string).

(** A program returns, dies with its thread, or calls an operation. *)
Inductive Prog (A : Type) : Type :=
| Ret (a : A)
| Die
| Call {R : Type} (o : Op R) (k : R → Prog A).
Arguments Ret {A} a.
Arguments Die {A}.
Arguments Call {A R} o k.

Definition call {R} (o : Op R) : Prog R := Call o Ret.

Fixpoint prog_bind {A B} (f : A → Prog B) (m : Prog A) : Prog B :=
  match m with
  | Ret a => f a
  | Die => Die
  | Call o k => Call o (λ r, prog_bind f (k r))
  end.
#[export] Instance prog_ret : MRet Prog := @Ret.
#[export] Instance prog_mbind : MBind Prog := λ A B f m, prog_bind f m.

(** [?]: an error ends the program with that error, a panic its thread. *)
Definition try {A B} (m : Prog (res string A)) (k : A → Prog (res string B)) : Prog (res string B) :=
  prog_bind (λ r, match r with Ok a => k a | Err e => Ret (Err e) | Panic | NoFuel => Die end) m.
Notation "x ←? m ; k" := (try m (λ x, k)) (at level 20, m at level 100, k at level 200).
Notation "' p ←? m ; k" := (try m (λ p, k)) (at level 20, p pattern, m at level 100, k at level 200).

Definition fail {A} (e : string) : Prog (res string A) := Ret (Err e).
Definition done_ {A} (a : A) : Prog (res string A) := Ret (Ok a).
(** An option as an outcome, and an outcome with its error put into words. *)
Definition need {A} (o : option A) (e : string) : Prog (res string A) := Ret (ok_or o e).
Definition worded {E A} (text : E → string) (r : res E A) : res string A :=
  match r with Ok a => Ok a | Err e => Err (text e) | Panic => Panic | NoFuel => NoFuel end.
Definition say {E A} (text : E → string) (r : res E A) : Prog (res string A) := Ret (worded text r).

(** A value that a panic can keep from being computed. *)
Definition or_die {A} (r : res () A) : Prog A := match r with Ok a => Ret a | _ => Die end.
(** Both outcomes of a call. *)
Definition either {A B} (r : res string A) (f : A → Prog B) (g : string → Prog B) : Prog B :=
  match r with Ok a => f a | Err e => g e | Panic | NoFuel => Die end.

(** ** What a program calls and returns *)

Section Wp.
Context (answers : ∀ R, Op R → R → Prop) (may : ∀ R, Op R → Prop).

(** Every operation the program calls may be called, and what it returns
    satisfies [Q], whatever the operations answer within [answers]. *)
Fixpoint wp {A} (Q : A → Prop) (p : Prog A) : Prop :=
  match p with
  | Ret a => Q a
  | Die => True
  | Call o k => may _ o ∧ ∀ r, answers _ o r → wp Q (k r)
  end.

Lemma wp_mono {A} (Q Q' : A → Prop) p : (∀ a, Q a → Q' a) → wp Q p → wp Q' p.
Proof. intros HQ. induction p as [a| |R o k IH]; cbn; [apply HQ|done|]. intros [? H]. eauto. Qed.

Lemma wp_bind {A B} (Q : B → Prop) (m : Prog A) (f : A → Prog B) :
  wp (λ a, wp Q (f a)) m → wp Q (prog_bind f m).
Proof. induction m as [a| |R o k IH]; cbn; [done|done|]. intros [? H]. eauto. Qed.

Lemma wp_try {A B} (Q : res string B → Prop) (m : Prog (res string A)) (k : A → Prog (res string B)) :
  wp (λ r, match r with Ok a => wp Q (k a) | Err e => Q (Err e) | _ => True end) m → wp Q (try m k).
Proof.
  intros H. apply wp_bind. eapply wp_mono; [|exact H]. by intros [a|e| |].
Qed.
End Wp.

(** ** Running a program *)

(** What a program returns when the operations answer as [oracle] does; [None]
    when it dies. *)
Fixpoint exec {A} (oracle : ∀ R, Op R → R) (p : Prog A) : option A :=
  match p with
  | Ret a => Some a
  | Die => None
  | Call o k => exec oracle (k (oracle _ o))
  end.

Lemma exec_bind {A B} oracle (m : Prog A) (f : A → Prog B) :
  exec oracle (prog_bind f m) = (a ← exec oracle m; exec oracle (f a)).
Proof. induction m as [a| |R o k IH]; cbn; [done|done|apply IH]. Qed.

(** Whether a program calls such an operation on its way. *)
Fixpoint reaches {A} (oracle : ∀ R, Op R → R) (such : ∀ R, Op R → bool) (p : Prog A) : bool :=
  match p with
  | Ret _ | Die => false
  | Call o k => such _ o || reaches oracle such (k (oracle _ o))
  end.

(** The same answers, but for the secret store. *)
Definition with_store (oracle : ∀ R, Op R → R) (st : SecretStore) : ∀ R, Op R → R := λ R o,
  match o in Op R return R → R with
  | Store => λ _, st
  | _ => λ r, r
  end (oracle R o).

(** Files and a store, nothing else there and nothing that works. *)
Definition quiet (fs : FS) (st : SecretStore) : ∀ R, Op R → R := λ R o,
  match o in Op R return R with
  | Look => fs
  | Now => 0
  | Store => st
  | UnitTable => {| registry := ∅; handles := []; rotations := ∅ |}
  | TraceRings => {| rings := ∅; trace_seq := 0 |}
  | Counters => ∅
  | Evictions => []
  | AuditRecent _ _ | DlqList _ | ListProposals => Err "nothing there"
  | ReplayLiteral _ _ _ _ _ | TimeTravel _ _ _ | CanaryRead _ | PromoteVersion _ _ _ _ _
  | SubmitProposal _ _ _ _ | DecideProposal _ _ _ | CanaryStart _ _ | CanaryStop _ | DlqReplay _ _ _
  | DlqPurge _ _ _ | ProvisionTenant _ _ _ _ => Err "nothing there"
  | Probe _ _ _ _ | Rpc _ _ | AskAgent _ _ => Err "nothing there"
  | CheckVpl _ | WriteFile _ _ | MakeDirs _ => Err "nothing there"
  | SetSecret _ _ => Err "nothing there"
  | RestartUnit _ => false
  | FlagRotation _ | RecordPromote _ _ _ _ _ _ => ()
  | Reload => (0, 0, 0)
  | RunApi _ _ => (200, "")
  end.

(** ** Classes of operations *)

Definition anything {R} (o : Op R) (r : R) : Prop := True.

(** The files do not change while the program runs, and the secret store is one. *)
Definition settled_at (fs : FS) (st : SecretStore) {R} (o : Op R) : R → Prop :=
  match o in Op R return R → Prop with
  | Look => λ r, r = fs
  | Store => λ r, r = st
  | _ => λ _, True
  end.

(** Operations that only read. *)
Definition reads_only {R} (o : Op R) : bool :=
  match o with
  | Look | Now | Store | UnitTable | TraceRings | Counters | Evictions | AuditRecent _ _ | DlqList _
  | ReplayLiteral _ _ _ _ _ | TimeTravel _ _ _ | CanaryRead _ | ListProposals => true
  | _ => false
  end.

(** What governed mode leaves open: to read; to propose; to try a connector's
    settings and to check a detection; to reload the project as its files are;
    to start and stop a canary; to run a flow that is an API or a tool; to send
    a request to the SAP connector. *)
Definition left_open {R} (o : Op R) : bool :=
  match o with
  | SubmitProposal _ _ _ _ | Probe _ _ _ _ | CheckVpl _ | Reload | CanaryStart _ _ | CanaryStop _ | RunApi _ _
  | Rpc _ _ => true
  | o => reads_only o
  end.

(** Operations that write the project's files. *)
Definition writes_files {R} (o : Op R) : bool :=
  match o with
  | WriteFile _ _ | MakeDirs _ | ProvisionTenant _ _ _ _ => true
  | _ => false
  end.

(** One step of a program's computation, its data left as it is. *)
Ltac prog_cbn :=
  cbn [wp prog_bind mbind prog_mbind mret prog_ret try need say worded fail done_ or_die either call ok_or].

(** What a program computes first. *)
Ltac head_of p :=
  lazymatch p with
  | mbind _ ?m => head_of m
  | prog_bind _ ?m => head_of m
  | try ?m _ => head_of m
  | _ => p
  end.

(** Walk through a program: every call is allowed, every answer considered. *)
Ltac walk_step :=
  match goal with
  | |- True => exact I
  | |- _ ∧ _ => split
  | |- ∀ _, _ => intro
  | |- wp _ _ _ _ => progress prog_cbn
  | |- wp _ _ _ ?p =>
    let h := head_of p in
    lazymatch h with
    | match ?x with _ => _ end => let E := fresh "E" in destruct x eqn:E
    | either ?r _ _ => destruct r
    | or_die ?r => destruct r
    end
  end.
(** The answer of a snapshot of what is settled. *)
Ltac snapshot := let r := fresh in let H := fresh in intros r H; cbn [settled_at] in H; subst r.
