(* ===== verification/Api.v ===== *)
(** * Flows as HTTP endpoints

    A flow that declares [api "VERB /path"] answers under /api/
    (core/src/main.rs): routes and their matching, query strings, the run of a
    flow on a request, and the OpenAPI document.  The counters and spans of
    core/src/metrics.rs are left out. *)

From stdpp Require Import base gmap list strings.
From Stdlib Require Import ZArith Lia Ascii.
From S2P Require Import Prelude Text F64 Json Syntax Analysis Lexer Parser Secrets Eval EvalFacts RunProps Paths Bus Project Concrete.
Open Scope string_scope.
Open Scope Z_scope.

(** ** Routes *)

(** core/src/main.rs [Seg] *)
Inductive Seg : Type := SLit (s : string) | SParam (s : string).

(** core/src/main.rs [ApiRoute] *)
Record ApiRoute : Type := {
  r_method : string;
  r_segs : list Seg;
  r_file : string;
  r_summary : string;
  r_op_id : string;
  r_req_schema : option Value;
  r_resp_schema : option Value
}.

(** [str::split_whitespace]. *)
Fixpoint split_ws (l : list chunk) (cur : list chunk) : list string :=
  match l with
  | [] => if (length cur =? 0)%nat then [] else [unchunk (rev cur)]
  | c :: l =>
    if chunk_ws c
    then (if (length cur =? 0)%nat then [] else [unchunk (rev cur)]) ++ split_ws l []
    else split_ws l (c :: cur)
  end%list.
Definition split_whitespace (s : string) : list string := split_ws (chunks s) [].

Definition path_parts (s : string) : list string :=
  List.filter (λ p, negb (String.eqb p "")) (str_split (trim_matches_byte "/" s) "/").

(** core/src/main.rs:3231-3237 [parse_api_spec] *)
Definition seg_of (s : string) : Seg :=
  if starts_with s "{" && ends_with s "}" then SParam (stake (slen s - 2) (sdrop 1 s)) else SLit s.

(** core/src/main.rs [parse_api_spec] *)
Definition parse_api_spec (spec : string) : option (string * list Seg) :=
  match split_whitespace spec with
  | method :: path :: _ => Some (to_ascii_uppercase method, map seg_of (path_parts path))
  | _ => None
  end.

Section Api.
Context {SD : Serde} {CT : CaseTables} {FL : FloatLib} {N : Type} {NET : Net N}.
Context (fs : FS) (root : string) (canonicalize : string → option string) (store : SecretStore)
  (text : verr → string).

(** core/src/main.rs:3247-3259 [api_routes] *)
Definition route_of (f : string * string * Program) : option ApiRoute :=
  let '(path, _, prog) := f in
  spec ← p_api prog;
  '(method, segs) ← parse_api_spec spec;
  let stem := default "" (file_stem path) in
  Some {| r_method := method; r_segs := segs; r_file := path;
          r_summary := default stem (p_tool prog); r_op_id := stem;
          r_req_schema := surface_value prog "API_REQUEST";
          r_resp_schema := surface_value prog "API_RESPONSE" |}.

(** core/src/main.rs [api_routes] *)
Definition api_routes {E} : res E (list ApiRoute) :=
  files ← parsed_files fs (vjs_files fs root);
  Ok (list_omap _ _ route_of files).

(** The parameters of a path that fits a route. *)
(** core/src/main.rs:3301-3312 [match_api_route] *)
Fixpoint match_segs (segs : list Seg) (parts : list string) : option (list (string * string)) :=
  match segs, parts with
  | [], [] => Some []
  | SLit l :: segs, part :: parts => if String.eqb l part then match_segs segs parts else None
  | SParam name :: segs, part :: parts => ps ← match_segs segs parts; Some ((name, part) :: ps)
  | _, _ => None
  end.

(** core/src/main.rs:3296-3317 [match_api_route] *)
Fixpoint first_route (routes : list ApiRoute) (method : string) (parts : list string)
  : option (string * list (string * string)) :=
  match routes with
  | [] => None
  | r :: routes =>
    if negb (String.eqb (r_method r) method) then first_route routes method parts
    else match match_segs (r_segs r) parts with
         | Some params => Some (r_file r, params)
         | None => first_route routes method parts
         end
  end.

(** core/src/main.rs [match_api_route] *)
Definition match_api_route {E} (method rel : string) : res E (option (string * list (string * string))) :=
  routes ← api_routes;
  Ok (first_route routes method (path_parts rel)).

(** core/src/main.rs:3327-3336 [parse_query] *)
Definition query_pair (pair : string) : option (string * Value) :=
  if String.eqb pair "" then None
  else
    let '(k, v) := match split_once pair "=" with Some kv => kv | None => (pair, "") end in
    if String.eqb k "" then None else Some (k, VString v).

(** core/src/main.rs [parse_query] *)
Definition parse_query (url : string) : Value :=
  match nth_error (str_split url "?") 1 with
  | Some qs => obj (omap query_pair (str_split qs "&"))
  | None => obj []
  end.

(** ** Runs *)

(** core/src/main.rs [flow_writes_bus] *)
Definition flow_writes_bus {E} (file : string) : res E bool :=
  match guard_path canonicalize root file with
  | None => Ok false
  | Some p =>
    prog ← parsed_opt (reads fs p);
    Ok match prog with Some prog => writes_bus prog | None => false end
  end.

(** core/src/main.rs [run_flow_ctx] *)
Definition run_flow_ctx (file : string) (input : Value) : res (view_err + verr) Ctx :=
  match open_script fs root canonicalize file with
  | Ok (path, _, prog) =>
    match fst (run (reads fs) prog input (live store root (pkg_of_path path))) with
    | Ok c => Ok c
    | Err e => Err (inr e)
    | Panic => Panic
    | NoFuel => NoFuel
    end
  | Err e => Err (inl e)
  | Panic => Panic
  | NoFuel => NoFuel
  end.

(** A refused emit is dropped, and so is the answer of the confirmation. *)
(** core/src/main.rs:3357-3362 [publish_emits] *)
Definition hold_quietly (l : Link N) (b : Batch) (e : emit) : Batch :=
  match batch_publish (fst e) (to_json (snd e)) b l with Ok b => b | _ => b end.

(** core/src/main.rs [publish_emits] *)
Definition publish_emits (emits : list emit) (bus : option (Link N)) : option (Link N) :=
  match emits, bus with
  | [], _ | _, None => bus
  | _, Some l =>
    let b := fold_left (hold_quietly l) emits {| held := [] |} in
    Some (snd (confirm b l))
  end.

(** core/src/main.rs:3405-3408 [run_api_flow] *)
Definition status_code (status : Value) : Z :=
  let n := match as_u64 status with
           | Some n => n
           | None => default 200 (as_str status ≫= parse_u64)
           end in
  wrap 16 n.

(** The text of a failed run, a run-time error or a file that does not load. *)
Context (why : view_err + verr → string).

(** core/src/main.rs [run_api_flow] *)
Definition run_api_flow {E} (file : string) (input : Value) (bus : option (Link N))
  : res E (Z * string) * option (Link N) :=
  match run_flow_ctx file input with
  | Ok ctx =>
    let bus := publish_emits (emits ctx) bus in
    (Ok match response ctx with
        | Some (status, body) => (status_code status, to_json body)
        | None => (200, to_json (obj [("ok", VBool true); ("emits", emits_value (emits ctx))]))
        end, bus)
  | Err e => (Ok (500, to_json (obj [("error", VString (why e))])), bus)
  | Panic => (Panic, bus)
  | NoFuel => (NoFuel, bus)
  end.

(** ** OpenAPI *)

(** core/src/main.rs:3267-3274 [json_schema_from_literal] *)
Definition map_type (t : string) : string :=
  match to_ascii_lowercase t with
  | "number" | "float" | "double" | "decimal" => "number"
  | "int" | "integer" => "integer"
  | "bool" | "boolean" => "boolean"
  | "array" | "list" => "array"
  | "object" | "map" => "object"
  | _ => "string"
  end.

(** core/src/main.rs [json_schema_from_literal] *)
Definition json_schema_from_literal (v : Value) : Value :=
  match v with
  | VObject o =>
    let ty v := match v with
                | VString s => map_type s
                | VObject _ => "object"
                | VArray _ => "array"
                | _ => "string"
                end in
    obj [("type", VString "object");
         ("properties", obj (map (λ kv, (fst kv, obj [("type", VString (ty (snd kv)))])) o))]
  | _ => obj [("type", VString "object")]
  end.

(** core/src/main.rs:3428-3437 [openapi_json] *)
Definition route_path (r : ApiRoute) : string :=
  "/" ++ str_join "/" (map (λ s, match s with SLit l => l | SParam p => "{" ++ p ++ "}" end) (r_segs r)).

(** core/src/main.rs:3438-3482 [openapi_json] *)
Definition operation (r : ApiRoute) : Value :=
  let any := obj [("type", VString "object")] in
  let json schema := obj [("application/json", obj [("schema", schema)])] in
  let params := omap (λ s, match s with
    | SParam p => Some (obj [("name", VString p); ("in", VString "path"); ("required", VBool true);
                             ("schema", obj [("type", VString "string")])])
    | SLit _ => None end) (r_segs r) in
  let tag := default "default" (head (omap (λ s, match s with SLit l => Some l | _ => None end) (r_segs r))) in
  let ok_schema := match r_resp_schema r with Some v => json_schema_from_literal v | None => any end in
  let req_schema := match r_req_schema r with Some v => json_schema_from_literal v | None => any end in
  obj ([("summary", VString (r_summary r)); ("operationId", VString (r_op_id r));
        ("tags", VArray [VString tag]);
        ("responses", obj [("200", obj [("description", VString "OK"); ("content", json ok_schema)]);
                           ("500", obj [("description", VString "Flow error")])])]
       ++ (match params with [] => [] | _ => [("parameters", VArray params)] end)
       ++ (if existsb (String.eqb (r_method r)) ["POST"; "PUT"; "PATCH"]
           then [("requestBody", obj [("required", VBool true); ("content", json req_schema)])] else []))%list.

(** core/src/main.rs:3483-3485 [openapi_json] *)
Definition add_route (paths : smap Value) (r : ApiRoute) : smap Value :=
  let entry := match map_get (route_path r) paths with Some (VObject o) => o | _ => [] end in
  map_insert (route_path r) (VObject (map_insert (to_ascii_lowercase (r_method r)) (operation r) entry)) paths.

(** core/src/main.rs [openapi_json] *)
Definition openapi_json {E} (env : string → option string) : res E Value :=
  routes ← api_routes;
  Ok (obj [("openapi", VString "3.0.3");
           ("info", obj [("title", VString (default "Vejas API" (env "VEJAS_API_TITLE")));
                         ("version", VString (default "1.0.0" (env "VEJAS_API_VERSION")));
                         ("description", VString (default "" (env "VEJAS_API_DESCRIPTION")))]);
           ("servers", VArray [obj [("url", VString "/api")]]);
           ("paths", VObject (fold_left add_route routes []))]).

(** ** Tools *)

(** core/src/main.rs:3504-3515 [tool_flows] *)
Definition tool_of (f : string * string * Program) : option (string * string * string) :=
  let '(path, pkg, prog) := f in
  desc ← p_tool prog;
  let stem := default "" (file_stem path) in
  Some (if String.eqb pkg "default" then "flow_" ++ stem else "flow_" ++ pkg ++ "_" ++ stem, path, desc).

(** core/src/main.rs [tool_flows] *)
Definition tool_flows {E} : res E (list (string * string * string)) :=
  files ← parsed_files fs (vjs_files fs root);
  Ok (list_omap _ _ tool_of files).
End Api.

(** ** Matching *)

Definition seg_params (segs : list Seg) : list string :=
  omap (λ s, match s with SParam p => Some p | SLit _ => None end) segs.

(** The path that values for the parameters make of a route. *)
Fixpoint fill_segs (segs : list Seg) (vals : list string) : option (list string) :=
  match segs, vals with
  | [], [] => Some []
  | SLit l :: segs, _ => ps ← fill_segs segs vals; Some (l :: ps)
  | SParam _ :: segs, v :: vals => ps ← fill_segs segs vals; Some (v :: ps)
  | _, _ => None
  end.

Lemma match_segs_spec segs parts ps :
  match_segs segs parts = Some ps ↔
  map fst ps = seg_params segs ∧ fill_segs segs (map snd ps) = Some parts.
Proof.
  revert parts ps. induction segs as [|[l|p] segs IH]; intros [|part parts] ps; cbn.
  - split; [by intros [= <-]|]. intros [H _]. by destruct ps.
  - split; [done|]. intros [H1 H2]. by destruct ps.
  - split; [done|]. intros [_ H]. by destruct (fill_segs segs _).
  - destruct (String.eqb_spec l part) as [-> |Hne].
    + rewrite IH. destruct (fill_segs segs _); naive_solver.
    + split; [done|]. intros [_ H]. destruct (fill_segs segs _); cbn in H; naive_solver.
  - split; [done|]. intros [H1 H2]. destruct ps; [done|]. cbn in H2. by destruct (fill_segs segs _).
  - specialize (IH parts). destruct (match_segs segs parts) as [qs|] eqn:E; cbn.
    + destruct (proj1 (IH qs) eq_refl) as [E1 E2]. split.
      * intros [= <-]. cbn. by rewrite E1, E2.
      * intros [H1 H2]. destruct ps as [|[k v] ps]; [done|]. cbn in H1, H2. injection H1 as -> H1.
        destruct (fill_segs segs (map snd ps)) as [x|] eqn:Ef; [|done]. injection H2 as -> ->.
        assert (Some qs = Some ps) as [= ->]; [|done]. apply IH. done.
    + split; [done|]. intros [H1 H2]. destruct ps as [|[k v] ps]; [done|]. cbn in H1, H2.
      injection H1 as -> H1. destruct (fill_segs segs (map snd ps)) as [x|] eqn:Ef; [|done].
      injection H2 as -> ->. assert (None = Some ps) as [=]. by apply IH.
Qed.

(** A request fits a route when some values of its parameters make the path. *)
Definition fits (method : string) (parts : list string) (r : ApiRoute) : Prop :=
  r_method r = method ∧ ∃ ps, map fst ps = seg_params (r_segs r) ∧ fill_segs (r_segs r) (map snd ps) = Some parts.

(** Routing is by the first route that fits: its method is the request's,
    and the parameters it binds are the ones that make the path; no route
    before it fits; and when none is found, none fits. *)
Theorem first_route_spec routes method parts :
  match first_route routes method parts with
  | Some (file, ps) =>
    ∃ before r after, routes = (before ++ r :: after)%list ∧ file = r_file r ∧ r_method r = method ∧
      map fst ps = seg_params (r_segs r) ∧ fill_segs (r_segs r) (map snd ps) = Some parts ∧
      Forall (λ r, ¬ fits method parts r) before
  | None => Forall (λ r, ¬ fits method parts r) routes
  end.
Proof.
  induction routes as [|r routes IH]; [by constructor|]. cbn [first_route].
  assert (negb (String.eqb (r_method r) method) = true ∨ match_segs (r_segs r) parts = None →
    ¬ fits method parts r) as Hno.
  { intros [H|H] [Hm (ps & H1 & H2)].
    - apply negb_true_iff, String.eqb_neq in H. done.
    - assert (match_segs (r_segs r) parts = Some ps) by (by apply match_segs_spec). congruence. }
  destruct (negb _) eqn:Em; [|destruct (match_segs (r_segs r) parts) as [ps|] eqn:E].
  - destruct (first_route routes method parts) as [[file ps]|]; [|constructor; auto].
    destruct IH as (bf & r' & af & -> & ? & ? & ? & ? & ?). exists (r :: bf), r', af.
    repeat split; try done. constructor; auto.
  - apply negb_false_iff, String.eqb_eq in Em. apply match_segs_spec in E as [? ?].
    exists [], r, routes. by repeat split.
  - destruct (first_route routes method parts) as [[file ps]|]; [|constructor; auto].
    destruct IH as (bf & r' & af & -> & ? & ? & ? & ? & ?). exists (r :: bf), r', af.
    repeat split; try done. constructor; auto.
Qed.

(** ** Open routes *)

Section Open.
Context {SD : Serde} {CT : CaseTables} {FL : FloatLib} {N : Type} {NET : Net N}.
Context (fs : FS) (root : string) (canonicalize : string → option string) (store : SecretStore)
  (why : view_err + verr → string).

(** A flow that the gate calls read-only publishes nothing when it runs. *)
Lemma readonly_flow_silent {E} file input bus :
  store_returns store → flow_writes_bus fs root canonicalize file = @Ok E _ false →
  snd (run_api_flow (E := E) (N := N) fs root canonicalize store why file input bus) = bus ∧
  ∀ ctx, run_flow_ctx fs root canonicalize store file input = Ok ctx → emits ctx = [].
Proof.
  intros Hs. unfold flow_writes_bus, run_api_flow, run_flow_ctx, open_script.
  destruct (guard_path canonicalize root file) as [path|]; [|done]. cbn [ok_or mbind res_mbind res_bind].
  unfold parsed_opt. destruct (reads fs path) as [src|]; [|done]. cbn [ok_or mbind res_mbind res_bind].
  destruct (parse src) as [prog|e| |] eqn:Ep; try done. cbn. intros [= Hw].
  destruct (readonly_run src prog (reads fs) (reads fs) input (live store root (pkg_of_path path)) Ep Hw Hs)
    as (r & Hr & -> & _ & Hem). cbn.
  destruct r as [c|e| |]; try done. specialize (Hem c eq_refl). split; [|by intros ctx [= <-]].
  cbn. by rewrite Hem.
Qed.
End Open.

(** ** Schema *)

Definition demo_route (m f : string) (segs : list Seg) : ApiRoute :=
  {| r_method := m; r_segs := segs; r_file := f; r_summary := ""; r_op_id := ""; r_req_schema := None;
     r_resp_schema := None |}.
Example routed :
  first_route [demo_route "GET" "a" [SLit "orders"]; demo_route "GET" "b" [SLit "orders"; SParam "id"];
               demo_route "GET" "c" [SLit "orders"; SLit "7"]] "GET" (path_parts "/orders/7/") =
  Some ("b", [("id", "7")]).
Proof. vm_compute. reflexivity. Qed.
Example spec_parsed : parse_api_spec "get  /orders/{id}" = Some ("GET", [SLit "orders"; SParam "id"]).
Proof. vm_compute. reflexivity. Qed.
Example query_parsed : parse_query "/api/x?a=1&b&=2&a=3" = obj [("a", VString "3"); ("b", VString "")].
Proof. vm_compute. reflexivity. Qed.

(** Every route is documented: the document has, under the route's path and
    method, an operation, and it is the operation of a route of that path and
    method. *)
Lemma openapi_paths_spec routes paths :
  (∀ p v, map_get p paths = Some v → ∃ o, v = VObject o) →
  let out := fold_left add_route routes paths in
  ∀ r, r ∈ routes ∨ (∃ o, map_get (route_path r) paths = Some (VObject o) ∧
                          is_Some (map_get (to_ascii_lowercase (r_method r)) o)) →
  ∃ o, map_get (route_path r) out = Some (VObject o) ∧ is_Some (map_get (to_ascii_lowercase (r_method r)) o).
Proof.
  cbv zeta. revert paths. induction routes as [|r0 routes IH]; intros paths Hp r Hr; cbn [fold_left].
  { destruct Hr as [Hr|Hr]; [by apply elem_of_nil in Hr|done]. }
  apply IH.
  - intros p v. unfold add_route. rewrite map_get_insert. destruct (String.eqb _ _) eqn:E; [|by apply Hp].
    intros [= <-]. by eexists.
  - destruct Hr as [[-> |Hr]%elem_of_cons|(o & Ho & Hs)]; [right|by left|right].
    + unfold add_route. rewrite map_get_insert_eq. eexists. split; [done|]. by rewrite map_get_insert_eq.
    + unfold add_route. rewrite map_get_insert. destruct (String.eqb_spec (route_path r) (route_path r0)) as [E|E].
      * eexists. split; [done|]. rewrite <- E, Ho. rewrite map_get_insert.
        destruct (String.eqb _ _); [done|]. done.
      * eauto.
Qed.
