(* ===== verification/Actions.v ===== *)
(** * Multi-step operations

    The operations of core/src/main.rs that a request starts and that read,
    compute and then write: rolling a literal back, curating a golden test,
    asking the agent for a flow or a connector, probing a connector, calling
    the SAP connector.  Each is a program over the operations of [Ops]. *)

From stdpp Require Import base gmap list strings.
From Stdlib Require Import ZArith Lia Ascii.
From S2P Require Import Prelude Text F64 Json Syntax Analysis Lexer Parser Secrets Eval Edit EvalFacts RunProps Paths Bus Concrete Traces Connect Project Registry Metrics Ops.
Open Scope string_scope.
Open Scope Z_scope.

(** ** New files *)

(** core/src/main.rs:2646-2651 [unique_target] *)
Definition candidate_name (name : string) (n : nat) : string :=
  match n with
  | O | S O => name ++ ".vjs"
  | _ => name ++ "_" ++ dec_of_Z (Z.of_nat n) ++ ".vjs"
  end.
(** core/src/main.rs [unique_target] *)
Fixpoint unique_from (fuel n : nat) (fs : FS) (dir name : string) : res string string :=
  let target := path_join dir (candidate_name name n) in
  match fuel with
  | O => NoFuel
  | S fuel => if file_exists fs target then unique_from fuel (S n) fs dir name else Ok target
  end.
(** The directory's files are as many names as can be taken. *)
Definition unique_target (fs : FS) (dir name : string) : res string string :=
  unique_from (S (length (default [] (ls fs dir)))) 1 fs dir name.

(** core/src/main.rs [first_line_name] *)
Definition first_line_name (code prefix fallback : string) (now : Z) : string :=
  let named := l ← head (lines code); s ← strip_prefix l prefix; Some (trim s) in
  match named with
  | Some s =>
    if negb (String.eqb s "") && all_chars (λ c, is_ascii_alphanumeric c || (c =? 95)%N) s
    then s else fallback ++ "_" ++ dec_of_Z (now mod 100000)
  | None => fallback ++ "_" ++ dec_of_Z (now mod 100000)
  end.

Fixpoint drop_until (b : byte) (s : string) : string :=
  match s with
  | "" => ""
  | String c r => if Ascii.eqb c b then s else drop_until b r
  end.
Definition fence : string := "```".
(** core/src/main.rs:2631-2642 [ask_agent] *)
Definition stripped_code (stdout : string) : string :=
  let code := trim (from_utf8_lossy stdout) in
  let code := if starts_with code fence
              then trim (trim_end_matches (trim_start_byte "010" (drop_until "010" code)) fence)
              else code in
  code ++ newline.

Section Actions.
Context {SD : Serde} {CT : CaseTables} {FL : FloatLib}.
Context (env : string → option string) (root : string) (canonicalize : string → option string).
(** Errors in words. *)
Context (why : view_err + verr → string) (edit_text : edit_err → string).
(** The prompts. *)
Context (language contract_flow contract_connector : string).

Definition subj_root : string := default "vx" (env "VEJAS_SUBJECT_ROOT").
Definition allowed (file : string) : Prog (res string string) :=
  need (guard_path canonicalize root file) "path not allowed".
Definition read_text (path : string) : Prog (res string string) :=
  fs ← call Look; say (λ e, why (inl e)) (ok_or (reads fs path) VUnreadable).
Definition parsed (src : string) : Prog (res string Program) :=
  say (λ e, why (inl (VParse e))) (parse src).

(** ** Rollback *)

(** core/src/main.rs:941-945 [rollback_literal] *)
Definition newest_promote (name key : string) (records : list Value) : option Value :=
  List.find (λ r, value_eqb (vindex r "name") (VString name) && value_eqb (vindex r "key") (VString key))
    (rev records).

(** core/src/main.rs [rollback_literal] *)
Definition rollback_literal (file name key actor : string) : Prog (res string Value) :=
  path ←? allowed file;
  let unit := flow_proc_name path in
  records ←? call (AuditRecent unit 500);
  target ←? need (newest_promote name key records) "no audit record to roll back for this literal";
  let restore := vindex target "before" in
  src ←? read_text path;
  let current := default VNull (get_literal src name key) in
  new_src ←? say edit_text (set_literal src name key restore);
  _ ←? call (WriteFile path new_src);
  _ ← call (RecordPromote file name key current restore actor);
  done_ (obj [("ok", VBool true); ("file", VString file); ("name", VString name); ("key", VString key);
              ("restored", restore); ("was", current);
              ("rolled_back_promote_ts", vindex target "ts"); ("actor", VString actor)]).

(** ** Golden tests *)

(** core/src/main.rs:3150-3157 [golden_from_event] *)
Definition stored_event (t : Traces) (flow_unit : string) (seq : Z) : option Value :=
  ring ← rings t !! flow_unit;
  e ← List.find (λ e, bool_decide (as_u64 (vindex e "seq") = Some seq)) ring;
  v ← vget "event" e;
  if is_null v then None else Some v.

(** core/src/main.rs [golden_from_event] *)
Definition golden_from_event (flow_unit : string) (seq : Z) : Prog (res string Value) :=
  t ← call TraceRings;
  event ←? need (stored_event t flow_unit seq) "no stored event for that flow/seq (ring rotated, or a non-JSON event)";
  fs ← call Look;
  file ←? need (List.find (λ p, String.eqb (flow_proc_name p) flow_unit) (map fst (vjs_files fs root)))
            "flow not found for that unit";
  let rel := from_utf8_lossy (default file (path_strip_prefix file root)) in
  fs ← call Look;
  store ← call Store;
  expect ←? say why (run_flow_on_input fs root canonicalize store rel event);
  let stem := default "" (option_map from_utf8_lossy (file_stem file)) in
  let case := obj [("flow", VString rel); ("input", event); ("expect_emits", VArray expect)] in
  let dir := path_join (path_join root "tests") "vjs" in
  _ ←? call (MakeDirs dir);
  let name := "curated_" ++ stem ++ "_" ++ dec_of_Z seq ++ ".json" in
  _ ←? call (WriteFile (path_join dir name) (to_json_pretty case));
  done_ (obj [("ok", VBool true); ("case", VString name); ("flow", VString rel);
              ("expect_emits", vint (Z.of_nat (length expect)))]).

(** ** The agent *)

Definition agent : string := default "claude" (env "VEJAS_AGENT_CMD").
(** core/src/main.rs [agent_available] *)
Definition agent_available (fs : FS) : bool :=
  if str_contains agent "/" then file_exists fs agent
  else existsb (λ dir, negb (String.eqb dir "") && file_exists fs (path_join dir agent))
         (str_split (default "" (env "PATH")) ":").

Definition no_agent_cli : string :=
  "this deployment has no agent CLI (VEJAS_AGENT_CMD): write the file yourself — vejas_language gives the syntax, vejas_write_flow deploys it".

(** core/src/main.rs [ask_agent] *)
Definition ask_agent (prompt : string) : Prog (res string string) :=
  out ←? call (AskAgent agent prompt);
  done_ (stripped_code out).

(** core/src/main.rs [generate_flow] *)
Definition generate_flow (prompt : string) : Prog (res string string) :=
  fs ← call Look;
  if negb (agent_available fs) then fail no_agent_cli
  else
    specs ← or_die (scan_all fs root);
    let full := str_replace (str_replace (str_replace contract_flow "{language}" language)
                  "{existing}" (str_join ", " (map sp_name specs))) "{task}" prompt in
    code ←? ask_agent full;
    prog ←? parsed code;
    if negb (bool_decide (is_Some (p_source prog))) then fail "generated flow has no `source` declaration"
    else
      now ← call Now;
      let name := first_line_name code "# flow:" "flow" now in
      fs ← call Look;
      target ←? Ret (unique_target fs (path_join root "flows") name);
      _ ←? call (WriteFile target code);
      done_ (to_json (obj [("ok", VBool true); ("file", VString target); ("flow", VString name);
                           ("lang", VString "vjs")])).

(** core/src/main.rs [generate_connector] *)
Definition generate_connector (prompt : string) : Prog (res string string) :=
  fs ← call Look;
  if negb (agent_available fs) then fail no_agent_cli
  else
    let drivers := str_join newline
      (map (λ d : string * string * string, let '(n, k, a) := d in "- " ++ n ++ " (" ++ k ++ "): " ++ a) catalog) in
    nodes ← or_die (connector_graph fs root);
    let existing := omap (λ c, as_str (vindex c "name")) nodes in
    let full := str_replace (str_replace (str_replace contract_connector "{drivers}" drivers)
                  "{existing}" (str_join ", " existing)) "{task}" prompt in
    code ←? ask_agent full;
    prog ←? parsed code;
    driver ←? need (p_driver prog) "generated connector has no `driver` declaration";
    if negb (bool_decide (is_Some (driver_for driver)))
    then fail ("generated connector uses unknown driver " ++ driver)
    else
      now ← call Now;
      let name := first_line_name code "# connector:" "connector" now in
      let dir := path_join root "connectors" in
      _ ← call (MakeDirs dir);
      fs ← call Look;
      target ←? Ret (unique_target fs dir name);
      _ ←? call (WriteFile target code);
      done_ (to_json (obj [("ok", VBool true); ("file", VString target); ("connector", VString name);
                           ("driver", VString driver)])).

(** ** Connectors *)

(** A manifest's variables, evaluated with the real secrets. *)
Definition manifest_vars (path : string) (prog : Program) : Prog (res string (smap Value)) :=
  fs ← call Look;
  store ← call Store;
  say (λ e, humanize (why (inr e)))
    (c ← fst (run (reads fs) prog (obj []) (live store root (pkg_of_path path))); Ok (vars c)).

(** core/src/main.rs:2906-2938 [probe_connector] *)
Definition probe_verdict (file : string) : Prog (res string string) :=
  path ←? allowed file;
  src ←? read_text path;
  prog ←? parsed src;
  driver_name ←? need (p_driver prog) "not a connector manifest (no `driver`)";
  driver ←? need (driver_for driver_name) ("unknown driver " ++ driver_name);
  vars ←? manifest_vars path prog;
  let stem := default "" (option_map from_utf8_lossy (file_stem path)) in
  call (Probe driver ("probe:" ++ stem) subj_root (config_of vars)).
(** core/src/main.rs [probe_connector] *)
Definition probe_connector (file : string) : Prog Value :=
  verdict ← probe_verdict file;
  match verdict with
  | Ok detail => Ret (obj [("ok", VBool true); ("detail", VString detail)])
  | Err detail => Ret (obj [("ok", VBool false); ("detail", VString detail)])
  | Panic | NoFuel => Die
  end.

(** core/src/main.rs:2948-2958 [connector_manifest_paths] *)
Definition manifests_in (fs : FS) (dir : string) : list string :=
  omap (λ e, let p := path_join dir e in
             if is_vjs p && negb (starts_with (default "" (option_map from_utf8_lossy (file_name p))) "_")
             then Some p else None) (default [] (ls fs dir)).
(** core/src/main.rs [connector_manifest_paths] *)
Definition connector_manifest_paths (fs : FS) : list string :=
  manifests_in fs (path_join root "connectors") ++
  flat_map (λ p, manifests_in fs (path_join (path_join (path_join root "packages") p) "connectors"))
    (default [] (ls fs (path_join root "packages"))).

(** core/src/main.rs:2974-2994 [sap_rpc_request] *)
Fixpoint rpc_subject (paths : list string) : Prog (res string (option string)) :=
  match paths with
  | [] => done_ None
  | path :: paths =>
    fs ← call Look;
    prog ← or_die (parsed_opt (reads fs path));
    match prog with
    | Some prog =>
      if bool_decide (p_driver prog = Some "exec-rpc") then
        vars ←? manifest_vars path prog;
        match map_get "REQUEST_SUBJECT" vars ≫= as_str with
        | Some s => done_ (Some s)
        | None => rpc_subject paths
        end
      else rpc_subject paths
    | None => rpc_subject paths
    end
  end.
(** core/src/main.rs [sap_rpc_request] *)
Definition sap_rpc_request (op : Value) : Prog (res string Value) :=
  fs ← call Look;
  found ←? rpc_subject (connector_manifest_paths fs);
  subject ←? need found (quoted "no exec-rpc SAP connector found — add a manifest with driver ~exec-rpc~ and REQUEST_SUBJECT (see docs/examples/sap_rpc.vjs.example)");
  reply ←? call (Rpc subject (to_json op));
  need (from_json reply) "invalid reply".
End Actions.

(** ** New files are new *)

Lemma dec_of_N_inj a b : dec_of_N a = dec_of_N b → a = b.
Proof.
  intros H. destruct (dec_of_N_spec a) as [Ha _], (dec_of_N_spec b) as [Hb _]. rewrite H in Ha. congruence.
Qed.

Lemma slen_dec_pos n : (0 < slen (dec_of_N n))%nat.
Proof. destruct (dec_of_N_spec n) as (_ & H & _). destruct (dec_of_N n); [done|cbn; lia]. Qed.

Lemma app_inj_left (a b c : string) : a ++ b = a ++ c → b = c.
Proof. induction a as [|x a IH]; cbn; [done|]. intros [= H]. by apply IH. Qed.
Lemma app_inj_right (a b c : string) : a ++ c = b ++ c → a = b.
Proof.
  revert b. induction a as [|x a IH]; intros [|y b]; cbn; intros H; try done.
  - apply (f_equal slen) in H. cbn in H. rewrite slen_app in H. lia.
  - apply (f_equal slen) in H. cbn in H. rewrite slen_app in H. lia.
  - injection H as -> H. by rewrite (IH b).
Qed.

Lemma candidate_name_inj name n m :
  (0 < n)%nat → (0 < m)%nat → candidate_name name n = candidate_name name m → n = m.
Proof.
  intros Hn Hm H. destruct n as [|[|n]], m as [|[|m]]; try lia; unfold candidate_name in H.
  - apply app_inj_left in H. apply (f_equal slen) in H. rewrite !slen_app in H. cbn in H. lia.
  - apply app_inj_left in H. apply (f_equal slen) in H. rewrite !slen_app in H. cbn in H. lia.
  - apply app_inj_left, app_inj_left, app_inj_right in H. cbn [Z.of_nat dec_of_Z] in H.
    apply dec_of_N_inj in H. lia.
Qed.

(** A file that exists is listed in its directory. *)
Definition listed_files (fs : FS) (dir name : string) : Prop :=
  ∀ n, file_exists fs (path_join dir (candidate_name name n)) = true →
       candidate_name name n ∈ default [] (ls fs dir).

Lemma unique_from_spec fs dir name fuel n :
  (0 < n)%nat → listed_files fs dir name →
  (∀ i, (0 < i < n)%nat → candidate_name name i ∈ default [] (ls fs dir)) →
  (length (default [] (ls fs dir)) < fuel + pred n)%nat →
  ∃ i, (0 < i)%nat ∧ unique_from fuel n fs dir name = Ok (path_join dir (candidate_name name i)) ∧
       file_exists fs (path_join dir (candidate_name name i)) = false.
Proof.
  intros Hn Hl. revert n Hn. induction fuel as [|fuel IH]; intros n Hn Hi Hlen.
  - exfalso.
    assert (NoDup (map (candidate_name name) (seq 1 (pred n)))) as Hnd.
    { apply NoDup_fmap_2_strong; [|apply NoDup_ListNoDup, seq_NoDup].
      intros x y Hx Hy. rewrite !elem_of_seq in *. apply candidate_name_inj; lia. }
    assert (map (candidate_name name) (seq 1 (pred n)) ⊆ default [] (ls fs dir)) as Hsub.
    { intros x Hx. apply list_elem_of_fmap in Hx as (i & -> & Hx). apply elem_of_seq in Hx. apply Hi. lia. }
    apply (NoDup_submseteq _ _ Hnd), submseteq_length in Hsub.
    rewrite length_map, length_seq in Hsub. lia.
  - cbn [unique_from]. destruct (file_exists _ _) eqn:E; [|by exists n].
    apply IH; [lia|..|lia]. intros i Hlt. destruct (decide (i = n)) as [-> |]; [by apply Hl|apply Hi; lia].
Qed.

(** The search for a free name ends, and ends in a name that is free. *)
Theorem unique_target_fresh fs dir name : listed_files fs dir name →
  ∃ n, unique_target fs dir name = Ok (path_join dir (candidate_name name n)) ∧
       file_exists fs (path_join dir (candidate_name name n)) = false.
Proof.
  intros Hl. destruct (unique_from_spec fs dir name (S (length (default [] (ls fs dir)))) 1) as (n & _ & ? & ?);
    [lia|done|intros; lia|lia|eauto].
Qed.

Definition two_taken : FS :=
  {| ls := λ d, if String.eqb d "/p/flows" then Some ["a.vjs"; "a_2.vjs"] else None;
     is_dir := λ _, false;
     file_exists := λ p, String.eqb p "/p/flows/a.vjs" || String.eqb p "/p/flows/a_2.vjs";
     reads := λ _, None; mtime := λ _, 0 |}.
Lemma unique_target_fresh_witness :
  ∃ n, unique_target two_taken "/p/flows" "a" = Ok (path_join "/p/flows" (candidate_name "a" n)) ∧
       file_exists two_taken (path_join "/p/flows" (candidate_name "a" n)) = false.
Proof.
  apply unique_target_fresh. intros n. cbn [file_exists two_taken ls]. rewrite orb_true_iff, !String.eqb_eq.
  assert (∃ r, candidate_name "a" n = "a" ++ r) as [r ->] by (destruct n as [|[|n]]; eexists; reflexivity).
  change (path_join "/p/flows" ("a" ++ r)) with ("/p/flows/a" ++ r).
  intros [H|H]; [apply (app_inj_left "/p/flows/a" r ".vjs") in H|apply (app_inj_left "/p/flows/a" r "_2.vjs") in H];
    subst r; [by left|by right; left].
Defined.
Example third_name : unique_target two_taken "/p/flows" "a" = Ok "/p/flows/a_3.vjs".
Proof. vm_compute. reflexivity. Qed.

(** ** What the agent writes *)

Section Generated.
Context {SD : Serde} {CT : CaseTables} {FL : FloatLib}.
Context (env : string → option string) (root : string) (why : view_err + verr → string).
Context (language contract_flow contract_connector : string).

(** A new script in a directory: no file is there, and its text parses to a
    program of the kind that was asked for. *)
Definition new_script (fs : FS) (dir : string) (kind : Program → Prop) {R} (o : Op R) : Prop :=
  match o with
  | WriteFile path content =>
    file_exists fs path = false ∧ (∃ name n, path = path_join dir (candidate_name name n)) ∧
    ∃ prog, parse content = Ok prog ∧ kind prog
  | _ => True
  end.
Definition a_flow (p : Program) : Prop := is_Some (p_source p).
Definition a_connector (p : Program) : Prop := ∃ d, p_driver p = Some d ∧ is_Some (driver_for d).

Lemma unique_from_free fs dir name fuel n t :
  unique_from fuel n fs dir name = Ok t →
  file_exists fs t = false ∧ ∃ i, t = path_join dir (candidate_name name i).
Proof.
  revert n. induction fuel as [|fuel IH]; intros n; cbn [unique_from]; [done|].
  destruct (file_exists fs (path_join dir (candidate_name name n))) eqn:E; [apply IH|].
  intros [= <-]. eauto.
Qed.

(** What the agent answers is only written when it is a program of the kind
    that was asked for, under a name no file has: it never replaces anything. *)
Theorem generated_files_are_new fs st prompt :
  wp (@settled_at fs st) (@new_script fs (path_join root "flows") a_flow) (λ _, True)
     (generate_flow env root why language contract_flow prompt) ∧
  wp (@settled_at fs st) (@new_script fs (path_join root "connectors") a_connector) (λ _, True)
     (generate_connector env root why contract_connector prompt).
Proof.
  split.
  - unfold generate_flow, ask_agent. prog_cbn. split; [done|]. snapshot. destruct (negb _); [done|].
    destruct (scan_all (E := ()) fs root) as [specs|[]| |]; try done. prog_cbn. split; [done|]. intros [out|e| |] _; try done. prog_cbn.
    unfold parsed, say, worded. destruct (parse (stripped_code out)) as [prog|e| |] eqn:Ep; try done. prog_cbn.
    case_bool_decide as Es; [|done]. prog_cbn. split; [done|]. intros now _.
    split; [done|]. snapshot. destruct (unique_target fs _ _) as [t|e| |] eqn:Et; try done. prog_cbn.
    apply unique_from_free in Et as [? [i ?]]. split; [|by intros [[]|e| |] _].
    split; [done|]. split; [by eauto|by exists prog].
  - unfold generate_connector, ask_agent. prog_cbn. split; [done|]. snapshot. destruct (negb _); [done|].
    destruct (connector_graph (E := ()) fs root) as [nodes|[]| |]; try done. prog_cbn. split; [done|]. intros [out|e| |] _; try done.
    prog_cbn. unfold parsed, say, worded. destruct (parse (stripped_code out)) as [prog|e| |] eqn:Ep; try done. prog_cbn.
    destruct (p_driver prog) as [driver|] eqn:Ed; [|done]. prog_cbn.
    case_bool_decide as Es; [|done]. prog_cbn. split; [done|]. intros now _.
    split; [done|]. intros [[]|e| |] _; (split; [done|]); snapshot;
      (destruct (unique_target fs _ _) as [t|e'| |] eqn:Et; try done); prog_cbn;
      apply unique_from_free in Et as [? [i ?]]; (split; [|by intros [[]|e''| |] _]);
      (split; [done|]); (split; [by eauto|]); exists prog; (split; [done|]); by exists driver.
Qed.
End Generated.
