(* ===== verification/Mcp.v ===== *)
(** * The agent's door

    The tools of the runtime over MCP (core/src/main.rs): what is listed, what
    each call does as a program over the operations of [Ops], and the JSON-RPC
    envelope. *)

From stdpp Require Import base gmap list strings.
From Stdlib Require Import ZArith Lia Ascii.
From S2P Require Import Prelude Text F64 Json Syntax Analysis Lexer Parser Secrets Eval Edit Paths Gates Traces Connect Project Registry Metrics Ops Api Actions.
Open Scope string_scope.
Open Scope Z_scope.

(** ** The list *)

(** core/src/main.rs:3520-3522 [mcp_tools] *)
Definition tool (name description : string) (props : list (string * Value)) (required : list string) : Value :=
  obj [("name", VString name); ("description", VString description);
       ("inputSchema", obj [("type", VString "object"); ("properties", obj props);
                            ("required", VArray (map VString required))])].

(** core/src/main.rs:3524-3555 [mcp_tools] *)
Definition builtin_tools : list Value :=
  [tool "vejas_topology"
     "List running flows and connectors with their status."
     [] [];
   tool "vejas_graph"
     "The pipeline graph: sources, flows, composed services, destinations, connectors."
     [] [];
   tool "vejas_surface"
     "The business surface of every flow: mappings, transcoding tables, constants."
     [] [];
   tool "vejas_language"
     "The VejasScript reference: grammar, builtins, and the rules for flow files and connector manifests. Read this before writing any .vjs."
     [] [];
   tool "vejas_vpl_check"
     "Check a detect unit (a VPL program under detects/, run by the embedded Varpulis engine — ADR-0031): the engine's own verdict, the same refusal a running unit would give. Returns {ok} or {ok:false, error}."
     [("file", obj [("type", VString "string"); ("description", VString "path of the .vpl file")])] ["file"];
   tool "vejas_read"
     "Read a script file (.vjs) or fixture (.json)."
     [("path", obj [("type", VString "string")])] ["path"];
   tool "vejas_write_flow"
     "Create or overwrite a .vjs script (parse-validated, hot-reloaded) or a .json fixture. path under flows/, connectors/, or packages/<pkg>/flows|services|fixtures."
     [("path", obj [("type", VString "string")]); ("content", obj [("type", VString "string")])] ["path"; "content"];
   tool "vejas_set_literal"
     "Rewrite one literal of the business surface in place (constant, or a table/mapping entry via key)."
     [("file", obj [("type", VString "string")]); ("name", obj [("type", VString "string")]); ("key", obj [("type", VString "string"); ("description", VString "entry key, or '-' for a whole constant")]); ("value", obj [])] ["file"; "name"; "value"];
   tool "vejas_rollback_literal"
     "Roll a business-surface literal back to the value it held before its most recent promote (from the VEJAS_AUDIT trail). Rollback is itself an audited promote to the recorded previous value — forward-only, hot-reloaded, previewable first with vejas_replay_literal. Returns {restored, was, rolled_back_promote_ts}."
     [("file", obj [("type", VString "string")]); ("name", obj [("type", VString "string")]); ("key", obj [("type", VString "string"); ("description", VString "entry key, or '-' for a whole constant")])] ["file"; "name"];
   tool "vejas_time_travel"
     "Time-travel (ADR-0021): replay a window of REAL persisted traffic through a whole CANDIDATE version of a flow and diff its emissions against the current effective version, joined by stream sequence. Read-only, the bus untouched, a candidate's emits never reach a real subject. Use to preview an arbitrary rewrite (not just one literal) before promoting it. Returns {events, changed, results:[{seq, before, after, changed}]}."
     [("file", obj [("type", VString "string")]); ("candidate", obj [("type", VString "string"); ("description", VString "the whole candidate VejasScript source")]); ("n", obj [("type", VString "integer"); ("description", VString "how many recent events to replay (default 20)")])] ["file"; "candidate"];
   tool "vejas_canary_start"
     "Start a canary (ADR-0021): shadow-follow a flow's LIVE traffic and diff a candidate version against the current effective version as events arrive, accumulating a diff. Read-only (shadow — no real emit). Refuses if a canary is already running for the flow. Auto-stops if the live version changes under it (reason in status)."
     [("file", obj [("type", VString "string")]); ("candidate", obj [("type", VString "string"); ("description", VString "the whole candidate VejasScript source")])] ["file"; "candidate"];
   tool "vejas_canary_status"
     "Read a canary's accumulating diff: {running, events, changed, stop_reason, results:[{seq, before, after, changed}]}."
     [("file", obj [("type", VString "string")])] ["file"];
   tool "vejas_canary_stop"
     "Stop a running canary for a flow (its shadow consumer exits; the last diff stays readable)."
     [("file", obj [("type", VString "string")])] ["file"];
   tool "vejas_propose"
     "Submit a governed change PROPOSAL for a human to approve in the panel (ADR-0024) — you can propose but never approve. kind='set_literal' (payload {file, name, key, value}) or kind='version' (payload {file, candidate: whole source}). Attach `evidence` you gathered (vejas_time_travel results, vejas_canary stats) — the panel shows it next to Approve, and flags 'no evidence' loudly. The proposal is pinned to the current baseline and auto-expires if a deploy/promote moves it. Returns the stored proposal (id, status:pending)."
     [("kind", obj [("type", VString "string")]); ("payload", obj [("type", VString "object")]); ("evidence", obj [("type", VString "object")])] ["kind"; "payload"];
   tool "vejas_proposals"
     "List the proposal queue with status (pending/approved/rejected/expired) and evidence. Read-only. Approve/reject are human panel actions, not tools."
     [] [];
   tool "vejas_replay_literal"
     "Shadow-replay a proposed literal change against REAL persisted traffic: hydrate the flow's recent events from JetStream (read-only, the bus untouched — falls back to the in-memory trace ring when the stream is empty or the flow has no bus source), rerun them against the current AND the patched script, and return the before/after emit diff (with `source`: jetstream|trace-ring). Nothing is written — promote with vejas_set_literal."
     [("file", obj [("type", VString "string")]); ("name", obj [("type", VString "string")]); ("key", obj [("type", VString "string"); ("description", VString "entry key, or '-' for a whole constant")]); ("value", obj []); ("n", obj [("type", VString "integer"); ("description", VString "how many recent events to replay (default 20)")])] ["file"; "name"; "value"];
   tool "vejas_preview"
     "Run a flow on its fixture and return the emitted messages plus the final pipeline."
     [("file", obj [("type", VString "string")])] ["file"];
   tool "vejas_run_flow"
     "Run any flow on a supplied input event and return its emits (does not touch the bus)."
     [("file", obj [("type", VString "string")]); ("input", obj [("type", VString "object")])] ["file"; "input"];
   tool "vejas_events"
     (quoted "The most recent events processed by the flows — subject, ok/error, emitted subjects, payload preview — newest first. Optional filter: flow (e.g. ~flow:stripe_alerts~).")
     [("flow", obj [("type", VString "string")])] [];
   tool "vejas_reload"
     "Rescan flows and packages; start new, stop removed, restart changed."
     [] [];
   tool "vejas_drivers"
     "List the available connector drivers (name, kind, description) for writing connector manifests."
     [] [];
   tool "vejas_secrets"
     "The secret references declared by flows and connectors, who uses each, and whether it RESOLVES against the store — references and statuses only, never values."
     [] [];
   tool "vejas_set_secret"
     "Write one secret value into the store (rotation included) and restart the units that reference it. WRITE-ONLY: no surface ever returns the value."
     [("ref", obj [("type", VString "string"); ("description", VString (quoted "the secret(~path/key~) reference"))]); ("value", obj [("type", VString "string")])] ["ref"; "value"];
   tool "vejas_test_connector"
     "Synchronously test one connector instance: evaluate its manifest with the real secrets, reach the remote side with the driver's probe, touch nothing. Returns {ok, detail} in plain words."
     [("file", obj [("type", VString "string")])] ["file"];
   tool "vejas_provision"
     "Instantiate a tenant package from a template (templates/<name>/, ${param} substitution, every file parse-checked, hot-started). Returns created files, started units and the secret references left to write. Refuses an existing package unless force (which overwrites template-rendered files)."
     [("template", obj [("type", VString "string")]); ("tenant_slug", obj [("type", VString "string")]); ("params", obj [("type", VString "object")]); ("force", obj [("type", VString "boolean")])] ["template"; "tenant_slug"];
   tool "sap_list"
     (quoted "List SAP function modules (BAPIs/RFCs) on the live system whose name matches a pattern (SAP wildcards, e.g. ~BAPI_USER*~). Needs an exec-rpc SAP connector running (driver ~exec-rpc~).")
     [("pattern", obj [("type", VString "string")])] [];
   tool "sap_describe"
     "Describe a SAP function module's interface: every parameter's name, direction (import/export/changing/tables), type and length. Read this before sap_call."
     [("func", obj [("type", VString "string")])] ["func"];
   tool "sap_call"
     (quoted "Call a SAP function module (BAPI/RFC) on the live system and return its outputs. `import` values may be scalars, structures (a JSON object) or tables (an array of row objects); every EXPORT/CHANGING scalar & structure and every TABLES parameter comes back auto-marshalled from metadata. `max_rows` caps table output. E.g. func=~RFC_READ_TABLE~, import={~QUERY_TABLE~:~T000~}.")
     [("func", obj [("type", VString "string")]); ("import", obj [("type", VString "object")]); ("max_rows", obj [("type", VString "integer")])] ["func"];
   tool "sap_send_idoc"
     (quoted "Send an IDoc INTO SAP via transactional RFC (exactly-once). `control` is the EDI_DC40 control record (e.g. {TABNAM:~EDI_DC40~, IDOCTYP:~MATMAS05~, MESTYP:~MATMAS~, SNDPRN, SNDPRT:~LS~, RCVPRN, RCVPRT:~LS~, DIRECT:~2~}); `data` is the array of EDI_DD40 segments ({SEGNAM, SDATA}). Pass a stable `tid` (24 chars) derived from an idempotency key for dedup across retries; omit for a fresh one. Returns the transaction id.")
     [("control", obj [("type", VString "object")]); ("data", obj [("type", VString "array")]); ("tid", obj [("type", VString "string")])] ["control"; "data"];
   tool "vejas_dlq"
     "List dead letters — poison messages parked in the DLQ (ADR-0015) instead of dropped: unit, original subject, attempts, last error, payload, each with a `seq` for replay/purge. Newest first."
     [("limit", obj [("type", VString "integer")])] [];
   tool "vejas_dlq_replay"
     "Replay dead letters — re-inject each to its ORIGINAL subject so the (now corrected) flow reprocesses it, then remove it from the DLQ. Target one by `seq`, a whole `unit`, or all (omit both). Do this AFTER fixing the cause (vejas_set_literal, previewed with vejas_replay_literal). Refused in governed mode: a human replays them in the panel, after approving the fix."
     [("seq", obj [("type", VString "integer")]); ("unit", obj [("type", VString "string")])] [];
   tool "vejas_dlq_purge"
     "Discard dead letters without replaying — by `seq`, by `unit`, or all (omit both). Refused in governed mode: a human discards them in the panel."
     [("seq", obj [("type", VString "integer")]); ("unit", obj [("type", VString "string")])] []].

(** core/src/main.rs:3560-3561 [mcp_tools] *)
Definition agent_tools : list Value :=
  [tool "vejas_new_flow"
     "Ask the agent to write a new VejasScript flow from a natural-language request; it lands running."
     [("prompt", obj [("type", VString "string")])] ["prompt"];
   tool "vejas_new_connector"
     "Ask the agent to write a new connector manifest from a natural-language request (picks a driver, writes config, uses secret() for credentials); it lands running."
     [("prompt", obj [("type", VString "string")])] ["prompt"]].

Section Mcp.
Context {SD : Serde} {CT : CaseTables} {FL : FloatLib}.
Context (e : env) (root : string) (canonicalize : string → option string).
Context (why : view_err + verr → string) (edit_text : edit_err → string) (gate_text : gate_err → string).
Context (language contract_flow contract_connector version : string).

(** core/src/main.rs:3563-3571 [mcp_tools] *)
Definition flow_tool (t : string * string * string) : Value :=
  let '(name, _, desc) := t in
  obj [("name", VString name); ("description", VString desc);
       ("inputSchema", obj [("type", VString "object"); ("description", VString "the input event for this flow")])].

(** core/src/main.rs [mcp_tools] *)
Definition mcp_tools : Prog Value :=
  fs ← call Look;
  flows ← or_die (tool_flows fs root);
  Ret (VArray (builtin_tools ++ (if agent_available e fs then agent_tools else []) ++ map flow_tool flows)%list).

(** ** The calls *)

Definition arg (args : Value) (k : string) : Prog (res string string) :=
  need (as_str (vindex args k)) (k ++ " required").
Definition arg_or (args : Value) (k d : string) : string := default d (as_str (vindex args k)).
Definition count_of (args : Value) (n : Z) : Z := default n (as_u64 (vindex args "n")).

(** core/src/main.rs:3575-3575 [mcp_call] *)
Definition text (v : string) : Prog (res string Value) :=
  done_ (obj [("content", VArray [obj [("type", VString "text"); ("text", VString v)]])]).
Definition text_json (v : Value) : Prog (res string Value) := text (to_json v).

Definition gate {A} (g : res gate_err ()) (k : Prog (res string A)) : Prog (res string A) :=
  _ ←? say gate_text g; k.
Definition direct_write {A} (k : Prog (res string A)) : Prog (res string A) :=
  gate (approval_gate e) (gate (cluster_write_guard e) k).

Definition reload_ : Prog (Z * Z * Z) := call Reload.
Definition reload_report (l : list (string * Z)) : Value := obj (map (λ kn, (fst kn, vint (snd kn))) l).

(** core/src/main.rs:3580-3584 [mcp_call] *)
Definition mcp_read (args : Value) : Prog (res string Value) :=
  p ←? arg args "path";
  path ←? allowed root canonicalize p;
  content ←? read_text why path;
  text content.

(** core/src/main.rs:3586-3595 [mcp_call] *)
Definition mcp_vpl_check (args : Value) : Prog (res string Value) :=
  file ←? arg args "file";
  fs ← call Look;
  src ←? say (λ e, why (inl e)) (ok_or (match reads fs (path_join root file) with
                                        | Some s => Some s
                                        | None => reads fs file
                                        end) VUnreadable);
  verdict ← call (CheckVpl src);
  either verdict
    (λ _, text_json (obj [("ok", VBool true); ("file", VString file)]))
    (λ e, text_json (obj [("ok", VBool false); ("file", VString file); ("error", VString e)])).

(** core/src/main.rs:3597-3615 [mcp_call] *)
Definition mcp_write_flow (args : Value) : Prog (res string Value) :=
  direct_write (
    p ←? arg args "path";
    content ←? arg args "content";
    path ←? allowed root canonicalize p;
    _ ←? (if ends_with p ".vjs" then _ ←? parsed why content; done_ ()
          else if ends_with p ".json" then
            _ ←? need (from_json content) "fixture must be valid JSON"; done_ ()
          else fail "only .vjs or .json files");
    _ ←? call (WriteFile path content);
    '(_, started, stopped) ← reload_;
    text_json (obj [("ok", VBool true); ("started", vint started); ("stopped", vint stopped)])).

(** core/src/main.rs:3616-3633 [mcp_call] *)
Definition mcp_set_literal (args : Value) : Prog (res string Value) :=
  gate (approval_gate e) (
    file ←? arg args "file";
    lname ←? arg args "name";
    let key := arg_or args "key" "-" in
    let value := vindex args "value" in
    if clustered e then
      out ←? call (PromoteVersion file lname key value "mcp");
      text_json out
    else
      path ←? allowed root canonicalize file;
      src ←? read_text why path;
      let before := default VNull (get_literal src lname key) in
      new_src ←? say edit_text (set_literal src lname key value);
      _ ←? call (WriteFile path new_src);
      _ ← call (RecordPromote file lname key before value "mcp");
      _ ← reload_;
      text_json (obj [("ok", VBool true)])).

(** core/src/main.rs:3634-3643 [mcp_call] *)
Definition mcp_rollback (args : Value) : Prog (res string Value) :=
  direct_write (
    file ←? arg args "file";
    lname ←? arg args "name";
    let key := arg_or args "key" "-" in
    out ←? rollback_literal root canonicalize why edit_text file lname key "rollback:mcp";
    _ ← reload_;
    text_json out).

(** core/src/main.rs:3644-3650 [mcp_call] *)
Definition mcp_replay_literal (args : Value) : Prog (res string Value) :=
  file ←? arg args "file";
  lname ←? arg args "name";
  out ←? call (ReplayLiteral file lname (arg_or args "key" "-") (vindex args "value") (count_of args 20));
  text_json out.
(** core/src/main.rs:3651-3656 [mcp_call] *)
Definition mcp_time_travel (args : Value) : Prog (res string Value) :=
  file ←? arg args "file";
  candidate ←? arg args "candidate";
  out ←? call (TimeTravel file candidate (count_of args 20));
  text_json out.

(** core/src/main.rs:3657-3661 [mcp_call] *)
Definition mcp_canary_start (args : Value) : Prog (res string Value) :=
  file ←? arg args "file";
  candidate ←? arg args "candidate";
  out ←? call (CanaryStart file candidate);
  text_json out.
(** core/src/main.rs:3662-3665 [mcp_call] *)
Definition mcp_canary_status (args : Value) : Prog (res string Value) :=
  file ←? arg args "file";
  out ←? call (CanaryRead file);
  text_json out.
(** core/src/main.rs:3666-3669 [mcp_call] *)
Definition mcp_canary_stop (args : Value) : Prog (res string Value) :=
  file ←? arg args "file";
  out ←? call (CanaryStop file);
  text_json out.

(** core/src/main.rs:3670-3675 [mcp_call] *)
Definition mcp_propose (args : Value) : Prog (res string Value) :=
  kind ←? arg args "kind";
  out ←? call (SubmitProposal kind (vindex args "payload") "mcp" (vindex args "evidence"));
  text_json out.

(** core/src/main.rs:3677-3680 [mcp_call] *)
Definition mcp_preview (args : Value) : Prog (res string Value) :=
  file ←? arg args "file";
  fs ← call Look;
  store ← call Store;
  out ←? say (λ e, why (inl e)) (preview_json fs root canonicalize store (λ e, why (inr e)) file);
  text out.
Definition run_tool (file : string) (input : Value) : Prog (res string Value) :=
  fs ← call Look;
  store ← call Store;
  emits ←? say why (run_flow_on_input fs root canonicalize store file input);
  text_json (obj [("emits", VArray emits)]).
(** core/src/main.rs:3681-3685 [mcp_call] *)
Definition mcp_run_flow (args : Value) : Prog (res string Value) :=
  file ←? arg args "file";
  run_tool file (vindex args "input").

(** core/src/main.rs:3686-3693 [mcp_call] *)
Definition mcp_new_flow (args : Value) : Prog (res string Value) :=
  direct_write (
    prompt ←? arg args "prompt";
    out ←? generate_flow e root why language contract_flow prompt;
    _ ← reload_;
    text out).
(** core/src/main.rs:3694-3701 [mcp_call] *)
Definition mcp_new_connector (args : Value) : Prog (res string Value) :=
  direct_write (
    prompt ←? arg args "prompt";
    out ←? generate_connector e root why contract_connector prompt;
    _ ← reload_;
    text out).

(** core/src/main.rs:3702-3705 [mcp_call] *)
Definition mcp_reload (_ : Value) : Prog (res string Value) :=
  '(total, started, stopped) ← reload_;
  text_json (obj [("total", vint total); ("started", vint started); ("stopped", vint stopped)]).

(** core/src/main.rs:3706-3712 [mcp_call] *)
Definition drivers_json : Value :=
  VArray (map (λ d : string * string * string, let '(n, k, a) := d in
    obj [("driver", VString n); ("kind", VString k); ("about", VString a)]) catalog).

Definition secrets_text : Prog (res string string) :=
  fs ← call Look;
  store ← call Store;
  u ← call UnitTable;
  Ret (match secrets_json (E := ()) fs root store (elements (rotations u)) with
       | Ok s => Ok s | Err _ | Panic => Panic | NoFuel => NoFuel end).

(** Writing a secret: a file of one instance is refused in a cluster. *)
Definition local_store : string :=
  "clustered: a local-file secret store would be written on one instance only — use a shared Vault backend, see ADR-0020".
(** core/src/main.rs:3714-3730 [mcp_call] *)
Definition mcp_set_secret (args : Value) : Prog (res string Value) :=
  gate (approval_gate e) (
    store ← call Store;
    if clustered e && negb (String.eqb (ss_kind store) "vault") then fail local_store
    else
      r ←? arg args "ref";
      v ←? arg args "value";
      if String.eqb v "" then fail "empty value"
      else
        restarted ←? call (SetSecret r v);
        text_json (obj [("ok", VBool true); ("ref", VString r); ("restarted", VArray (map VString restarted))])).

(** core/src/main.rs:3731-3734 [mcp_call] *)
Definition mcp_test_connector (args : Value) : Prog (res string Value) :=
  file ←? arg args "file";
  v ← probe_connector e root canonicalize why file;
  text_json v.

(** core/src/main.rs:3735-3743 [mcp_call] *)
Definition mcp_provision (args : Value) : Prog (res string Value) :=
  direct_write (
    template ←? arg args "template";
    slug ←? arg args "tenant_slug";
    let params := default [] (as_object (vindex args "params")) in
    let force := default false (as_bool (vindex args "force")) in
    out ←? call (ProvisionTenant template slug params force);
    text_json out).

Definition rpc_text (op : Value) : Prog (res string Value) :=
  out ←? sap_rpc_request root why op;
  text_json out.
Definition given (args : Value) (k : string) : list (string * Value) :=
  match vget k args with Some v => [(k, v)] | None => [] end.
(** core/src/main.rs:3744-3747 [mcp_call] *)
Definition sap_list (args : Value) : Prog (res string Value) :=
  rpc_text (obj [("op", VString "list"); ("pattern", VString (arg_or args "pattern" "*"))]).
(** core/src/main.rs:3748-3751 [mcp_call] *)
Definition sap_describe (args : Value) : Prog (res string Value) :=
  func ←? arg args "func";
  rpc_text (obj [("op", VString "describe"); ("func", VString func)]).
(** core/src/main.rs:3752-3762 [mcp_call] *)
Definition sap_call (args : Value) : Prog (res string Value) :=
  func ←? arg args "func";
  rpc_text (obj ([("op", VString "call"); ("func", VString func)]
                 ++ given args "import" ++ given args "max_rows")%list).
(** core/src/main.rs:3763-3771 [mcp_call] *)
Definition sap_send_idoc (args : Value) : Prog (res string Value) :=
  rpc_text (obj ([("op", VString "send_idoc"); ("control", default (obj []) (vget "control" args));
                  ("data", default (VArray []) (vget "data" args))] ++ given args "tid")%list).

(** core/src/main.rs:3772-3775 [mcp_call] *)
Definition mcp_dlq (args : Value) : Prog (res string Value) :=
  l ←? call (DlqList (default 100 (as_u64 (vindex args "limit"))));
  text_json (obj [("dead_letters", VArray l)]).
(** core/src/main.rs:3776-3781 [mcp_call] *)
Definition mcp_dlq_replay (args : Value) : Prog (res string Value) :=
  gate (dlq_agent_gate e) (
    out ←? call (DlqReplay (as_u64 (vindex args "seq")) (as_str (vindex args "unit")) "mcp");
    text_json out).
(** core/src/main.rs:3782-3787 [mcp_call] *)
Definition mcp_dlq_purge (args : Value) : Prog (res string Value) :=
  gate (dlq_agent_gate e) (
    out ←? call (DlqPurge (as_u64 (vindex args "seq")) (as_str (vindex args "unit")) "mcp");
    text_json out).

(** core/src/main.rs:3576-3790 [mcp_call] *)
Definition builtin_calls (args : Value) : list (string * Prog (res string Value)) :=
  [("vejas_topology", u ← call UnitTable; text_json (topology_json u));
   ("vejas_graph", fs ← call Look; v ← or_die (graph_json fs root); text_json v);
   ("vejas_surface", fs ← call Look; v ← or_die (surface_json fs root); text_json v);
   ("vejas_read", mcp_read args);
   ("vejas_language", text language);
   ("vejas_vpl_check", mcp_vpl_check args);
   ("vejas_events", t ← call TraceRings; text (events_json (as_str (vindex args "flow")) t));
   ("vejas_write_flow", mcp_write_flow args);
   ("vejas_set_literal", mcp_set_literal args);
   ("vejas_rollback_literal", mcp_rollback args);
   ("vejas_replay_literal", mcp_replay_literal args);
   ("vejas_time_travel", mcp_time_travel args);
   ("vejas_canary_start", mcp_canary_start args);
   ("vejas_canary_status", mcp_canary_status args);
   ("vejas_canary_stop", mcp_canary_stop args);
   ("vejas_propose", mcp_propose args);
   ("vejas_proposals", l ←? call ListProposals; text_json (obj [("proposals", VArray l)]));
   ("vejas_preview", mcp_preview args);
   ("vejas_run_flow", mcp_run_flow args);
   ("vejas_new_flow", mcp_new_flow args);
   ("vejas_new_connector", mcp_new_connector args);
   ("vejas_reload", mcp_reload args);
   ("vejas_drivers", text_json drivers_json);
   ("vejas_secrets", s ←? secrets_text; text s);
   ("vejas_set_secret", mcp_set_secret args);
   ("vejas_test_connector", mcp_test_connector args);
   ("vejas_provision", mcp_provision args);
   ("sap_list", sap_list args);
   ("sap_describe", sap_describe args);
   ("sap_call", sap_call args);
   ("sap_send_idoc", sap_send_idoc args);
   ("vejas_dlq", mcp_dlq args);
   ("vejas_dlq_replay", mcp_dlq_replay args);
   ("vejas_dlq_purge", mcp_dlq_purge args)].

(** A flow that is a tool runs on the arguments. *)
(** core/src/main.rs:3788-3797 [mcp_call] *)
Definition flow_call (name : string) (args : Value) : Prog (res string Value) :=
  fs ← call Look;
  flows ← or_die (tool_flows fs root);
  match List.find (λ t, String.eqb (fst (fst t)) name) flows with
  | Some (_, file, _) => run_tool file args
  | None => fail ("unknown tool " ++ name)
  end.

(** core/src/main.rs [mcp_call] *)
Definition mcp_call (name : string) (args : Value) : Prog (res string Value) :=
  match List.find (λ c, String.eqb (fst c) name) (builtin_calls args) with
  | Some (_, p) => p
  | None => flow_call name args
  end.

(** ** The envelope *)

(** core/src/main.rs:3803-3808 [mcp_dispatch] *)
Definition rpc_ok (id : Value) (result : Value) : option Value :=
  Some (obj [("jsonrpc", VString "2.0"); ("id", id); ("result", result)]).
Definition rpc_err (id : Value) (code : Z) (msg : string) : option Value :=
  Some (obj [("jsonrpc", VString "2.0"); ("id", id);
             ("error", obj [("code", vint code); ("message", VString msg)])]).

(** core/src/main.rs [mcp_dispatch] *)
Definition mcp_dispatch (req : Value) : Prog (option Value) :=
  let id := vindex req "id" in
  let method := arg_or req "method" "" in
  if String.eqb method "initialize" then
    Ret (rpc_ok id (obj [("protocolVersion", VString "2024-11-05");
                         ("capabilities", obj [("tools", obj [("listChanged", VBool true)])]);
                         ("serverInfo", obj [("name", VString "vejas"); ("version", VString version)])]))
  else if String.eqb method "notifications/initialized" || String.eqb method "notifications/cancelled" then Ret None
  else if String.eqb method "ping" then Ret (rpc_ok id (obj []))
  else if String.eqb method "tools/list" then
    tools ← mcp_tools;
    Ret (rpc_ok id (obj [("tools", tools)]))
  else if String.eqb method "tools/call" then
    let params := vindex req "params" in
    let name := arg_or params "name" "" in
    let args := default (obj []) (vget "arguments" params) in
    out ← mcp_call name args;
    either out (λ v, Ret (rpc_ok id v))
      (λ e, Ret (rpc_ok id (obj [("content", VArray [obj [("type", VString "text");
                                                          ("text", VString ("error: " ++ e))]]);
                                 ("isError", VBool true)])))
  else Ret (rpc_err id (-32601) ("method not found: " ++ method)).
End Mcp.
