(* ===== verification/Http.v ===== *)
(** * Requests

    The HTTP surface of the runtime (core/src/main.rs): [handle_request] as a
    program over the operations of [Ops], one definition a route, and what it
    takes to make it change anything.  The socket, the thread of a request and
    the bound on their number are in [serve_turn]. *)

From stdpp Require Import base gmap list strings.
From Stdlib Require Import ZArith Lia Ascii.
From S2P Require Import Prelude Text F64 Json Syntax Analysis Lexer Parser Secrets Eval Edit EvalFacts RunProps Paths Gates Bus Traces Connect Project Registry Metrics Ops Api Actions Mcp.
Open Scope string_scope.
Open Scope Z_scope.

Record HttpRequest : Type := {
  hr_method : Method;
  hr_url : string;
  hr_headers : list (string * string);
  hr_body : string
}.
Record Response : Type := { code : Z; body : string; ctype : string }.

(** core/src/main.rs [respond] *)
Definition respond (c : Z) (b t : string) : Prog Response := Ret {| code := wrap 16 c; body := b; ctype := t |}.
Definition plain (c : Z) (b : string) : Prog Response := respond c b "text/plain".
Definition json_text (c : Z) (b : string) : Prog Response := respond c b "application/json".

Definition method_name (m : Method) : string :=
  match m with
  | Get => "GET" | Head => "HEAD" | Post => "POST" | Put => "PUT" | Patch => "PATCH" | Delete => "DELETE"
  | OtherMethod n => n
  end.
(** core/src/main.rs [method_str] *)
Definition method_str (m : Method) : string := to_ascii_uppercase (method_name m).

(** core/src/main.rs:3848-3854 [qparam] *)
Fixpoint first_param (key : string) (pairs : list string) : option string :=
  match pairs with
  | [] => None
  | p :: pairs =>
    match split_once p "=" with
    | Some (k, v) =>
      if String.eqb k key then Some (str_replace (str_replace v "%2F" "/") "%2f" "/") else first_param key pairs
    | None => first_param key pairs
    end
  end.
(** core/src/main.rs [qparam] *)
Definition qparam (url key : string) : option string :=
  '(_, q) ← split_once url "?";
  first_param key (str_split q "&").

Section Http.
Context {SD : Serde} {CT : CaseTables} {FL : FloatLib}.
Context (e : env) (root : string) (canonicalize : string → option string).
Context (why : view_err + verr → string) (edit_text : edit_err → string) (gate_text : gate_err → string)
  (dlq_text : Z → string).
Context (language contract_flow contract_connector version panel : string).

(** core/src/main.rs [read_body] *)
Definition read_body (rq : HttpRequest) : Value :=
  default VNull (if valid_utf8 (hr_body rq) then from_json (hr_body rq) else None).

Definition path_only (rq : HttpRequest) : string := default "" (head (str_split (hr_url rq) "?")).
Definition as_request (rq : HttpRequest) : Request :=
  {| rq_method := hr_method rq; rq_path := path_only rq; rq_headers := hr_headers rq |}.

(** An outcome as a response: 200 with JSON, or the code of the failure. *)
Definition answer (failed : Z) (r : res string Value) : Prog Response :=
  either r (λ v, json_text 200 (to_json v)) (λ e, plain failed e).
Definition answer_text (failed : Z) (r : res string string) : Prog Response :=
  either r (json_text 200) (λ e, plain failed e).

(** A gate that must let the request through. *)
Definition gated (g : res gate_err ()) (k : Prog Response) : Prog Response :=
  match g with Ok _ => k | Err x => plain 409 (gate_text x) | Panic | NoFuel => Die end.
Definition direct (k : Prog Response) : Prog Response := gated (approval_gate e) (gated (cluster_write_guard e) k).

(** core/src/main.rs:3870-3883 [handle_request] *)
Definition unauthorized (rq : HttpRequest) : bool :=
  match write_token e with
  | Some tok =>
    negb (is_read_method (hr_method rq)) && negb (bearer_authorized (as_request rq) tok)
    && negb (is_human_route (path_only rq) && approval_authorized e (as_request rq))
  | None => false
  end.

(** ** Flows *)

(** core/src/main.rs:3891-3931 [handle_request] *)
Definition serve_api (rq : HttpRequest) (rel : string) : Prog Response :=
  fs ← call Look;
  found ← or_die (match_api_route fs root (method_str (hr_method rq)) rel);
  match found with
  | None =>
    json_text 404 (to_json (obj [("error", VString "no API route"); ("method", VString (method_str (hr_method rq)));
                                 ("path", VString ("/" ++ rel))]))
  | Some (file, params) =>
    fs ← call Look;
    writes ← or_die (flow_writes_bus fs root canonicalize file);
    if match write_token e with
       | Some tok => is_read_method (hr_method rq) && writes && negb (bearer_authorized (as_request rq) tok)
       | None => false
       end
    then plain 401 "unauthorized: this endpoint writes to the bus; set Authorization: Bearer <VEJAS_TOKEN>"
    else
      let ev := default [] (as_object (read_body rq)) in
      let ev := fold_left (λ m kv, map_insert (fst kv) (VString (snd kv)) m) params ev in
      let ev := map_insert "query" (parse_query (hr_url rq)) ev in
      '(c, out) ← call (RunApi file (VObject ev));
      json_text c out
  end.

(** ** Proposals *)

(** core/src/main.rs:3935-3961 [handle_request] *)
Definition decide_route (rq : HttpRequest) (actor rest : string) : Prog Response :=
  match rsplit_once rest "/" with
  | None => plain 400 "use /proposals/{id}/approve|reject"
  | Some (id, action) =>
    let decide approve :=
      match approval_token e with
      | None => plain 403 "approval requires VEJAS_APPROVAL_TOKEN (a credential distinct from the agent's VEJAS_TOKEN)"
      | Some _ =>
        if negb (approval_authorized e (as_request rq)) then plain 401 "unauthorized: X-Approval-Token required"
        else r ← call (DecideProposal id approve actor); answer 422 r
      end in
    if String.eqb action "approve" then decide true
    else if String.eqb action "reject" then decide false
    else plain 400 "action must be approve or reject"
  end.

(** ** Reading *)

(** core/src/main.rs:3981-4005 [handle_request] *)
Definition get_metrics : Prog Response :=
  u ← call UnitTable;
  m ← call Counters;
  let hs := list_omap _ _ (λ ni : string * nat, handles u !! snd ni) (map_to_list (registry u)) in
  let gauges := map (λ h, (sp_name (h_spec h), prefix_of (sp_kind (h_spec h)), st_restarts (h_state h))) hs in
  respond 200 (render gauges m) "text/plain; version=0.0.4".

(** core/src/main.rs:4140-4157 [handle_request] *)
Definition get_view (rq : HttpRequest) (view : FS → SecretStore → string → res view_err string) : Prog Response :=
  match qparam (hr_url rq) "file" with
  | None => plain 400 "missing file"
  | Some file =>
    fs ← call Look;
    store ← call Store;
    answer_text 500 (worded (λ x, why (inl x)) (view fs store file))
  end.
(** core/src/main.rs:4140-4148 [handle_request] *)
Definition get_preview (rq : HttpRequest) : Prog Response :=
  get_view rq (λ fs store file, preview_json fs root canonicalize store (λ x, why (inr x)) file).
(** core/src/main.rs:4149-4157 [handle_request] *)
Definition get_rules (rq : HttpRequest) : Prog Response :=
  get_view rq (λ fs _ file, rules_json fs root canonicalize file).

(** core/src/main.rs:4158-4171 [handle_request] *)
Definition get_file (rq : HttpRequest) : Prog Response :=
  match qparam (hr_url rq) "path" ≫= guard_path canonicalize root with
  | None => plain 400 "path not allowed"
  | Some p =>
    fs ← call Look;
    match reads fs p with
    | Some content => json_text 200 (to_json (obj [("path", VString p); ("content", VString content)]))
    | None => plain 404 (why (inl VUnreadable))
    end
  end.

(** core/src/main.rs:4205-4220 [handle_request] *)
Definition get_fixture (rq : HttpRequest) : Prog Response :=
  match qparam (hr_url rq) "file" with
  | None => plain 400 "missing file"
  | Some file =>
    match guard_path canonicalize root file with
    | None => plain 400 "path not allowed"
    | Some p =>
      fs ← call Look;
      let fx := fixture_path_for p in
      json_text 200 (to_json (obj [("path", VString fx); ("content", VString (default "{}" (reads fs fx)))]))
    end
  end.

(** core/src/main.rs:4282-4290 [handle_request] *)
Definition get_canary (rq : HttpRequest) : Prog Response :=
  match qparam (hr_url rq) "file" with
  | None => plain 400 "missing file"
  | Some file => r ← call (CanaryRead file); answer 422 r
  end.

(** ** Writing *)

Definition field (b : Value) (k : string) : string := vstr_or "" b k.

(** core/src/main.rs:4028-4044 [handle_request] *)
Definition post_golden (rq : HttpRequest) : Prog Response :=
  direct (
    let b := read_body rq in
    r ← golden_from_event root canonicalize why (field b "flow") (default u64_max (as_u64 (vindex b "seq")));
    answer 422 r).

(** core/src/main.rs:4049-4070 [handle_request] *)
Definition post_dlq (rq : HttpRequest) (actor : string)
  (op : option Z → option string → string → Op (res string Value)) : Prog Response :=
  match dlq_http_gate e (as_request rq) with
  | Ok _ =>
    let b := read_body rq in
    r ← call (op (as_u64 (vindex b "seq")) (as_str (vindex b "unit")) actor);
    answer 422 r
  | Err c => plain c (dlq_text c)
  | Panic | NoFuel => Die
  end.

(** core/src/main.rs:4081-4112 [handle_request] *)
Definition post_secret (rq : HttpRequest) : Prog Response :=
  gated (approval_gate e) (
    store ← call Store;
    if clustered e && negb (String.eqb (ss_kind store) "vault") then plain 409 local_store
    else
      let b := read_body rq in
      match as_str (vindex b "ref"), as_str (vindex b "value") with
      | Some r, Some v =>
        if String.eqb v "" then plain 400 "empty value"
        else
          out ← call (SetSecret r v);
          either out
            (λ restarted, json_text 200 (to_json (obj [("ok", VBool true); ("ref", VString r);
                                                       ("restarted", VArray (map VString restarted))])))
            (λ x, plain 422 x)
      | _, _ => plain 400 "need ref+value"
      end).

(** core/src/main.rs:4113-4119 [handle_request] *)
Definition post_test (rq : HttpRequest) : Prog Response :=
  match as_str (vindex (read_body rq) "file") with
  | None => plain 400 "need file"
  | Some file => v ← probe_connector e root canonicalize why file; json_text 200 (to_json v)
  end.

(** core/src/main.rs:4120-4139 [handle_request] *)
Definition post_provision (rq : HttpRequest) : Prog Response :=
  direct (
    let b := read_body rq in
    match as_str (vindex b "template"), as_str (vindex b "tenant_slug") with
    | Some template, Some slug =>
      r ← call (ProvisionTenant template slug (default [] (as_object (vindex b "params")))
                  (default false (as_bool (vindex b "force"))));
      answer 422 r
    | _, _ => plain 400 "need template+tenant_slug"
    end).

(** core/src/main.rs:4172-4204 [handle_request] *)
Definition post_file (rq : HttpRequest) : Prog Response :=
  direct (
    let b := read_body rq in
    match as_str (vindex b "path"), as_str (vindex b "content") with
    | Some pstr, Some content =>
      match guard_path canonicalize root pstr with
      | None => plain 400 "path not allowed"
      | Some p =>
        checked ← (if ends_with pstr ".vjs" then (_ ←? parsed why content; done_ ()) else done_ ());
        either checked
          (λ _,
            written ← call (WriteFile p content);
            either written
              (λ _, '(_, started, stopped) ← reload_;
                    json_text 200 (to_json (obj [("ok", VBool true); ("started", vint started);
                                                 ("stopped", vint stopped)])))
              (λ x, plain 500 x))
          (λ x, plain 422 x)
      end
    | _, _ => plain 400 "need path+content"
    end).

(** core/src/main.rs:4221-4247 [handle_request] *)
Definition post_fixture (rq : HttpRequest) : Prog Response :=
  direct (
    let b := read_body rq in
    match as_str (vindex b "file"), as_str (vindex b "content") with
    | Some file, Some content =>
      match guard_path canonicalize root file with
      | None => plain 400 "path not allowed"
      | Some p =>
        match from_json content with
        | None => plain 422 "fixture must be valid JSON"
        | Some _ =>
          let fx := fixture_path_for p in
          _ ← (match parent fx with Some d => call (MakeDirs d) | None => Ret (Ok ()) end);
          written ← call (WriteFile fx content);
          either written (λ _, json_text 200 (to_json (obj [("ok", VBool true)]))) (λ x, plain 500 x)
        end
      end
    | _, _ => plain 400 "need file+content"
    end).

Definition how_many (b : Value) : Z := default 20 (as_u64 (vindex b "n")).
Definition key_of_body (b : Value) : string := vstr_or "-" b "key".
(** core/src/main.rs:4248-4258 [handle_request] *)
Definition post_replay (rq : HttpRequest) : Prog Response :=
  let b := read_body rq in
  r ← call (ReplayLiteral (field b "file") (field b "name") (key_of_body b) (vindex b "value") (how_many b));
  answer 422 r.
(** core/src/main.rs:4259-4270 [handle_request] *)
Definition post_timetravel (rq : HttpRequest) : Prog Response :=
  let b := read_body rq in
  r ← call (TimeTravel (field b "file") (field b "candidate") (how_many b));
  answer 422 r.

(** core/src/main.rs:4271-4281 [handle_request] *)
Definition post_canary_start (rq : HttpRequest) : Prog Response :=
  let b := read_body rq in
  r ← call (CanaryStart (field b "file") (field b "candidate"));
  either r (λ v, json_text 200 (to_json v))
    (λ x, plain (if str_contains x "already running" then 409 else 422) x).
(** core/src/main.rs:4291-4298 [handle_request] *)
Definition post_canary_stop (rq : HttpRequest) : Prog Response :=
  r ← call (CanaryStop (field (read_body rq) "file"));
  answer 422 r.

(** core/src/main.rs:4299-4339 [handle_request] *)
Definition post_literal (rq : HttpRequest) (actor : string) : Prog Response :=
  gated (approval_gate e) (
    let b := read_body rq in
    let file := field b "file" in
    let name := field b "name" in
    let key := key_of_body b in
    let value := vindex b "value" in
    if clustered e then r ← call (PromoteVersion file name key value actor); answer 422 r
    else
      match guard_path canonicalize root file with
      | None => plain 400 "path not allowed"
      | Some p =>
        fs ← call Look;
        match reads fs p with
        | None => plain 500 (why (inl VUnreadable))
        | Some src =>
          let before := default VNull (get_literal src name key) in
          either (worded edit_text (set_literal src name key value))
            (λ new_src,
              written ← call (WriteFile p new_src);
              either written
                (λ _,
                  _ ← call (RecordPromote file name key before value actor);
                  _ ← reload_;
                  json_text 200 (to_json (obj [("ok", VBool true); ("file", VString file);
                                               ("name", VString name); ("key", VString key)])))
                (λ x, plain 500 x))
            (λ x, plain 422 x)
        end
      end).

(** core/src/main.rs:4340-4358 [handle_request] *)
Definition post_rollback (rq : HttpRequest) (actor : string) : Prog Response :=
  direct (
    let b := read_body rq in
    out ← rollback_literal root canonicalize why edit_text (field b "file") (field b "name") (key_of_body b)
            ("rollback:" ++ actor);
    either out (λ v, _ ← reload_; json_text 200 (to_json v)) (λ x, plain 422 x)).

(** core/src/main.rs:4359-4407 [handle_request] *)
Definition post_generate (rq : HttpRequest) (generate : string → Prog (res string string)) : Prog Response :=
  direct (
    let prompt := field (read_body rq) "prompt" in
    if String.eqb (trim prompt) "" then plain 400 "missing prompt"
    else
      out ← generate prompt;
      either out (λ v, _ ← reload_; json_text 200 v) (λ x, plain 422 x)).

(** core/src/main.rs:4408-4416 [handle_request] *)
Definition post_reload : Prog Response :=
  '(total, started, stopped) ← reload_;
  json_text 200 (to_json (obj [("total", vint total); ("started", vint started); ("stopped", vint stopped)])).

(** core/src/main.rs:4420-4424 [handle_request] *)
Fixpoint dispatch_all (l : list Value) : Prog (list Value) :=
  match l with
  | [] => Ret []
  | r :: l =>
    out ← mcp_dispatch e root canonicalize why edit_text gate_text language contract_flow contract_connector version r;
    rest ← dispatch_all l;
    Ret (match out with Some v => v :: rest | None => rest end)
  end.
(** core/src/main.rs:4417-4436 [handle_request] *)
Definition post_mcp (rq : HttpRequest) : Prog Response :=
  match read_body rq with
  | VArray arr =>
    replies ← dispatch_all arr;
    match replies with
    | [] => json_text 202 ""
    | _ => json_text 200 (to_json (VArray replies))
    end
  | b =>
    out ← mcp_dispatch e root canonicalize why edit_text gate_text language contract_flow contract_connector version b;
    match out with
    | Some v => json_text 200 (to_json v)
    | None => json_text 202 ""
    end
  end.

(** ** The table *)

(** core/src/main.rs:3964-4080 [handle_request] *)
Definition get_routes (rq : HttpRequest) : list (string * Prog Response) :=
  [("/proposals", r ← call ListProposals;
     answer 500 (l ← r; Ok (obj [("proposals", VArray l)])));
   ("/", respond 200 panel "text/html; charset=utf-8");
   ("/panel", respond 200 panel "text/html; charset=utf-8");
   ("/healthz", plain 200 "ok");
   ("/evictions", l ← call Evictions; json_text 200 (to_json (obj [("evictions", VArray l)])));
   ("/metrics", get_metrics);
   ("/topology", u ← call UnitTable; json_text 200 (to_json (topology_json u)));
   ("/graph", fs ← call Look; v ← or_die (graph_json fs root); json_text 200 (to_json v));
   ("/surface", fs ← call Look; v ← or_die (surface_json fs root); json_text 200 (to_json v));
   ("/events", t ← call TraceRings; json_text 200 (events_json (qparam (hr_url rq) "flow") t));
   ("/dlq", r ← call (DlqList 200); answer 500 (l ← r; Ok (obj [("dead_letters", VArray l)])));
   ("/drivers", json_text 200 (to_json drivers_json));
   ("/secrets", s ← secrets_text root; answer_text 500 s);
   ("/preview", get_preview rq);
   ("/rules", get_rules rq);
   ("/file", get_file rq);
   ("/fixture", get_fixture rq);
   ("/surface/canary", get_canary rq)].

Definition post_routes (rq : HttpRequest) (actor : string) : list (string * Prog Response) :=
  [("/events/golden", post_golden rq);
   ("/dlq/replay", post_dlq rq actor DlqReplay);
   ("/dlq/purge", post_dlq rq actor DlqPurge);
   ("/secrets/set", post_secret rq);
   ("/connectors/test", post_test rq);
   ("/provision", post_provision rq);
   ("/file/set", post_file rq);
   ("/fixture/set", post_fixture rq);
   ("/surface/replay", post_replay rq);
   ("/surface/timetravel", post_timetravel rq);
   ("/surface/canary/start", post_canary_start rq);
   ("/surface/canary/stop", post_canary_stop rq);
   ("/surface/set", post_literal rq actor);
   ("/surface/rollback", post_rollback rq actor);
   ("/flows/new", post_generate rq (generate_flow e root why language contract_flow));
   ("/connectors/new", post_generate rq (generate_connector e root why contract_connector));
   ("/reload", post_reload);
   ("/mcp", post_mcp rq)].

(** core/src/main.rs:3963-3973 [handle_request] *)
Definition route (rq : HttpRequest) (actor : string) : Prog Response :=
  let table := match hr_method rq with
               | Get => get_routes rq
               | Post => post_routes rq actor
               | _ => []
               end in
  match List.find (λ r, String.eqb (fst r) (path_only rq)) table with
  | Some (_, p) => p
  | None => plain 404 "not found"
  end.

(** core/src/main.rs [handle_request] *)
Definition handle_request (rq : HttpRequest) : Prog Response :=
  let path := path_only rq in
  if unauthorized rq then plain 401 "unauthorized: set Authorization: Bearer <VEJAS_TOKEN>"
  else
    let actor := header_actor (as_request rq) "panel" in
    if String.eqb path "/api/openapi.json" then
      fs ← call Look;
      v ← or_die (openapi_json fs root e);
      json_text 200 (to_json v)
    else
      match strip_prefix path "/api/" with
      | Some rel => serve_api rq rel
      | None =>
        match hr_method rq, strip_prefix path "/proposals/" with
        | Post, Some rest => decide_route rq actor rest
        | _, _ => route rq actor
        end
      end.
End Http.
