(* ===== verification/Doors.v ===== *)
(** * What a request may do

    The properties of [Http] and [Mcp]: without the credentials a request
    changes nothing, in governed mode a change takes the human's, in a cluster
    no request writes a local file, and every call of a batch gets its answer. *)

From stdpp Require Import base gmap list strings.
From Stdlib Require Import ZArith Lia Ascii.
From S2P Require Import Prelude Text F64 Json Syntax Analysis Lexer Parser Secrets Eval Edit EvalFacts Concrete RunProps Paths Gates Bus Traces Connect Project Registry Metrics Ops Api Actions Mcp Http.
Open Scope string_scope.
Open Scope Z_scope.

Lemma find_Forall {A} (P : A → Prop) f l x : Forall P l → List.find f l = Some x → P x.
Proof. intros H [Hin _]%List.find_some. rewrite Forall_forall in H. apply H. by apply list_elem_of_In. Qed.

Section Doors.
Context {SD : Serde} {CT : CaseTables} {FL : FloatLib}.
Context (e : env) (root : string) (canonicalize : string → option string).
Context (why : view_err + verr → string) (edit_text : edit_err → string) (gate_text : gate_err → string)
  (dlq_text : Z → string).
Context (language contract_flow contract_connector version panel : string).

Notation handle := (handle_request e root canonicalize why edit_text gate_text dlq_text
  language contract_flow contract_connector version panel).
Notation table := (builtin_calls e root canonicalize why edit_text gate_text language contract_flow contract_connector).
Notation dispatch := (mcp_dispatch e root canonicalize why edit_text gate_text language contract_flow contract_connector version).

(** Walking through the handlers: unfold, step, decide by the class. *)
Ltac handlers :=
  unfold get_metrics, get_preview, get_rules, get_view, get_file, get_fixture, get_canary, secrets_text,
    post_golden, post_dlq, post_secret, post_test, post_provision, post_file, post_fixture, post_replay,
    post_timetravel, post_canary_start, post_canary_stop, post_literal, post_rollback, post_generate, post_reload,
    mcp_read, mcp_vpl_check, mcp_write_flow, mcp_set_literal, mcp_rollback, mcp_replay_literal, mcp_time_travel,
    mcp_canary_start, mcp_canary_status, mcp_canary_stop, mcp_propose, mcp_preview, mcp_run_flow, run_tool,
    mcp_new_flow, mcp_new_connector, mcp_reload, mcp_set_secret, mcp_test_connector, mcp_provision,
    sap_list, sap_describe, sap_call, sap_send_idoc, mcp_dlq, mcp_dlq_replay, mcp_dlq_purge,
    golden_from_event, rollback_literal, generate_flow, generate_connector, ask_agent, probe_connector,
    probe_verdict, manifest_vars, allowed, read_text, parsed, arg, text_json, text, reload_, reload_report,
    answer, answer_text, json_text, plain, respond in *.
Ltac walk := repeat first [walk_step | done].

Section GetOnly.
Context (fs : FS) (st : SecretStore).
(** Reading, and running flows that leave the bus as it is. *)
Definition silent {R} (o : Op R) : Prop :=
  match o with
  | RunApi file event =>
    ∀ (N : Type) (NET : Net N) (bus : option (Link N)),
      snd (run_api_flow (E := ()) fs root canonicalize st why file event bus) = bus
  | o => reads_only o = true
  end.

Lemma get_routes_silent rq :
  Forall (λ r, wp (@settled_at fs st) (@silent) (λ _, True) (snd r)) (get_routes root canonicalize why panel rq).
Proof. unfold get_routes. repeat constructor; cbn [snd]; handlers; walk. Qed.

Lemma read_routes_silent rq actor : is_read_method (hr_method rq) = true →
  wp (@settled_at fs st) (@silent) (λ _, True)
    (route e root canonicalize why edit_text gate_text dlq_text language contract_flow contract_connector version panel rq actor).
Proof.
  intros Hm. unfold route. destruct (hr_method rq); try done.
  destruct (List.find _ _) as [[name p]|] eqn:E; [|done].
  by apply (find_Forall _ _ _ _ (get_routes_silent rq)) in E.
Qed.

Lemma serve_api_silent rq rel tok : store_returns st → write_token e = Some tok →
  is_read_method (hr_method rq) = true → bearer_authorized (as_request rq) tok = false →
  wp (@settled_at fs st) (@silent) (λ _, True) (serve_api e root canonicalize rq rel).
Proof.
  intros Hs Ht Hm Hb. unfold serve_api. prog_cbn. split; [done|]. snapshot.
  destruct (match_api_route fs root _ rel) as [[[file params]|]|u| |]; prog_cbn; try done.
  split; [done|]. snapshot. destruct (flow_writes_bus fs root canonicalize file) as [w|u| |] eqn:Ew; prog_cbn; try done.
  rewrite Ht, Hm, Hb. destruct w; [done|]. prog_cbn. split; [|by intros [c out]].
  cbn [silent]. intros N NET bus. apply (readonly_flow_silent fs root canonicalize st why file); done.
Qed.
End GetOnly.

(** When a write token is set, a request without it, and without the
    approval token on one of the human's routes, changes nothing: every
    operation it calls only reads, but for the run of a flow that leaves the
    bus as it was.  The files and the secrets are those of one moment. *)
Theorem no_token_no_write fs st rq tok :
  store_returns st → write_token e = Some tok → bearer_authorized (as_request rq) tok = false →
  is_human_route (path_only rq) && approval_authorized e (as_request rq) = false →
  wp (@settled_at fs st) (@silent fs st) (λ _, True) (handle rq).
Proof.
  intros Hs Ht Hb Hh. unfold handle_request, unauthorized. rewrite Ht, Hb, Hh. cbn [negb]. rewrite !andb_true_r.
  destruct (is_read_method (hr_method rq)) eqn:Hm; cbn [negb]; [|done].
  destruct (String.eqb (path_only rq) _).
  { prog_cbn. split; [done|]. snapshot. by destruct (openapi_json fs root e). }
  destruct (strip_prefix (path_only rq) "/api/") as [rel|]; [by apply (serve_api_silent fs st rq rel tok)|].
  pose proof (read_routes_silent fs st rq (header_actor (as_request rq) "panel") Hm) as Hr.
  destruct (hr_method rq); try done.
Qed.

(** ** The SAP connector's calls *)

Lemma rpc_subject_wp answers (may : ∀ R, Op R → Prop) paths :
  may _ Look → may _ Store → wp answers may (λ _, True) (rpc_subject root why paths).
Proof.
  intros Hl Hs. induction paths as [|path paths IH]; cbn [rpc_subject]; [done|].
  prog_cbn. split; [done|]. intros fs _. destruct (parsed_opt (reads fs path)) as [[prog|]|u| |]; prog_cbn; try done.
  case_bool_decide; [|done]. unfold manifest_vars. prog_cbn. split; [done|]. intros fs' _. split; [done|]. intros st _.
  unfold say, worded. destruct (_ ≫= _) as [vars|x| |]; prog_cbn; try done.
  by destruct (map_get "REQUEST_SUBJECT" vars ≫= as_str).
Qed.

Lemma sap_rpc_wp answers (may : ∀ R, Op R → Prop) op :
  may _ Look → may _ Store → (∀ s p, may _ (Rpc s p)) →
  wp answers may (λ _, True) (rpc_text root why op).
Proof.
  intros Hl Hs Hr. unfold rpc_text, sap_rpc_request. apply wp_try.
  prog_cbn. split; [done|]. intros fs _. apply wp_bind.
  eapply wp_mono; [|by apply rpc_subject_wp]. intros [found|x| |] _; prog_cbn; try done.
  destruct found as [subject|]; prog_cbn; [|done]. split; [done|]. intros [reply|x| |] _; prog_cbn; try done.
  by destruct (from_json reply).
Qed.

(** ** Governed mode *)

Definition tame {R} (o : Op R) : Prop := left_open o = true.

Lemma calls_tame args : require_approval e = true →
  Forall (λ c, wp (@anything) (@tame) (λ _, True) (snd c)) (table args).
Proof.
  intros Hr.
  assert (approval_gate e = Err ApprovalRequired) as Ha by (unfold approval_gate; by rewrite Hr).
  assert (dlq_agent_gate e = Err DlqHumanAct) as Hd by (unfold dlq_agent_gate; by rewrite Hr).
  unfold builtin_calls. repeat constructor; cbn [snd];
    first [by apply sap_rpc_wp
          |unfold sap_describe, sap_call, arg; prog_cbn; destruct (as_str _); prog_cbn; [by apply sap_rpc_wp|done]
          |handlers; unfold direct_write, gate; rewrite ?Ha, ?Hd; walk].
Qed.

Lemma mcp_call_tame name args : require_approval e = true →
  wp (@anything) (@tame) (λ _, True)
    (mcp_call e root canonicalize why edit_text gate_text language contract_flow contract_connector name args).
Proof.
  intros Hr. unfold mcp_call. destruct (List.find _ _) as [[n p]|] eqn:E.
  - by apply (find_Forall _ _ _ _ (calls_tame args Hr)) in E.
  - unfold flow_call. prog_cbn. split; [done|]. intros fs _.
    destruct (tool_flows fs root) as [flows|u| |]; prog_cbn; try done.
    destruct (List.find _ flows) as [[[n file] d]|]; [|done]. handlers. walk.
Qed.

Lemma dispatch_tame req : require_approval e = true →
  wp (@anything) (@tame) (λ _, True) (dispatch req).
Proof.
  intros Hr. unfold mcp_dispatch, mcp_tools. repeat case_match; try done.
  - prog_cbn. split; [done|]. intros fs _. by destruct (tool_flows fs root).
  - apply wp_bind. eapply wp_mono; [|by apply mcp_call_tame]. by intros [v|x| |] _.
Qed.

Lemma dispatch_all_tame l : require_approval e = true →
  wp (@anything) (@tame) (λ _, True) (dispatch_all e root canonicalize why edit_text gate_text language contract_flow contract_connector version l).
Proof.
  intros Hr. induction l as [|r l IH]; [done|]. cbn [dispatch_all]. apply wp_bind.
  eapply wp_mono; [|by apply dispatch_tame]. intros out _. apply wp_bind. eapply wp_mono; [|exact IH]. done.
Qed.

Lemma post_routes_tame rq actor : require_approval e = true → approval_authorized e (as_request rq) = false →
  Forall (λ r, wp (@anything) (@tame) (λ _, True) (snd r))
    (post_routes e root canonicalize why edit_text gate_text dlq_text language contract_flow contract_connector version rq actor).
Proof.
  intros Hr Hn.
  assert (approval_gate e = Err ApprovalRequired) as Ha by (unfold approval_gate; by rewrite Hr).
  assert (∃ c, dlq_http_gate e (as_request rq) = Err c) as [c Hd]
    by (unfold dlq_http_gate; rewrite Hr, Hn; cbn; destruct (existsb _ _); eauto).
  unfold post_routes. repeat constructor; cbn [snd].
  all: try (handlers; unfold direct, gated; rewrite ?Ha, ?Hd; walk; fail).
  unfold post_mcp. destruct (read_body rq); try (apply wp_bind; eapply wp_mono; [|by apply dispatch_tame]; by intros [v|] _).
  apply wp_bind. eapply wp_mono; [|by apply dispatch_all_tame]. by intros [|v vs] _.
Qed.


(** ** Clusters *)

(** The secret store is of one kind. *)
Definition store_kind (k : string) {R} (o : Op R) : R → Prop :=
  match o in Op R return R → Prop with
  | Store => λ st, ss_kind st = k
  | _ => λ _, True
  end.
(** Nothing is written on this instance alone. *)
Definition shared (k : string) {R} (o : Op R) : Prop :=
  match o with
  | SetSecret _ _ => k = "vault"
  | o => writes_files o = false
  end.

Section Clustered.
Context (k : string) (Hc : clustered e = true).

Lemma vault_only st : ss_kind st = k → clustered e && negb (String.eqb (ss_kind st) "vault") = false → k = "vault".
Proof. intros <-. rewrite Hc. cbn. intros H%negb_false_iff%String.eqb_eq. done. Qed.

Lemma guard_refuses : cluster_write_guard e = Err Clustered.
Proof. unfold cluster_write_guard. by rewrite Hc. Qed.

Ltac cluster_walk :=
  handlers; unfold direct, direct_write, gated, gate; rewrite ?guard_refuses;
  repeat first [walk_step | done
    | match goal with
      | H : store_kind k Store _, E : (_ && _) = false |- _ => exact (vault_only _ H E)
      | E : clustered e = false |- _ => congruence
      end].

Lemma calls_shared args : Forall (λ c, wp (@store_kind k) (@shared k) (λ _, True) (snd c)) (table args).
Proof.
  unfold builtin_calls. repeat constructor; cbn [snd];
    first [by apply sap_rpc_wp
          |unfold sap_describe, sap_call, arg; prog_cbn; destruct (as_str _); prog_cbn; [by apply sap_rpc_wp|done]
          |cluster_walk].
Qed.

Lemma dispatch_shared req : wp (@store_kind k) (@shared k) (λ _, True) (dispatch req).
Proof.
  unfold mcp_dispatch, mcp_tools. repeat case_match; try done.
  - prog_cbn. split; [done|]. intros fs _. by destruct (tool_flows fs root).
  - apply wp_bind. eapply (wp_mono _ _ (λ _, True)); [by intros [v|x| |] _|]. unfold mcp_call.
    destruct (List.find _ _) as [[n p]|] eqn:E.
    + by apply (find_Forall _ _ _ _ (calls_shared _)) in E.
    + unfold flow_call. prog_cbn. split; [done|]. intros fs _.
      destruct (tool_flows fs root) as [flows|u| |]; prog_cbn; try done.
      destruct (List.find _ flows) as [[[n file] d]|]; [|done]. cluster_walk.
Qed.

Lemma post_routes_shared rq actor :
  Forall (λ r, wp (@store_kind k) (@shared k) (λ _, True) (snd r))
    (post_routes e root canonicalize why edit_text gate_text dlq_text language contract_flow contract_connector version rq actor).
Proof.
  unfold post_routes. repeat constructor; cbn [snd]. all: try (cluster_walk; fail).
  unfold post_mcp. destruct (read_body rq) as [| | | |l|];
    try (apply wp_bind; eapply wp_mono; [|by apply dispatch_shared]; by intros [v|] _).
  apply wp_bind. eapply (wp_mono _ _ (λ _, True)); [by intros [|v vs] _|].
  induction l as [|r l IH]; [done|]. cbn [dispatch_all]. apply wp_bind.
  eapply wp_mono; [|by apply dispatch_shared]. intros out _. apply wp_bind. eapply wp_mono; [|exact IH]. done.
Qed.

(** In a cluster no request writes to this instance alone, whatever
    credentials it carries: no file of the project, no tenant, and a secret
    only when the store is the shared one. *)
Theorem cluster_writes_shared rq : wp (@store_kind k) (@shared k) (λ _, True) (handle rq).
Proof.
  unfold handle_request. destruct (unauthorized e rq); [done|].
  destruct (String.eqb (path_only rq) _).
  { prog_cbn. split; [done|]. intros fs _. by destruct (openapi_json fs root e). }
  assert (∀ actor, wp (@store_kind k) (@shared k) (λ _, True)
    (route e root canonicalize why edit_text gate_text dlq_text language contract_flow contract_connector version panel rq actor)) as Hroute.
  { intros actor. unfold route. destruct (hr_method rq); try done;
      (destruct (List.find _ _) as [[name p]|] eqn:E; [|done]).
    - revert E. apply (find_Forall (λ r, wp (@store_kind k) (@shared k) (λ _, True) (snd r))).
      unfold get_routes. repeat constructor; cbn [snd]; cluster_walk.
    - by apply (find_Forall _ _ _ _ (post_routes_shared rq actor)) in E. }
  destruct (strip_prefix (path_only rq) "/api/") as [rel|].
  { unfold serve_api. cluster_walk. }
  destruct (hr_method rq); try apply Hroute. destruct (strip_prefix _ _) as [rest|]; [|apply Hroute].
  unfold decide_route. cluster_walk.
Qed.
End Clustered.

(** ** Batches *)

(** A call that expects no answer. *)
Definition notification (req : Value) : bool :=
  let m := arg_or req "method" "" in
  String.eqb m "notifications/initialized" || String.eqb m "notifications/cancelled".
Definition id_of (v : Value) : Value := vindex v "id".

Lemma dispatch_replies req :
  wp (@anything) (λ _ _, True) (λ out, if notification req then out = None else ∃ v, out = Some v ∧ id_of v = id_of req)
    (dispatch req).
Proof.
  unfold mcp_dispatch, notification, rpc_ok, rpc_err.
  destruct (String.eqb_spec (arg_or req "method" "") "initialize") as [-> |_]; [cbn; eauto|].
  destruct (_ || _) eqn:En; [done|].
  destruct (String.eqb _ "ping"); [cbn; eauto|].
  destruct (String.eqb _ "tools/list").
  { unfold mcp_tools. prog_cbn. split; [done|]. intros fs _. destruct (tool_flows fs root); cbn; eauto. }
  destruct (String.eqb _ "tools/call"); [|cbn; eauto].
  apply wp_bind. generalize (mcp_call e root canonicalize why edit_text gate_text language contract_flow
    contract_connector (arg_or (vindex req "params") "name" "") (default (obj []) (vget "arguments" (vindex req "params")))).
  intros p. induction p as [r| |R o k' IH]; [|done|by split].
  destruct r; cbn; eauto.
Qed.

(** The calls of a batch are answered one for one and in order: the replies
    carry the ids of the calls that expect one, and a notification gets none. *)
Theorem batch_answers l :
  wp (@anything) (λ _ _, True) (λ replies, map id_of replies = map id_of (List.filter (λ r, negb (notification r)) l))
    (dispatch_all e root canonicalize why edit_text gate_text language contract_flow contract_connector version l).
Proof.
  induction l as [|r l IH]; [done|]. cbn [dispatch_all]. apply wp_bind.
  eapply wp_mono; [|by apply dispatch_replies]. intros out Hout. apply wp_bind.
  eapply wp_mono; [|exact IH]. intros rest Hrest. cbn [wp List.filter].
  destruct (notification r); [by subst out|]. destruct Hout as (v & -> & Hid). cbn. by rewrite Hid, Hrest.
Qed.

(** ** Tools *)

Definition known (fs : FS) (name : string) : Prop :=
  is_Some (List.find (λ c, String.eqb (fst c) name) (table (obj []))) ∨
  ∃ flows file d, tool_flows (E := ()) fs root = Ok flows ∧ (name, file, d) ∈ flows.

(** What is listed can be called: each tool of the list, with or without an
    agent, is one of the calls or a flow that is a tool. *)
Theorem listed_tools_known fs st :
  wp (@settled_at fs st) (λ _ _, True)
    (λ v, ∃ tools, v = VArray tools ∧ ∀ t, t ∈ tools → known fs (vstr_or "" t "name"))
    (mcp_tools e root).
Proof.
  unfold mcp_tools. prog_cbn. split; [done|]. snapshot.
  destruct (tool_flows fs root) as [flows|u| |] eqn:Ef; prog_cbn; try done.
  eexists. split; [done|]. intros t. rewrite !elem_of_app. intros [Ht|[Ht|Ht]].
  - left. assert (Forall (λ t, is_Some (List.find (λ c, String.eqb (fst c) (vstr_or "" t "name")) (table (obj []))))
      builtin_tools) as H by (unfold builtin_tools; repeat constructor; eexists; reflexivity).
    rewrite Forall_forall in H. by apply H.
  - left. assert (Forall (λ t, is_Some (List.find (λ c, String.eqb (fst c) (vstr_or "" t "name")) (table (obj []))))
      agent_tools) as H by (unfold agent_tools; repeat constructor; eexists; reflexivity).
    destruct (agent_available e fs); [|by apply elem_of_nil in Ht].
    rewrite Forall_forall in H. by apply H.
  - right. apply list_elem_of_fmap in Ht as ([[name file] d] & -> & Hin). by exists flows, file, d.
Qed.
End Doors.

(** ** Examples *)

Definition no_error {A} (_ : A) : string := "failed".
Definition open_path (p : string) : option string := Some p.
Definition demo_handle (e : env) : HttpRequest → Prog Response :=
  handle_request e "/srv" open_path no_error no_error no_error no_error "" "" "" "1" "".

Definition get_order : HttpRequest :=
  {| hr_method := Get; hr_url := "/api/orders/7?full=1"; hr_headers := []; hr_body := "" |}.
Definition with_token : env := λ k, if String.eqb k "VEJAS_TOKEN" then Some "secret" else None.
Lemma no_token_no_write_witness :
  bearer_authorized (as_request get_order) "secret" = false ∧
  wp (@settled_at demo_fs Demo.store) (@silent printer ascii_case float_lib "/srv" open_path no_error demo_fs Demo.store) (λ _, True)
     (demo_handle with_token get_order).
Proof.
  split; [reflexivity|].
  apply (no_token_no_write with_token "/srv" open_path no_error no_error no_error no_error "" "" "" "1" ""
           demo_fs Demo.store get_order "secret"); [apply Demo.store_fine|reflexivity..].
Defined.

Definition governed : env := λ k,
  if String.eqb k "VEJAS_REQUIRE_APPROVAL" then Some "1"
  else if String.eqb k "VEJAS_APPROVAL_TOKEN" then Some "human" else None.
Definition write_by_mcp : HttpRequest :=
  {| hr_method := Post; hr_url := "/mcp"; hr_headers := [("X-Approval-Token", "guess")];
     hr_body := to_json (VArray [obj [("id", vint 1); ("method", VString "tools/call");
       ("params", obj [("name", VString "vejas_write_flow");
                       ("arguments", obj [("path", VString "flows/a.vjs"); ("content", VString "A = 1")])])]]) |}.
(** What stays open is reached: the doors below are not gated. *)
Definition governed_post (path body : string) : Prog Response :=
  demo_handle governed {| hr_method := Post; hr_url := path; hr_headers := []; hr_body := body |}.
Definition governed_tool (name : string) (args : Value) : Prog Response :=
  governed_post "/mcp" (to_json (obj [("id", vint 1); ("method", VString "tools/call");
    ("params", obj [("name", VString name); ("arguments", args)])])).
Notation reached such p := (reaches (quiet demo_fs Demo.store) (λ _ o, match o with such => true | _ => false end) p).
Example governed_reloads :
  reached Reload (governed_post "/reload" "") = true ∧ reached Reload (governed_tool "vejas_reload" (obj [])) = true.
Proof. split; lazy; reflexivity. Qed.
Example governed_canaries :
  reached (CanaryStart _ _) (governed_post "/surface/canary/start" "{}") = true ∧
  reached (CanaryStop _) (governed_post "/surface/canary/stop" "{}") = true ∧
  reached (CanaryStart _ _) (governed_tool "vejas_canary_start"
    (obj [("file", VString "flows/a.vjs"); ("candidate", VString "A = 1")])) = true.
Proof. repeat split; lazy; reflexivity. Qed.
(** The call is answered with the gate's refusal. *)
Example refused_by_mcp : ∃ b, demo_handle governed write_by_mcp = Ret {| code := 200; body := b; ctype := "application/json" |}.
Proof. eexists. lazy. reflexivity. Qed.

Definition in_cluster : env := λ k, if String.eqb k "VEJAS_CLUSTER" then Some "true" else None.
Lemma cluster_writes_shared_witness :
  wp (@store_kind "file") (@shared "file") (λ _, True) (demo_handle in_cluster write_by_mcp).
Proof. apply cluster_writes_shared. reflexivity. Defined.
