(* ===== verification/Control.v ===== *)
(** * The control channel

    What the operator's hub can ask of a runtime that names a tenant
    (core/src/control.rs): the commands as programs over the operations of
    [Ops], one turn of the loop that serves them, the state it pushes. *)

From stdpp Require Import base gmap list strings.
From Stdlib Require Import ZArith Lia Ascii.
From S2P Require Import Prelude Text F64 Json Syntax Analysis Lexer Parser Secrets Eval EvalFacts Concrete RunProps Paths Traces Connect Project Registry Metrics Ops Actions.
Open Scope string_scope.
Open Scope Z_scope.

Section Control.
Context {SD : Serde} {CT : CaseTables} {FL : FloatLib}.
Context (env : string → option string) (root : string) (canonicalize : string → option string).
Context (why : view_err + verr → string) (version : string).

Definition opt_text (o : option string) : Value := match o with Some s => VString s | None => VNull end.

(** core/src/control.rs:105-115 [status_payload] *)
Definition unit_status (u : Value) : Value :=
  obj [("name", vindex u "name"); ("status", vindex u "status"); ("restarts", vindex u "restarts");
       ("last_error", opt_text (option_map (take_chars 200) (as_str (vindex u "last_error"))))].
(** core/src/control.rs [status_payload] *)
Definition status_payload (u : Units) (tenant : string) (now : Z) : smap Value :=
  let topo := topology_json u in
  let units := flat_map (λ pool, map unit_status (default [] (as_array (vindex topo pool)))) ["flows"; "connectors"] in
  map_extend [] [("ts", VString (iso8601_utc now)); ("tenant", VString tenant);
                 ("bundle", opt_text (env "VEJAS_BUNDLE")); ("runtime_version", VString version);
                 ("units", VArray units); ("pending_proposals", vint 0)].

(** The reply and its summary. *)
(** core/src/control.rs:137-139 [dispatch] *)
Definition succeed (id : string) (result : Value) (summary : string) : Prog (Value * string) :=
  Ret (obj [("id", VString id); ("ok", VBool true); ("result", result)], summary).
(** core/src/control.rs:140-143 [dispatch] *)
Definition refuse (id error : string) : Prog (Value * string) :=
  Ret (obj [("id", VString id); ("ok", VBool false); ("error", VString error)], take_chars 120 error).

Definition count_text (v : Value) (k what : string) : string :=
  dec_of_Z (Z.of_nat (match as_array (vindex v k) with Some l => length l | None => 0%nat end)) ++ " " ++ what.

(** core/src/control.rs:144-152 [dispatch] *)
Definition cmd_ping (id : string) : Prog (Value * string) :=
  now ← call Now;
  succeed id (obj [("pong", VBool true); ("ts", VString (iso8601_utc now)); ("runtime_version", VString version);
                   ("bundle", opt_text (env "VEJAS_BUNDLE"))]) "pong".

(** core/src/control.rs:153-162 [dispatch] *)
Definition cmd_status (id : string) : Prog (Value * string) :=
  u ← call UnitTable;
  now ← call Now;
  let payload := status_payload u (default "" (env "VEJAS_TENANT")) now in
  fs ← call Look;
  store ← call Store;
  text ← or_die (secrets_json fs root store (elements (rotations u)));
  let secrets := default VNull (from_json text) in
  let payload := VObject (map_insert "secrets" (vindex secrets "secrets") payload) in
  succeed id payload (count_text payload "units" "units").

(** core/src/control.rs:163-173 [dispatch] *)
Definition cmd_events (id : string) (args : Value) : Prog (Value * string) :=
  t ← call TraceRings;
  let n := Z.to_nat (default 20 (as_u64 (vindex args "n"))) in
  match default (obj [("events", VArray [])]) (from_json (events_json (as_str (vindex args "unit")) t)) with
  | VObject m =>
    let v := VObject match map_get "events" m with
                     | Some (VArray l) => map_insert "events" (VArray (take n l)) m
                     | Some _ => m
                     | None => map_insert "events" VNull m
                     end in
    succeed id v (count_text v "events" "events")
  | VNull => let v := obj [("events", VNull)] in succeed id v (count_text v "events" "events")
  | _ => Die
  end.

(** core/src/control.rs:174-185 [dispatch] *)
Definition cmd_probe (id : string) (args : Value) : Prog (Value * string) :=
  match as_str (vindex args "file") with
  | None => refuse id "probe: file required"
  | Some file =>
    verdict ← probe_connector env root canonicalize why file;
    succeed id verdict (file ++ " " ++ (if default false (as_bool (vindex verdict "ok")) then "ok" else "failed"))
  end.

(** core/src/control.rs:186-192 [dispatch] *)
Definition cmd_reload (id : string) : Prog (Value * string) :=
  '(total, started, stopped) ← call Reload;
  succeed id (obj [("total", vint total); ("started", vint started); ("stopped", vint stopped)])
    (dec_of_Z total ++ " units, " ++ dec_of_Z started ++ " started, " ++ dec_of_Z stopped ++ " stopped").

(** core/src/control.rs:193-199 [dispatch] *)
Definition cmd_restart (id : string) (args : Value) : Prog (Value * string) :=
  match as_str (vindex args "unit") with
  | None => refuse id "restart: unit required"
  | Some unit =>
    known ← call (RestartUnit unit);
    if (known : bool) then succeed id (obj [("ok", VBool true)]) ("restarted " ++ unit)
    else refuse id ("unknown unit " ++ unit)
  end.

(** core/src/control.rs:200-206 [dispatch] *)
Definition cmd_rotate (id : string) (args : Value) : Prog (Value * string) :=
  match as_str (vindex args "ref") with
  | None => refuse id "rotate_requested: ref required"
  | Some r =>
    _ ← call (FlagRotation r);
    succeed id (obj [("ok", VBool true)]) ("rotation flagged for " ++ r)
  end.

(** core/src/control.rs [dispatch] *)
Definition dispatch (req : Value) : Prog (Value * string) :=
  let id := vstr_or "" req "id" in
  let cmd := vstr_or "" req "cmd" in
  let args := vindex req "args" in
  if String.eqb cmd "ping" then cmd_ping id
  else if String.eqb cmd "status" then cmd_status id
  else if String.eqb cmd "events" then cmd_events id args
  else if String.eqb cmd "probe" then cmd_probe id args
  else if String.eqb cmd "reload" then cmd_reload id
  else if String.eqb cmd "restart" then cmd_restart id args
  else if String.eqb cmd "rotate_requested" then cmd_rotate id args
  else refuse id ("unknown command " ++ cmd ++ " (closed allowlist, see CONTROL.md)").

(** ** The loop *)

(** What a command leaves behind: an entry of the local trace, an echo on the
    audit subject, a reply. *)
Record Served : Type := { local_trace : Traces; echo : string * string; reply : string }.

(** core/src/control.rs:38-48 [supervise] *)
Definition ctl_subject (tenant what : string) : string :=
  let subj_root := default "vx" (env "VEJAS_SUBJECT_ROOT") in
  default (subj_root ++ "c") (env "VEJAS_CONTROL_ROOT") ++ "." ++ tenant ++ "." ++ what.

(** core/src/control.rs:69-93 [supervise] *)
Definition serve_command (tenant data : string) (now : Z) (t : Traces) : Prog Served :=
  let req := default VNull (if valid_utf8 data then from_json data else None) in
  '(rep, summary) ← dispatch req;
  let ok := default false (as_bool (vindex rep "ok")) in
  let cmd := vstr_or "?" req "cmd" in
  Ret {| local_trace := record_trace_full now "control" (ctl_subject tenant "cmd") ok
           (if ok then None else Some (vstr_or "error" rep "error")) [] (cmd ++ " " ++ summary) None None t;
         echo := (ctl_subject tenant "audit",
                  to_json (obj [("ts", VString (iso8601_utc now)); ("id", VString (vstr_or "" req "id"));
                                ("cmd", VString cmd); ("ok", VBool ok); ("summary", VString summary)]));
         reply := to_json rep |}.
End Control.

(** ** The closed list *)

Section Closed.
Context {SD : Serde} {CT : CaseTables} {FL : FloatLib}.
Context (env : string → option string) (root : string) (canonicalize : string → option string).
Context (why : view_err + verr → string) (version : string).
Notation serve := (dispatch env root canonicalize why version).

(** What the channel may call: snapshots, a probe, and the three operations. *)
Definition operable {R} (o : Op R) : bool :=
  match o with
  | Look | Now | Store | UnitTable | TraceRings | Probe _ _ _ _ | Reload | RestartUnit _ | FlagRotation _ => true
  | _ => false
  end.
Definition commands : list string :=
  ["ping"; "status"; "events"; "probe"; "reload"; "restart"; "rotate_requested"].

Ltac control_walk :=
  unfold cmd_ping, cmd_status, cmd_events, cmd_probe, cmd_reload, cmd_restart, cmd_rotate, succeed, refuse,
    probe_connector, probe_verdict, manifest_vars, allowed, read_text, parsed;
  repeat first [walk_step | done].

(** The channel is closed: a request can only look, probe a connector,
    reload, restart a unit or flag a rotation; a command that is not listed
    calls nothing and is refused; and every reply carries the id of its
    request. *)
Theorem channel_closed req :
  wp (@anything) (λ _ o, operable o = true) (λ rs, vindex (fst rs) "id" = VString (vstr_or "" req "id")) (serve req) ∧
  (vstr_or "" req "cmd" ∉ commands →
   ∃ error s, serve req = Ret (obj [("id", VString (vstr_or "" req "id")); ("ok", VBool false);
                                     ("error", VString error)], s)).
Proof.
  split.
  - unfold dispatch. repeat case_match; control_walk.
  - intros Hn. unfold dispatch, commands in *. rewrite !not_elem_of_cons in Hn.
    destruct Hn as (H1 & H2 & H3 & H4 & H5 & H6 & H7 & _).
    repeat (rewrite (proj2 (String.eqb_neq _ _)) by done). unfold refuse. eauto.
Qed.
End Closed.

(** ** Secrets *)

Section Hidden.
Context {SD : Serde} {CT : CaseTables} {FL : FloatLib}.
Context (env : string → option string) (root : string) (canonicalize : string → option string).
Context (why : view_err + verr → string) (version : string).
Context (oracle : ∀ R, Op R → R) (s1 s2 : SecretStore).
Notation dispatch := (dispatch env root canonicalize why version).
Notation serve := (serve_command env root canonicalize why version).

Lemma status_hides_values id : same_domain s1 s2 → ss_kind s1 = ss_kind s2 →
  exec (with_store oracle s1) (cmd_status env root version id) =
  exec (with_store oracle s2) (cmd_status env root version id).
Proof.
  intros Hdom Hkind. unfold cmd_status. cbn [call mbind prog_mbind prog_bind exec with_store].
  rewrite (secrets_json_agree (E := ()) _ _ s1 s2 Hdom Hkind). by destruct (secrets_json _ _ _ _).
Qed.

(** No secret value leaves on the control channel: what a command leaves
    behind, its reply, its echo on the audit subject and its local trace, is
    the same for any two stores of a kind that resolve the same references.
    A probe is not covered: it is the one that runs with the values. *)
Theorem control_hides_values tenant data now t :
  same_domain s1 s2 → ss_kind s1 = ss_kind s2 →
  vstr_or "" (default VNull (if valid_utf8 data then from_json data else None)) "cmd" ≠ "probe" →
  exec (with_store oracle s1) (serve tenant data now t) = exec (with_store oracle s2) (serve tenant data now t).
Proof.
  intros Hdom Hkind Hc. unfold serve_command. cbv zeta. set (req := default VNull _) in *.
  change (@mbind Prog _ ?A ?B ?f ?m) with (prog_bind f m). rewrite !exec_bind.
  assert (exec (with_store oracle s1) (dispatch req) = exec (with_store oracle s2) (dispatch req)) as ->.
  { unfold Control.dispatch. set (cmd := vstr_or "" req "cmd") in *.
    destruct (String.eqb cmd "ping"); [done|].
    destruct (String.eqb cmd "status"); [by apply status_hides_values|].
    destruct (String.eqb cmd "events").
    { unfold cmd_events. cbn [call mbind prog_mbind prog_bind exec with_store].
      by destruct (default _ (from_json _)). }
    destruct (String.eqb_spec cmd "probe"); [done|].
    destruct (String.eqb cmd "reload").
    { unfold cmd_reload. cbn [call mbind prog_mbind prog_bind exec with_store].
      by destruct (oracle _ Reload) as [[total started] stopped]. }
    destruct (String.eqb cmd "restart").
    { unfold cmd_restart. destruct (as_str _) as [unit|]; [|done].
      cbn [call mbind prog_mbind prog_bind exec with_store]. by destruct (oracle _ (RestartUnit unit)). }
    destruct (String.eqb cmd "rotate_requested"); [|done].
    unfold cmd_rotate. by destruct (as_str _). }
  destruct (exec _ _) as [[rep summary]|]; done.
Qed.
End Hidden.

Definition no_words {A} (_ : A) : string := "failed".
Definition ask_status : string := to_json (obj [("id", VString "1"); ("cmd", VString "status")]).
Lemma control_hides_values_witness :
  let serve st := exec (with_store (quiet demo_fs st) st)
    (serve_command (λ _, None) "/srv" Some no_words "1" "acme" ask_status 0 {| rings := ∅; trace_seq := 0 |}) in
  serve Demo.store = exec (with_store (quiet demo_fs Demo.store) Demo.other_store)
    (serve_command (λ _, None) "/srv" Some no_words "1" "acme" ask_status 0 {| rings := ∅; trace_seq := 0 |}).
Proof.
  apply (control_hides_values (λ _, None) "/srv" Some no_words "1" (quiet demo_fs Demo.store)
           Demo.store Demo.other_store);
    [exact Demo.stores_same|reflexivity|vm_compute; discriminate].
Defined.
Lemma channel_closed_witness :
  "shell" ∉ commands ∧
  ∃ error s, dispatch (λ _, None) "/srv" Some no_words "1" (obj [("id", VString "7"); ("cmd", VString "shell")]) =
    Ret (obj [("id", VString "7"); ("ok", VBool false); ("error", VString error)], s).
Proof.
  assert ("shell" ∉ commands) as H.
  { unfold commands. rewrite !not_elem_of_cons. repeat split; try done. apply not_elem_of_nil. }
  split; [exact H|].
  exact (proj2 (channel_closed (λ _, None) "/srv" Some no_words "1" (obj [("id", VString "7"); ("cmd", VString "shell")])) H).
Defined.
