(* ===== verification/HttpIn.v ===== *)
(** * The webhook source

    The [http-in] driver (core/src/connectors.rs): reading requests off a socket
    that is kept alive, deciding what is published, and the admission under a
    bound that it shares with the panel's listener (core/src/main.rs).  The
    socket is the list of what its reads return; the bus is an argument, the
    answer of a publication with it. *)

From stdpp Require Import base gmap list strings.
From Stdlib Require Import ZArith Lia Ascii.
From S2P Require Import Prelude Text F64 Json Eval EvalFacts Concrete Paths Traces Connect Metrics.
Open Scope string_scope.
Open Scope Z_scope.

(** core/src/connectors.rs [trace_pub] *)
Definition trace_pub (now : Z) (name subject bytes : string) (t : Traces) : Traces :=
  record_trace_full now name subject true None [subject] (bytes_preview bytes) None None t.
(** core/src/connectors.rs [trace_fail] *)
Definition trace_fail (now : Z) (name subject err : string) (t : Traces) : Traces :=
  record_trace_full now name subject false (Some err) [] "" None None t.

(** ** Reading a request *)

(** What one turn of the read loop meets: the deadline, bytes, the end of the
    stream, or an error, a timeout among them. *)
Inductive Read : Type := Late | Bytes (s : string) | Eof | Broken.

Definition crlf : string := cr ++ newline.
Definition head_end (buf : string) : option nat :=
  option_map (λ i, (i + 4)%nat) (str_find buf (crlf ++ crlf)).
(** Whether the buffer holds the head and as much as it declares; the sum is
    the machine's. *)
Definition complete (buf : string) (he : nat) : bool :=
  wrap 64 (Z.of_nat he + content_length (from_utf8_lossy (stake he buf))) <=? Z.of_nat (slen buf).

(** The buffer, where its head ends, whether the stream is over, what is left
    to read. *)
(** core/src/connectors.rs:350-390 [handle_http_in] *)
Fixpoint read_request (reads : list Read) (buf : string) (he : option nat)
  : string * option nat * bool * list Read :=
  match reads with
  | [] => (buf, he, true, [])
  | Late :: reads | Eof :: reads | Broken :: reads => (buf, he, true, reads)
  | Bytes s :: reads =>
    let buf := buf ++ s in
    let he := match he with Some h => Some h | None => head_end buf end in
    if match he with Some h => complete buf h | None => false end then (buf, he, false, reads)
    else if (1048576 <? Z.of_nat (slen buf)) then (buf, he, false, reads)
    else read_request reads buf he
  end.

(** ** Deciding *)

Section HttpIn.
Context {SD : Serde}.
Context {B : Type} (publish : string → string → B → res string () * B).
Context (name subj_root : string) (allow : list string) (now : Z).
(** A string as [{:?}] shows it. *)
Context (debug : string → string).

Inductive Verdict : Type :=
| Answer (code json : string)
| Publish (subject body : string).

(** core/src/connectors.rs:395-420 [handle_http_in] *)
Definition decide (buf : string) (he : nat) : Verdict :=
  let text := from_utf8_lossy buf in
  let parts := str_split (default "" (head (str_split text crlf))) " " in
  let method := nth 0 parts "" in
  let path := nth 1 parts "" in
  let body := sdrop (Nat.min he (slen buf)) buf in
  if String.eqb method "GET" && String.eqb path "/healthz" then Answer "200 OK" (quoted "{~ok~:true}")
  else if negb (String.eqb method "POST") || negb (starts_with path "/ingest/") then
    Answer "404 Not Found" (quoted "{~error~:~POST /ingest/<subject-suffix>~}")
  else
    let suffix := trim_matches_byte "/" (trim_start_matches path "/ingest/") in
    if String.eqb suffix "" then Answer "400 Bad Request" (quoted "{~error~:~missing subject suffix~}")
    else if negb (valid_subject suffix) then Answer "400 Bad Request" (quoted "{~error~:~invalid subject suffix~}")
    else match (if valid_utf8 body then from_json body else None) with
         | None => Answer "400 Bad Request" (quoted "{~error~:~body must be JSON~}")
         | Some _ =>
           if match allow with [] => false | _ => negb (suffix_allowed suffix allow) end
           then Answer "403 Forbidden" (quoted "{~error~:~subject " ++ debug suffix ++ quoted " not permitted by ALLOW~}")
           else Publish (subj_root ++ "." ++ suffix) body
         end.

(** core/src/connectors.rs:420-431 [handle_http_in] *)
Definition carry_out (v : Verdict) (b : B) (t : Traces) : string * string * B * Traces :=
  match v with
  | Answer code json => (code, json, b, t)
  | Publish subject body =>
    match publish subject body b with
    | (Ok _, b) => ("202 Accepted", quoted "{~published~:~" ++ subject ++ quoted "~}", b, trace_pub now name subject body t)
    | (Err e, b) => ("502 Bad Gateway", quoted "{~error~:~" ++ e ++ quoted "~}", b,
                     trace_fail now name subject ("publish: " ++ e) t)
    | (_, b) => ("502 Bad Gateway", "", b, t)
    end
  end.

(** core/src/connectors.rs:424-430 [handle_http_in] *)
Definition response_text (code json : string) : string :=
  "HTTP/1.1 " ++ code ++ crlf ++ "Content-Type: application/json" ++ crlf ++ "Content-Length: "
  ++ dec_of_Z (Z.of_nat (slen json)) ++ crlf ++ "Connection: keep-alive" ++ crlf ++ crlf ++ json.

(** A connection: what is answered, request after request, and what it did. *)
(** core/src/connectors.rs [handle_http_in] *)
Fixpoint handle_http_in (fuel : nat) (reads : list Read) (b : B) (t : Traces) : res () (list string * B * Traces) :=
  match fuel with
  | O => NoFuel
  | S fuel =>
    let '(buf, he, eof, rest) := read_request reads "" None in
    match he with
    | None => Ok ([], b, t)
    | Some h =>
      let '(code, json, b, t) := carry_out (decide buf h) b t in
      let out := response_text code json in
      if eof then Ok ([out], b, t)
      else
        '(outs, b, t) ← handle_http_in fuel rest b t;
        Ok (out :: outs, b, t)
    end
  end.

End HttpIn.

(** ** Admission *)

(** The threads that are running, by the counter of slots, and the refusals
    that are counted. *)
Record Listener : Type := { open : Z; turned_away : UNITS }.
(** core/src/connectors.rs:187-192 [HttpIn::run] *)
Definition max_connections (config : Config) : Z := Z.max 1 (cfg_u64_or config "MAX_CONNECTIONS" 512).
(** core/src/connectors.rs:196-203 [HttpIn::run] *)
Definition allow_list (config : Config) : list string :=
  omap as_str (default [] (cfg_value config "ALLOW" ≫= as_array)).
(** core/src/main.rs:4450-4457 [serve_http] *)
Definition max_inflight (env : string → option string) : Z :=
  Z.max 1 (default 256 (env "VEJAS_HTTP_MAX_INFLIGHT" ≫= parse_u64)).

(** What one that comes meets: no slot, no thread, or a thread. *)
Inductive Met : Type := Full | NoThread | Served.
(** core/src/connectors.rs:211-248 [HttpIn::run] *)
Definition admission (name : string) (max : Z) (spawns : bool) (l : Listener) : Met * Listener :=
  match try_take max (open l) with
  | (false, n) => (Full, {| open := n; turned_away := inc_rejected name (turned_away l) |})
  | (true, n) =>
    if spawns then (Served, {| open := n; turned_away := turned_away l |})
    else (NoThread, {| open := drop_slot n; turned_away := inc_rejected name (turned_away l) |})
  end.
(** core/src/main.rs:4459-4474 [serve_http] *)
Definition serve_turn (max : Z) (spawns : bool) (l : Listener) : Met * Listener := admission "panel" max spawns l.
(** core/src/connectors.rs:314-318 [Slot::drop] *)
Definition leave (l : Listener) : Listener := {| open := drop_slot (open l); turned_away := turned_away l |}.
(** core/src/connectors.rs [refuse] *)
Definition refuse_text : string :=
  "HTTP/1.1 503 Service Unavailable" ++ crlf ++ "Retry-After: 1" ++ crlf ++ "Content-Length: 0" ++ crlf
  ++ "Connection: close" ++ crlf ++ crlf.

(** A listener and its threads: one comes, or a thread ends, a panic included. *)
Inductive adm_step (name : string) (max : Z) : Listener * Z → Listener * Z → Prop :=
| Comes spawns l n met l' : admission name max spawns l = (met, l') →
    adm_step name max (l, n) (l', match met with Served => n + 1 | _ => n end)
| Ends l n : 0 < n → adm_step name max (l, n) (leave l, n - 1).

(** The number of threads stays under the bound, whatever comes and ends
    in which order, and the counter is that number: it never wraps, and a slot
    is neither lost nor given back twice. *)
Theorem slots_bounded name max counted l n :
  0 < max < 2 ^ 64 →
  rtc (adm_step name max) ({| open := 0; turned_away := counted |}, 0) (l, n) →
  open l = n ∧ 0 <= n <= max ∧
  (n < max → ∀ l', admission name max true l = (Served, l') → open l' = n + 1) ∧
  (n = max → ∀ spawns, fst (admission name max spawns l) = Full).
Proof.
  intros Hmax H.
  assert (open l = n ∧ 0 <= n <= max) as [Ho Hn].
  { change (open (fst (l, n)) = snd (l, n) ∧ 0 <= snd (l, n) <= max).
    remember ({| open := 0; turned_away := counted |}, 0) as s0 eqn:E0.
    assert (open (fst s0) = snd s0 ∧ 0 <= snd s0 <= max) as Hs by (subst; cbn; lia). clear E0.
    induction H as [s|s1 s2 s3 Hstep _ IH]; [done|]. apply IH. clear IH.
    destruct Hstep as [spawns m k met m' Ha|m k Hk]; cbn in *.
    - unfold admission, try_take in Ha. destruct (Z.ltb_spec (open m) max); [|injection Ha as <- <-; cbn; lia].
      destruct spawns; injection Ha as <- <-; cbn; unfold drop_slot; rewrite ?wrap_small; try lia;
        rewrite wrap_small; lia.
    - unfold drop_slot. rewrite wrap_small; lia. }
  split; [done|]. split; [done|]. unfold admission, try_take. split.
  - intros Hlt l'. destruct (Z.ltb_spec (open l) max); [|lia]. intros [= <-]. cbn. rewrite wrap_small; lia.
  - intros -> spawns. destruct (Z.ltb_spec (open l) max); [lia|done].
Qed.

Lemma slots_bounded_witness :
  open (snd (admission "panel" 1 true {| open := 0; turned_away := ∅ |})) = 1 ∧
  ∀ spawns, fst (admission "panel" 1 spawns {| open := 1; turned_away := ∅ |}) = Full.
Proof.
  split; [reflexivity|].
  assert (rtc (adm_step "panel" 1) ({| open := 0; turned_away := ∅ |}, 0) ({| open := 1; turned_away := ∅ |}, 1)) as H.
  { apply rtc_once. exact (Comes "panel" 1 true {| open := 0; turned_away := ∅ |} 0 Served _ eq_refl). }
  exact (proj2 (proj2 (proj2 (slots_bounded "panel" 1 ∅ _ _ ltac:(lia) H))) eq_refl).
Defined.

(** ** Framing *)

Lemma starts_with_app s p q : starts_with s p = true → starts_with (s ++ q) p = true.
Proof.
  unfold starts_with. revert p. induction s as [|c s IH]; intros [|d p]; cbn; try done; [by destruct q|].
  destruct (ascii_dec d c); [apply IH|done].
Qed.
Lemma starts_with_le s p : starts_with s p = true → (slen p <= slen s)%nat.
Proof.
  unfold starts_with. revert p. induction s as [|c s IH]; intros [|d p]; cbn; try done; try (intros; lia).
  destruct (ascii_dec d c); [|done]. intros H. apply IH in H. lia.
Qed.

Lemma starts_with_prefix s p q :
  (slen p <= slen s)%nat → starts_with (s ++ q) p = true → starts_with s p = true.
Proof.
  unfold starts_with. revert p. induction s as [|c s IH]; intros [|d p]; cbn; try done; try (intros; lia).
  intros Hl. destruct (ascii_dec d c); [|done]. apply IH. lia.
Qed.

Lemma find_from_bounds i s p j : find_from i s p = Some j → (i <= j)%nat ∧ (j + slen p <= i + slen s)%nat.
Proof.
  revert i. induction s as [|c s IH]; intros i; cbn [find_from].
  - destruct (starts_with "" p) eqn:E; [|done]. apply starts_with_le in E. intros [= <-]. lia.
  - destruct (starts_with (String c s) p) eqn:E.
    + apply starts_with_le in E. intros [= <-]. lia.
    + intros H%IH. cbn. lia.
Qed.

(** A text that is found stays where it is when more comes. *)
Lemma find_from_mono i s p q j : find_from i s p = Some j → find_from i (s ++ q) p = Some j.
Proof.
  revert i. induction s as [|c s IH]; intros i; cbn [find_from String.append].
  - destruct (starts_with "" p) eqn:E; [|done]. intros [= <-].
    apply (starts_with_app _ _ q) in E. change ("" ++ q) with q in E. destruct q; cbn [find_from]; by rewrite E.
  - destruct (starts_with (String c s) p) eqn:E.
    + intros [= <-]. apply (starts_with_app _ _ q) in E. cbn [String.append] in E. by rewrite E.
    + intros H. destruct (starts_with (String c (s ++ q)) p) eqn:E'; [|by apply IH].
      apply find_from_bounds in H. change (String c (s ++ q)) with (String c s ++ q) in E'.
      apply starts_with_prefix in E'; [congruence|cbn; lia].
Qed.

Lemma head_end_mono buf more h : head_end buf = Some h → head_end (buf ++ more) = Some h.
Proof.
  unfold head_end, str_find. destruct (find_from 0 buf _) as [i|] eqn:E; [|done].
  intros [= <-]. by rewrite (find_from_mono _ _ _ more _ E).
Qed.
Lemma head_end_le buf h : head_end buf = Some h → (h <= slen buf)%nat.
Proof.
  unfold head_end, str_find. destruct (find_from 0 buf _) as [i|] eqn:E; [|done].
  intros [= <-]. apply find_from_bounds in E. change (slen (crlf ++ crlf)) with 4%nat in E. lia.
Qed.

(** A head that ends where it should and declares the length of the body, in a
    request that fits. *)
Definition framed (head body : string) : Prop :=
  head_end head = Some (slen head) ∧ content_length (from_utf8_lossy head) = Z.of_nat (slen body) ∧
  Z.of_nat (slen head + slen body) <= 1048576.

Lemma framed_end head body buf more h : framed head body → buf ++ more = head ++ body →
  head_end buf = Some h → h = slen head ∧ (slen head <= slen buf)%nat ∧ stake (slen head) buf = head.
Proof.
  intros (Hh & _ & _) E Hb. pose proof (head_end_le _ _ Hb) as Hle.
  assert (Some h = Some (slen head)) as [= ->].
  { rewrite <- (head_end_mono _ more _ Hb), E. by apply head_end_mono. }
  split; [done|]. split; [done|].
  assert (stake (slen head) (buf ++ more) = head) as Hs by (rewrite E; apply stake_app).
  rewrite <- Hs at 2. clear - Hle. revert Hle. generalize (slen head) as n. revert more.
  induction buf as [|c buf IH]; intros more [|n] Hle; cbn in *; try done; [lia|]. f_equal. apply IH. lia.
Qed.

Lemma framed_complete head body buf : framed head body → stake (slen head) buf = head →
  complete buf (slen head) = (slen head + slen body <=? slen buf)%nat.
Proof.
  intros (_ & Hc & Hl) Hs. unfold complete. rewrite Hs, Hc.
  change (2 ^ 64) with 18446744073709551616 in *. rewrite wrap_small by lia.
  destruct (Nat.leb_spec (slen head + slen body) (slen buf)); apply Z.leb_le || apply Z.leb_gt; lia.
Qed.

Lemma read_framed head body chunks buf he rest :
  framed head body → Forall (λ c, c ≠ "") chunks → buf ++ concat_strs chunks = head ++ body →
  (slen buf < slen head + slen body)%nat → he = None ∨ he = head_end buf →
  read_request (map Bytes chunks ++ rest) buf he = (head ++ body, Some (slen head), false, rest).
Proof.
  intros Hf Hne. revert buf he. induction chunks as [|c chunks IH]; intros buf he E Hlt Hhe.
  { cbn in E. rewrite app_nil_str in E. apply (f_equal slen) in E. rewrite slen_app in E. lia. }
  apply Forall_cons in Hne as [Hc Hne]. cbn [map app read_request concat_strs] in *.
  rewrite app_assoc_str in E. set (buf' := buf ++ c) in *.
  assert (match he with Some h => Some h | None => head_end buf' end = head_end buf') as ->.
  { destruct Hhe as [-> | ->]; [done|]. destruct (head_end buf) eqn:Eb; [|done].
    symmetry. by apply head_end_mono. }
  pose proof (f_equal slen E) as El. rewrite !slen_app in El.
  destruct chunks as [|c' chunks].
  - cbn [concat_strs] in E. rewrite app_nil_str in E. rewrite E.
    destruct Hf as (Hh & Hr). rewrite (head_end_mono head body _ Hh).
    rewrite (framed_complete head body) by (done || apply stake_app). rewrite slen_app, Nat.leb_refl. done.
  - assert (slen buf' < slen head + slen body)%nat as Hlt'.
    { apply Forall_cons in Hne as [Hc' _]. cbn [concat_strs] in El. rewrite slen_app in El.
      destruct c'; [done|]. cbn in El. lia. }
    assert (match head_end buf' with Some h => complete buf' h | None => false end = false) as ->.
    { destruct (head_end buf') as [h|] eqn:Eh; [|done].
      destruct (framed_end head body buf' _ h Hf E Eh) as (-> & _ & Hs).
      rewrite (framed_complete head body) by done. by apply Nat.leb_gt. }
    destruct (Z.ltb_spec 1048576 (Z.of_nat (slen buf'))) as [Hbig|_].
    { destruct Hf as (_ & _ & Hl). lia. }
    apply IH; [done|done|done|by right].
Qed.

(** C25: how the network cuts a request does not matter: a framed request that
    arrives in any pieces is read as the same request, its body is the one it
    declares, and nothing of what follows in later reads is consumed. *)
Theorem chunking_invisible head body chunks rest :
  framed head body → Forall (λ c, c ≠ "") chunks → concat_strs chunks = head ++ body →
  read_request (map Bytes chunks ++ rest) "" None = (head ++ body, Some (slen head), false, rest) ∧
  sdrop (Nat.min (slen head) (slen (head ++ body))) (head ++ body) = body.
Proof.
  intros Hf Hne E. split.
  - apply (read_framed head body); [done..| |by left]. destruct Hf as (Hh & _ & _).
    unfold head_end, str_find in Hh. destruct (find_from 0 head _) as [i|]; [|done].
    injection Hh as Hh. cbn. lia.
  - rewrite slen_app, Nat.min_l by lia. apply sdrop_app.
Qed.

Definition a_head : string :=
  "POST /ingest/orders HTTP/1.1" ++ crlf ++ "Content-Length: 2" ++ crlf ++ crlf.
Lemma chunking_invisible_witness :
  read_request [Bytes "POST /ingest/orders HT"; Bytes ("TP/1.1" ++ crlf ++ "Content-Length: 2" ++ crlf ++ cr);
                Bytes (newline ++ "{"); Bytes "}"; Eof] "" None = (a_head ++ "{}", Some (slen a_head), false, [Eof]).
Proof.
  refine (proj1 (chunking_invisible a_head "{}"
    ["POST /ingest/orders HT"; "TP/1.1" ++ crlf ++ "Content-Length: 2" ++ crlf ++ cr; newline ++ "{"; "}"] [Eof] _ _ _)).
  - split; [vm_compute; reflexivity|]. split; [vm_compute; reflexivity|vm_compute; discriminate].
  - repeat constructor; discriminate.
  - vm_compute. reflexivity.
Defined.

(** What comes after a request in the same read is taken for its body, and
    is gone for the next turn: a client that sends two requests without
    waiting has the first one refused or altered, and the second one lost. *)
Theorem surplus_becomes_body head body more :
  framed head body →
  ∃ rest, read_request [Bytes (head ++ body ++ more)] "" None = (head ++ body ++ more, Some (slen head), false, rest) ∧
    rest = [] ∧ sdrop (Nat.min (slen head) (slen (head ++ body ++ more))) (head ++ body ++ more) = body ++ more.
Proof.
  intros Hf. exists []. split; [|split; [done|by rewrite slen_app, Nat.min_l, sdrop_app by lia]].
  cbn [read_request String.append]. destruct Hf as (Hh & Hc & Hl).
  rewrite (head_end_mono head (body ++ more) _ Hh).
  assert (complete (head ++ body ++ more) (slen head) = true) as ->; [|done].
  rewrite (framed_complete head body) by (done || apply stake_app). apply Nat.leb_le. rewrite !slen_app. lia.
Qed.
Lemma surplus_becomes_body_witness :
  ∃ rest, read_request [Bytes (a_head ++ "{}" ++ a_head ++ "{}")] "" None =
    (a_head ++ "{}" ++ a_head ++ "{}", Some (slen a_head), false, rest) ∧ rest = [] ∧
    sdrop (Nat.min (slen a_head) (slen (a_head ++ "{}" ++ a_head ++ "{}"))) (a_head ++ "{}" ++ a_head ++ "{}") =
      "{}" ++ a_head ++ "{}".
Proof.
  apply (surplus_becomes_body a_head "{}" (a_head ++ "{}")).
  split; [vm_compute; reflexivity|]. split; [vm_compute; reflexivity|vm_compute; discriminate].
Defined.

(** ** What an open port can do *)

Section Confined.
Context {SD : Serde} (name subj_root : string) (allow : list string) (now : Z) (debug : string → string).
(** A bus that notes what is published and answers as it likes. *)
Context (answer : string → string → res string ()).
Definition noted (subject body : string) (l : list (string * string)) : res string () * list (string * string) :=
  (answer subject body, l ++ [(subject, body)])%list.

(** What may be published: JSON, under the root, on a subject of the list. *)
Definition permitted (sb : string * string) : Prop :=
  ∃ suffix, fst sb = subj_root ++ "." ++ suffix ∧ valid_subject suffix = true ∧
    (allow = [] ∨ suffix_allowed suffix allow = true) ∧
    valid_utf8 (snd sb) = true ∧ is_Some (from_json (snd sb)).

Lemma decide_permitted buf h subject body :
  decide subj_root allow debug buf h = Publish subject body → permitted (subject, body).
Proof.
  unfold decide. destruct (_ && _); [done|]. destruct (_ || _); [done|].
  set (suffix := trim_matches_byte _ _). destruct (String.eqb suffix ""); [done|].
  destruct (valid_subject suffix) eqn:Ev; [|done]. cbn [negb].
  set (b := sdrop _ buf). destruct (valid_utf8 b) eqn:Eu; [|done]. destruct (from_json b) as [v|] eqn:Ej; [|done].
  destruct allow as [|a l] eqn:Ea; [|destruct (suffix_allowed suffix (a :: l)) eqn:Es; [|done]];
    intros [= <- <-]; exists suffix; cbn; rewrite Ej; (split; [done|]); (split; [done|]);
    (split; [rewrite Ea; by auto|]); (split; [done|by eexists]).
Qed.

Lemma read_request_less reads buf he b h eof rest :
  read_request reads buf he = (b, h, eof, rest) → (length rest <= length reads)%nat ∧
  (eof = false → (length rest < length reads)%nat).
Proof.
  revert buf he. induction reads as [|r reads IH]; intros buf he; cbn [read_request]; [by intros [= <- <- <- <-]|].
  destruct r; cbn [length]; try (intros [= <- <- <- <-]; split; [lia|done]).
  set (b' := buf ++ s). destruct (match match he with Some _ => _ | None => _ end with Some _ => _ | None => _ end).
  { intros [= <- <- <- <-]. lia. }
  destruct (_ <? _); [intros [= <- <- <- <-]; lia|]. intros H%IH. lia.
Qed.

(** An answer by which the client knows that its event was taken. *)
Definition accepting (out : string) : bool := starts_with out "HTTP/1.1 202 Accepted".
Definition took (log : list (string * string)) : list (string * string) :=
  List.filter (λ sb, is_ok (answer (fst sb) (snd sb))) log.

Lemma decide_refuses buf h code json :
  decide subj_root allow debug buf h = Answer code json → accepting (response_text code json) = false.
Proof.
  unfold decide. destruct (_ && _); [by intros [= <- <-]|]. destruct (_ || _); [by intros [= <- <-]|].
  destruct (String.eqb _ ""); [by intros [= <- <-]|]. destruct (negb _); [by intros [= <- <-]|].
  destruct (if valid_utf8 _ then _ else _); [|by intros [= <- <-]].
  destruct (match allow with [] => _ | _ => _ end); [by intros [= <- <-]|done].
Qed.

(** A request: one answer, and one publish at most. *)
Lemma request_answered buf h log t code json log' t' :
  carry_out noted name now (decide subj_root allow debug buf h) log t = (code, json, log', t') →
  Forall permitted log →
  Forall permitted log' ∧ (length log' <= S (length log))%nat ∧
  length (took log') = ((if accepting (response_text code json) then 1 else 0) + length (took log))%nat.
Proof.
  intros Ec Hp. revert Ec. unfold carry_out. destruct (decide _ _ _ buf h) as [c j|subject body] eqn:Ed.
  - intros [= <- <- <- <-]. rewrite (decide_refuses _ _ _ _ Ed). split; [done|]. split; [lia|done].
  - apply decide_permitted in Ed. unfold noted, took.
    destruct (answer subject body) as [u|e| |] eqn:Ea; intros [= <- <- <- <-];
      (split; [apply Forall_app; by repeat constructor|]); rewrite List.filter_app, !length_app; cbn; rewrite Ea; cbn; lia.
Qed.

(** C24: a connection to the open port comes to an end, and whatever bytes it
    sends and however the bus answers, all it publishes is JSON, on a valid
    subject under the root, and one of the allowed ones when there is a list;
    it publishes at most once for each answer it gets, and it is told that its
    event was accepted once for each that the bus acknowledged. *)
Theorem ingest_confined fuel reads t :
  (length reads < fuel)%nat →
  ∃ outs log t', handle_http_in noted name subj_root allow now debug fuel reads [] t = Ok (outs, log, t') ∧
    Forall permitted log ∧ (length log <= length outs)%nat ∧
    length (took log) = length (List.filter accepting outs).
Proof.
  intros Hf.
  assert (∀ log0, Forall permitted log0 → ∃ outs log t',
    handle_http_in noted name subj_root allow now debug fuel reads log0 t = Ok (outs, log, t') ∧
    Forall permitted log ∧ (length log <= length log0 + length outs)%nat ∧
    length (took log) = (length (List.filter accepting outs) + length (took log0))%nat) as H.
  { revert reads t Hf. induction fuel as [|fuel IH]; intros reads t Hf log0 Hp; [lia|].
    cbn [handle_http_in]. destruct (read_request reads "" None) as [[[buf he] eof] rest] eqn:Er.
    destruct he as [h|]; [|exists [], log0, t; split; [done|]; split; [done|]; cbn; lia].
    apply read_request_less in Er as [_ Hless].
    destruct (carry_out noted name now (decide subj_root allow debug buf h) log0 t) as [[[code json] log1] t1] eqn:Ec.
    destruct (request_answered _ _ _ _ _ _ _ _ Ec Hp) as (Hp1 & Hl1 & Ht1). destruct eof.
    - exists [response_text code json], log1, t1. split; [done|]. split; [done|]. split; [cbn; lia|].
      rewrite Ht1. cbn [List.filter]. destruct (accepting _); cbn; lia.
    - destruct (IH rest t1 ltac:(specialize (Hless eq_refl); lia) log1 Hp1) as (outs & log & t' & -> & ? & ? & Ht).
      exists (response_text code json :: outs), log, t'. split; [done|]. split; [done|]. split; [cbn; lia|].
      rewrite Ht, Ht1. cbn [List.filter]. destruct (accepting (response_text code json)); cbn; lia. }
  destruct (H [] ltac:(by constructor)) as (outs & log & t' & H1 & H2 & H3 & H4). exists outs, log, t'.
  split; [done|]. split; [done|]. split; [done|]. rewrite H4. cbn. lia.
Qed.
End Confined.

Definition two_posts : list Read :=
  let post path body := "POST " ++ path ++ " HTTP/1.1" ++ crlf ++ "Content-Length: "
    ++ dec_of_Z (Z.of_nat (slen body)) ++ crlf ++ crlf ++ body in
  [Bytes (post "/ingest/shop.orders" (to_json (obj []))); Bytes (post "/ingest/slack.out" (to_json (obj []))); Eof].
Lemma ingest_confined_witness :
  ∃ outs log t', handle_http_in (noted (λ _ _, Ok ())) "connector:web" "vx" ["shop"] 0 id 4 two_posts []
      {| rings := ∅; trace_seq := 0 |} = Ok (outs, log, t') ∧
    Forall (permitted "vx" ["shop"]) log ∧ (length log <= length outs)%nat ∧
    length (took (λ _ _, Ok ()) log) = length (List.filter accepting outs).
Proof. apply ingest_confined. cbn. lia. Defined.
Example one_of_two :
  match handle_http_in (noted (λ _ _, Ok ())) "connector:web" "vx" ["shop"] 0 id 4 two_posts []
      {| rings := ∅; trace_seq := 0 |} with
  | Ok (_, log, _) => map fst log
  | _ => []
  end = ["vx.shop.orders"].
Proof. vm_compute. reflexivity. Qed.

(** A list that is configured as anything but a list of texts is no list: what
    was meant to restrict the port leaves it open. *)
Example allow_not_a_list : map allow_list [[("ALLOW", VString "shop")]; [("ALLOW", VArray [vint 1])]; []] = [[]; []; []].
Proof. vm_compute. reflexivity. Qed.
