(* ===== verification/Sinks.v ===== *)
(** * Sinks

    The drivers that carry messages out (core/src/connectors.rs): the loop they
    share, [run_sink], over any handler, and the handlers of [slack-out],
    [http-out] and [exec-sink] over the HTTP client and the child processes of
    the runtime.  The HTTP library is the class [Ureq], a child process an
    argument; how long a message took is read from arguments, and the texts of
    log lines are left out. *)

From stdpp Require Import base gmap list strings.
From Stdlib Require Import ZArith Lia.
From S2P Require Import Prelude Triples Text F64 Json Eval EvalFacts Bus Dlq Traces Flow FlowProps Connect Metrics Concrete.
Open Scope string_scope.
Open Scope Z_scope.

(** ** The HTTP client *)

(** What the library gives for a request: a response, which it calls an error
    when its status is 400 or more, or no response. *)
Inductive Reply : Type :=
| Response (code : Z) (body : res string string)
| StatusError (code : Z) (body : res string string)
| Transport (e : string).

Class Ureq (W : Type) := {
  ureq : string → string → list (string * string) → option string → W → Reply * W
}.

Definition success (code : Z) : bool := (200 <=? code) && (code <? 300).

Section Client.
Context {W : Type} {UR : Ureq W}.

(** core/src/connectors.rs [http_request] *)
Definition http_request (method url : string) (headers : list (string * string)) (body : option string)
  : sr W string (Z * string) := λ w,
  let '(resp, w) := ureq method url headers body w in
  match resp with
  | Response code r | StatusError code r => (buf ← r; Ok (code, buf), w)
  | Transport t => (Err ("http: " ++ t), w)
  end.

(** A refusal in words: the status and the start of the body. *)
Definition http_refusal (code : Z) (body : string) : string :=
  "HTTP " ++ dec_of_Z code ++ ": " ++ trim (from_utf8_lossy (stake (Nat.min (slen body) 300) body)).

(** core/src/connectors.rs [http_get] *)
Definition http_get (url : string) (headers : list (string * string)) : sr W string string :=
  '(code, body) ← http_request "GET" url headers None;
  if success code then mret body else sr_fail (http_refusal code body).

(** core/src/connectors.rs [http_post] *)
Definition http_post (url : string) (headers : list (string * string)) (body : string) : sr W string string :=
  '(code, out) ← http_request "POST" url headers (Some body);
  if success code then mret out else sr_fail (http_refusal code out).
End Client.

(** ** The loop *)

Section Sink.
Context {SD : Serde} {N : Type} {NET : Net N} (env : string → option string).
(** The connector, its subject, and what it does with the body of a message:
    the answer of the downstream, or why it failed. *)
Context (name subject : string) {W : Type} (handler : string → sr W string (option string)).
(** The clock of the traces, how long a message took with the two readings
    around it, whether a thread can be spawned, whether the connector may go on
    at the n-th time it asks. *)
Context (now : Z) (took : Message → f64) (clock : Message → Z * Z) (spawns : bool) (alive : nat → bool).

Record Sink : Type := {
  sk_link : Link N;
  sk_dlq : Dlq;
  sk_traces : Traces;
  sk_units : UNITS;
  sk_spans : option (list Span);
  sk_down : W;
  sk_asked : nat
}.
Notation R := (sr Sink string).

Definition on_link (l : Link N) (s : Sink) : Sink :=
  {| sk_link := l; sk_dlq := sk_dlq s; sk_traces := sk_traces s; sk_units := sk_units s;
     sk_spans := sk_spans s; sk_down := sk_down s; sk_asked := sk_asked s |}.
Definition on_dlq (d : Dlq) (s : Sink) : Sink :=
  {| sk_link := sk_link s; sk_dlq := d; sk_traces := sk_traces s; sk_units := sk_units s;
     sk_spans := sk_spans s; sk_down := sk_down s; sk_asked := sk_asked s |}.
Definition on_traces (t : Traces) (s : Sink) : Sink :=
  {| sk_link := sk_link s; sk_dlq := sk_dlq s; sk_traces := t; sk_units := sk_units s;
     sk_spans := sk_spans s; sk_down := sk_down s; sk_asked := sk_asked s |}.
Definition on_units (u : UNITS) (s : Sink) : Sink :=
  {| sk_link := sk_link s; sk_dlq := sk_dlq s; sk_traces := sk_traces s; sk_units := u;
     sk_spans := sk_spans s; sk_down := sk_down s; sk_asked := sk_asked s |}.
Definition on_spans (q : option (list Span)) (s : Sink) : Sink :=
  {| sk_link := sk_link s; sk_dlq := sk_dlq s; sk_traces := sk_traces s; sk_units := sk_units s;
     sk_spans := q; sk_down := sk_down s; sk_asked := sk_asked s |}.
Definition on_down (w : W) (s : Sink) : Sink :=
  {| sk_link := sk_link s; sk_dlq := sk_dlq s; sk_traces := sk_traces s; sk_units := sk_units s;
     sk_spans := sk_spans s; sk_down := w; sk_asked := sk_asked s |}.

(** [ctx.alive()] *)
Definition ask_alive : R bool := λ s,
  (Ok (alive (sk_asked s)),
   {| sk_link := sk_link s; sk_dlq := sk_dlq s; sk_traces := sk_traces s; sk_units := sk_units s;
      sk_spans := sk_spans s; sk_down := sk_down s; sk_asked := S (sk_asked s) |}).

Definition call_handler (m : Message) : R (option string + string) := λ s,
  let '(r, w) := handler (data m) (sk_down s) in
  let s := on_down w s in
  match r with
  | Ok a => (Ok (inl a), s)
  | Err e => (Ok (inr e), s)
  | Panic => (Panic, s)
  | NoFuel => (NoFuel, s)
  end.

(** core/src/connectors.rs:1442-1446 [run_sink] *)
Definition measure (m : Message) (ok : bool) (error : option string) : R () :=
  _ ← sr_mod (λ s, on_units (observe name ok 0 (took m) (sk_units s)) s);
  sr_mod (λ s, on_spans (span {| s_unit := name; s_subject := subject; s_ok := ok; s_error := error;
    start_nanos := fst (clock m); end_nanos := snd (clock m); s_emits := 0 |} (sk_spans s)) s).

Definition note (m : Message) (ok : bool) (error response : option string) : R () :=
  sr_mod (λ s, on_traces (record_trace_full now name subject ok error [] (bytes_preview (data m)) None
                            response (sk_traces s)) s).

(** [let _ = msg.ack()] and [msg.nak()] *)
Definition reply_quietly (payload : string) (m : Message) : R () :=
  sr_mod (λ s, on_link (snd (answer payload m (sk_link s))) s).

(** Park a message; the answer is why that failed, if it did. *)
Definition sink_dlq (m : Message) (err : string) : R (option string) := λ s,
  let '(r, d, n) := to_dlq env name subject (attempts m) err (data m) "" now spawns (sk_dlq s)
                      (client (sk_link s)) in
  let s := on_dlq d (on_link (set_client n (sk_link s)) s) in
  match r with
  | Ok _ => (Ok None, s)
  | Err e => (Ok (Some e), s)
  | Panic => (Panic, s)
  | NoFuel => (NoFuel, s)
  end.

(** core/src/connectors.rs:1441-1452 [run_sink] *)
Definition handled (m : Message) (response : option string) : R () :=
  _ ← measure m true None;
  _ ← note m true None response;
  reply_quietly "" m.

(** core/src/connectors.rs:1453-1496 [run_sink] *)
Definition refused (m : Message) (e : string) : R () :=
  _ ← measure m false (Some e);
  if MAX_DELIVERIES <=? attempts m then
    failed ← sink_dlq m e;
    match failed with
    | None =>
      _ ← sr_mod (λ s, on_units (inc_dead_letter name (sk_units s)) s);
      _ ← note m false (Some (e ++ dash ++ "dead-lettered after " ++ dec_of_Z (attempts m) ++ " deliveries")) None;
      reply_quietly "" m
    | Some de =>
      _ ← note m false (Some (e ++ dash ++ "DLQ publish failed: " ++ de)) None;
      reply_quietly "-NAK" m
    end
  else
    _ ← note m false (Some e) None;
    reply_quietly "-NAK" m.

Definition sink_message (m : Message) : R () :=
  outcome ← call_handler m;
  match outcome with inl response => handled m response | inr e => refused m e end.

(** core/src/connectors.rs:1432-1498 [run_sink] *)
Fixpoint sink_round (ms : list Message) : R bool :=
  match ms with
  | [] => mret true
  | m :: ms =>
    go ← ask_alive;
    if (go : bool) then _ ← sink_message m; sink_round ms else mret false
  end.

(** The rounds as the consumer gives them; [true] when the loop waits for the
    next one, [false] when the connector was stopped. *)
(** core/src/connectors.rs:1428-1499 [run_sink] *)
Fixpoint sink_loop (rounds : list (res string (list Message))) : R bool :=
  match rounds with
  | [] => mret true
  | r :: rounds =>
    go ← ask_alive;
    if (go : bool) then
      ms ← sr_lift r;
      more ← sink_round ms;
      if (more : bool) then sink_loop rounds else mret false
    else mret false
  end.

(** core/src/connectors.rs:1423-1424 [run_sink] *)
Definition durable_name : string :=
  map_chars (λ c s, if (c =? 58)%N || (c =? 46)%N || (c =? 45)%N then "_" else s) name.

(** The consumer is opened under its durable name; the rounds are its. *)
(** core/src/connectors.rs [run_sink] *)
Definition run_sink (open : string → res string (list (res string (list Message)))) : R bool :=
  rounds ← sr_lift (open durable_name);
  sink_loop rounds.
End Sink.
Arguments Sink N W : clear implicits.

(** ** The handlers *)

Section Handlers.
Context {SD : Serde} {W : Type} {UR : Ureq W}.

(** core/src/connectors.rs:1516-1529 [SlackOut::run] *)
Definition slack_handler (webhook : string) (data : string) : sr W string (option string) :=
  let text := match from_json data ≫= (λ v, as_str (vindex v "text")) with
              | Some s => s
              | None => from_utf8_lossy data
              end in
  if String.eqb webhook "" then mret (Some ("DRY-RUN: " ++ take_chars 160 text))
  else
    b ← http_post webhook [("Content-Type", "application/json")] (to_json (obj [("text", VString text)]));
    mret (summarize b).

(** core/src/connectors.rs:1508-1515 [SlackOut::run] *)
Definition slack_webhook (env : string → option string) (config : Config) : string :=
  default "" (match cfg_str config "WEBHOOK_URL" with Some w => Some w | None => env "SLACK_WEBHOOK_URL" end).

(** core/src/connectors.rs:1569-1572 [HttpOut::run] *)
Definition post_headers (config : Config) : list (string * string) :=
  let headers := cfg_headers config in
  if existsb (λ h, String.eqb (to_ascii_lowercase (fst h)) "content-type") headers then headers
  else (headers ++ [("Content-Type", "application/json")])%list.

(** core/src/connectors.rs:1573-1573 [HttpOut::run] *)
Definition http_out_handler (url : string) (headers : list (string * string)) (data : string)
  : sr W string (option string) :=
  b ← http_post url headers data; mret (summarize b).

(** core/src/connectors.rs [HttpOut::probe] *)
Definition probe_http_out (config : Config) : sr W string string :=
  url ← sr_lift (ok_or (cfg_str config "URL") "URL required");
  body ← sr_lift (ok_or (cfg_value config "TEST_BODY")
    "no TEST_BODY in the manifest: add a harmless payload the target accepts (e.g. an empty batch) to enable this probe");
  out ← sr_out (http_request "POST" url (post_headers config) (Some (to_json body)));
  sr_lift (match out with
  | Ok (code, resp) =>
    if success code then Ok ("POST OK · answered: " ++ default "(empty)" (summarize resp))
    else if (code =? 401) || (code =? 403) then
      Err (humanize ("HTTP 401: authentication rejected by " ++ url))
    else Ok ("reachable and authenticated · but TEST_BODY was refused (HTTP " ++ dec_of_Z code ++ ": "
             ++ default "" (summarize resp) ++ ")")
  | Err e => Err (humanize e)
  | Panic => Panic
  | NoFuel => NoFuel
  end).
End Handlers.

(** How a child process that is fed one message comes to its end. *)
Inductive ChildEnd : Type :=
| NotSpawned (e : string)
| NoStdin
| NotWritten (e : string)
| NotWaited (e : string)
| Exited (success : bool) (code : option Z) (stdout stderr : string).

Definition show_code (c : option Z) : string :=
  match c with Some z => "Some(" ++ dec_of_Z z ++ ")" | None => "None" end.

(** core/src/connectors.rs:1646-1669 [ExecSink::run] *)
Definition exec_sink_handler {W} (shell : string → list (string * string) → string → W → ChildEnd * W)
  (name cmd : string) (env : list (string * string)) (data : string) : sr W string (option string) := λ w,
  let '(c, w) := shell cmd env data w in
  (match c with
   | NotSpawned e | NotWritten e | NotWaited e => Err e
   | NoStdin => Err "no stdin"
   | Exited true _ out _ => Ok (summarize out)
   | Exited false code _ err => Err (name ++ ": exit " ++ show_code code ++ ": " ++ trim (from_utf8_lossy err))
   end, w).

(** ** Nothing is acknowledged too early *)

Section Earned.
Context {SD : Serde} {N : Type} {NET : Net N} {NL : NetLaws N} (env : string → option string).
Context (name subject : string) {W : Type} (handler : string → sr W string (option string)).
Context (now : Z) (took : Message → f64) (clock : Message → Z * Z) (spawns : bool) (alive : nat → bool).
Notation Sink := (Sink N W).
Notation out s := (client (sk_link s)).

(** The effect of a message on the downstream: what the handler returns [Ok]
    for, and what stays done. *)
Context (effect : string → W → Prop).
Hypothesis effect_done : ∀ d w a w', handler d w = (Ok a, w') → effect d w'.
Hypothesis effect_stays : ∀ d d' w, effect d w → effect d (snd (handler d' w)).

Definition parked (m : Message) (n : N) : Prop :=
  ∃ err, (DLQ_ROOT ++ "." ++ dlq_unit_token name,
          to_json (envelope name subject (attempts m) err (data m) "" now)) ∈ stored n.

Context (seen : Message → Prop) (s0 : Sink).

Definition deserved (s : Sink) (x : Z * pub) : Prop :=
  snd (snd x) = "" → ∃ m, seen m ∧ reply m = Some (fst (snd x)) ∧ (effect (data m) (sk_down s) ∨ parked m (out s)).
Definition Inv (s : Sink) : Prop :=
  ∃ t, taken (out s) = (taken (out s0) ++ t)%list ∧ Forall (deserved s) t.
Definition done_or_parked (m : Message) (s : Sink) : Prop := effect (data m) (sk_down s) ∨ parked m (out s).

(** A step that keeps what was done keeps what was deserved. *)
Lemma inv_step s s' t :
  Inv s → later (out s) (out s') → (∀ d, effect d (sk_down s) → effect d (sk_down s')) →
  taken (out s') = (taken (out s) ++ t)%list → Forall (deserved s') t → Inv s'.
Proof.
  intros (t0 & E0 & F0) (_ & _ & Hst) Hd Et Ft. exists (t0 ++ t)%list. split; [by rewrite Et, E0, app_assoc|].
  apply Forall_app. split; [|done]. eapply Forall_impl; [exact F0|]. intros x Hx Hp.
  destruct (Hx Hp) as (m & Hm & Hr & [He|(err & Hin)]); exists m; (do 2 (split; [done|])); [left; auto|right].
  exists err. by apply Hst.
Qed.

Notation T := (triple Inv).

Lemma quiet_mod (P : Sink → Prop) f :
  (∀ s, P s → Inv s ∧ P (f s)) → (∀ s, Inv s → Inv (f s)) → T P (sr_mod f : sr Sink string ()) (λ _, P).
Proof. intros H1 H2. apply triple_mod. intros s Hs. destruct (H1 s Hs). auto. Qed.

Lemma measure_triple (P : Sink → Prop) m ok e :
  (∀ s, P s → Inv s) → (∀ s u, P s → P (on_units u s)) → (∀ s u, P s → P (on_spans u s)) →
  T P (measure name subject took clock m ok e) (λ _, P).
Proof.
  intros HI Hu Hs. eapply triple_bind with (Q := λ _, P); [|intros []]; apply triple_mod; intros s Hp; auto.
Qed.

Lemma reply_triple p m : seen m →
  T (λ s, Inv s ∧ (p = "" → done_or_parked m s)) (reply_quietly p m) (λ _, Inv).
Proof.
  intros Hm. apply triple_mod. intros s [Hs Hd].
  destruct (answer_taken p m (sk_link s)) as (Hl & _ & _ & t & Ht & Hf).
  assert (Inv (on_link (snd (answer p m (sk_link s))) s)) as HI; [|done].
  eapply inv_step; [done|done|done|exact Ht|]. eapply Forall_impl; [exact Hf|].
  intros [e [rp q]] [Hr Hq] Hp. cbn in Hr, Hq, Hp. subst p q. exists m. split; [done|]. split; [done|].
  destruct (Hd eq_refl) as [He|[err He]]; [by left|right]. exists err. by apply Hl.
Qed.

Lemma sink_dlq_triple m err :
  T Inv (sink_dlq env name subject now spawns m err) (λ r s, Inv s ∧ (r = None → parked m (out s))).
Proof.
  intros s Hs. unfold sink_dlq, to_dlq.
  pose proof (store_later (DLQ_ROOT ++ "." ++ dlq_unit_token name)
    (to_json (envelope name subject (attempts m) err (data m) "" now)) (out s)) as (Hl & Ht & Hd).
  destruct (net_store _ _ _) as [r n]. cbn in Hl, Ht, Hd.
  assert (∀ d n', later n n' → taken n' = taken n → Inv (on_dlq d (on_link (set_client n' (sk_link s)) s))) as HI.
  { intros d n' Hl' Ht'. refine (inv_step s _ [] Hs _ _ _ _); cbn;
      [by etransitivity|done|by rewrite Ht', Ht, app_nil_r|done]. }
  assert (∀ d, Inv (on_dlq d (on_link (set_client n (sk_link s)) s))) as HI0 by (intros d; by apply HI).
  destruct r as [z|e| |]; cbn [fst snd]; try (split; [apply HI0|split; [apply HI0|done]]); try (split; [apply HI0|done]).
  destruct (announce_dead_letter _ _ _ _ _ _ _ _) as [d due].
  destruct (publish_all_later env due n) as [Hl2 Ht2].
  split; [by apply HI|]. split; [by apply HI|]. intros _. exists err. cbn. apply Hl2. by apply Hd.
Qed.

Lemma nak_triple m e : seen m →
  T Inv (_ ← note name subject now m false e None; reply_quietly "-NAK" m) (λ _, Inv).
Proof.
  intros Hm. eapply triple_bind; [by apply (quiet_mod Inv)|]. intros [].
  eapply triple_weaken; [by apply (reply_triple "-NAK" m)|done|done].
Qed.

Lemma call_triple m :
  T Inv (call_handler handler m) (λ o s, Inv s ∧ (∀ a, o = inl a → effect (data m) (sk_down s))).
Proof.
  intros s Hs. unfold call_handler. destruct (handler (data m) (sk_down s)) as [r w] eqn:E.
  assert (Inv (on_down w s)) as HI.
  { refine (inv_step s _ [] Hs _ _ _ _); cbn; [reflexivity| |by rewrite app_nil_r|done].
    intros d Hd. pose proof (effect_stays d (data m) _ Hd) as H. by rewrite E in H. }
  destruct r as [a|e| |]; (split; [done|]); try done.
  split; [done|]. intros a' [= <-]. by eapply effect_done.
Qed.

Lemma message_triple m : seen m →
  T Inv (sink_message env name subject handler now took clock spawns m) (λ _, Inv).
Proof.
  intros Hm. eapply triple_bind; [apply call_triple|]. intros [a|e].
  - apply triple_weaken with (P' := λ s, Inv s ∧ effect (data m) (sk_down s)) (Q' := λ _, Inv);
      [|intros s [? H]; split; [done|by apply (H a)]|done].
    eapply triple_bind; [apply (measure_triple (λ s, Inv s ∧ effect (data m) (sk_down s))); intros s; cbn; tauto|]. intros [].
    eapply triple_bind; [apply (quiet_mod (λ s, Inv s ∧ effect (data m) (sk_down s))); [by intros ? [? ?]|done]|].
    intros []. eapply triple_weaken; [by apply (reply_triple "" m)| |done]. intros s [? ?]. split; [done|]. by left.
  - apply triple_weaken with (P' := Inv) (Q' := λ _, Inv); [|naive_solver|done]. unfold refused.
    eapply triple_bind; [apply (measure_triple Inv); done|]. intros []. destruct (_ <=? _); [|by apply nak_triple].
    eapply triple_bind; [apply sink_dlq_triple|]. intros [de|].
    + eapply triple_weaken; [by apply nak_triple|naive_solver|done].
    + apply triple_weaken with (P' := λ s, Inv s ∧ parked m (out s)) (Q' := λ _, Inv); [|naive_solver|done].
      do 2 (eapply triple_bind; [apply (quiet_mod (λ s, Inv s ∧ parked m (out s))); [by intros ? [? ?]|done]|]; intros []).
      eapply triple_weaken; [by apply (reply_triple "" m)| |done]. intros s [? ?]. split; [done|]. by right.
Qed.

Lemma asked_triple : T Inv (ask_alive (N := N) (W := W) alive) (λ _, Inv).
Proof. intros s Hs. by split. Qed.

Lemma round_triple ms : (∀ m, m ∈ ms → seen m) →
  T Inv (sink_round env name subject handler now took clock spawns alive ms) (λ _, Inv).
Proof.
  induction ms as [|m ms IH]; intros Hm; [by apply triple_ret|].
  eapply triple_bind; [apply asked_triple|]. intros [|]; [|by apply triple_ret].
  eapply triple_bind; [apply message_triple, Hm; by left|]. intros []. apply IH. intros m' H'. apply Hm. by right.
Qed.

Lemma loop_triple rounds : (∀ ms m, Ok ms ∈ rounds → m ∈ ms → seen m) →
  T Inv (sink_loop env name subject handler now took clock spawns alive rounds) (λ _, Inv).
Proof.
  induction rounds as [|r rounds IH]; intros Hm; [by apply triple_ret|].
  eapply triple_bind; [apply asked_triple|]. intros [|]; [|by apply triple_ret].
  eapply triple_bind with (Q := λ ms s, Inv s ∧ r = Ok ms).
  { intros s Hs. destruct r as [ms|e| |]; cbn; auto. }
  intros ms s [Hs ->]. revert s Hs. change (∀ s, Inv s → ?G) with (∀ s, Inv s → G).
  eapply triple_bind; [apply round_triple; intros m; apply Hm; by left|].
  intros [|]; [|by apply triple_ret]. apply IH. intros ms' m H' Hin. eapply Hm; [by right|done].
Qed.
End Earned.

(** ** A server that remembers *)

(** The requests that left, with what was answered. *)
Record Exchange : Type := {
  ex_method : string;
  ex_url : string;
  ex_headers : list (string * string);
  ex_body : option string;
  ex_reply : Reply
}.

Definition accepted (r : Reply) : bool :=
  match r with Response code (Ok _) | StatusError code (Ok _) => success code | _ => false end.

Definition posted (url : string) (headers : list (string * string)) (body : string) (log : list Exchange) : Prop :=
  ∃ x, x ∈ log ∧ ex_method x = "POST" ∧ ex_url x = url ∧ ex_headers x = headers ∧ ex_body x = Some body ∧
    accepted (ex_reply x) = true.

Section Ledger.
Context {SD : Serde} {N : Type} {NET : Net N} {NL : NetLaws N}.
(** How the servers answer, on all that came before. *)
Context (answers : list Exchange → string → string → list (string * string) → option string → Reply).

#[local] Instance ledger : Ureq (list Exchange) := {|
  ureq method url headers body log :=
    let r := answers log method url headers body in
    (r, (log ++ [{| ex_method := method; ex_url := url; ex_headers := headers; ex_body := body;
                    ex_reply := r |}])%list)
|}.

Lemma http_out_effect url headers d log a log' :
  http_out_handler url headers d log = (Ok a, log') → posted url headers d log'.
Proof.
  unfold http_out_handler, http_post, http_request, mbind, sr_bind. cbn.
  set (r := answers log "POST" url headers (Some d)). intros H.
  assert (accepted r = true ∧ log' = (log ++ [{| ex_method := "POST"; ex_url := url; ex_headers := headers;
    ex_body := Some d; ex_reply := r |}])%list) as [Ha ->].
  { destruct r as [code [b|e| |]|code [b|e| |]|e]; cbn in H |- *; try done; destruct (success code); injection H as ? <-; done. }
  eexists. split; [apply elem_of_app; right; by apply list_elem_of_singleton|done].
Qed.

Lemma http_out_stays url headers d d' log :
  posted url headers d log → posted url headers d (snd (http_out_handler url headers d' log)).
Proof.
  intros (x & Hx & H). exists x. split; [|done].
  unfold http_out_handler, http_post, http_request, mbind, sr_bind. cbn.
  destruct (answers _ _ _ _ _) as [code [b|e| |]|code [b|e| |]|e]; cbn; try destruct (success code); cbn;
    apply elem_of_app; by left.
Qed.

(** C7: http-out delivers at least once: whatever the bus and the server do,
    where the connector is stopped or dies, a message whose acknowledgement was
    sent is one whose body the server was posted and took with a 2xx status, or
    one whose dead letter is stored. *)
Theorem http_out_delivers env name subject url headers now took clock spawns alive open (s : Sink N (list Exchange)) :
  let s' := snd (run_sink env name subject (http_out_handler url headers) now took clock spawns alive open s) in
  ∃ t, taken (client (sk_link s')) = (taken (client (sk_link s)) ++ t)%list ∧
    ∀ e rp, (e, (rp, "")) ∈ t →
    ∃ m ms rounds, open (durable_name name) = Ok rounds ∧ Ok ms ∈ rounds ∧ m ∈ ms ∧ reply m = Some rp ∧
      (posted url headers (data m) (sk_down s') ∨ parked name subject now m (client (sk_link s'))).
Proof.
  cbv zeta. unfold run_sink, sr_lift, mbind, sr_bind.
  destruct (open (durable_name name)) as [rounds|e| |]; cbn [snd];
    try (exists []; split; [by rewrite app_nil_r|by intros ? ? ?%elem_of_nil]).
  assert (Inv name subject now (posted url headers)
    (λ m, ∃ ms, Ok ms ∈ rounds ∧ m ∈ ms) s
    (snd (sink_loop env name subject (http_out_handler url headers) now took clock spawns alive rounds s))) as H.
  { apply (loop_triple env name subject (http_out_handler url headers) now took clock spawns alive
      (posted url headers)).
    - intros d w a w'. apply http_out_effect.
    - intros d d' w. apply http_out_stays.
    - eauto.
    - exists []. split; [by rewrite app_nil_r|done]. }
  destruct H as (t & Ht & Hf). exists t. split; [done|]. intros e rp Hin.
  rewrite Forall_forall in Hf. destruct (Hf _ Hin eq_refl) as (m & (ms & Hms & Hm) & Hr & He).
  exists m, ms, rounds. done.
Qed.
End Ledger.

(** ** An example *)

Section Demo.
Definition fussy (_ : list Exchange) (_ _ : string) (_ : list (string * string)) (body : option string) : Reply :=
  match body with
  | Some "bad" => StatusError 500 (Ok "no")
  | _ => Response 200 (Ok "thanks")
  end.
Definition sink_start : Sink SimNet (list Exchange) :=
  {| sk_link := sim_link; sk_dlq := {| pending := ∅; flusher := false |}; sk_traces := no_traces; sk_units := ∅;
     sk_spans := None; sk_down := []; sk_asked := 0 |}.
Definition a_message (data reply : string) : Message := {| subject := "vx.o"; data := data; reply := Some reply |}.
Definition sink_demo : res string bool * Sink SimNet (list Exchange) :=
  run_sink (λ _, None) "http-out:o" "vx.o"
    (http_out_handler (UR := ledger fussy) "http://x/" []) 7 (λ _, f64_zero) (λ _, (0, 0)) false (λ n, (n <? 5)%nat)
    (λ _, Ok [Ok [a_message "good" "$JS.ACK.V.f.1.1.1.1.0"; a_message "bad" "$JS.ACK.V.f.2.2.2.1.0"];
              Ok [a_message "bad" "$JS.ACK.V.f.5.2.3.1.0"; a_message "late" "$JS.ACK.V.f.1.3.4.1.0"]]) sink_start.

(** The first is acknowledged, the second asked for again, then parked; the
    last comes after the stop. *)
Example sink_demo_answers :
  fst sink_demo = Ok false ∧
  map snd (taken (client (sk_link (snd sink_demo)))) =
    [("$JS.ACK.V.f.1.1.1.1.0", ""); ("$JS.ACK.V.f.2.2.2.1.0", "-NAK"); ("$JS.ACK.V.f.5.2.3.1.0", "")] ∧
  map fst (stored (client (sk_link (snd sink_demo)))) = ["vxdlq.http_out_o"].
Proof. vm_compute. repeat split. Qed.
End Demo.
