(* ===== verification/Sources.v ===== *)
(** * Sources

    The drivers that bring messages in on a clock or from a child process
    (core/src/connectors.rs): [timer], [http-poll], [exec-source] and
    [exec-stream-source] with its resumption from an offset.  The sleeps are
    the turns of a loop of 250 ms, the clock and what a child prints are
    arguments, and a run is followed for a number of turns. *)

From stdpp Require Import base gmap list strings.
From Stdlib Require Import ZArith Lia.
From S2P Require Import Prelude Triples Text F64 Json Bus Store Traces FlowProps Connect HttpIn Sinks Concrete.
Open Scope string_scope.
Open Scope Z_scope.

(** ** On a clock *)

Section Clocked.
Context {SD : Serde} {N : Type} {NET : Net N} {W : Type}.
(** The connector and its subject; the seconds of the clock and whether the
    connector may go on, at the n-th time it asks. *)
Context (name subject : string) (secs : nat → Z) (alive : nat → bool).

Record Src : Type := { sc_net : N; sc_traces : Traces; sc_world : W; sc_asked : nat }.
Notation R := (sr Src string).

Definition src_net (n : N) (s : Src) : Src :=
  {| sc_net := n; sc_traces := sc_traces s; sc_world := sc_world s; sc_asked := sc_asked s |}.
Definition src_traces (t : Traces) (s : Src) : Src :=
  {| sc_net := sc_net s; sc_traces := t; sc_world := sc_world s; sc_asked := sc_asked s |}.

(** [ctx.alive()] *)
Definition src_alive : R bool := λ s,
  (Ok (alive (sc_asked s)),
   {| sc_net := sc_net s; sc_traces := sc_traces s; sc_world := sc_world s; sc_asked := S (sc_asked s) |}).
(** [now_secs()] *)
Definition src_secs : R Z := λ s, (Ok (secs (sc_asked s)), s).

(** A JetStream publish, acknowledged. *)
Definition src_publish (bytes : string) : R Z := λ s,
  let '(r, n) := net_store subject bytes (sc_net s) in (r, src_net n s).
(** A call of the outside. *)
Definition src_call {A} (m : sr W string A) : R A := λ s,
  let '(r, w) := m (sc_world s) in
  (r, {| sc_net := sc_net s; sc_traces := sc_traces s; sc_world := w; sc_asked := sc_asked s |}).

Definition published (bytes : string) : R () :=
  t ← src_secs; sr_mod (λ s, src_traces (trace_pub t name subject bytes (sc_traces s)) s).
Definition failed (err : string) : R () :=
  t ← src_secs; sr_mod (λ s, src_traces (trace_fail t name subject err (sc_traces s)) s).

(** The loop of a driver on a clock, for [n] turns: [true] when it is still in
    the loop.  [waited] and the interval are in milliseconds, on 64 bits. *)
(** core/src/connectors.rs:482-499 [Timer::run] *)
Fixpoint clock_loop (n : nat) (interval waited : Z) (fire : R ()) : R bool :=
  match n with
  | O => mret true
  | S n =>
    go ← src_alive;
    if (go : bool) then
      let waited := wrap 64 (waited + 250) in
      if wrap 64 (interval * 1000) <=? waited then _ ← fire; clock_loop n interval 0 fire
      else clock_loop n interval waited fire
    else mret false
  end.

(** core/src/connectors.rs:490-497 [Timer::run] *)
Definition timer_fire (payload : Value) : R () :=
  t ← src_secs;
  let bytes := to_json (stamp_ts payload t) in
  r ← sr_out (src_publish bytes);
  match r with
  | Ok _ => published bytes
  | Err e => sr_fail ("publish: " ++ e)
  | Panic => sr_lift Panic
  | NoFuel => sr_lift NoFuel
  end.

(** core/src/connectors.rs:475-500 [Timer::run] *)
Definition timer_run (n : nat) (config : Config) : R bool :=
  let interval := Z.max 1 (cfg_u64_or config "INTERVAL_SECS" 60) in
  let payload := default (obj []) (cfg_value config "PAYLOAD") in
  clock_loop n interval 0 (timer_fire payload).

(** The outcome of a publish is dropped, its trace is not. *)
Definition publish_quietly (bytes : string) : R () :=
  _ ← sr_out (src_publish bytes); published bytes.

(** core/src/connectors.rs:535-559 [HttpPoll::run] *)
Definition poll_fire {UR : Ureq W} (url : string) (headers : list (string * string)) (envelope : bool) : R () :=
  r ← sr_out (src_call (http_get url headers));
  match r with
  | Ok raw =>
    match from_json raw with
    | Some parsed =>
      t ← src_secs;
      publish_quietly (if envelope
        then to_json (obj [("endpoint", VString url); ("fetched_at", VString (iso8601_utc t)); ("body", parsed)])
        else raw)
    | None => mret ()
    end
  | Err e => failed e
  | Panic => sr_lift Panic
  | NoFuel => sr_lift NoFuel
  end.

(** core/src/connectors.rs [HttpPoll::run] *)
Definition poll_run {UR : Ureq W} (n : nat) (config : Config) : R bool :=
  url ← sr_lift (ok_or (cfg_str config "URL") "URL required");
  let interval := Z.max 1 (cfg_u64_or config "INTERVAL_SECS" 60) in
  clock_loop n interval (wrap 64 (interval * 1000))
    (poll_fire url (cfg_headers config) (cfg_bool config "ENVELOPE")).

(** core/src/connectors.rs [HttpPoll::probe] *)
Definition probe_poll {UR : Ureq W} (config : Config) : sr W string string :=
  url ← sr_lift (ok_or (cfg_str config "URL") "URL required");
  r ← sr_out (http_get url (cfg_headers config));
  sr_lift (match r with
  | Ok body => Ok ("GET OK (" ++ dec_of_Z (Z.of_nat (slen body)) ++ " bytes)")
  | Err e => Err (humanize e)
  | Panic => Panic
  | NoFuel => NoFuel
  end).

(** The lines of a child's output, without the return that may end them. *)
(** core/src/connectors.rs:1616-1620 [ExecSource::run] *)
Definition output_lines (out : string) : list string :=
  filter (.≠ "") (map (λ l, if ends_with l cr then stake (slen l - 1) l else l) (str_split out newline)).

(** core/src/connectors.rs:1616-1627 [ExecSource::run] *)
Fixpoint publish_lines (ls : list string) : R () :=
  match ls with
  | [] => mret ()
  | l :: ls =>
    _ ← (match from_json l with Some _ => publish_quietly l | None => mret () end);
    publish_lines ls
  end.

(** core/src/connectors.rs:1607-1627 [ExecSource::run] *)
Definition exec_fire (output : sr W string (bool * string * string)) : R () :=
  '(ok, out, err) ← src_call output;
  _ ← (if (ok : bool) then mret () else failed ("exec: " ++ trim (from_utf8_lossy err)));
  publish_lines (output_lines out).

(** core/src/connectors.rs [ExecSource::run] *)
Definition exec_run (n : nat) (shell : string → sr W string (bool * string * string)) (config : Config) : R bool :=
  cmd ← sr_lift (ok_or (cfg_str config "CMD") "CMD required");
  let interval := Z.max 1 (cfg_u64_or config "INTERVAL_SECS" 10) in
  clock_loop n interval (wrap 64 (interval * 1000)) (exec_fire (shell cmd)).
End Clocked.
Arguments Src N W : clear implicits.

(** ** From a stream *)

Section Feed.
Context {SD : Serde} {N : Type} {NET : Net N} {K : Type} {KV : KvOps K}.
Context (name subject : string) (secs : nat → Z) (alive : nat → bool).
(** The key of the offset, the field of a record that has it, and where a first
    run starts. *)
Context (offset_kv offset_field offset_start : string).

(** What the channel has when it is asked: a line, nothing within the wait, or
    the end of the child's output. *)
Inductive Heard : Type := Line (l : string) | Idle | Closed.

(** [fd_store] is the bucket, when an offset is kept. *)
Record Feed : Type := {
  fd_net : N;
  fd_store : option K;
  fd_traces : Traces;
  fd_pending : option string;
  fd_committed : option string;
  fd_asked : nat
}.
Notation R := (sr Feed string).

Definition fd_set_net (n : N) (s : Feed) : Feed :=
  {| fd_net := n; fd_store := fd_store s; fd_traces := fd_traces s; fd_pending := fd_pending s;
     fd_committed := fd_committed s; fd_asked := fd_asked s |}.
Definition fd_set_store (k : option K) (s : Feed) : Feed :=
  {| fd_net := fd_net s; fd_store := k; fd_traces := fd_traces s; fd_pending := fd_pending s;
     fd_committed := fd_committed s; fd_asked := fd_asked s |}.
Definition fd_set_traces (t : Traces) (s : Feed) : Feed :=
  {| fd_net := fd_net s; fd_store := fd_store s; fd_traces := t; fd_pending := fd_pending s;
     fd_committed := fd_committed s; fd_asked := fd_asked s |}.
Definition fd_set_offsets (p c : option string) (s : Feed) : Feed :=
  {| fd_net := fd_net s; fd_store := fd_store s; fd_traces := fd_traces s; fd_pending := p;
     fd_committed := c; fd_asked := fd_asked s |}.
Definition fd_alive : R bool := λ s,
  (Ok (alive (fd_asked s)),
   {| fd_net := fd_net s; fd_store := fd_store s; fd_traces := fd_traces s; fd_pending := fd_pending s;
      fd_committed := fd_committed s; fd_asked := S (fd_asked s) |}).

(** core/src/connectors.rs [offset_put] *)
Definition offset_put (value : string) (k : K) : K := snd (kv_put offset_kv value k).

(** core/src/connectors.rs:1745-1752 [ExecStreamSource::run] *)
Definition commit_offset : R () := sr_mod (λ s,
  match fd_store s, fd_pending s with
  | Some k, Some p =>
    if bool_decide (fd_pending s = fd_committed s) then s
    else fd_set_offsets (fd_pending s) (fd_pending s) (fd_set_store (Some (offset_put p k)) s)
  | _, _ => s
  end).

(** [i64] addition as release builds do it. *)
Definition next_offset (off : Z) : string := dec_of_Z (wrap 64 (off + 1 + 2 ^ 63) - 2 ^ 63).
Definition record_offset (rec : Value) : option Z := vget offset_field rec ≫= as_i64.

(** core/src/connectors.rs:1756-1786 [ExecStreamSource::run] *)
Definition feed_line (l : string) : R () := λ s,
  let line := trim l in
  if String.eqb line "" then (Ok (), s)
  else match from_json line with
       | None => (Ok (), s)
       | Some rec =>
         let '(r, n) := net_store subject line (fd_net s) in
         let s := fd_set_net n s in
         let t := secs (fd_asked s) in
         match r with
         | Ok _ =>
           let s := fd_set_traces (trace_pub t name subject line (fd_traces s)) s in
           (Ok (), match fd_store s, record_offset rec with
                   | Some _, Some off => fd_set_offsets (Some (next_offset off)) (fd_committed s) s
                   | _, _ => s
                   end)
         | Err e => (Ok (), fd_set_traces (trace_fail t name subject ("publish: " ++ e) (fd_traces s)) s)
         | Panic => (Panic, s)
         | NoFuel => (NoFuel, s)
         end
       end.

(** The turns of the loop, each with whether the commit is due; the end of the
    list is where the run is looked at. *)
(** core/src/connectors.rs:1739-1792 [ExecStreamSource::run] *)
Fixpoint feed (turns : list (bool * Heard)) : R () :=
  match turns with
  | [] => mret ()
  | (due, h) :: turns =>
    go ← fd_alive;
    if (go : bool) then
      _ ← (if (due : bool) then commit_offset else mret ());
      match h with
      | Line l => _ ← feed_line l; feed turns
      | Idle => feed turns
      | Closed => mret ()
      end
    else mret ()
  end.

(** The waits of 200 ms before a restart. *)
(** core/src/connectors.rs:1812-1817 [ExecStreamSource::run] *)
Fixpoint nap (n : nat) : R () :=
  match n with
  | O => mret ()
  | S n => go ← fd_alive; if (go : bool) then nap n else mret ()
  end.

(** Where the child starts: the last offset, or the configured start. *)
(** core/src/connectors.rs:1706-1712 [ExecStreamSource::run] *)
Definition start_offset (s : Feed) : option string :=
  k ← fd_store s;
  Some (default offset_start
    (offset_get (match kv_get offset_kv k with Ok o => o | _ => None end))).

(** The runs of the child, each with what it does when it is given its start;
    [true] when the driver goes on. *)
(** core/src/connectors.rs [ExecStreamSource::run] *)
Fixpoint stream_runs (restart : nat) (children : list (option string → res string (list (bool * Heard)))) : R bool :=
  match children with
  | [] => mret true
  | child :: children =>
    go ← fd_alive;
    if (go : bool) then
      s ← sr_get;
      turns ← sr_lift (child (start_offset s));
      _ ← sr_mod (fd_set_offsets None None);
      _ ← feed turns;
      _ ← commit_offset;
      go ← fd_alive;
      if (go : bool) then _ ← nap (5 * restart); stream_runs restart children
      else mret false
    else mret false
  end.
End Feed.
Arguments Feed N K : clear implicits.

(** ** A timer keeps time *)

Section Time.
Context {SD : Serde} {N : Type} {NET : Net N} {NL : NetLaws N} {W : Type}.
Context (name subject : string) (secs : nat → Z) (alive : nat → bool).
Hypothesis lives : ∀ k, alive k = true.
Hypothesis bus_takes : ∀ s p (n : N), is_ok (fst (net_store s p n)) = true.
Notation fired n l payload n' := (stored n' = (stored n ++ l)%list ∧
  Forall (λ sp, fst sp = subject ∧ ∃ t, snd sp = to_json (stamp_ts payload t)) l).

Lemma timer_fire_stores payload (s : Src N W) : ∃ s',
  timer_fire name subject secs payload s = (Ok (), s') ∧
  ∃ sp, fired (sc_net s) [sp] payload (sc_net s').
Proof.
  unfold timer_fire, src_secs, src_publish, sr_out, mbind, sr_bind. cbn.
  set (bytes := to_json (stamp_ts payload (secs (sc_asked s)))).
  pose proof (store_law subject bytes (sc_net s)) as H. pose proof (bus_takes subject bytes (sc_net s)) as Hok.
  destruct (net_store subject bytes (sc_net s)) as [r n]. destruct r as [z|e| |]; try done.
  destruct H as (_ & _ & _ & Hs). cbn. eexists. split; [reflexivity|]. exists (subject, bytes). cbn.
  split; [done|]. repeat constructor; eauto.
Qed.

Lemma clock_stores payload i n : 0 < i < 2 ^ 64 / 1000 - 1 → ∀ j (s : Src N W), (0 <= j < 4 * i) →
  ∃ s', clock_loop alive n i (250 * j) (timer_fire name subject secs payload) s = (Ok true, s') ∧
    ∃ l, fired (sc_net s) l payload (sc_net s') ∧ Z.of_nat (length l) = (j + Z.of_nat n) / (4 * i).
Proof.
  intros Hi. induction n as [|n IH]; intros j s Hj.
  { eexists. split; [reflexivity|]. exists []. rewrite app_nil_r, Z.add_0_r, Z.div_small by lia.
    repeat split; by constructor. }
  cbn [clock_loop]. unfold src_alive, mbind, sr_bind. rewrite lives. cbv zeta.
  set (s1 := {| sc_net := sc_net s; sc_traces := _; sc_world := _; sc_asked := _ |}).
  assert (2 ^ 64 / 1000 * 1000 <= 2 ^ 64) as Hb by (vm_compute; discriminate).
  rewrite (wrap_small 64 (250 * j + 250)), (wrap_small 64 (i * 1000)) by lia.
  destruct (Z.leb_spec (i * 1000) (250 * j + 250)).
  - destruct (timer_fire_stores payload s1) as (s2 & -> & sp & Hs & Hf).
    destruct (IH 0 s2) as (s3 & E & l & [Hl Hfl] & Hn); [lia|]. change (250 * 0) with 0 in E.
    unfold mbind, sr_bind in E. rewrite E.
    exists s3. split; [done|]. exists (sp :: l). split.
    + rewrite Hl, Hs, <- app_assoc. split; [done|]. by inversion Hf; subst; constructor.
    + cbn [length]. rewrite Nat2Z.inj_succ, Hn.
      replace (j + Z.of_nat (S n)) with (0 + Z.of_nat n + 1 * (4 * i)) by lia. rewrite Z.div_add by lia. lia.
  - replace (250 * j + 250) with (250 * (j + 1)) by lia.
    destruct (IH (j + 1) s1) as (s3 & E & l & Hl & Hn); [lia|]. unfold mbind, sr_bind in E. rewrite E.
    exists s3. split; [done|]. exists l. split; [done|]. rewrite Hn. f_equal. lia.
Qed.
End Time.

(** A timer keeps time: as long as it runs and the bus takes what it
    publishes, it publishes its stamped payload once every INTERVAL_SECS, no
    more and no less, on its subject. *)
Theorem timer_keeps_time {SD : Serde} {N : Type} {NET : Net N} {NL : NetLaws N} {W : Type}
  name subject secs alive config (s : Src N W) (t : Z) :
  (∀ k, alive k = true) → (∀ su p (n : N), is_ok (fst (net_store su p n)) = true) →
  let interval := Z.max 1 (cfg_u64_or config "INTERVAL_SECS" 60) in
  interval < 2 ^ 64 / 1000 - 1 → 0 <= t →
  ∃ s', timer_run name subject secs alive (Z.to_nat (4 * t)) config s = (Ok true, s') ∧
    ∃ l, stored (sc_net s') = (stored (sc_net s) ++ l)%list ∧ Z.of_nat (length l) = t / interval ∧
      Forall (λ sp, fst sp = subject ∧ ∃ now, snd sp =
        to_json (stamp_ts (default (obj []) (cfg_value config "PAYLOAD")) now)) l.
Proof.
  intros Ha Hb i Hi Ht. unfold timer_run. fold i.
  destruct (clock_stores name subject secs alive Ha Hb (default (obj []) (cfg_value config "PAYLOAD")) i
    (Z.to_nat (4 * t)) ltac:(unfold i in *; lia) 0 s ltac:(lia)) as (s' & E & l & [Hl Hf] & Hn).
  exists s'. split; [exact E|]. exists l. split; [done|]. split; [|done].
  rewrite Hn, Z2Nat.id, Z.add_0_l by lia. apply Z.div_mul_cancel_l; lia.
Qed.

Lemma timer_keeps_time_witness :
  let cfg := [("INTERVAL_SECS", vint 2)] in
  let s := {| sc_net := sim_start; sc_traces := no_traces; sc_world := (); sc_asked := 0 |} in
  ∃ s', timer_run "timer:t" "vx.t" (λ _, 7) (λ _, true) (Z.to_nat (4 * 5)) cfg s = (Ok true, s') ∧
    ∃ l, stored (sc_net s') = (stored (sc_net s) ++ l)%list ∧
      Z.of_nat (length l) = 5 / Z.max 1 (cfg_u64_or cfg "INTERVAL_SECS" 60) ∧
      Forall (λ sp, fst sp = "vx.t" ∧ ∃ now, snd sp =
        to_json (stamp_ts (default (obj []) (cfg_value cfg "PAYLOAD")) now)) l.
Proof.
  cbv zeta. apply (timer_keeps_time "timer:t" "vx.t" (λ _, 7) (λ _, true)); [done|done|by vm_compute|lia].
Defined.

(** ** An offset is never ahead of the bus *)

Section Offsets.
Context {SD : Serde} {N : Type} {NET : Net N} {NL : NetLaws N} {K : Type} {KV : KvOps K} {KL : KvLaws K}.
Context (name subject : string) (secs : nat → Z) (alive : nat → bool).
Context (offset_kv offset_field offset_start : string).
Notation Feed := (Feed N K).

(** An offset that stands right after a record the bus has stored. *)
Definition backed (v : string) (n : N) : Prop :=
  ∃ line rec off, (subject, line) ∈ stored n ∧ from_json line = Some rec ∧
    record_offset offset_field rec = Some off ∧ v = next_offset off.

Context (k0 : K).
Definition FInv (s : Feed) : Prop :=
  (∀ p, fd_pending s = Some p → backed p (fd_net s)) ∧
  ∃ k, fd_store s = Some k ∧
    ∀ v rev, view k offset_kv = Some (v, rev) → view k0 offset_kv = Some (v, rev) ∨ backed v (fd_net s).
Notation T := (triple FInv).

Lemma backed_later v n n' : later n n' → backed v n → backed v n'.
Proof. intros (_ & _ & Hs) (line & rec & off & Hin & H). exists line, rec, off. auto. Qed.

Lemma finv_later s n : later (fd_net s) n → FInv s → FInv (fd_set_net n s).
Proof.
  intros Hl [Hp (k & Hk & Hv)]. split; [intros p H; by eapply backed_later, Hp|].
  exists k. split; [done|]. intros v rev H. destruct (Hv v rev H); [by left|right; by eapply backed_later].
Qed.

Lemma commit_triple : T FInv (commit_offset offset_kv) (λ _, FInv).
Proof.
  apply triple_mod. intros s Hs. assert (FInv s ∧ FInv s) as Hsame by done.
  destruct (fd_store s) as [k|] eqn:Ek; [|done]. destruct (fd_pending s) as [p|] eqn:Ep; [|done].
  case_bool_decide; [done|]. destruct Hs as [Hp (k' & Hk & Hv)]. rewrite Ek in Hk. injection Hk as <-.
  assert (FInv (fd_set_offsets (Some p) (Some p) (fd_set_store (Some (offset_put offset_kv p k)) s))) as HI; [|done].
  split; cbn; [intros q [= <-]; by apply Hp|]. eexists. split; [reflexivity|]. intros v rev. unfold offset_put.
  destruct (kv_put_law offset_kv p k) as (rv & Hput). destruct (kv_put offset_kv p k) as [r k']. cbn.
  destruct Hput as [Hc _].
  assert (view k' offset_kv = view k offset_kv ∨ view k' offset_kv = Some (p, rv)) as Hcases.
  { destruct r; cbn in Hc; try done.
    - right. rewrite Hc. apply view_set_eq.
    - destruct Hc as [Hc|Hc]; rewrite Hc; [by left|right; apply view_set_eq]. }
  destruct Hcases as [-> | ->]; [apply Hv|]. intros [= <- _]. right. by apply Hp.
Qed.

Lemma feed_line_triple l : T FInv (feed_line name subject secs offset_field l) (λ _, FInv).
Proof.
  intros s Hs. unfold feed_line. destruct (String.eqb (trim l) ""); [done|].
  destruct (from_json (trim l)) as [rec|] eqn:Ej; [|done].
  destruct (store_later subject (trim l) (fd_net s)) as (Hl & _ & Hin).
  destruct (net_store subject (trim l) (fd_net s)) as [r n]. cbn in Hl, Hin.
  pose proof (finv_later s n Hl Hs) as HI.
  destruct r as [z|e| |]; try done. cbn.
  set (t := trace_pub _ _ _ _ _). destruct (fd_store s) as [k|] eqn:Ek; [|by split].
  destruct (record_offset offset_field rec) as [off|] eqn:Eo; [|by split].
  assert (FInv (fd_set_offsets (Some (next_offset off)) (fd_committed s) (fd_set_traces t (fd_set_net n s)))); [|done].
  split; [|by destruct HI]. cbn. intros p [= <-]. exists (trim l), rec, off. auto.
Qed.

Lemma feed_alive_triple : T FInv (fd_alive alive) (λ _, FInv).
Proof. intros s Hs. by split. Qed.

Lemma feed_triple turns : T FInv (feed name subject secs alive offset_kv offset_field turns) (λ _, FInv).
Proof.
  induction turns as [|[due h] turns IH]; [by apply triple_ret|]. cbn [feed].
  eapply triple_bind; [apply feed_alive_triple|]. intros [|]; [|by apply triple_ret].
  eapply triple_bind with (Q := λ _, FInv); [destruct due; [apply commit_triple|by apply triple_ret]|]. intros [].
  destruct h as [l| |]; [|done|by apply triple_ret].
  eapply triple_bind; [apply feed_line_triple|]. by intros [].
Qed.

Lemma nap_triple n : T FInv (nap alive n) (λ _, FInv).
Proof.
  induction n as [|n IH]; [by apply triple_ret|]. cbn [nap].
  eapply triple_bind; [apply feed_alive_triple|]. intros [|]; [done|by apply triple_ret].
Qed.

Lemma runs_triple restart children :
  T FInv (stream_runs name subject secs alive offset_kv offset_field offset_start restart children) (λ _, FInv).
Proof.
  induction children as [|child children IH]; [by apply triple_ret|]. cbn [stream_runs].
  eapply triple_bind; [apply feed_alive_triple|]. intros [|]; [|by apply triple_ret].
  eapply triple_bind with (Q := λ _, FInv); [intros s Hs; by split|]. intros s.
  eapply triple_bind with (Q := λ _, FInv).
  { intros s' Hs. unfold sr_lift. destruct (child _); by split. }
  intros turns. eapply triple_bind with (Q := λ _, FInv).
  { apply triple_mod. intros s' [Hp Hk]. assert (FInv (fd_set_offsets None None s')); [|done]. by split. }
  intros []. eapply triple_bind; [apply feed_triple|]. intros [].
  eapply triple_bind; [apply commit_triple|]. intros [].
  eapply triple_bind; [apply feed_alive_triple|]. intros [|]; [|by apply triple_ret].
  eapply triple_bind; [apply nap_triple|]. by intros [].
Qed.
End Offsets.

(** C30: an offset is committed after what it stands for is on the bus:
    through any runs of the child, failures of the bus and of the bucket, and
    a stop anywhere, what the bucket holds is what it held before, or the
    offset right after a record that the bus has stored. *)
Theorem offset_behind_bus {SD : Serde} {N : Type} {NET : Net N} {NL : NetLaws N} {K : Type} {KV : KvOps K}
  {KL : KvLaws K} name subject secs alive key field start restart children (s : Feed N K) k :
  fd_store s = Some k → fd_pending s = None →
  let s' := snd (stream_runs name subject secs alive key field start restart children s) in
  ∃ k', fd_store s' = Some k' ∧ ∀ v rev, view k' key = Some (v, rev) →
    view k key = Some (v, rev) ∨ backed subject field v (fd_net s').
Proof.
  intros Hk Hp. cbv zeta.
  destruct (runs_triple name subject secs alive key field start k restart children s) as [HI _].
  - split; [by rewrite Hp|]. exists k. split; [done|]. by left.
  - by destruct HI as [_ HI].
Qed.

Definition two_lines (start : option string) : res string (list (bool * Heard)) :=
  Ok [(false, Line (to_json (obj [("offset", vint 4)]))); (true, Idle); (false, Line (to_json (obj [("offset", vint 5)]))); (false, Closed)].
Definition feed_start : Feed SimNet MapKv :=
  {| fd_net := sim_start; fd_store := Some empty_kv; fd_traces := no_traces; fd_pending := None;
     fd_committed := None; fd_asked := 0 |}.
Definition feed_end : Feed SimNet MapKv :=
  snd (stream_runs "exec:k" "vx.k" (λ _, 7) (λ _, true) "k" "offset" "end" 1 [two_lines] feed_start).

Example feed_end_offset : kv_get "k" (default empty_kv (fd_store feed_end)) = Ok (Some "6").
Proof. vm_compute. reflexivity. Qed.

Lemma offset_behind_bus_witness :
  ∃ k', fd_store feed_end = Some k' ∧ ∀ v rev, view k' "k" = Some (v, rev) →
    view empty_kv "k" = Some (v, rev) ∨ backed "vx.k" "offset" v (fd_net feed_end).
Proof.
  apply (offset_behind_bus "exec:k" "vx.k" (λ _, 7) (λ _, true) "k" "offset" "end" 1 [two_lines] feed_start empty_kv);
    reflexivity.
Defined.

(** A record whose publish fails is passed over as soon as a later one is
    published: the offset that is committed stands after both. *)
Lemma failed_record_passed_over {SD : Serde} {N : Type} {NET : Net N} {K : Type} {KV : KvOps K}
  name subject secs key field (s : Feed N K) l1 l2 r1 r2 o2 e n1 z n2 k :
  fd_store s = Some k → fd_pending s = fd_committed s →
  from_json (trim l1) = Some r1 → from_json (trim l2) = Some r2 → trim l1 ≠ "" → trim l2 ≠ "" →
  record_offset field r2 = Some o2 → fd_committed s ≠ Some (next_offset o2) →
  net_store subject (trim l1) (fd_net s) = (Err e, n1) → net_store subject (trim l2) n1 = (Ok z, n2) →
  fd_store (snd ((_ ← feed_line name subject secs field l1; _ ← feed_line name subject secs field l2;
                  commit_offset key) s)) = Some (offset_put key (next_offset o2) k).
Proof.
  intros Hk Hp H1 H2 Hn1 Hn2 Ho Hne E1 E2. apply String.eqb_neq in Hn1, Hn2.
  unfold feed_line, commit_offset, sr_mod, mbind, sr_bind. rewrite Hn1, Hn2, H1, H2, E1. cbn. rewrite E2. cbn. rewrite Hk, Ho. cbn.
  rewrite Hk. rewrite bool_decide_false by congruence. done.
Qed.
