(* ===== verification/OAuth.v ===== *)
(** * The OAuth2 poller

    The [oauth-poll] driver (core/src/connectors.rs): the token of a client with
    its cache, requests with it and their one retry, pages, and the details
    that are fetched for each item of a page.  The HTTP library is the class
    [Ureq] of [Sinks]; instants and seconds are read from a clock that is an
    argument. *)

From stdpp Require Import base gmap list strings.
From Stdlib Require Import ZArith Lia.
From S2P Require Import Prelude Triples Text F64 Json Bus Traces FlowProps Connect HttpIn Sinks Sources Concrete.
Open Scope string_scope.
Open Scope Z_scope.

(** ** The token *)

(** core/src/connectors.rs:665-671 [TokenCache] *)
Record TokenCache : Type := {
  token_url : string;
  client_id : string;
  client_secret : string;
  scope : string;
  cached : option (string * Z)    (** with its deadline, an instant in seconds *)
}.

(** core/src/connectors.rs [Expand] *)
Record Expand : Type := {
  x_name : string;
  x_list : string;
  x_detail : string;
  x_key : string;
  x_as_field : string;
  x_list_field : string
}.

Section OAuth.
Context {SD : Serde} {W : Type} {UR : Ureq W}.
(** The instants, by the number of times they were read; how the JSON reader
    words its error. *)
Context (instant : nat → Z) (why : string → string).

(** The outside, with the cache and the readings of the clock so far. *)
Record Web : Type := { wb_world : W; wb_tokens : TokenCache; wb_reads : nat }.
Notation R := (sr Web string).

Definition web (A : Type) (m : sr W string A) : R A := λ s,
  let '(r, w) := m (wb_world s) in
  (r, {| wb_world := w; wb_tokens := wb_tokens s; wb_reads := wb_reads s |}).
Arguments web {A} m.
Definition set_cached (c : option (string * Z)) (s : Web) : Web :=
  let t := wb_tokens s in
  {| wb_world := wb_world s;
     wb_tokens := {| token_url := token_url t; client_id := client_id t; client_secret := client_secret t;
                     scope := scope t; cached := c |};
     wb_reads := wb_reads s |}.
(** [Instant::now()] *)
Definition read_instant : R Z := λ s,
  (Ok (instant (wb_reads s)),
   {| wb_world := wb_world s; wb_tokens := wb_tokens s; wb_reads := S (wb_reads s) |}).

(** core/src/connectors.rs:756-765 [OAuthPoll::token] *)
Definition token_form (client_id client_secret scope : string) : string :=
  "grant_type=client_credentials&client_id=" ++ urlencode client_id ++ "&client_secret=" ++ urlencode client_secret
  ++ (if String.eqb scope "" then "" else "&scope=" ++ urlencode scope).
Definition form_headers : list (string * string) := [("Content-Type", "application/x-www-form-urlencoded")].

(** core/src/connectors.rs:771-785 [OAuthPoll::token] *)
Definition read_token (code : Z) (body : string) : res string (string * Z) :=
  if negb (success code) then Err ("token endpoint " ++ http_refusal code body)
  else
    v ← ok_or (from_json body) ("token endpoint: bad JSON: " ++ why body);
    tok ← ok_or (as_str (vindex v "access_token")) "token endpoint: no access_token in response";
    Ok (tok, Z.max 30 (sat_sub (default 300 (as_u64 (vindex v "expires_in"))) 60)).

(** core/src/connectors.rs [OAuthPoll::token] *)
Definition token (url client_id client_secret scope : string) : sr W string (string * Z) :=
  '(code, body) ← http_request "POST" url form_headers (Some (token_form client_id client_secret scope));
  sr_lift (read_token code body).

(** core/src/connectors.rs:681-684 [TokenCache::bearer] *)
Definition fetch_token : R string :=
  s ← sr_get;
  let tc := wb_tokens s in
  '(t, ttl) ← web (token (token_url tc) (client_id tc) (client_secret tc) (scope tc));
  now ← read_instant;
  _ ← sr_mod (set_cached (Some (t, now + ttl)));
  mret t.

(** core/src/connectors.rs [TokenCache::bearer] *)
Definition bearer : R string :=
  s ← sr_get;
  match cached (wb_tokens s) with
  | Some (t, deadline) =>
    now ← read_instant;
    if now <? deadline then mret t else fetch_token
  | None => fetch_token
  end.

(** core/src/connectors.rs [TokenCache::invalidate] *)
Definition invalidate : R () := sr_mod (set_cached None).

Definition bearer_headers (tok : string) : list (string * string) := [("Authorization", "Bearer " ++ tok)].
Definition get_with (tok url : string) : R (Z * string) := web (http_request "GET" url (bearer_headers tok) None).

(** core/src/connectors.rs [authed_get] *)
Definition authed_get (url : string) : R (Z * string) :=
  tok ← bearer;
  '(code, body) ← get_with tok url;
  if code =? 401 then
    _ ← invalidate;
    tok ← bearer;
    get_with tok url
  else mret (code, body).

(** core/src/connectors.rs [parse_expands] *)
Definition parse_expand (e : Value) : res string Expand :=
  let field k := vget k e ≫= as_str in
  match field "name", field "list", field "detail", field "key", field "as" with
  | Some name, Some list, Some detail, Some key, Some as_field =>
    Ok {| x_name := name; x_list := list; x_detail := detail; x_key := key; x_as_field := as_field;
          x_list_field := default "value" (field "list_field") |}
  | _, _, _, _, _ => Err "every EXPAND entry needs name, list, detail, key and as"
  end.
Fixpoint parse_each (l : list Value) : res string (list Expand) :=
  match l with
  | [] => Ok []
  | e :: l => x ← parse_expand e; xs ← parse_each l; Ok (x :: xs)
  end.
(** core/src/connectors.rs [parse_expands] *)
Definition parse_expands (config : Config) : res string (list Expand) :=
  match cfg_value config "EXPAND" with
  | None => Ok []
  | Some raw =>
    entries ← ok_or (as_array raw) "EXPAND must be a list of {name, list, detail, key, as} docs";
    parse_each entries
  end.

(** ** Pages *)

Section Poll.
Context {N : Type} {NET : Net N}.
Context (name subject base next_field : string) (max_pages : nat) (secs : nat → Z) (alive : nat → bool).
Notation Src := (Src N Web).
Notation P := (sr Src string).
Notation fail_trace := (failed name subject secs).

(** core/src/connectors.rs:881-895 [OAuthPoll::run] *)
Definition publish_page (parsed : Value) (logical : string) : P () :=
  t ← src_secs secs;
  let bytes := to_json (obj [("endpoint", VString logical); ("fetched_at", VString (iso8601_utc t)); ("body", parsed)]) in
  r ← sr_out (src_publish subject bytes);
  match r with
  | Ok _ => published name subject secs bytes
  | Err e => sr_fail ("publish: " ++ e)
  | Panic => sr_lift Panic
  | NoFuel => sr_lift NoFuel
  end.

(** The pages of an endpoint, at most [n] of them; [enrich] is what is done to
    a page before it is published, [None] when the driver was stopped.  The
    answer is whether the driver goes on. *)
(** core/src/connectors.rs:896-936 [OAuthPoll::run] *)
Fixpoint page_loop (enrich : Value → P (option Value)) (label : string) (n : nat) (url : string) : P bool :=
  match n with
  | O => mret true
  | S n =>
    go ← src_alive alive;
    if negb (go : bool) then mret false
    else
      r ← sr_out (src_call (authed_get url));
      match r with
      | Ok (code, body) =>
        if success code then
          match from_json body with
          | None => mret true
          | Some parsed =>
            page ← enrich parsed;
            match page with
            | None => mret false
            | Some page =>
              _ ← publish_page page label;
              match next_url base page next_field with
              | Some next => page_loop enrich label n next
              | None => mret true
              end
            end
          end
        else
          _ ← fail_trace (label ++ ": HTTP " ++ dec_of_Z code ++ ": "
                          ++ trim (from_utf8_lossy (stake (Nat.min (slen body) 200) body)));
          mret true
      | Err e => _ ← fail_trace (label ++ ": " ++ e); mret true
      | Panic => sr_lift Panic
      | NoFuel => sr_lift NoFuel
      end
  end.

(** core/src/connectors.rs:896-936 [OAuthPoll::run] *)
Definition poll_endpoint (ep : string) : P bool :=
  page_loop (λ v, mret (Some v)) ep max_pages (join_url base ep).

(** core/src/connectors.rs:986-1005 [OAuthPoll::run] *)
Definition fetch_detail (url : string) : P Value :=
  r ← sr_out (src_call (authed_get url));
  match r with
  | Ok (c, b) => mret (if success c then default VNull (from_json b) else VNull)
  | Err _ => mret VNull
  | Panic => sr_lift Panic
  | NoFuel => sr_lift NoFuel
  end.

(** An item with its detail: a string becomes an object that holds it. *)
(** core/src/connectors.rs:963-1009 [OAuthPoll::run] *)
Definition enrich_item (x : Expand) (item : Value) : P Value :=
  let item := match item with VString id => obj [(x_key x, VString id)] | v => v end in
  match vget (x_key x) item ≫= as_str with
  | None => mret item
  | Some id =>
    detail ← fetch_detail (join_url base (fill_template (x_detail x) (x_key x) id));
    mret (match item with VObject o => VObject (map_insert (x_as_field x) detail o) | v => v end)
  end.

(** core/src/connectors.rs:959-1010 [OAuthPoll::run] *)
Fixpoint enrich_items (x : Expand) (items : list Value) : P (option (list Value)) :=
  match items with
  | [] => mret (Some [])
  | item :: items =>
    go ← src_alive alive;
    if negb (go : bool) then mret None
    else
      item ← enrich_item x item;
      rest ← enrich_items x items;
      mret (option_map (cons item) rest)
  end.

(** core/src/connectors.rs:956-1011 [OAuthPoll::run] *)
Definition enrich_page (x : Expand) (parsed : Value) : P (option Value) :=
  match parsed, vget (x_list_field x) parsed ≫= as_array with
  | VObject o, Some items =>
    items ← enrich_items x items;
    mret (option_map (λ items, VObject (map_insert (x_list_field x) (VArray items) o)) items)
  | v, _ => mret (Some v)
  end.

(** core/src/connectors.rs:940-1034 [OAuthPoll::run] *)
Definition poll_expand (x : Expand) : P bool :=
  page_loop (enrich_page x) (x_name x) max_pages (join_url base (x_list x)).

(** One after the other, until the driver is stopped. *)
Fixpoint until_stopped {A} (f : A → P bool) (l : list A) : P bool :=
  match l with
  | [] => mret true
  | x :: l => go ← f x; if (go : bool) then until_stopped f l else mret false
  end.

(** core/src/connectors.rs:875-1035 [OAuthPoll::run] *)
Definition poll_tick (endpoints : list string) (expands : list Expand) : P bool :=
  r ← sr_out (src_call bearer);
  match r with
  | Ok _ =>
    go ← until_stopped poll_endpoint endpoints;
    if (go : bool) then until_stopped poll_expand expands else mret false
  | Err e => _ ← fail_trace e; sr_fail e
  | Panic => sr_lift Panic
  | NoFuel => sr_lift NoFuel
  end.

(** core/src/connectors.rs:861-874 [OAuthPoll::run] *)
Fixpoint poll_loop (n : nat) (interval waited : Z) (tick : P bool) : P bool :=
  match n with
  | O => mret true
  | S n =>
    go ← src_alive alive;
    if (go : bool) then
      let waited := wrap 64 (waited + 250) in
      if waited <? wrap 64 (interval * 1000) then poll_loop n interval waited tick
      else
        go ← tick;
        if (go : bool) then poll_loop n interval 0 tick else mret false
    else mret false
  end.
End Poll.
End OAuth.
Arguments Web W : clear implicits.

Section Run.
Context {SD : Serde} {W : Type} {UR : Ureq W} {N : Type} {NET : Net N}.
Context (instant : nat → Z) (why : string → string) (name subj_root : string) (secs : nat → Z) (alive : nat → bool).
Notation P := (sr (Src N (Web W)) string).

Definition required (config : Config) (key : string) : res string string :=
  ok_or (cfg_str config key) (key ++ " required").

(** core/src/connectors.rs:820-833 [OAuthPoll::run] *)
Definition endpoints_of (config : Config) : list string :=
  match cfg_value config "ENDPOINTS" ≫= as_array with Some l => omap as_str l | None => [] end.

(** The driver, from its configuration, for [n] turns. *)
(** core/src/connectors.rs [OAuthPoll::run] *)
Definition oauth_run (n : nat) (config : Config) : P bool :=
  url ← sr_lift (required config "TOKEN_URL");
  id ← sr_lift (required config "CLIENT_ID");
  secret ← sr_lift (required config "CLIENT_SECRET");
  base ← sr_lift (required config "BASE_URL");
  expands ← sr_lift (parse_expands config);
  let endpoints := endpoints_of config in
  if match endpoints, expands with [], [] => true | _, _ => false end then sr_fail "ENDPOINTS or EXPAND required"
  else
    subject ← sr_lift (required config "SUBJECT");
    let interval := Z.max 1 (cfg_u64_or config "INTERVAL_SECS" 300) in
    let max_pages := Z.to_nat (Z.max 1 (cfg_u64_or config "MAX_PAGES" 10)) in
    let tokens := {| token_url := url; client_id := id; client_secret := secret;
                     scope := cfg_str_or config "SCOPE" ""; cached := None |} in
    _ ← sr_mod (λ s, {| sc_net := sc_net s; sc_traces := sc_traces s; sc_asked := sc_asked s;
                        sc_world := {| wb_world := wb_world (sc_world s); wb_tokens := tokens;
                                       wb_reads := wb_reads (sc_world s) |} |});
    let subject := full_subject subj_root subject in
    poll_loop alive n interval (wrap 64 (interval * 1000))
      (poll_tick instant why name subject base (cfg_str_or config "NEXT_LINK_FIELD" "@odata.nextLink") max_pages
         secs alive endpoints expands).

(** core/src/connectors.rs [OAuthPoll::probe] *)
Definition probe_oauth (config : Config) : sr W string string :=
  url ← sr_lift (required config "TOKEN_URL");
  id ← sr_lift (required config "CLIENT_ID");
  secret ← sr_lift (required config "CLIENT_SECRET");
  base ← sr_lift (required config "BASE_URL");
  let first := match cfg_value config "ENDPOINTS" ≫= as_array with Some (e :: _) => as_str e | _ => None end in
  let expanded := match parse_expands config with Ok (x :: _) => Some (x_list x) | _ => None end in
  ep ← sr_lift (ok_or (match first with Some e => Some e | None => expanded end) "ENDPOINTS or EXPAND required");
  t ← sr_out (token why url id secret (cfg_str_or config "SCOPE" ""));
  match t with
  | Err e => sr_fail (humanize e)
  | Panic => sr_lift Panic
  | NoFuel => sr_lift NoFuel
  | Ok (tok, _) =>
    r ← sr_out (http_request "GET" (join_url base ep) (bearer_headers tok) None);
    sr_lift (match r with
    | Ok (code, body) =>
      if success code then
        Ok (match from_json body ≫= (λ v, as_array (vindex v "value")) with
            | Some l => "token OK · GET " ++ ep ++ " OK (" ++ dec_of_Z (Z.of_nat (length l)) ++ " items)"
            | None => "token OK · GET " ++ ep ++ " OK (" ++ dec_of_Z (Z.of_nat (slen body)) ++ " bytes)"
            end)
      else Err (humanize ("token OK, but GET " ++ ep ++ " answered HTTP " ++ dec_of_Z code
                          ++ " (missing permission / admin consent?)"))
    | Err e => Err (humanize ("GET " ++ ep ++ ": " ++ e))
    | Panic => Panic
    | NoFuel => NoFuel
    end)
  end.
End Run.

(** ** Where the credentials go *)

(** The entries of EXPAND that the driver runs with. *)
Definition expands_of (config : Config) : list Expand :=
  match parse_expands config with Ok l => l | _ => [] end.

Section Confined.
Context {SD : Serde}.
Context (answers : list Exchange → string → string → list (string * string) → option string → Reply).
#[local] Instance the_ledger : Ureq (list Exchange) := ledger answers.
Context (instant : nat → Z) (why : string → string) (url id secret scp : string) (log0 : list Exchange).
Context (base next_field : string) (endpoints : list string) (expands : list Expand).
Notation Web := (Web (list Exchange)).

Definition token_request (x : Exchange) : Prop :=
  ex_method x = "POST" ∧ ex_url x = url ∧ ex_headers x = form_headers ∧
  ex_body x = Some (token_form id secret scp).

Definition gave (x : Exchange) (code : Z) (body : string) : Prop :=
  ex_reply x = Response code (Ok body) ∨ ex_reply x = StatusError code (Ok body).

(** A token that the token endpoint gave. *)
Definition granted (t : string) (log : list Exchange) : Prop :=
  ∃ x code body ttl, x ∈ log ∧ token_request x ∧ gave x code body ∧ read_token why code body = Ok (t, ttl).

(** A page that was got. *)
Definition got (code : Z) (body : string) (log : list Exchange) : Prop :=
  ∃ x, x ∈ log ∧ ex_method x = "GET" ∧ gave x code body.

(** The places the driver has from its configuration, and those that a page it
    got names as the next. *)
Definition configured (u : string) : Prop :=
  (∃ ep, ep ∈ endpoints ∧ u = join_url base ep) ∨
  ∃ x, x ∈ expands ∧ (u = join_url base (x_list x) ∨
                      ∃ key, u = join_url base (fill_template (x_detail x) (x_key x) key)).
Definition named (u : string) (log : list Exchange) : Prop :=
  ∃ code body page, got code body log ∧ success code = true ∧ from_json body = Some page ∧
    next_url base page next_field = Some u.
Definition a_place (u : string) (log : list Exchange) : Prop := configured u ∨ named u log.

(** A request of the driver, after those in [log]. *)
Definition authorized_get (log : list Exchange) (x : Exchange) : Prop :=
  ∃ t, ex_method x = "GET" ∧ ex_body x = None ∧ ex_headers x = bearer_headers t ∧ granted t log ∧
    a_place (ex_url x) log.
Definition may_ask (log : list Exchange) (x : Exchange) : Prop := token_request x ∨ authorized_get log x.
(** Each with what went before it. *)
Definition in_order (l : list Exchange) : Prop := ∀ i x, l !! i = Some x → may_ask (take i l) x.

Lemma in_order_snoc l x : in_order l → may_ask l x → in_order (l ++ [x]).
Proof.
  intros Hl Hx i y [Hi|[Hge Hi]]%lookup_app_Some.
  - rewrite take_app_le; [by apply Hl|]. apply lookup_lt_Some in Hi. lia.
  - destruct (i - length l)%nat as [|j] eqn:E; [|done]. injection Hi as <-.
    replace i with (length l) by lia. by rewrite take_app_length.
Qed.

(** What a longer log keeps. *)
Notation Known := (list Exchange → Prop).
Definition lasting (M : Known) : Prop := ∀ l k, M l → M (l ++ k)%list.
Definition knows (M M' : Known) : Known := λ l, M l ∧ M' l.
Lemma lasting_true : lasting (λ _, True).
Proof. by intros l k. Qed.
Lemma lasting_knows M M' : lasting M → lasting M' → lasting (knows M M').
Proof. intros H H' l k [? ?]. split; auto. Qed.
Lemma lasting_granted t : lasting (granted t).
Proof. intros l k (x & c & b & ttl & Hx & H). exists x, c, b, ttl. split; [apply elem_of_app; by left|done]. Qed.
Lemma lasting_got code body : lasting (got code body).
Proof. intros l k (x & Hx & H). exists x. split; [apply elem_of_app; by left|done]. Qed.
Hint Resolve lasting_true lasting_knows lasting_granted lasting_got : core.

(** The requests so far were in order, [M] holds of them, and the cache has a
    token that was given. *)
Definition WInv (M : Known) (s : Web) : Prop :=
  ∃ l c, wb_world s = (log0 ++ l)%list ∧ in_order l ∧ M l ∧
    wb_tokens s = {| token_url := url; client_id := id; client_secret := secret; scope := scp; cached := c |} ∧
    ∀ t d, c = Some (t, d) → granted t l.
Lemma winv_less (M M' : Known) s : (∀ l, M l → M' l) → WInv M s → WInv M' s.
Proof. intros H (l & c & ? & ? & ? & ?). exists l, c. auto. Qed.

(** One more request. *)
Lemma winv_more (M M' : Known) s w x :
  WInv M s → lasting M → w = (wb_world s ++ [x])%list → (∀ l, M l → may_ask l x) → (∀ l, x ∈ l → M' l) →
  ∀ n, WInv (knows M M') {| wb_world := w; wb_tokens := wb_tokens s; wb_reads := n |}.
Proof.
  intros (l & c & Hl & Ho & HM & Ht & Hg) HL -> Hx HM' n. exists (l ++ [x])%list, c. cbn.
  split; [by rewrite Hl, app_assoc|]. split; [apply in_order_snoc; auto|]. split; [|split; [done|]].
  - split; [by apply HL|]. apply HM', elem_of_app. right. by left.
  - intros t d E. by eapply lasting_granted, Hg.
Qed.
Lemma winv_cached (M : Known) s t d n : WInv (knows M (granted t)) s →
  WInv (knows M (granted t)) (set_cached (Some (t, d)) {| wb_world := wb_world s; wb_tokens := wb_tokens s; wb_reads := n |}).
Proof.
  intros (l & c & Hl & Ho & HM & Ht & Hg). exists l, (Some (t, d)). unfold set_cached. cbn. rewrite Ht.
  do 4 (split; [done|]). intros t' d' [= <- <-]. apply HM.
Qed.

(** However a step ends, what was known is known. *)
Notation T M m Q := (triple (WInv M) (WInv M) m (λ a, WInv (knows M (Q a)))).
Notation log s := (wb_world s).

Lemma fetch_triple M : lasting M → T M (fetch_token instant why) granted.
Proof.
  intros HL s Hs. unfold fetch_token, sr_get, web, token, http_request, mbind, sr_bind. cbn.
  pose proof Hs as (l & c & Hl & Ho & HM & Hc & Hg). rewrite Hc. cbn.
  set (r := answers _ "POST" url _ _).
  set (x := {| ex_method := "POST"; ex_reply := r |}).
  assert (token_request x) as Hx by done.
  assert (∀ n, WInv M {| wb_world := (log s ++ [x])%list; wb_tokens := wb_tokens s; wb_reads := n |}) as H1.
  { intros n. eapply winv_less; [|by eapply (winv_more M (λ _, True) s _ x); [..|left|]]. by intros ? []. }
  assert (∀ code body, gave x code body → ∀ t ttl d n, read_token why code body = Ok (t, ttl) →
    WInv (knows M (granted t)) (set_cached (Some (t, d)) {| wb_world := (log s ++ [x])%list; wb_tokens := wb_tokens s; wb_reads := n |})) as H2.
  { intros code body Hr t ttl d n Ht. apply (winv_cached M {| wb_reads := n |}).
    eapply (winv_more M (granted t) s _ x); [done|done|done|by left|]. intros l' Hin. exists x, code, body, ttl. auto. }
  destruct r as [code [body|e| |]|code [body|e| |]|e] eqn:Er; cbn; try (rewrite <- Hc; by split);
    (destruct (read_token why code body) as [[t ttl]|e| |] eqn:Et; cbn; try (rewrite <- Hc; by split);
     rewrite <- Hc; assert (gave x code body) as Hgave by (first [by left|by right]);
     split; [eapply winv_less; [|by eapply H2]; by intros ? []|by eapply H2]).
Qed.

Lemma bearer_triple M : lasting M → T M (bearer instant why) granted.
Proof.
  intros HL s Hs. unfold bearer, sr_get, mbind, sr_bind. pose proof Hs as (l & c & Hl & Ho & HM & Hc & Hg).
  rewrite Hc. cbn. destruct c as [[t d]|]; [|by apply fetch_triple]. cbn.
  set (s1 := {| wb_world := log s; wb_tokens := _; wb_reads := _ |}).
  assert (WInv (knows M (granted t)) s1) as H1.
  { exists l, (Some (t, d)). cbn. rewrite <- Hc. do 2 (split; [done|]). split; [|split; [done|exact Hg]].
    split; [done|by eapply Hg]. }
  assert (WInv M s1) as H0 by (eapply winv_less; [|exact H1]; by intros ? []).
  destruct (_ <? _); [by split|by apply fetch_triple].
Qed.

Lemma get_triple M t u : lasting M → (∀ l, M l → granted t l ∧ a_place u l) →
  T M (get_with t u) (λ cb, got (fst cb) (snd cb)).
Proof.
  intros HL Hok s Hs. unfold get_with, web, http_request. cbn. set (r := answers _ _ _ _ _).
  set (x := {| ex_method := "GET"; ex_reply := r |}).
  assert (∀ l, M l → may_ask l x) as Hx.
  { intros l Hl. destruct (Hok l Hl). right. by exists t. }
  assert (∀ M' : Known, (∀ l, x ∈ l → M' l) → WInv (knows M M')
    {| wb_world := (log s ++ [x])%list; wb_tokens := wb_tokens s; wb_reads := wb_reads s |}) as H1
    by (intros M' HM'; by eapply (winv_more M M' s _ x)).
  assert (WInv M {| wb_world := (log s ++ [x])%list; wb_tokens := wb_tokens s; wb_reads := wb_reads s |}) as H0
    by (eapply winv_less; [|by apply (H1 (λ _, True))]; by intros ? []).
  destruct r as [code b|code b|e] eqn:Er; cbn; [..|by split]; (split; [done|]; destruct b as [b|e| |]; cbn; try done);
    apply H1; intros l Hl; exists x; (split; [done|]; split; [done|]); first [by left|by right].
Qed.

Lemma triple_inv {S E A} (I I' P : S → Prop) (m : sr S E A) Q : (∀ s, I s → I' s) → triple I P m Q → triple I' P m Q.
Proof. intros HI H s Hs. destruct (H s Hs). split; [by apply HI|done]. Qed.

Lemma authed_triple M u : lasting M → (∀ l, M l → a_place u l) →
  T M (authed_get instant why u) (λ cb, got (fst cb) (snd cb)).
Proof.
  intros HL Hu. assert (∀ t, T (knows M (granted t)) (get_with t u) (λ cb, got (fst cb) (snd cb))) as Hget.
  { intros t. apply get_triple; [auto|]. intros l [HM Hg]. auto. }
  assert (∀ t, triple (WInv M) (WInv (knows M (granted t))) (get_with t u) (λ cb, WInv (knows M (got (fst cb) (snd cb))))) as Hget'.
  { intros t. eapply triple_inv; [|eapply triple_weaken; [apply Hget|done|]].
    - intros s. apply winv_less. by intros l [].
    - intros cb s. apply winv_less. by intros l [[] ?]. }
  eapply triple_bind; [by apply bearer_triple|]. intros t. cbn beta.
  eapply triple_bind; [apply Hget'|]. intros [code body]. cbn beta iota. destruct (_ =? _).
  - eapply triple_bind with (Q := λ _, WInv M).
    { apply triple_mod. intros s (l & c & Hl & Ho & [HM _] & Hc & _).
      assert (WInv M (set_cached None s)); [|done]. exists l, None. unfold set_cached. by rewrite Hc. }
    intros []. eapply triple_bind; [by apply bearer_triple|]. intros t'. apply Hget'.
  - apply triple_ret. intros s Hs. split; [|exact Hs]. eapply winv_less; [|exact Hs]. by intros l [].
Qed.

(** *** The driver around it *)

Context {N : Type} {NET : Net N}.
Context (name subject : string) (max_pages : nat) (secs : nat → Z) (alive : nat → bool).
Notation Src := (Src N Web).
Definition SInv (M : Known) (s : Src) : Prop := WInv M (sc_world s).
Notation k M := (keeps (SInv M)).

Lemma call_keeps {A} M (m : sr Web string A) Q : T M m Q → k M (src_call m).
Proof. intros Hm s Hs. destruct (Hm _ Hs) as [Hi _]. unfold src_call. by destruct (m (sc_world s)). Qed.
Lemma asked_keeps M : k M (src_alive alive).
Proof. by intros s Hs. Qed.
Lemma secs_keeps M : k M (src_secs secs).
Proof. by intros s Hs. Qed.
Lemma published_keeps M b : k M (published name subject secs b).
Proof. by intros s Hs. Qed.
Lemma failed_keeps M e : k M (failed name subject secs e).
Proof. by intros s Hs. Qed.
Lemma publish_keeps M b : k M (src_publish subject b).
Proof. intros s Hs. unfold src_publish. by destruct (net_store _ _ _). Qed.
Lemma traced_keeps M f : k M (sr_mod (λ s, src_traces (f s) s) : sr Src string ()).
Proof. by intros s Hs. Qed.
Lemma fail_keeps M A (e : string) : k M (sr_fail e : sr Src string A).
Proof. by intros s Hs. Qed.
Lemma authed_keeps M u : lasting M → (∀ l, M l → a_place u l) → k M (src_call (authed_get instant why u)).
Proof. intros HL Hu. by eapply call_keeps, authed_triple. Qed.
Lemma bearer_keeps M : lasting M → k M (src_call (bearer instant why)).
Proof. intros HL. by eapply call_keeps, bearer_triple. Qed.
Hint Resolve asked_keeps secs_keeps published_keeps failed_keeps publish_keeps traced_keeps fail_keeps authed_keeps bearer_keeps : keeps.

(** A page that was asked for, and the answer looked into. *)
Lemma page_triple M u : lasting M → (∀ l, M l → a_place u l) →
  triple (SInv M) (SInv M) (sr_out (src_call (authed_get instant why u)))
    (λ r s, match r with Ok cb => SInv (knows M (got (fst cb) (snd cb))) s | _ => SInv M s end).
Proof.
  intros HL Hu s Hs. destruct (authed_triple M u HL Hu _ Hs) as [Hi Hq]. unfold sr_out, src_call.
  destruct (authed_get instant why u (sc_world s)) as [[cb|e| |] w]; cbn in *; by split.
Qed.

(** What is made of a page names the same next one. *)
Definition enriches (enrich : Value → sr Src string (option Value)) : Prop := ∀ M v, lasting M →
  triple (SInv M) (SInv M) (enrich v)
    (λ p s, SInv M s ∧ ∀ page, p = Some page → next_url base page next_field = next_url base v next_field).

Lemma keeps_post {S E A} (I : S → Prop) (m : sr S E A) : keeps I m → triple I I m (λ _, I).
Proof. intros H s Hs. specialize (H s Hs). split; [done|]. by destruct (m s) as [[] ?]. Qed.

Lemma page_keeps enrich label : enriches enrich → ∀ n M u, lasting M → (∀ l, M l → a_place u l) →
  k M (page_loop instant why name subject base next_field secs alive enrich label n u).
Proof.
  intros He n. induction n as [|n IH]; intros M u HL Hu; cbn [page_loop]; [apply keeps_ret|].
  apply keeps_bind; [apply asked_keeps|]. intros [|]; cbn [negb]; [|apply keeps_ret].
  eapply keeps_triple, triple_bind; [by apply page_triple|].
  assert (∀ A (m : sr Src string A), k M m → triple (SInv M) (SInv M) m (λ _, SInv M)) as Hk
    by (intros; by apply keeps_post).
  intros [[code body]|e| |]; cbn [fst snd]; [|apply Hk; keeps_walk; auto with keeps..].
  set (M' := knows M (got code body)).
  assert (∀ s, SInv M' s → SInv M s) as Hless by (intros s; apply winv_less; by intros l []).
  assert (lasting M') as HL' by (unfold M'; auto).
  assert (∀ A (m : sr Src string A), k M' m → triple (SInv M) (SInv M') m (λ _, SInv M)) as Hk'.
  { intros A m Hm. eapply triple_inv; [exact Hless|]. eapply triple_weaken; [by apply keeps_post|done|]. auto. }
  destruct (success code) eqn:Es; [|apply Hk'; keeps_walk; auto with keeps].
  destruct (from_json body) as [parsed|] eqn:Ej; [|apply Hk', keeps_ret].
  eapply triple_inv; [exact Hless|].
  eapply (triple_weaken _ _ (SInv M') _ _ (λ _, SInv M')); [|intros s Hs; exact Hs|intros ? s; apply Hless].
  eapply triple_bind; [by apply (He M')|]. intros [page|].
  2: { apply triple_ret. by intros s [Hs _]. }
  intros s [Hs Hnext]. specialize (Hnext page eq_refl). revert s Hs. apply keeps_post.
  apply keeps_bind; [unfold publish_page; keeps_walk; auto with keeps|]. intros [].
  destruct (next_url base page next_field) as [next|] eqn:En; [|apply keeps_ret].
  apply IH; [done|]. intros l [_ Hgot]. right. exists code, body, parsed. auto.
Qed.

Lemma items_keeps M x items : lasting M → x ∈ expands → k M (enrich_items instant why base alive x items).
Proof.
  intros HL Hx. induction items as [|i items IH]; cbn [enrich_items]; unfold enrich_item, fetch_detail;
    keeps_walk; auto with keeps.
  all: apply keeps_out, authed_keeps; [done|]; intros ? _; left; right; exists x; (split; [done|]); right; by eexists.
Qed.
Lemma enrich_enriches x : x ∈ expands → enriches (enrich_page instant why base alive x).
Proof.
  intros Hx M v HL. unfold enrich_page.
  assert (triple (SInv M) (SInv M) (mret (Some v) : sr Src string (option Value))
    (λ p s, SInv M s ∧ ∀ page, p = Some page → next_url base page next_field = next_url base v next_field)) as Hsame.
  { apply triple_ret. intros s Hs. split; [done|]. split; [done|]. by intros page [= <-]. }
  destruct v as [| | | | |o]; try exact Hsame.
  destruct (vget (x_list_field x) (VObject o) ≫= as_array) as [items|] eqn:Ei; [|exact Hsame].
  eapply triple_bind; [by eapply keeps_post, items_keeps|]. intros items'. apply triple_ret. intros s Hs.
  split; [done|]. split; [done|]. destruct items' as [items'|]; cbn; [|done]. intros page [= <-].
  unfold next_url, vget in *. cbn in Ei |- *. rewrite map_get_insert.
  destruct (String.eqb_spec next_field (x_list_field x)) as [->|]; [|done].
  destruct (map_get (x_list_field x) o) as [[]|]; done.
Qed.

Lemma all_keeps {A} M (f : A → sr Src string bool) l : (∀ x, x ∈ l → k M (f x)) → k M (until_stopped f l).
Proof.
  induction l as [|x l IH]; intros Hf; cbn [until_stopped]; [apply keeps_ret|]. apply keeps_bind; [apply Hf; by left|].
  intros [|]; [|apply keeps_ret]. apply IH. intros y Hy. apply Hf. by right.
Qed.

Notation always := (λ _ : list Exchange, True).
Lemma tick_keeps : k always (poll_tick instant why name subject base next_field max_pages secs alive endpoints expands).
Proof.
  unfold poll_tick. keeps_walk; auto with keeps.
  - apply all_keeps. intros ep Hep. apply page_keeps; [|done|intros l _; left; left; by exists ep].
    intros M v HL. apply triple_ret. intros s Hs. split; [done|]. split; [done|]. by intros page [= <-].
  - apply all_keeps. intros x Hx. apply page_keeps; [by apply enrich_enriches|done|].
    intros l _. left. right. exists x. split; [done|by left].
Qed.

Lemma loop_keeps tick n interval : k always tick → ∀ waited, k always (poll_loop alive n interval waited tick).
Proof. intros Ht. induction n as [|n IH]; intros waited; cbn [poll_loop]; keeps_walk; auto with keeps. Qed.
End Confined.


(** *** An example: the first token is refused, and the page points elsewhere. *)

Definition server (log : list Exchange) (method url : string) (headers : list (string * string)) (body : option string)
  : Reply :=
  if String.eqb method "POST" then
    Response 200 (Ok (to_json (obj [("access_token", VString ("t" ++ dec_of_Z (Z.of_nat (length log)))); ("expires_in", vint 3600)])))
  else if existsb (λ h, String.eqb (snd h) "Bearer t0") headers then StatusError 401 (Ok "")
  else if String.eqb url "http://a/x" then
    Response 200 (Ok (to_json (obj [("next", VString "http://b/y")])))
  else Response 200 (Ok (to_json (obj [])))
.
Definition poll_config : Config :=
  [("TOKEN_URL", VString "http://t"); ("CLIENT_ID", VString "me"); ("CLIENT_SECRET", VString "s p");
   ("BASE_URL", VString "http://a/"); ("ENDPOINTS", VArray [VString "x"]); ("SUBJECT", VString "in.x");
   ("NEXT_LINK_FIELD", VString "next")].
Definition no_tokens : TokenCache :=
  {| token_url := ""; client_id := ""; client_secret := ""; scope := ""; cached := None |}.
Definition poll_start : Src SimNet (Web (list Exchange)) :=
  {| sc_net := sim_start; sc_traces := no_traces; sc_asked := 0;
     sc_world := {| wb_world := []; wb_tokens := no_tokens; wb_reads := 0 |} |}.
Definition poll_end : Src SimNet (Web (list Exchange)) :=
  snd (@oauth_run _ _ (ledger server) _ _ (λ _, 0) (λ _, "") "oauth:x" "vx" (λ _, 0) (λ _, true) 3 poll_config poll_start).

Example poll_end_log :
  map (λ x, (ex_method x, ex_url x, ex_headers x)) (wb_world (sc_world poll_end)) =
  [("POST", "http://t", form_headers); ("GET", "http://a/x", bearer_headers "t0");
   ("POST", "http://t", form_headers); ("GET", "http://a/x", bearer_headers "t2");
   ("GET", "http://b/y", bearer_headers "t2")] ∧
  length (stored (sc_net poll_end)) = 2%nat.
Proof. vm_compute. repeat split. Qed.

