(* ===== verification/Bridges.v ===== *)
(** * Bridges

    The drivers between the bus and a peer that answers
    (core/src/connectors.rs): [mqtt-in] and [mqtt-out] over the client of
    core/src/mqtt.rs, and [exec-rpc], which serves requests with a child
    process, a line in and a line out.  Opening a connection and the child are
    arguments; the loops are followed for a number of turns. *)

From stdpp Require Import base gmap list strings.
From Stdlib Require Import ZArith NArith Lia Ascii.
From S2P Require Import Prelude Triples Text F64 Json Bus Traces FlowProps Mqtt Connect HttpIn Sinks Sources OAuth Concrete.
Open Scope string_scope.
Open Scope Z_scope.

(** ** MQTT *)

Section Sessions.
Context {T : Type} {ST : Stream T} {W : Type}.
(** Opening a transport to the broker, the clock of the client, how its errors
    are worded, and a bound on the packets it waits through. *)
Context (transport : sr W string T) (clock : N) (wording : merr → string) (patience : nat).

Record Session : Type := { se_world : W; se_client : option (Client T) }.
Notation R := (sr Session string).

(** core/src/connectors.rs [mqtt_connect] *)
Definition mqtt_connect (id : string) (clean : bool) (user pass : option string) (keepalive : N) : R () := λ s,
  let '(r, w) := transport (se_world s) in
  match r with
  | Ok t =>
    match Mqtt.connect patience clock id clean user pass (Mqtt.new t keepalive clock) with
    | (Ok _, c) => (Ok (), {| se_world := w; se_client := Some c |})
    | (Err e, _) => (Err (wording e), {| se_world := w; se_client := None |})
    | (Panic, _) => (Panic, {| se_world := w; se_client := None |})
    | (NoFuel, _) => (NoFuel, {| se_world := w; se_client := None |})
    end
  | Err e => (Err e, {| se_world := w; se_client := None |})
  | Panic => (Panic, {| se_world := w; se_client := None |})
  | NoFuel => (NoFuel, {| se_world := w; se_client := None |})
  end.

(** An operation of the client; without one, the [unwrap] panics. *)
Definition on_client {A} (m : sr (Client T) merr A) : R A := λ s,
  match se_client s with
  | None => (Panic, s)
  | Some c =>
    let '(r, c) := m c in
    (match r with Ok a => Ok a | Err e => Err (wording e) | Panic => Panic | NoFuel => NoFuel end,
     {| se_world := se_world s; se_client := Some c |})
  end.
Definition drop_client : R () := sr_mod (λ s, {| se_world := se_world s; se_client := None |}).

(** core/src/connectors.rs:2010-2020 [MqttOut::run] *)
Fixpoint await_puback (fuel : nat) (want : N) : R () :=
  match fuel with
  | O => sr_lift NoFuel
  | S fuel =>
    p ← on_client read_packet;
    match p with
    | Some (PubAck pid) => if (pid =? want)%N then mret () else await_puback fuel want
    | Some _ => await_puback fuel want
    | None => sr_fail "timed out waiting for PUBACK"
    end
  end.

(** core/src/connectors.rs:2006-2022 [MqttOut::run] *)
Definition publish_and_wait (topic data : string) (qos : N) : R () :=
  pid ← on_client (Mqtt.publish clock topic data qos);
  match pid with
  | Some want => await_puback patience want
  | None => mret ()
  end.

(** core/src/connectors.rs:1997-2026 [MqttOut::run] *)
Definition mqtt_out_handler (id topic : string) (user pass : option string) (keepalive qos : N) (data : string)
  : R (option string) :=
  s ← sr_get;
  _ ← (match se_client s with
       | None => mqtt_connect id true user pass keepalive
       | Some _ => mret ()
       end);
  r ← sr_out (publish_and_wait topic data qos);
  match r with
  | Ok _ => mret None
  | Err e => _ ← drop_client; sr_fail e
  | Panic => sr_lift Panic
  | NoFuel => sr_lift NoFuel
  end.

(** ** From the broker *)

Section In.
Context {SD : Serde} {N : Type} {NET : Net N}.
Context (name subject : string) (secs : nat → Z) (alive : nat → bool).
Notation Src := (Src N Session).
Notation P := (sr Src string).

(** core/src/connectors.rs:1938-1954 [MqttIn::run] *)
Definition mqtt_turn : P () :=
  p ← src_call (on_client read_packet);
  match p with
  | Some (Mqtt.Publish _ payload pq pid) =>
    r ← sr_out (src_publish subject payload);
    match r with
    | Ok _ =>
      _ ← published name subject secs payload;
      if (0 <? pq)%N then src_call (on_client (puback clock pid)) else mret ()
    | Err e => sr_fail ("bus publish: " ++ e)
    | Panic => sr_lift Panic
    | NoFuel => sr_lift NoFuel
    end
  | Some _ => mret ()
  | None => src_call (on_client (keepalive_tick clock))
  end.

(** One session, for [n] turns; [true] when it still goes on. *)
(** core/src/connectors.rs:1937-1957 [MqttIn::run] *)
Fixpoint mqtt_serve (n : nat) : P bool :=
  match n with
  | O => mret true
  | S n =>
    go ← src_alive alive;
    if (go : bool) then _ ← mqtt_turn; mqtt_serve n
    else _ ← src_call (on_client (disconnect clock)); mret false
  end.

(** core/src/connectors.rs:1931-1958 [MqttIn::run] *)
Definition mqtt_attempt (n : nat) (id topic : string) (qos : BinNums.N) (user pass : option string)
  (keepalive : BinNums.N) : P bool :=
  _ ← src_call (mqtt_connect id false user pass keepalive);
  _ ← src_call (on_client (subscribe patience clock topic qos));
  mqtt_serve n.

(** The waits of 200 ms before the next attempt. *)
Fixpoint src_nap (n : nat) : P () :=
  match n with
  | O => mret ()
  | S n => go ← src_alive alive; if (go : bool) then src_nap n else mret ()
  end.

(** The attempts, each followed for a number of turns. *)
(** core/src/connectors.rs:1930-1972 [MqttIn::run] *)
Fixpoint mqtt_attempts (ns : list nat) (id topic : string) (qos : BinNums.N) (user pass : option string)
  (keepalive : BinNums.N) : P bool :=
  match ns with
  | [] => mret true
  | n :: ns =>
    go ← src_alive alive;
    if (go : bool) then
      r ← sr_out (mqtt_attempt n id topic qos user pass keepalive);
      match r with
      | Ok more => mret more
      | Err e =>
        _ ← failed name subject secs e;
        _ ← src_nap 10;
        mqtt_attempts ns id topic qos user pass keepalive
      | Panic => sr_lift Panic
      | NoFuel => sr_lift NoFuel
      end
    else mret false
  end.
End In.
End Sessions.
Arguments Session T W : clear implicits.

(** core/src/connectors.rs [mqtt_client_id] *)
Definition mqtt_client_id (config : Config) (name : string) : string :=
  match cfg_str config "CLIENT_ID" with
  | Some id => id
  | None => "vejas-" ++ map_chars (λ c s, if (c =? 58)%N || (c =? 46)%N then "-" else s) name
  end.
(** core/src/connectors.rs:1922-1923 [MqttIn::run] *)
Definition mqtt_qos (config : Config) : N := Z.to_N (Z.min 1 (cfg_u64_or config "QOS" 1)).
Definition mqtt_keepalive (config : Config) : N := Z.to_N (wrap 16 (cfg_u64_or config "KEEPALIVE_SECS" 30)).

(** core/src/connectors.rs [MqttIn::run] *)
Definition mqtt_in_run `{SD : Serde} {N} `{NET : Net N} {T} `{ST : Stream T} {W}
  (dial : string → bool → sr W string T) clock wording patience name subj_root secs alive (ns : list nat)
  (config : Config) : sr (Src N (Session T W)) string bool :=
  broker ← sr_lift (required config "BROKER");
  topic ← sr_lift (required config "TOPIC");
  subject ← sr_lift (required config "SUBJECT");
  mqtt_attempts (dial broker (cfg_bool config "TLS")) clock wording patience name (full_subject subj_root subject)
    secs alive ns (mqtt_client_id config name) topic (mqtt_qos config) (cfg_str config "USERNAME")
    (cfg_str config "PASSWORD") (mqtt_keepalive config).

(** core/src/connectors.rs [MqttOut::run] *)
Definition mqtt_out_run `{SD : Serde} {N} `{NET : Net N} {T} `{ST : Stream T} {W}
  (dial : string → bool → sr W string T) clock wording patience env name subj_root now took times spawns alive open
  (config : Config) : sr (Sink N (Session T W)) string bool :=
  broker ← sr_lift (required config "BROKER");
  topic ← sr_lift (required config "TOPIC");
  subject ← sr_lift (required config "SUBJECT");
  run_sink env name (full_subject subj_root subject)
    (mqtt_out_handler (dial broker (cfg_bool config "TLS")) clock wording patience (mqtt_client_id config name)
       topic (cfg_str config "USERNAME") (cfg_str config "PASSWORD") (mqtt_keepalive config) (mqtt_qos config))
    now took times spawns alive open.

(** ** Requests to a child *)

Section Rpc.
Context {SD : Serde} {N : Type} {NET : Net N} {C : Type}.
(** The child's input, [false] when it is closed; the next line of its output,
    nothing when that is closed; its exit code once it has ended. *)
Context (write : string → C → bool * C) (read_line : C → res string string * C)
  (ended : C → option (option Z)).
Context (name subject : string) (now : Z) (alive : nat → bool).

Record Rpc : Type := { rp_link : Link N; rp_traces : Traces; rp_child : C; rp_asked : nat }.
Notation R := (sr Rpc string).

(** core/src/connectors.rs:2087-2103 [ExecRpc::run] *)
Definition rpc_request (m : Message) : R () := λ s,
  let '(written, c) := write (data m ++ newline) (rp_child s) in
  let s := {| rp_link := rp_link s; rp_traces := rp_traces s; rp_child := c; rp_asked := rp_asked s |} in
  if negb written then (Err "child stdin closed", s)
  else
    let '(r, c) := read_line (rp_child s) in
    let s := {| rp_link := rp_link s; rp_traces := rp_traces s; rp_child := c; rp_asked := rp_asked s |} in
    match r with
    | Ok line =>
      if String.eqb line "" then (Err "child stdout closed", s)
      else
        let payload := trim line in
        (Ok (), {| rp_link := snd (respond payload m (rp_link s));
                   rp_traces := trace_pub now name subject payload (rp_traces s);
                   rp_child := c; rp_asked := rp_asked s |})
    | Err e => (Err e, s)
    | Panic => (Panic, s)
    | NoFuel => (NoFuel, s)
    end.

(** What the subscription gives at each turn: a request, or nothing in time. *)
(** core/src/connectors.rs:2080-2113 [ExecRpc::run] *)
Fixpoint rpc_loop (turns : list (option Message)) : R bool :=
  match turns with
  | [] => mret true
  | t :: turns =>
    go ← (λ s, (Ok (alive (rp_asked s)),
                {| rp_link := rp_link s; rp_traces := rp_traces s; rp_child := rp_child s;
                   rp_asked := S (rp_asked s) |}));
    if (go : bool) then
      match t with
      | Some m => _ ← rpc_request m; rpc_loop turns
      | None =>
        s ← sr_get;
        match ended (rp_child s) with
        | Some code => sr_fail ("child exited: " ++ show_code code)
        | None => rpc_loop turns
        end
      end
    else mret false
  end.

(** core/src/connectors.rs:2044-2053 [ExecRpc::run] *)
Definition rpc_subject_of (subj_root : string) (config : Config) : res string string :=
  subject ← required config "REQUEST_SUBJECT";
  if starts_with subject (subj_root ++ ".") then
    Err ("REQUEST_SUBJECT must not be under " ++ subj_root ++ ".* (JetStream-captured); use e.g. vxrpc.sap")
  else Ok subject.

(** The child's first line says that it is ready. *)
(** core/src/connectors.rs [ExecRpc::run] *)
Definition rpc_run (spawn : string → list (string * string) → res string C) (subscribed : res string ())
  (subj_root : string) (config : Config) (turns : list (option Message)) : R bool :=
  cmd ← sr_lift (required config "CMD");
  _ ← sr_lift (rpc_subject_of subj_root config);
  child ← sr_lift (spawn cmd (cfg_env_vars config));
  let '(ready, child) := read_line child in
  _ ← sr_lift ready;
  _ ← sr_lift subscribed;
  _ ← sr_mod (λ s, {| rp_link := rp_link s; rp_traces := rp_traces s; rp_child := child; rp_asked := rp_asked s |});
  rpc_loop turns.

(** core/src/connectors.rs [ExecRpc::probe] *)
Definition probe_rpc (spawn : string → res string C) (closed : string) (why : string → string) (config : Config) : res string string :=
  cmd ← required config "CMD";
  c ← spawn cmd;
  let '(ready, c) := read_line c in
  _ ← ready;
  let '(written, c) := write (quoted "{~op~:~ping~}" ++ newline) c in
  if negb written then Err closed
  else
    let '(line, _) := read_line c in
    line ← line;
    v ← ok_or (from_json (trim line)) (why line);
    if default false (vget "ok" v ≫= as_bool) then Ok ("ping ok — " ++ trim line)
    else Err ("ping failed: " ++ trim line).
End Rpc.
Arguments Rpc N C : clear implicits.

(** ** The broker is answered after the bus *)

(** Reading writes nothing. *)
Class ReadsSilent (T : Type) `{StreamLaws T} := {
  rd_one_silent s : outbound (snd (rd_one s)) = outbound s;
  rd_exact_silent n s : outbound (snd (rd_exact n s)) = outbound s
}.
#[export] Instance fake_silent : ReadsSilent Fake.
Proof. split; [intros s; cbn; by destruct (fk_in s)|intros n s; cbn; by destruct (Nat.leb _ _)]. Qed.

Section Silent.
Context {T : Type} {ST : Stream T} {SL : StreamLaws T} {RS : ReadsSilent T}.
Notation sent_by c := (outbound (stream c)).

Lemma read_exact_silent n (c : Client T) : sent_by (snd (read_exact n c)) = sent_by c.
Proof.
  unfold read_exact. pose proof (rd_exact_silent n (stream c)) as H. by destruct (rd_exact n (stream c)).
Qed.
Lemma read_len_silent rounds : ∀ mult value (c : Client T), sent_by (snd (read_len rounds mult value c)) = sent_by c.
Proof.
  induction rounds as [|n IH]; intros mult value c; [done|]. cbn [read_len]. unfold mbind, sr_bind.
  pose proof (read_exact_silent 1 c) as H. destruct (read_exact 1 c) as [[b|e| |] c1]; try done.
  cbn in H. destruct (_ =? _)%N; [done|]. by rewrite IH.
Qed.
Lemma read_packet_silent (c : Client T) : sent_by (snd (read_packet c)) = sent_by c.
Proof.
  unfold read_packet. pose proof (rd_one_silent (stream c)) as H. destruct (rd_one (stream c)) as [[|b| |e] t]; try done.
  cbn in H. unfold mbind, sr_bind, read_remaining_len.
  pose proof (read_len_silent 4 1 0 (set_stream t c)) as Hl.
  assert (sent_by (set_stream t c) = sent_by c) as Ht by exact H. rewrite Ht in Hl.
  destruct (read_len _ _ _ _) as [[n|e| |] c1]; try exact Hl.
  pose proof (read_exact_silent (N.to_nat n) c1) as Hx.
  destruct (read_exact _ c1) as [[b'|e| |] c2]; (etransitivity; [exact Hx|exact Hl]).
Qed.

Context {N : Type} {NET : Net N} {NL : NetLaws N} {SD : Serde} {W : Type}.
Context (clock : BinNums.N) (wording : merr → string) (name subject : string) (secs : nat → Z) (alive : nat → bool).
Notation Src := (Src N (Session T W)).

(** The states of a client on its way: it reads packets and sends frames. *)
Inductive came (c : Client T) : Client T → Prop :=
| came_here : came c c
| came_read c1 : came c c1 → came c (snd (read_packet c1))
| came_sent c1 f : came c c1 → came c (snd (send clock f c1)).

(** A frame that may leave while the driver serves: an acknowledgement is of a
    packet that this session read. *)
Definition fair_frame (c0 : Client T) (n : N) (f : string) : Prop :=
  f = frame PINGREQ 0 "" ∨ f = frame DISCONNECT 0 "" ∨
  ∃ pid topic payload q (c1 c2 : Client T), f = frame PUBACK 0 (be16 pid) ∧ came c0 c1 ∧
    read_packet c1 = (Ok (Some (Mqtt.Publish topic payload q pid)), c2) ∧ (0 < q)%N ∧ (subject, payload) ∈ stored n.

(** What has left: whole frames, and perhaps a piece of one more when a write
    failed. *)
Context (c0 : Client T).
Definition whole (s : Src) : Prop :=
  ∃ c fs, se_client (sc_world s) = Some c ∧ came c0 c ∧ sent_by c = sent_by c0 ++ concat_strs fs ∧
    Forall (fair_frame c0 (sc_net s)) fs.
Definition cut (s : Src) : Prop :=
  ∃ c fs p q, se_client (sc_world s) = Some c ∧ sent_by c = sent_by c0 ++ concat_strs fs ++ p ∧
    Forall (fair_frame c0 (sc_net s)) fs ∧ (p = "" ∨ fair_frame c0 (sc_net s) (p ++ q)).

Lemma whole_cut s : whole s → cut s.
Proof. intros (c & fs & Hc & _ & Ho & Hf). exists c, fs, "", "". rewrite app_nil_str. auto. Qed.

Lemma fair_later n n' f : later n n' → fair_frame c0 n f → fair_frame c0 n' f.
Proof.
  intros (_ & _ & Hs) [?|[?|(p & t & pl & q & c1 & c2 & ? & ? & ? & ? & Hin)]]; [by left|by right; left|].
  right. right. exists p, t, pl, q, c1, c2. auto 6.
Qed.

(** A client operation that sends one frame, or nothing, or a piece of one and
    fails. *)
Definition sends {A} (m : sr (Client T) merr A) (f : string) : Prop :=
  ∀ c, came c0 c → match m c with
    | (Ok _, c') => came c0 c' ∧ (sent_by c' = sent_by c ∨ sent_by c' = sent_by c ++ f)
    | (_, c') => ∃ p q, f = p ++ q ∧ sent_by c' = sent_by c ++ p
    end.

Lemma client_frame {A} (m : sr (Client T) merr A) f : sends m f →
  triple cut (λ s, whole s ∧ fair_frame c0 (sc_net s) f) (src_call (on_client wording m)) (λ _, whole).
Proof.
  intros Hm s [(c & fs & Hc & Hcame & Ho & Hfs) Hf]. unfold src_call, on_client. rewrite Hc. specialize (Hm c Hcame).
  assert (∀ r c', (∃ p q, f = p ++ q ∧ sent_by c' = sent_by c ++ p) → r = Some c' →
    cut {| sc_net := sc_net s; sc_traces := sc_traces s; sc_world := {| se_world := se_world (sc_world s); se_client := r |};
           sc_asked := sc_asked s |}) as Hcut.
  { intros r c' (p & q & -> & E) ->. exists c', fs, p, q. split; [done|].
    split; [by rewrite E, Ho, app_assoc_str|]. split; [done|by right]. }
  destruct (m c) as [[a|e| |] c'] eqn:Em; [|(split; [|done]); by eapply Hcut..].
  destruct Hm as [Hcame' Hm].
  assert (whole {| sc_net := sc_net s; sc_traces := sc_traces s;
    sc_world := {| se_world := se_world (sc_world s); se_client := Some c' |}; sc_asked := sc_asked s |}) as Hw.
  { destruct Hm as [E|E]; [exists c', fs|exists c', (fs ++ [f])%list]; (split; [done|]; split; [done|]; rewrite E).
    - done.
    - rewrite Ho, concat_strs_app. cbn. rewrite app_nil_str, app_assoc_str. split; [done|].
      by apply Forall_app; split; [|constructor]. }
  split; [by apply whole_cut|done].
Qed.

Lemma read_sends f : sends read_packet f.
Proof.
  intros c Hc. pose proof (read_packet_silent c) as H. pose proof (came_read _ _ Hc) as Hr.
  destruct (read_packet c) as [[a|e| |] c']; cbn in H; [by split; [|left]|..]; exists "", f; by rewrite app_nil_str.
Qed.
Lemma send_sends f : sends (send clock f) f.
Proof.
  intros c Hc. pose proof (send_law clock f c) as H. pose proof (came_sent _ _ f Hc) as Hs.
  destruct (send clock f c) as [[[]|e| |] c']; try done. destruct H. split; [done|by right].
Qed.
Lemma tick_sends : sends (keepalive_tick clock) (frame PINGREQ 0 "").
Proof.
  intros c Hc. unfold keepalive_tick, sr_get, mbind, sr_bind. destruct (_ <=? _)%N; [by apply send_sends|].
  cbn. by split; [|left].
Qed.
(** The packet a read gave. *)
Lemma read_call : triple cut whole (src_call (on_client wording read_packet))
  (λ p s, whole s ∧ ∃ c1 c2 : Client T, came c0 c1 ∧ read_packet c1 = (Ok p, c2)).
Proof.
  intros s Hs. destruct (client_frame read_packet _ (read_sends (frame PINGREQ 0 "")) s) as [Hi Hq].
  { split; [done|by left]. }
  split; [done|]. destruct Hs as (c & fs & Hc & Hcame & _). revert Hi Hq. unfold src_call, on_client. rewrite Hc.
  destruct (read_packet c) as [[p|e| |] c'] eqn:Er; cbn; try done. intros _ Hw. split; [done|]. by exists c, c'.
Qed.

(** The bus grows and what it stored is stored. *)
Lemma publish_call payload : triple cut whole (sr_out (src_publish subject payload))
  (λ r s, whole s ∧ match r with Ok _ => (subject, payload) ∈ stored (sc_net s) | _ => True end).
Proof.
  intros s (c & fs & Hc & Hcame & Ho & Hfs). unfold sr_out, src_publish.
  destruct (store_later subject payload (sc_net s)) as (Hl & _ & Hin).
  destruct (net_store subject payload (sc_net s)) as [r n] eqn:En. cbn in Hl, Hin.
  assert (whole (src_net n s)) as Hw.
  { exists c, fs. do 3 (split; [done|]). eapply Forall_impl; [exact Hfs|]. intros f. by apply fair_later. }
  destruct r as [z|e| |]; cbn; (split; [by apply whole_cut|]; split; [exact Hw|]); [by apply Hin|done..].
Qed.

Lemma turn_whole : triple cut whole (mqtt_turn clock wording name subject secs) (λ _, whole).
Proof.
  unfold mqtt_turn. eapply triple_bind; [apply read_call|]. intros p.
  assert (∀ P, (∀ s, P s → whole s) → triple (E := string) cut P (mret ()) (λ _, whole)) as Hret.
  { intros P HP. apply triple_ret. intros s Hs. split; [by apply whole_cut, HP|by apply HP]. }
  destruct p as [[sp code|topic payload q pid|pid|pid code| |pt]|]; try (apply Hret; by intros s [? _]).
  2: { eapply triple_weaken; [apply client_frame, tick_sends| |done]. intros s [Hs _]. split; [done|by left]. }
  intros s [Hs (c1 & c2 & Hcame & Hread)]. revert s Hs.
  eapply (triple_bind cut whole); [apply publish_call|]. intros [z|e| |]; cbn beta iota;
    try (intros s [Hs _]; split; [by apply whole_cut|done]).
  eapply (triple_bind cut _ _ _ (λ _ s, whole s ∧ (subject, payload) ∈ stored (sc_net s))).
  { intros s [Hs Hin]. unfold published, src_secs, sr_mod, mbind, sr_bind. cbv beta iota.
    split; [apply whole_cut|split; [|done]]; exact Hs. }
  intros []. destruct (0 <? q)%N eqn:Eq; [|apply Hret; by intros s [? _]].
  eapply triple_weaken; [apply client_frame, send_sends| |done]. intros s [Hs Hin]. split; [done|].
  right. right. exists pid, topic, payload, q, c1, c2. do 3 (split; [done|]). split; [by apply N.ltb_lt|done].
Qed.

(** The last frame: whether it left is not asked. *)
Lemma disconnect_ends : triple cut whole (src_call (on_client wording (disconnect clock))) (λ _, cut).
Proof.
  intros s (c & fs & Hc & Hcame & Ho & Hfs). unfold src_call, on_client. rewrite Hc.
  unfold disconnect, sr_try, mbind, sr_bind. pose proof (send_law clock (frame DISCONNECT 0 "") c) as H.
  assert (fair_frame c0 (sc_net s) (frame DISCONNECT 0 "")) as Hf by (by right; left).
  destruct (send clock (frame DISCONNECT 0 "") c) as [[[]|e| |] c']; try done.
  - split; exists c', fs, (frame DISCONNECT 0 ""), ""; (split; [done|]; split; [|split; [done|right; by rewrite app_nil_str]]);
      destruct H as [_ H]; cbn; by rewrite H, Ho, app_assoc_str.
  - destruct H as (p & q & E & H). split; exists c', fs, p, q; (split; [done|]; split; [|split; [done|right; by rewrite <- E]]);
      cbn; by rewrite H, Ho, app_assoc_str.
Qed.

Lemma serve_cut n : triple cut whole (mqtt_serve clock wording name subject secs alive n) (λ _, cut).
Proof.
  induction n as [|n IH]; [apply triple_ret; intros s ?%whole_cut; done|]. cbn [mqtt_serve].
  eapply (triple_bind cut whole _ _ (λ _, whole)); [intros s Hs; split; [by apply whole_cut|exact Hs]|]. intros [|].
  - eapply triple_bind; [apply turn_whole|]. by intros [].
  - eapply triple_bind; [apply disconnect_ends|]. intros []. by apply triple_ret.
Qed.
End Silent.

(** C29: the broker is answered after the bus: while [mqtt-in] serves a session,
    over a link that may fail at any write and keep a part of it, all it sends
    to the broker is pings, a last goodbye, and acknowledgements, each of a
    packet that this session read and whose payload the bus has stored; and
    where a write failed, nothing after a piece of one more such frame. *)
Theorem puback_after_store {T : Type} {ST : Stream T} {SL : StreamLaws T} {RS : ReadsSilent T} {N : Type}
  {NET : Net N} {NL : NetLaws N} {SD : Serde} {W : Type} clock wording name subject secs alive n
  (s : Src N (Session T W)) c :
  se_client (sc_world s) = Some c →
  let s' := snd (mqtt_serve clock wording name subject secs alive n s) in
  ∃ c' fs p q, se_client (sc_world s') = Some c' ∧
    outbound (stream c') = outbound (stream c) ++ concat_strs fs ++ p ∧
    Forall (fair_frame (T := T) clock subject c (sc_net s')) fs ∧
    (p = "" ∨ fair_frame (T := T) clock subject c (sc_net s') (p ++ q)).
Proof.
  intros Hc. cbv zeta. apply (serve_cut clock wording name subject secs alive c n s).
  exists c, []. split; [done|]. split; [constructor|]. cbn. by rewrite app_nil_str.
Qed.

(** A session that is opened on a broker which sends what it kept for it: the
    message comes before the acknowledgement of the subscription, and the
    subscription fails. *)
Theorem backlog_blocks_subscribe {T : Type} {ST : Stream T} {SL : StreamLaws T} fuel now filter qos
  topic payload pid rest (c : Client T) :
  (0 < fuel)%nat → (N.of_nat (slen topic) < 65536)%N → valid_utf8 topic = true → (pid < 65536)%N →
  (N.of_nat (slen topic + slen payload) + 4 < max_body)%N →
  inbound (stream c) = frame PUBLISH 2 (be16 (N.of_nat (slen topic)) ++ topic ++ be16 pid ++ payload) ++ rest →
  fst (wr_all (frame SUBSCRIBE 2 (put_str (be16 (next_pid c)) filter ++ one (byte_of qos))) (stream c)) = Ok () →
  fst (subscribe fuel now filter qos c) = Err (Unexpected "SUBACK" (Mqtt.Publish topic payload 1 pid)).
Proof.
  intros Hf Ht Hv Hp Hl Hi Hw. destruct fuel as [|fuel]; [lia|].
  unfold subscribe, Mqtt.pid, mbind, sr_bind. cbv beta iota zeta.
  set (c0 := {| stream := stream c; next_pid := _; keepalive := _; last_out := _ |}).
  set (b := frame SUBSCRIBE 2 _) in *. pose proof (send_law now b c0) as Hi1.
  assert (fst (send now b c0) = Ok ()) as Hsend.
  { unfold send. change (stream c0) with (stream c). by destruct (wr_all b (stream c)) as [[[]|e| |] s']. }
  destruct (send now b c0) as [r c1]. cbn in Hsend. subst r. destruct Hi1 as [Hi1 _].
  cbv iota. cbn [read_packet_blocking]. unfold mbind, sr_bind.
  change (inbound (stream c0)) with (inbound (stream c)) in Hi1. rewrite Hi in Hi1.
  pose proof (read_frame _ _ _ _ _ Hi1) as Hr. cbv zeta in Hr.
  pose proof (parse_publish topic payload 1 pid) as Hparse. cbv beta iota in Hparse.
  change (N.shiftl (N.land 1 3) 1) with 2%N in Hparse. change (0 <? 1)%N with true in Hparse.
  rewrite Hparse in Hr by done.
  destruct (N.ltb_spec (N.of_nat (slen (be16 (N.of_nat (slen topic)) ++ topic ++ be16 pid ++ payload))) max_body)
    as [_|Hge].
  - destruct Hr as (c2 & -> & _). done.
  - exfalso. rewrite !slen_app in Hge. change (slen (be16 (N.of_nat (slen topic)))) with 2%nat in Hge.
    change (slen (be16 pid)) with 2%nat in Hge. lia.
Qed.

(** ** The bus is answered after the broker *)

(** [mqtt-out] says that a message went only when the broker acknowledged the
    very packet it was sent in. *)
Lemma await_acknowledged {T : Type} {ST : Stream T} {W : Type} wording fuel want (s s' : Session T W) :
  await_puback wording fuel want s = (Ok (), s') →
  ∃ c1 c2 : Client T, read_packet c1 = (Ok (Some (PubAck want)), c2).
Proof.
  revert s. induction fuel as [|fuel IH]; intros s; [done|]. cbn [await_puback]. unfold mbind, sr_bind, on_client at 1.
  destruct (se_client s) as [c|]; [|done]. destruct (read_packet c) as [r c'] eqn:E. cbv beta iota.
  destruct r as [[p|]|e| |]; try done. destruct p as [| |pid| | |]; try apply IH.
  destruct (N.eqb_spec pid want) as [->|]; [|apply IH]. intros _. eauto.
Qed.

Theorem mqtt_out_acknowledged {T : Type} {ST : Stream T} {W : Type} (transport : sr W string T) clock wording
  patience id topic user pass keepalive qos data (s s' : Session T W) a :
  (0 < qos)%N →
  mqtt_out_handler transport clock wording patience id topic user pass keepalive qos data s = (Ok a, s') →
  ∃ (c c' : Client T) pid, Mqtt.publish clock topic data qos c = (Ok (Some pid), c') ∧
    ∃ c1 c2 : Client T, read_packet c1 = (Ok (Some (PubAck pid)), c2).
Proof.
  intros Hq. unfold mqtt_out_handler, sr_get, mbind, sr_bind at 1. cbv beta iota. unfold mbind, sr_bind at 1.
  set (m := match se_client s with None => _ | Some _ => _ end). destruct (m s) as [[[]|e| |] s1]; try done.
  unfold sr_out, mbind, sr_bind, publish_and_wait. cbv beta.
  unfold mbind, sr_bind, on_client at 1. destruct (se_client s1) as [c|]; [|done].
  destruct (Mqtt.publish clock topic data qos c) as [[pid|e| |] c'] eqn:Ep; try done. cbv beta iota.
  assert (∃ p, pid = Some p) as [p ->].
  { unfold Mqtt.publish in Ep. apply sr_bind_Ok in Ep as (i & c0 & Hi & Ep).
    apply sr_bind_Ok in Ep as ([] & c1 & Hs & Ep). injection Ep as <- <-.
    apply N.ltb_lt in Hq. rewrite Hq in Hi. cbn in Hi. injection Hi as <- _. eauto. }
  destruct (await_puback _ _ _ _) as [[[]|e| |] s2] eqn:Ea; try done. intros _.
  exists c, c', p. split; [done|]. by eapply await_acknowledged.
Qed.

(** ** Replies in step *)

(** A child that answers each line it is given with a line. *)
Record LineChild : Type := { lc_buf : string; lc_out : list string }.
Section Answering.
Context (f : string → string).

(** What is written is cut into lines; the last piece waits for its end. *)
Definition lc_write (bytes : string) (c : LineChild) : bool * LineChild :=
  let pieces := str_split (lc_buf c ++ bytes) newline in
  (true, {| lc_buf := List.last pieces ""; lc_out := (lc_out c ++ map f (removelast pieces))%list |}).
Definition lc_read (c : LineChild) : res string string * LineChild :=
  match lc_out c with
  | [] => (Ok "", c)
  | l :: out => (Ok (l ++ newline), {| lc_buf := lc_buf c; lc_out := out |})
  end.

Context {SD : Serde} {N : Type} {NET : Net N} {NL : NetLaws N}.
Context (name subject : string) (now : Z) (alive : nat → bool).
Notation Rpc := (Rpc N LineChild).

(** A request of one line, as the splitting sees it. *)
Definition one_line (d : string) : Prop := str_split (d ++ newline) newline = [d; ""].

Definition in_step (ms : list Message) (n0 : N) (s : Rpc) : Prop :=
  rp_child s = {| lc_buf := ""; lc_out := [] |} ∧
  ∃ t, taken (client (rp_link s)) = (taken n0 ++ t)%list ∧
    Forall (λ x, ∃ m, m ∈ ms ∧ reply m = Some (fst (snd x)) ∧ snd (snd x) = trim (f (data m) ++ newline)) t.

Lemma request_in_step ms n0 m : m ∈ ms → one_line (data m) →
  keeps (in_step ms n0) (rpc_request lc_write lc_read name subject now m).
Proof.
  intros Hm Hd s [Hc (t & Ht & Hf)]. unfold rpc_request. rewrite Hc. unfold lc_write. cbn [lc_buf lc_out].
  change ("" ++ data m ++ newline) with (data m ++ newline). rewrite Hd. cbn [removelast map List.last app negb].
  cbn [lc_read rp_child lc_out]. destruct (String.eqb _ "") eqn:E.
  { apply String.eqb_eq in E. by destruct (f (data m)). }
  split; [done|]. cbn. set (l := rp_link s) in *. clearbody l.
  destruct (answer_taken (trim (f (data m) ++ newline)) m l) as (_ & _ & _ & t1 & Ht1 & Hf1).
  exists (t ++ t1)%list. split; [by rewrite app_assoc, <- Ht|]. apply Forall_app. split; [done|].
  eapply Forall_impl; [exact Hf1|]. intros x [Hr Hp]. exists m. done.
Qed.

(** A requester gets the reply to its own request: as long as the child
    gives one line for a line and every request is one line, each answer that
    leaves is what the child said to that very request. *)
Theorem rpc_in_step ended turns (s : Rpc) :
  Forall (λ t, ∀ m, t = Some m → one_line (data m)) turns →
  rp_child s = {| lc_buf := ""; lc_out := [] |} →
  let s' := snd (rpc_loop lc_write lc_read ended name subject now alive turns s) in
  ∃ t, taken (client (rp_link s')) = (taken (client (rp_link s)) ++ t)%list ∧
    Forall (λ x, ∃ m, Some m ∈ turns ∧ reply m = Some (fst (snd x)) ∧ snd (snd x) = trim (f (data m) ++ newline)) t.
Proof.
  intros Hl Hc. cbv zeta. set (ms := omap (λ t, t) turns).
  assert (∀ m, m ∈ ms ↔ Some m ∈ turns) as Hms.
  { intros m. unfold ms. rewrite list_elem_of_omap. split; [by intros (t & Ht & ->)|eauto]. }
  assert (∀ l, (∀ t, t ∈ l → t ∈ turns) →
    keeps (in_step ms (client (rp_link s))) (rpc_loop lc_write lc_read ended name subject now alive l)) as Hk.
  { rewrite Forall_forall in Hl. induction l as [|t l IH]; intros Hin; [apply keeps_ret|]. cbn [rpc_loop].
    apply keeps_bind; [by intros s1 Hs|]. intros [|]; [|apply keeps_ret]. destruct t as [m|].
    - apply keeps_bind; [|intros _; apply IH; intros t Ht; apply Hin; by right].
      apply request_in_step; [apply Hms, Hin; by left|]. by apply (Hl (Some m)); [apply Hin; left|].
    - apply keeps_bind; [by intros s1 Hs|]. intros s1. destruct (ended _); [by intros s2 Hs|].
      apply IH. intros t Ht. apply Hin. by right. }
  destruct (Hk turns (λ t Ht, Ht) s) as [_ (t & Ht & Hf)].
  - split; [done|]. exists []. by rewrite app_nil_r.
  - exists t. split; [done|]. eapply Forall_impl; [exact Hf|]. intros x (m & Hm & H). exists m. by rewrite <- Hms.
Qed.
End Answering.

Section Demo.
Definition shout (l : string) : string := "got " ++ l.
Definition ask (d reply : string) : Message := {| subject := "vxrpc.sap"; data := d; reply := Some reply |}.
Definition rpc_start : Rpc SimNet LineChild :=
  {| rp_link := sim_link; rp_traces := no_traces; rp_child := {| lc_buf := ""; lc_out := [] |}; rp_asked := 0 |}.
Definition rpc_demo (d : string) : list (string * string) :=
  map snd (taken (client (rp_link (snd (rpc_loop (lc_write shout) lc_read (λ _, None) "rpc:sap" "vxrpc.sap" 7
    (λ _, true) [Some (ask d "_IN.a"); None; Some (ask "two" "_IN.b")] rpc_start))))).

Example rpc_demo_in_step : rpc_demo "one" = [("_IN.a", "got one"); ("_IN.b", "got two")].
Proof. vm_compute. reflexivity. Qed.
(** A line break in a request: the second requester gets the rest of the
    first one's answer. *)
Example rpc_demo_out_of_step :
  rpc_demo ("one" ++ newline ++ "more") = [("_IN.a", "got one"); ("_IN.b", "got more")].
Proof. vm_compute. reflexivity. Qed.

Lemma rpc_in_step_witness :
  let turns := [Some (ask "one" "_IN.a"); None; Some (ask "two" "_IN.b")] in
  let s' := snd (rpc_loop (lc_write shout) lc_read (λ _, None) "rpc:sap" "vxrpc.sap" 7 (λ _, true) turns rpc_start) in
  ∃ t, taken (client (rp_link s')) = (taken (client (rp_link rpc_start)) ++ t)%list ∧
    Forall (λ x, ∃ m, Some m ∈ turns ∧ reply m = Some (fst (snd x)) ∧
                      snd (snd x) = trim (shout (data m) ++ newline)) t.
Proof.
  apply (rpc_in_step shout "rpc:sap" "vxrpc.sap" 7 (λ _, true)); [|done].
  repeat (constructor; [by intros m [= <-]|]). constructor.
Defined.

(** A session with a message that waits. *)
Definition waiting_client : Client Fake := idle (frame PUBLISH 2 (be16 1 ++ "t" ++ be16 9 ++ "{}")).
Definition mqtt_start : Src SimNet (Session Fake ()) :=
  {| sc_net := sim_start; sc_traces := no_traces; sc_asked := 0;
     sc_world := {| se_world := ();
       se_client := Some waiting_client |} |}.
Definition mqtt_end : Src SimNet (Session Fake ()) :=
  snd (mqtt_serve 5 (λ _, "error") "mqtt:m" "vx.m" (λ _, 7) (λ _, true) 1 mqtt_start).

Example mqtt_end_acks :
  option_map (λ c, fk_out (stream c)) (se_client (sc_world mqtt_end)) = Some (frame PUBACK 0 (be16 9)) ∧
  stored (sc_net mqtt_end) = [("vx.m", "{}")].
Proof. vm_compute. split; reflexivity. Qed.

Lemma puback_after_store_witness :
  ∃ c' fs p q, se_client (sc_world mqtt_end) = Some c' ∧
    outbound (stream c') = outbound (stream waiting_client) ++ concat_strs fs ++ p ∧
    Forall (fair_frame (T := Fake) 5 "vx.m" waiting_client (sc_net mqtt_end)) fs ∧
    (p = "" ∨ fair_frame (T := Fake) 5 "vx.m" waiting_client (sc_net mqtt_end) (p ++ q)).
Proof.
  apply (puback_after_store 5 (λ _, "error") "mqtt:m" "vx.m" (λ _, 7) (λ _, true) 1 mqtt_start
    waiting_client). reflexivity.
Defined.

Lemma backlog_blocks_subscribe_witness :
  fst (subscribe 1 5 "t" 1 (idle (frame PUBLISH 2 (be16 1 ++ "t" ++ be16 9 ++ "{}") ++ ""))) =
  Err (Unexpected "SUBACK" (Mqtt.Publish "t" "{}" 1 9)).
Proof. apply (backlog_blocks_subscribe 1 5 "t" 1 "t" "{}" 9 ""); by vm_compute || lia. Defined.
End Demo.
