(* ===== verification/IbmMq.v ===== *)
(** * The IBM MQ bridge

    The process that carries messages between an IBM MQ queue and the bus
    (connectors/mq/src): its configuration, the seam [Broker] with its unit of
    work, and the two loops over it (main.rs).  A loop is followed for a number
    of turns; what it finds when it asks whether it may go on is a function of
    how often it asked.  [Mqi] has the implementation of the seam. *)

From stdpp Require Import base gmap list strings.
From Stdlib Require Import ZArith Lia Ascii.
From S2P Require Import Prelude Triples Text F64 Json Bus Versions FlowProps Concrete.
Open Scope string_scope.
Open Scope Z_scope.

(** ** Configuration *)

(** An empty variable is as good as none. *)
(** connectors/mq/src/main.rs [env] *)
Definition env_set (env : string → option string) (key : string) : option string :=
  match env key with Some v => if String.eqb v "" then None else Some v | None => None end.

(** connectors/mq/src/main.rs [env_or] *)
Definition env_set_or (env : string → option string) (key d : string) : string := default d (env_set env key).

(** connectors/mq/src/main.rs [Config] *)
Record MqConfig : Type := {
  mc_mode : string; mc_qmgr : string; mc_queue : string; mc_nats_url : string; mc_subject : string;
  mc_durable : string; mc_wait : Z; mc_dedup_field : option string; mc_competing : bool
}.

(** connectors/mq/src/main.rs [load_config] *)
Definition load_config (env : string → option string) : res string MqConfig :=
  mode ← ok_or (env_set env "VEJAS_MQ_MODE") "VEJAS_MQ_MODE must be source or sink";
  if negb (String.eqb mode "source") && negb (String.eqb mode "sink") then
    Err ("VEJAS_MQ_MODE=" ++ mode ++ " — must be source or sink")
  else
    queue ← ok_or (env_set env "VEJAS_MQ_QUEUE") "VEJAS_MQ_QUEUE required";
    subject ← ok_or (match env_set env "VEJAS_MQ_SUBJECT" with Some s => Some s | None => env_set env "VEJAS_SUBJECT" end)
                    "VEJAS_MQ_SUBJECT required (the bus subject to publish to / consume)";
    Ok {| mc_mode := mode; mc_qmgr := env_set_or env "VEJAS_MQ_QMGR" ""; mc_queue := queue;
          mc_nats_url := env_set_or env "NATS_URL" "127.0.0.1:4222"; mc_subject := subject;
          mc_durable := env_set_or env "VEJAS_MQ_DURABLE" "vejas_mq";
          mc_wait := default 3 (env_set env "VEJAS_MQ_WAIT_SECS" ≫= parse_u64);
          mc_dedup_field := env_set env "VEJAS_MQ_DEDUP_FIELD";
          mc_competing := match env_set env "VEJAS_MQ_COMPETING" with
                          | Some s => String.eqb s "1" || String.eqb s "true" | None => false end |}.

(** ** The seam *)

(** connectors/mq/src/mqi.rs [MqMessage] *)
Record MqMessage : Type := { body : string; correlid : string (** 24 bytes *) }.

(** connectors/mq/src/mqi.rs [MqError] *)
Record MqError : Type := { me_op : string; comp_code : Z; reason : Z }.

(** connectors/mq/src/mqi.rs:422-426 [MqError::fmt] *)
Definition show_mq_error (e : MqError) : string :=
  "MQ " ++ me_op e ++ " failed: CompCode=" ++ dec_of_Z (comp_code e) ++ " Reason=" ++ dec_of_Z (reason e).

(** connectors/mq/src/mqi.rs:433-444 [Broker] *)
Class Broker (B : Type) := {
  get_syncpoint : Z → sr B MqError (option MqMessage);   (** the wait, in milliseconds *)
  put_syncpoint : MqMessage → sr B MqError ();
  commit : sr B MqError ();
  backout : sr B MqError ()
}.

(** What the loops rely on, in terms of the history of a queue with one
    getter: all that ever arrived on it; what was taken from it for good, what
    is held by the unit of work, and what is still there; what was put in the
    unit of work and what was put for good.  A call that fails may have done
    any part of its work.  A message may be given that was not taken, and a
    commit that answers may have been a backout: the client library says so
    with warnings, which the code takes for success. *)
Definition prefix_of {A} (l l' : list A) : Prop := ∃ new, l' = (l ++ new)%list.

Class BrokerLaws (B : Type) {BR : Broker B} := {
  arrived : B → list MqMessage;
  gone : B → list MqMessage;
  in_work : B → list MqMessage;
  waiting_on : B → list MqMessage;
  staged : B → list MqMessage;
  delivered_to : B → list MqMessage;
  queue_law b : arrived b = (gone b ++ in_work b ++ waiting_on b)%list;
  get_law w b : let '(r, b') := get_syncpoint w b in
    prefix_of (arrived b) (arrived b') ∧ gone b' = gone b ∧
    staged b' = staged b ∧ delivered_to b' = delivered_to b ∧
    match r with
    | Ok (Some m) => in_work b' = (in_work b ++ [m])%list ∨ in_work b' = in_work b
    | _ => in_work b' = in_work b
    end;
  put_law m b : let '(r, b') := put_syncpoint m b in
    prefix_of (arrived b) (arrived b') ∧ gone b' = gone b ∧ in_work b' = in_work b ∧
    delivered_to b' = delivered_to b ∧
    match r with
    | Ok _ => staged b' = (staged b ++ [m])%list
    | _ => staged b' = staged b ∨ staged b' = (staged b ++ [m])%list
    end;
  commit_law b : let '(r, b') := commit b in
    prefix_of (arrived b) (arrived b') ∧
    let done := gone b' = (gone b ++ in_work b)%list ∧ in_work b' = [] ∧
                staged b' = [] ∧ delivered_to b' = (delivered_to b ++ staged b)%list in
    match r with
    | Ok _ => done ∨ (gone b' = gone b ∧ delivered_to b' = delivered_to b ∧ in_work b' = [] ∧ staged b' = [])
    | _ => done ∨ (gone b' = gone b ∧ delivered_to b' = delivered_to b ∧
                   (in_work b' = in_work b ∨ in_work b' = []))
    end;
  backout_law b : let '(r, b') := backout b in
    prefix_of (arrived b) (arrived b') ∧ gone b' = gone b ∧ delivered_to b' = delivered_to b ∧
    match r with
    | Ok _ => in_work b' = [] ∧ staged b' = []
    | _ => in_work b' = in_work b ∨ in_work b' = []
    end
}.

(** A commit that answers is one: what the sink needs besides. *)
Class BrokerSure (B : Type) {BR : Broker B} {BL : BrokerLaws B} : Prop :=
  commit_sure b x : is_ok (fst (commit b)) = true → x ∈ staged b → x ∈ delivered_to (snd (commit b)).

(** The outcome of a call in the words of the loop. *)
Definition map_err {E E' A} (f : E → E') (r : res E A) : res E' A :=
  match r with Ok a => Ok a | Err e => Err (f e) | Panic => Panic | NoFuel => NoFuel end.

(** ** From the queue to the bus *)

Section Source.
Context {N : Type} {NET : Net N} {B : Type} {BR : Broker B}.
Context (subject : string) (wait : Z) (alive : nat → bool).

Record MqSource : Type := {
  ms_broker : B;
  ms_net : N;
  ms_fails : Z;           (** u32 *)
  ms_asked : nat;
  ms_slept : list Z       (** the sleeps, in milliseconds *)
}.
Notation R := (sr MqSource string).

Definition ms_call {A} (what : string) (m : sr B MqError A) : R A := λ s,
  let '(r, b) := m (ms_broker s) in
  (map_err (λ e, what ++ ": " ++ show_mq_error e) r,
   {| ms_broker := b; ms_net := ms_net s; ms_fails := ms_fails s; ms_asked := ms_asked s; ms_slept := ms_slept s |}).
Definition ms_publish (payload : string) : R Z := λ s,
  let '(r, n) := net_store subject payload (ms_net s) in
  (r, {| ms_broker := ms_broker s; ms_net := n; ms_fails := ms_fails s; ms_asked := ms_asked s; ms_slept := ms_slept s |}).
Definition ms_alive : R bool := λ s,
  (Ok (alive (ms_asked s)),
   {| ms_broker := ms_broker s; ms_net := ms_net s; ms_fails := ms_fails s; ms_asked := S (ms_asked s);
      ms_slept := ms_slept s |}).
Definition ms_set_fails (f : Z) (s : MqSource) : MqSource :=
  {| ms_broker := ms_broker s; ms_net := ms_net s; ms_fails := f; ms_asked := ms_asked s; ms_slept := ms_slept s |}.
Definition ms_sleep (ms : Z) : R () := sr_mod (λ s,
  {| ms_broker := ms_broker s; ms_net := ms_net s; ms_fails := ms_fails s; ms_asked := ms_asked s;
     ms_slept := (ms_slept s ++ [ms])%list |}).

(** connectors/mq/src/main.rs:132-132 [run_source] *)
Definition backoff_ms (fails : Z) : Z := Z.min (Z.shiftl 50 (Z.min fails 7)) 5000.

(** The sleep after a failure, in ticks; the fuel is a tick each. *)
(** connectors/mq/src/main.rs:133-137 [run_source] *)
Fixpoint back_off (fuel : nat) (backoff slept : Z) : R () :=
  match fuel with
  | O => sr_lift NoFuel
  | S fuel =>
    if slept <? backoff then
      go ← ms_alive;
      if (go : bool) then _ ← ms_sleep 50; back_off fuel backoff (slept + 50) else mret ()
    else mret ()
  end.

(** connectors/mq/src/main.rs:110-140 [run_source] *)
Definition source_turn : R () :=
  got ← ms_call "get" (get_syncpoint wait);
  match got with
  | None => mret ()
  | Some msg =>
    r ← sr_out (ms_publish (body msg));
    match r with
    | Ok _ => _ ← ms_call "commit after publish" commit; sr_mod (ms_set_fails 0)
    | Err _ =>
      _ ← ms_call "backout" backout;
      s ← sr_get;
      let fails := Z.min (ms_fails s + 1) (2 ^ 32 - 1) in
      _ ← sr_mod (ms_set_fails fails);
      back_off 101 (backoff_ms fails) 0
    | Panic => sr_lift Panic
    | NoFuel => sr_lift NoFuel
    end
  end.

(** [true] when it is still in the loop. *)
(** connectors/mq/src/main.rs [run_source] *)
Fixpoint run_source (n : nat) : R bool :=
  match n with
  | O => mret true
  | S n =>
    go ← ms_alive;
    if (go : bool) then _ ← source_turn; run_source n else mret false
  end.
End Source.
Arguments MqSource N B : clear implicits.

(** ** From the bus to the queue *)

(** connectors/mq/src/mqi.rs [correlid_from_key] *)
Definition correlid_from_key (key : string) : string :=
  concat_strs (map (λ seed, be_bytes 8 (fold_left fnv_step (String.list_ascii_of_string key) seed) "")
    [0xcbf29ce484222325; 0x100000001b3; 0x9e3779b97f4a7c15]).

Definition no_correlid : string := concat_strs (repeat (String Ascii.zero "") 24).

(** connectors/mq/src/main.rs [dedup_key] *)
Definition dedup_key {SD : Serde} (data field : string) : option string :=
  v ← (if valid_utf8 data then from_json data else None);
  x ← vget field v;
  Some (match x with VString s => s | other => to_json other end).

Section Sink.
Context {SD : Serde} {N : Type} {NET : Net N} {B : Type} {BR : Broker B}.
Context (dedup_field : option string) (alive : nat → bool).

Record MqSink : Type := { mk_broker : B; mk_link : Link N; mk_asked : nat }.
Notation R := (sr MqSink string).

Definition mk_call {A} (m : sr B MqError A) : R (res MqError A) := λ s,
  let '(r, b) := m (mk_broker s) in (Ok r, {| mk_broker := b; mk_link := mk_link s; mk_asked := mk_asked s |}).
Definition mk_alive : R bool := λ s,
  (Ok (alive (mk_asked s)), {| mk_broker := mk_broker s; mk_link := mk_link s; mk_asked := S (mk_asked s) |}).
(** [let _ = m.ack()] *)
Definition mk_ack (m : Message) : R () :=
  sr_mod (λ s, {| mk_broker := mk_broker s; mk_link := snd (ack m (mk_link s)); mk_asked := mk_asked s |}).

(** connectors/mq/src/main.rs:164-168 [run_sink] *)
Definition out_message (m : Message) : MqMessage :=
  {| body := data m;
     correlid := default no_correlid (correlid_from_key <$> (f ← dedup_field; dedup_key (data m) f)) |}.

(** connectors/mq/src/main.rs:164-183 [run_sink] *)
Definition sink_put (m : Message) : R () :=
  put ← mk_call (put_syncpoint (out_message m));
  match put with
  | Ok _ =>
    committed ← mk_call commit;
    match committed with
    | Ok _ => mk_ack m
    | Err _ => _ ← mk_call backout; mret ()
    | Panic => sr_lift Panic
    | NoFuel => sr_lift NoFuel
    end
  | Err _ => _ ← mk_call backout; mret ()
  | Panic => sr_lift Panic
  | NoFuel => sr_lift NoFuel
  end.

(** connectors/mq/src/main.rs:160-184 [run_sink] *)
Fixpoint sink_messages (ms : list Message) : R bool :=
  match ms with
  | [] => mret true
  | m :: ms =>
    go ← mk_alive;
    if (go : bool) then _ ← sink_put m; sink_messages ms else mret false
  end.

(** The rounds as the consumer gives them. *)
(** connectors/mq/src/main.rs [run_sink] *)
Fixpoint run_sink (rounds : list (res string (list Message))) : R bool :=
  match rounds with
  | [] => mret true
  | r :: rounds =>
    go ← mk_alive;
    if (go : bool) then
      ms ← sr_lift r;
      more ← sink_messages ms;
      if (more : bool) then run_sink rounds else mret false
    else mret false
  end.
End Sink.
Arguments MqSink N B : clear implicits.

(** ** Nothing is lost on the way to the bus *)

#[export] Instance prefix_of_pre A : PreOrder (@prefix_of A).
Proof.
  split; [intros l; exists []; by rewrite app_nil_r|].
  intros a b c [x ->] [y ->]. exists (x ++ y)%list. by rewrite app_assoc.
Qed.

Section NoLoss.
Context {N : Type} {NET : Net N} {NL : NetLaws N} {B : Type} {BR : Broker B} {BL : BrokerLaws B}.
Context (subject : string) (wait : Z) (alive : nat → bool).
Notation Src := (MqSource N B).
Notation on_bus := (λ m : MqMessage, (subject, body m)).

(** What left the queue since [s0] is on the bus, in its order; the unit of
    work holds [w]. *)
Definition carried (s0 : Src) (w : list MqMessage → Prop) (s : Src) : Prop :=
  ∃ out sent,
    gone (ms_broker s) = (gone (ms_broker s0) ++ out)%list ∧
    stored (ms_net s) = (stored (ms_net s0) ++ sent)%list ∧
    sublist (map on_bus out) sent ∧
    prefix_of (arrived (ms_broker s0)) (arrived (ms_broker s)) ∧
    w (in_work (ms_broker s)).
(** A message that was given is in the unit of work, or was not taken. *)
Definition held_or_not (m : MqMessage) (w : list MqMessage) : Prop := w = [m] ∨ w = [].
(** The same, when the bus has the one message that was given. *)
Definition shipped (s0 : Src) (m : MqMessage) (s : Src) : Prop :=
  ∃ out sent,
    gone (ms_broker s) = (gone (ms_broker s0) ++ out)%list ∧
    stored (ms_net s) = (stored (ms_net s0) ++ sent)%list ∧
    sublist (map on_bus (out ++ [m])%list) sent ∧
    prefix_of (arrived (ms_broker s0)) (arrived (ms_broker s)) ∧
    held_or_not m (in_work (ms_broker s)).

Context (s0 : Src).
Definition at_most_one (w : list MqMessage) : Prop := w = [] ∨ ∃ m, w = [m].
Notation Idle := (carried s0 (λ w, w = [])).
Notation Safe := (carried s0 at_most_one).
Notation T := (triple Safe).

Lemma carried_weaken (w w' : list MqMessage → Prop) s : (∀ l, w l → w' l) → carried s0 w s → carried s0 w' s.
Proof. intros H (out & sent & ? & ? & ? & ? & ?). exists out, sent. auto 6. Qed.
Lemma given_one m w : held_or_not m w → at_most_one w.
Proof. intros [-> | ->]; [right; by exists m|by left]. Qed.
Lemma idle_safe s : Idle s → Safe s.
Proof. apply carried_weaken. intros l ->. by left. Qed.

(** A change to none of the broker, the bus and the books. *)
Lemma quiet_triple (f : Src → Src) :
  (∀ s, ms_broker (f s) = ms_broker s ∧ ms_net (f s) = ms_net s) → T Idle (sr_mod f : sr Src string ()) (λ _, Idle).
Proof.
  intros Hf. apply triple_mod. intros s Hs. destruct (Hf s) as [Hb Hn].
  assert (Idle (f s)) as H by (unfold carried in *; by rewrite Hb, Hn). split; [by apply idle_safe|done].
Qed.
Lemma ms_alive_triple : T Idle (ms_alive alive : sr Src string bool) (λ _, Idle).
Proof. intros s Hs. split; [by apply idle_safe|done]. Qed.

Lemma mq_get_triple : T Idle (ms_call "get" (get_syncpoint wait))
  (λ got s, match got with None => Idle s | Some m => carried s0 (held_or_not m) s end).
Proof.
  intros s (out & sent & Hg & Hst & Hsub & Hp & Hw). pose proof (get_law wait (ms_broker s)) as H.
  unfold ms_call. destruct (get_syncpoint wait (ms_broker s)) as [r b]. destruct H as (Ha & Hg' & _ & _ & Hr).
  assert (∀ w, w (in_work b) → carried s0 w {| ms_broker := b; ms_net := ms_net s; ms_fails := ms_fails s;
    ms_asked := ms_asked s; ms_slept := ms_slept s |}) as Hc.
  { intros w Hin. exists out, sent. cbn. rewrite Hg'. split; [done|]. split; [done|]. split; [done|].
    split; [by etrans|done]. }
  destruct r as [[m|]|e| |]; cbn; rewrite Hw in Hr; cbn in Hr.
  - split; apply Hc; [by apply (given_one m)|exact Hr].
  - split; (apply Hc; rewrite Hr); [by left|done].
  - split; [apply Hc; rewrite Hr; by left|done].
  - split; [apply Hc; rewrite Hr; by left|done].
  - split; [apply Hc; rewrite Hr; by left|done].
Qed.

Lemma ship_triple m : T (carried s0 (held_or_not m)) (sr_out (ms_publish subject (body m)))
  (λ r s, match r with Ok _ => shipped s0 m s | _ => carried s0 (held_or_not m) s end).
Proof.
  intros s (out & sent & Hg & Hst & Hsub & Hp & Hw). pose proof (store_law subject (body m) (ms_net s)) as H.
  unfold sr_out, ms_publish. destruct (net_store subject (body m) (ms_net s)) as [r n].
  destruct H as (_ & _ & _ & Hs).
  set (s1 := {| ms_broker := _ |}).
  assert (∀ more, stored n = (stored (ms_net s) ++ more)%list → carried s0 (held_or_not m) s1) as Hc.
  { intros more E. exists out, (sent ++ more)%list. cbn. rewrite E, Hst, app_assoc. do 2 (split; [done|]).
    split; [by apply sublist_inserts_r|done]. }
  assert (carried s0 (held_or_not m) s1) as H1.
  { destruct r as [z|e| |]; [by eapply Hc| | | ];
      (destruct Hs as [Hs|Hs]; [apply (Hc []); by rewrite app_nil_r|by eapply Hc]). }
  split; [cbn [snd]; revert H1; apply carried_weaken, given_one|].
  destruct r as [z|e| |]; [|done|done|done].
  exists out, (sent ++ [on_bus m])%list. cbn. rewrite Hs, Hst, app_assoc. do 2 (split; [done|]).
  split; [|done]. rewrite map_app. by apply sublist_app.
Qed.

Lemma mq_commit_triple m : T (shipped s0 m) (ms_call "commit after publish" commit) (λ _, Idle).
Proof.
  intros s (out & sent & Hg & Hst & Hsub & Hp & Hw). pose proof (commit_law (ms_broker s)) as H.
  unfold ms_call. destruct (commit (ms_broker s)) as [r b]. destruct H as (Ha & Hr). cbn in Hr.
  set (s1 := {| ms_broker := b |}).
  assert (prefix_of (arrived (ms_broker s0)) (arrived b)) as Hp' by (by etrans).
  assert (sublist (map (λ m, (subject, body m)) out) sent) as Hsub'
    by (etrans; [|exact Hsub]; rewrite map_app; by apply sublist_inserts_r).
  assert (gone b = (gone (ms_broker s) ++ in_work (ms_broker s))%list → in_work b = [] → Idle s1) as Hdone.
  { intros E E'. destruct Hw as [Hw|Hw]; rewrite Hw in E.
    - exists (out ++ [m])%list, sent. cbn. by rewrite E, E', Hg, app_assoc.
    - exists out, sent. cbn. by rewrite E, E', app_nil_r. }
  assert (∀ w, gone b = gone (ms_broker s) → w (in_work b) → carried s0 w s1) as Hback.
  { intros w E Hin. exists out, sent. cbn. rewrite E. auto. }
  destruct r as [u|e| |]; cbn [map_err snd].
  { assert (Idle s1) as HI; [|split; [by apply idle_safe|done]].
    destruct Hr as [(? & ? & _)|(? & _ & ? & _)]; [auto|by apply Hback]. }
  all: (split; [|done]); (destruct Hr as [(? & ? & _)|(Hg' & _ & Hin)]; [apply idle_safe; auto|]);
    apply Hback; [done|]; destruct Hin as [-> | ->]; [by apply (given_one m)|by left].
Qed.

Lemma backout_triple m : T (carried s0 (held_or_not m)) (ms_call "backout" backout) (λ _, Idle).
Proof.
  intros s (out & sent & Hg & Hst & Hsub & Hp & Hw). pose proof (backout_law (ms_broker s)) as H.
  unfold ms_call. destruct (backout (ms_broker s)) as [r b]. destruct H as (Ha & Hg' & _ & Hr).
  assert (∀ w, w (in_work b) → carried s0 w {| ms_broker := b; ms_net := ms_net s; ms_fails := ms_fails s;
    ms_asked := ms_asked s; ms_slept := ms_slept s |}) as Hc.
  { intros w Hin. exists out, sent. cbn. rewrite Hg'. do 3 (split; [done|]). split; [by etrans|done]. }
  destruct r as [u|e| |]; cbn [map_err snd].
  - destruct Hr as [Hin _]. split; [apply idle_safe|]; by apply Hc.
  - split; [|done]. apply Hc. destruct Hr as [-> | ->]; [by apply (given_one m)|by left].
  - split; [|done]. apply Hc. destruct Hr as [-> | ->]; [by apply (given_one m)|by left].
  - split; [|done]. apply Hc. destruct Hr as [-> | ->]; [by apply (given_one m)|by left].
Qed.

Lemma back_off_triple fuel b : ∀ slept, T Idle (back_off alive fuel b slept) (λ _, Idle).
Proof.
  induction fuel as [|fuel IH]; intros slept; cbn [back_off]; [by intros s Hs; split; [apply idle_safe|]|].
  destruct (slept <? b); [|by apply triple_ret; intros s Hs; split; [apply idle_safe|]].
  eapply triple_bind; [apply ms_alive_triple|]. intros [|]; [|by apply triple_ret; intros s Hs; split; [apply idle_safe|]].
  eapply triple_bind; [by apply quiet_triple|]. intros []. apply IH.
Qed.

Lemma source_turn_triple : T Idle (source_turn subject wait alive) (λ _, Idle).
Proof.
  eapply triple_bind; [apply mq_get_triple|]. intros [m|]; [|apply triple_ret; intros s Hs; split; [by apply idle_safe|done]].
  eapply triple_bind; [apply ship_triple|]. intros [z|e| |].
  - eapply triple_bind; [apply mq_commit_triple|]. intros []. by apply quiet_triple.
  - eapply triple_bind; [apply backout_triple|]. intros [].
    eapply triple_bind with (Q := λ _, Idle); [intros s Hs; split; [by apply idle_safe|done]|]. intros s1.
    eapply triple_bind; [by apply quiet_triple|]. intros []. apply back_off_triple.
  - intros s Hs. split; [|done]. revert Hs. apply carried_weaken, given_one.
  - intros s Hs. split; [|done]. revert Hs. apply carried_weaken, given_one.
Qed.

Lemma run_source_triple n : T Idle (run_source subject wait alive n) (λ _, Idle).
Proof.
  induction n as [|n IH]; cbn [run_source]; [apply triple_ret; intros s Hs; split; [by apply idle_safe|done]|].
  eapply triple_bind; [apply ms_alive_triple|]. intros [|]; [|apply triple_ret; intros s Hs; split; [by apply idle_safe|done]].
  eapply triple_bind; [apply source_turn_triple|]. by intros [].
Qed.
End NoLoss.

(** C33: the MQ source loses nothing and keeps the order, as long as it alone
    takes from the queue, which is what its lease is for: in the competing
    mode nothing is said.  Whatever calls to the queue manager and the bus fail, whatever they
    did before they failed, whether a message that was given is taken
    (a truncated one is not) and whether a commit that answers was one or a
    backout, both of which the client library says in warnings that the code
    takes for success, and wherever the bridge stops or dies: what was on the
    queue is still there, or is the one message of the unit of work that the
    queue manager backs out, or was taken for good, and then it is on the bus,
    whole and in the order of the queue.  It may be there more than once, and
    a message longer than the buffer stays on the queue and is published cut,
    which is a finding. *)
Theorem mq_source_loses_none {N : Type} {NET : Net N} {NL : NetLaws N} {B : Type} {BR : Broker B} {BL : BrokerLaws B}
  subject wait alive n (s : MqSource N B) :
  in_work (ms_broker s) = [] →
  let s' := snd (run_source subject wait alive n s) in
  ∃ out sent,
    gone (ms_broker s') = (gone (ms_broker s) ++ out)%list ∧
    stored (ms_net s') = (stored (ms_net s) ++ sent)%list ∧
    sublist (map (λ m, (subject, body m)) out) sent ∧
    prefix_of (gone (ms_broker s) ++ waiting_on (ms_broker s))%list
              (gone (ms_broker s) ++ out ++ in_work (ms_broker s') ++ waiting_on (ms_broker s'))%list ∧
    (length (in_work (ms_broker s')) <= 1)%nat.
Proof.
  intros Hw. cbv zeta.
  assert (carried subject s (λ w, w = []) s) as H0.
  { exists [], []. rewrite !app_nil_r. split; [done|]. split; [done|]. split; [constructor|]. split; [reflexivity|done]. }
  destruct (run_source_triple subject wait alive s n s H0) as [(out & sent & Hg & Hst & Hsub & Hp & Hin) _].
  exists out, sent. do 3 (split; [done|]). rewrite !queue_law, Hw, Hg, <- !app_assoc in Hp. split; [done|].
  destruct Hin as [-> |[m ->]]; cbn; lia.
Qed.

(** ** Nothing is acknowledged before it is on the queue *)

Section Acked.
Context {SD : Serde} {N : Type} {NET : Net N} {NL : NetLaws N} {B : Type} {BR : Broker B} {BL : BrokerLaws B} {BS : BrokerSure B}.
Context (dedup_field : option string) (alive : nat → bool).
Notation Sink := (MqSink N B).
Context (seen : Message → Prop) (s0 : Sink).

Definition put_for_good (m : Message) (b : B) : Prop := out_message dedup_field m ∈ delivered_to b.
Definition acks_put (s : Sink) : Prop :=
  ∃ t, taken (client (mk_link s)) = (taken (client (mk_link s0)) ++ t)%list ∧
    Forall (λ x, ∃ m, seen m ∧ reply m = Some (fst (snd x)) ∧ put_for_good m (mk_broker s)) t.
Notation T := (triple acks_put).

(** A call of the broker takes nothing back. *)
Lemma broker_triple {A} (P : Sink → Prop) (m : sr B MqError A) (Q : res MqError A → B → B → Prop) :
  (∀ s, P s → acks_put s) →
  (∀ b, (∀ x, x ∈ delivered_to b → x ∈ delivered_to (snd (m b))) ∧ Q (fst (m b)) b (snd (m b))) →
  T P (mk_call m) (λ r s, acks_put s ∧ ∃ b, Q r b (mk_broker s)).
Proof.
  intros HP Hm s (t & Ht & Hf)%HP. unfold mk_call. destruct (Hm (mk_broker s)) as [Hd Hq].
  destruct (m (mk_broker s)) as [r b]. cbn in *.
  assert (acks_put {| mk_broker := b; mk_link := mk_link s; mk_asked := mk_asked s |}) as H; [|split; [done|]; eauto].
  exists t. split; [done|]. eapply Forall_impl; [exact Hf|]. intros x (m' & ? & ? & ?). exists m'. split_and!; auto.
  by apply Hd.
Qed.

Lemma put_keeps m b : (∀ x, x ∈ delivered_to b → x ∈ delivered_to (snd (put_syncpoint m b))) ∧
  (is_ok (fst (put_syncpoint m b)) = true → m ∈ staged (snd (put_syncpoint m b))).
Proof.
  pose proof (put_law m b) as H. destruct (put_syncpoint m b) as [r b']. destruct H as (_ & _ & _ & Hd & Hr).
  cbn. rewrite Hd. split; [done|]. intros Hok. destruct r; try done. rewrite Hr. apply elem_of_app. right. by left.
Qed.
Lemma commit_keeps b : (∀ x, x ∈ delivered_to b → x ∈ delivered_to (snd (commit b))) ∧
  (is_ok (fst (commit b)) = true → ∀ x, x ∈ staged b → x ∈ delivered_to (snd (commit b))).
Proof.
  split; [|intros Hok x; by apply commit_sure].
  pose proof (commit_law b) as H. destruct (commit b) as [r b']. destruct H as (_ & Hr). cbn in *.
  destruct r; destruct Hr as [(_ & _ & _ & Hd)|(_ & Hd & _)]; rewrite Hd; intros x Hx; try apply elem_of_app; auto.
Qed.
Lemma backout_keeps b : ∀ x, x ∈ delivered_to b → x ∈ delivered_to (snd (backout b)).
Proof.
  pose proof (backout_law b) as H. destruct (backout b) as [r b']. destruct H as (_ & _ & Hd & _). cbn. by rewrite Hd.
Qed.
Lemma backout_triple_sink : T acks_put (mk_call backout : sr Sink string (res MqError ())) (λ _, acks_put).
Proof.
  eapply triple_weaken; [apply (broker_triple acks_put _ (λ _ _ _, True))|done|by intros ? ? []]; [done|].
  intros b. split; [apply backout_keeps|done].
Qed.

Lemma sink_put_triple m : seen m → T acks_put (sink_put dedup_field m) (λ _, acks_put).
Proof.
  intros Hm. eapply triple_bind.
  { apply (broker_triple acks_put _ (λ r _ b', is_ok r = true → out_message dedup_field m ∈ staged b')); [done|].
    intros b. apply put_keeps. }
  assert (∀ e, T (λ s, acks_put s ∧ ∃ b : B, is_ok (Err e : res MqError ()) = true → out_message dedup_field m ∈ staged (mk_broker s))
    (_ ← mk_call backout; mret () : sr Sink string ()) (λ _, acks_put)) as Hback.
  { intros e. eapply triple_weaken with (P' := acks_put) (Q' := λ _, acks_put); [|intros s [Hs _]; exact Hs|done].
    eapply triple_bind; [apply backout_triple_sink|]. intros ?. apply triple_ret. auto. }
  intros [u|E| |]; [|apply Hback|by intros s []..].
  (* committed *)
  eapply triple_bind with (Q := λ r s, acks_put s ∧ (is_ok r = true → put_for_good m (mk_broker s))).
  { intros s (HI & b & Hst). specialize (Hst eq_refl). destruct (commit_keeps (mk_broker s)) as [Hd Hc].
    unfold mk_call. destruct (commit (mk_broker s)) as [r b1]. cbn in *.
    assert (acks_put {| mk_broker := b1; mk_link := mk_link s; mk_asked := mk_asked s |}) as H.
    { destruct HI as (t & Ht & Hf). exists t. split; [done|]. eapply Forall_impl; [exact Hf|].
      intros x (m' & ? & ? & ?). exists m'. split_and!; auto. by apply Hd. }
    split; [done|]. split; [done|]. intros Hr. by apply Hc. }
  intros [v|E| |]; [| |by intros s []..].
  - apply triple_mod. intros s ((t & Ht & Hf) & Hgood). specialize (Hgood eq_refl).
    assert (acks_put {| mk_broker := mk_broker s; mk_link := snd (ack m (mk_link s)); mk_asked := mk_asked s |}) as H; [|done].
    destruct (answer_taken "" m (mk_link s)) as (_ & _ & _ & t1 & Et & Ft).
    exists (t ++ t1)%list. cbn. unfold ack. rewrite Et, Ht, app_assoc. split; [done|]. apply Forall_app. split; [done|].
    eapply Forall_impl; [exact Ft|]. intros x [Hr _]. exists m. done.
  - eapply triple_weaken with (P' := acks_put) (Q' := λ _, acks_put); [|intros s [Hs _]; exact Hs|done].
    eapply triple_bind; [apply backout_triple_sink|]. intros ?. apply triple_ret. auto.
Qed.

Lemma mk_alive_triple : T acks_put (mk_alive alive : sr Sink string bool) (λ _, acks_put).
Proof. intros s Hs. done. Qed.

Lemma sink_messages_triple ms : (∀ m, m ∈ ms → seen m) →
  T acks_put (sink_messages dedup_field alive ms) (λ _, acks_put).
Proof.
  induction ms as [|m ms IH]; intros Hseen; cbn [sink_messages]; [by apply triple_ret|].
  eapply triple_bind; [apply mk_alive_triple|]. intros [|]; [|by apply triple_ret].
  eapply triple_bind; [apply sink_put_triple, Hseen; by left|]. intros []. apply IH. intros m' Hm'. apply Hseen. by right.
Qed.

Lemma run_sink_triple rounds : (∀ ms m, Ok ms ∈ rounds → m ∈ ms → seen m) →
  T acks_put (run_sink dedup_field alive rounds) (λ _, acks_put).
Proof.
  induction rounds as [|r rounds IH]; intros Hseen; cbn [run_sink]; [by apply triple_ret|].
  eapply triple_bind; [apply mk_alive_triple|]. intros [|]; [|by apply triple_ret].
  eapply triple_bind with (Q := λ ms s, acks_put s ∧ r = Ok ms).
  { intros s Hs. split; [done|]. cbn. by destruct r. }
  intros ms. eapply triple_bind with (Q := λ _, acks_put).
  - intros s (Hs & ->). apply sink_messages_triple; [|done]. intros m Hm. eapply Hseen; [by left|done].
  - intros [|]; [|by apply triple_ret]. apply IH. intros ms' m' H1 H2. eapply Hseen; [right; exact H1|done].
Qed.
End Acked.

(** The MQ sink delivers at least once, where a commit that answers is one: an
    acknowledgement that was sent is that of a message that was put
    on the queue and committed, with the correlation id of its key. *)
Theorem mq_sink_acks_committed {SD : Serde} {N : Type} {NET : Net N} {NL : NetLaws N} {B : Type} {BR : Broker B}
  {BL : BrokerLaws B} {BS : BrokerSure B} dedup_field alive rounds (s : MqSink N B) :
  let s' := snd (run_sink dedup_field alive rounds s) in
  ∃ t, taken (client (mk_link s')) = (taken (client (mk_link s)) ++ t)%list ∧
    ∀ x, x ∈ t → ∃ ms m, Ok ms ∈ rounds ∧ m ∈ ms ∧ reply m = Some (fst (snd x)) ∧
      out_message dedup_field m ∈ delivered_to (mk_broker s').
Proof.
  cbv zeta.
  destruct (run_sink_triple dedup_field alive (λ m, ∃ ms, Ok ms ∈ rounds ∧ m ∈ ms) s rounds
    (λ ms m H1 H2, ex_intro _ ms (conj H1 H2)) s) as [(t & Ht & Hf) _].
  { exists []. split; [by rewrite app_nil_r|done]. }
  exists t. split; [done|]. intros x Hx. rewrite Forall_forall in Hf.
  destruct (Hf x Hx) as (m & (ms & ? & ?) & Hr & Hd). exists ms, m. done.
Qed.

(** A key makes 24 bytes, whatever it is. *)
Lemma correlid_length key : slen (correlid_from_key key) = 24%nat.
Proof. unfold correlid_from_key. cbn [map concat_strs]. rewrite !slen_app, !slen_be. done. Qed.

(** The back-off is never spent early and never below 100 ms or above 5 s. *)
Lemma backoff_bounds f : 1 <= f → 100 <= backoff_ms f <= 5000.
Proof.
  intros Hf. unfold backoff_ms. assert (2 <= 2 ^ Z.min f 7) as H.
  { change 2 with (2 ^ 1) at 1. apply Z.pow_le_mono_r; lia. }
  rewrite Z.shiftl_mul_pow2 by lia. lia.
Qed.

(** ** The queue of the tests *)

(** connectors/mq/src/main.rs:267-273 [FakeBroker] *)
Record FakeBroker : Type := {
  fb_committed : list MqMessage;
  fb_in_flight : option MqMessage;
  fb_staged : list MqMessage;
  fb_delivered : list MqMessage;
  fb_fail_next_commit : bool;
  fb_gone : list MqMessage    (** history, for the laws *)
}.

Definition in_flight_list (b : FakeBroker) : list MqMessage :=
  match fb_in_flight b with Some m => [m] | None => [] end.

(** connectors/mq/src/main.rs:283-313 [FakeBroker] *)
#[export] Instance fake_broker : Broker FakeBroker := {|
  get_syncpoint _ b :=
    match fb_in_flight b, fb_committed b with
    | Some _, _ => (Panic, b)
    | None, m :: q =>
      (Ok (Some m), {| fb_committed := q; fb_in_flight := Some m; fb_staged := fb_staged b;
                       fb_delivered := fb_delivered b; fb_fail_next_commit := fb_fail_next_commit b; fb_gone := fb_gone b |})
    | None, [] => (Ok None, b)
    end;
  put_syncpoint m b :=
    (Ok (), {| fb_committed := fb_committed b; fb_in_flight := fb_in_flight b; fb_staged := (fb_staged b ++ [m])%list;
               fb_delivered := fb_delivered b; fb_fail_next_commit := fb_fail_next_commit b; fb_gone := fb_gone b |});
  commit b :=
    if fb_fail_next_commit b then
      (Err {| me_op := "MQCMIT"; comp_code := 2; reason := 2003 |},
       {| fb_committed := fb_committed b; fb_in_flight := fb_in_flight b; fb_staged := fb_staged b;
          fb_delivered := fb_delivered b; fb_fail_next_commit := false; fb_gone := fb_gone b |})
    else
      (Ok (), {| fb_committed := fb_committed b; fb_in_flight := None; fb_staged := [];
                 fb_delivered := (fb_delivered b ++ fb_staged b)%list; fb_fail_next_commit := false;
                 fb_gone := (fb_gone b ++ in_flight_list b)%list |});
  backout b :=
    (Ok (), {| fb_committed := (in_flight_list b ++ fb_committed b)%list; fb_in_flight := None; fb_staged := [];
               fb_delivered := fb_delivered b; fb_fail_next_commit := fb_fail_next_commit b; fb_gone := fb_gone b |})
|}.

#[export] Instance fake_laws : BrokerLaws FakeBroker.
Proof.
  refine {| arrived b := (fb_gone b ++ in_flight_list b ++ fb_committed b)%list; gone := fb_gone;
            in_work := in_flight_list; waiting_on := fb_committed; staged := fb_staged;
            delivered_to := fb_delivered |}; unfold in_flight_list; intros.
  - done.
  - destruct b as [q [m'|] st d f g]; cbn; [by split|]. destruct q as [|m q]; cbn; [by split|]. split_and!; try done. by left.
  - destruct b as [q w st d f g]; cbn. by split.
  - destruct b as [q w st d [] g]; cbn; [split; [done|by right; auto]|]. rewrite <- app_assoc. split; [done|by left].
  - destruct b as [q w st d f g]; cbn. by split.
Defined.

#[export] Instance fake_sure : BrokerSure FakeBroker.
Proof. intros [q w st d [] g] x; cbn; [done|]. intros _ Hx. apply elem_of_app. by right. Qed.

Definition fake_queue (ms : list MqMessage) (fails : bool) : FakeBroker :=
  {| fb_committed := ms; fb_in_flight := None; fb_staged := []; fb_delivered := []; fb_fail_next_commit := fails;
     fb_gone := [] |}.
Definition plain (s : string) : MqMessage := {| body := s; correlid := no_correlid |}.

Definition mq_start (fails : bool) : MqSource SimNet FakeBroker :=
  {| ms_broker := fake_queue [plain "a"; plain "b"] fails; ms_net := sim_start; ms_fails := 0; ms_asked := 0; ms_slept := [] |}.

(** Both messages go to the bus and are gone; when the first commit fails the
    bridge ends with the first on the bus and still in the unit of work. *)
Example mq_drains : let s := snd (run_source "vx.q" 3000 (λ _, true) 3 (mq_start false)) in
  sim_stored (ms_net s) = [("vx.q", "a"); ("vx.q", "b")] ∧ fb_gone (ms_broker s) = [plain "a"; plain "b"].
Proof. split; vm_compute; reflexivity. Qed.
Example mq_commit_fails : let '(r, s) := run_source "vx.q" 3000 (λ _, true) 3 (mq_start true) in
  r = Err "commit after publish: MQ MQCMIT failed: CompCode=2 Reason=2003" ∧
  sim_stored (ms_net s) = [("vx.q", "a")] ∧ fb_gone (ms_broker s) = [] ∧ in_work (ms_broker s) = [plain "a"].
Proof. vm_compute. split; [|split; [|split]]; reflexivity. Qed.

