(* ===== verification/Mqi.v ===== *)
(** * The MQ client library

    The seam of [IbmMq] over the calls of the client library
    (connectors/mq/src/mqi.rs): [MqiQueue] with its reading of completion
    codes, the descriptors with their layout, and the opening of a queue.  The
    library is the class [Mqi], what the MQI documents of it the class
    [MqiLaws]; structures are lists of their fields with values. *)

From stdpp Require Import base gmap list strings.
From Stdlib Require Import ZArith Lia Ascii.
From S2P Require Import Prelude Triples Text F64 Json Edit Bus FlowProps Concrete IbmMq.
Open Scope string_scope.
Open Scope Z_scope.

(** ** The seam over the client library *)

Definition MQCC_OK : Z := 0.
Definition MQCC_WARNING : Z := 1.
Definition MQCC_FAILED : Z := 2.
Definition MQRC_BACKED_OUT : Z := 2003.
Definition MQRC_NO_MSG_AVAILABLE : Z := 2033.
Definition MQRC_TRUNCATED_MSG_FAILED : Z := 2080.

(** What MQGET gives: the codes, the length of the message, what it wrote into
    the buffer, and the correlation id. *)
Record Gotten : Type := { gt_cc : Z; gt_rc : Z; gt_len : Z; gt_buffer : string; gt_correlid : string }.

(** The calls on an open queue: MQGET under syncpoint with a wait, in
    milliseconds, and the size of the buffer; MQPUT under syncpoint; MQCMIT;
    MQBACK; the last three give completion and reason codes. *)
Class Mqi (Q : Type) := {
  MQGET : Z → Z → Q → Gotten * Q;
  MQPUT : string → string → Q → Z * Z * Q;
  MQCMIT : Q → Z * Z * Q;
  MQBACK : Q → Z * Z * Q
}.

Section Queue.
Context {Q : Type} {MQ : Mqi Q}.

Definition i32_max : Z := 2 ^ 31 - 1.
(** connectors/mq/src/mqi.rs:510-510 [MqiQueue::open] *)
Definition read_buf_len : Z := 4 * 1024 * 1024.

(** A call that gives codes, as the code reads them. *)
Definition failed_call (op : string) (cc rc : Z) : res MqError () :=
  if cc =? MQCC_FAILED then Err {| me_op := op; comp_code := cc; reason := rc |} else Ok ().

(** connectors/mq/src/mqi.rs:515-540 [get_syncpoint] *)
Definition mqi_get (wait_ms : Z) : sr Q MqError (option MqMessage) := λ q,
  let '(g, q) := MQGET (Z.min wait_ms i32_max) read_buf_len q in
  (if gt_cc g =? MQCC_FAILED then
     if gt_rc g =? MQRC_NO_MSG_AVAILABLE then Ok None
     else Err {| me_op := "MQGET"; comp_code := gt_cc g; reason := gt_rc g |}
   else Ok (Some {| body := stake (Z.to_nat (Z.min (gt_len g) read_buf_len)) (gt_buffer g);
                    correlid := gt_correlid g |}), q).

(** connectors/mq/src/mqi.rs:542-564 [put_syncpoint] *)
Definition mqi_put (msg : MqMessage) : sr Q MqError () := λ q,
  let '(cc, rc, q) := MQPUT (correlid msg) (body msg) q in (failed_call "MQPUT" cc rc, q).

(** connectors/mq/src/mqi.rs:566-573 [commit] *)
Definition mqi_commit : sr Q MqError () := λ q,
  let '(cc, rc, q) := MQCMIT q in (failed_call "MQCMIT" cc rc, q).

(** connectors/mq/src/mqi.rs:575-582 [backout] *)
Definition mqi_backout : sr Q MqError () := λ q,
  let '(cc, rc, q) := MQBACK q in (failed_call "MQBACK" cc rc, q).

#[export] Instance mqi_broker : Broker Q :=
  {| get_syncpoint := mqi_get; put_syncpoint := mqi_put; commit := mqi_commit; backout := mqi_backout |}.
End Queue.

(** What the MQI promises of these calls.  A message that does not fit the
    buffer stays on the queue: without MQGMO_ACCEPT_TRUNCATED_MSG, MQGET gives
    what fits, with a warning.  MQCMIT completes with a warning when the unit
    of work was backed out instead. *)
Record Unit_ : Type := { u_gone : list MqMessage; u_held : list MqMessage; u_queue : list MqMessage;
                         u_staged : list MqMessage; u_delivered : list MqMessage }.

Definition rolled_back (u u' : Unit_) : Prop :=
  u_gone u' = u_gone u ∧ u_delivered u' = u_delivered u ∧ u_held u' = [] ∧ u_staged u' = [] ∧
  prefix_of (u_held u ++ u_queue u)%list (u_queue u').
Definition committed (u u' : Unit_) : Prop :=
  u_gone u' = (u_gone u ++ u_held u)%list ∧ u_delivered u' = (u_delivered u ++ u_staged u)%list ∧
  u_held u' = [] ∧ u_staged u' = [] ∧ prefix_of (u_queue u) (u_queue u').
Definition same_work (u u' : Unit_) : Prop :=
  u_gone u' = u_gone u ∧ u_delivered u' = u_delivered u ∧ u_held u' = u_held u ∧ u_staged u' = u_staged u.
Definition untouched (u u' : Unit_) : Prop := same_work u u' ∧ prefix_of (u_queue u) (u_queue u').

Class MqiLaws (Q : Type) {MQ : Mqi Q} := {
  work : Q → Unit_;
  mqget_law w len q : let '(g, q') := MQGET w len q in
    if gt_cc g =? MQCC_FAILED then untouched (work q) (work q')
    else ∃ m rest, u_queue (work q) = m :: rest ∧ gt_len g = Z.of_nat (slen (body m)) ∧ gt_correlid g = correlid m ∧
      gt_buffer g = stake (Z.to_nat (Z.min (gt_len g) len)) (body m) ∧
      if len <? gt_len g then gt_cc g = MQCC_WARNING ∧ gt_rc g = MQRC_TRUNCATED_MSG_FAILED ∧ untouched (work q) (work q')
      else u_gone (work q') = u_gone (work q) ∧ u_delivered (work q') = u_delivered (work q) ∧
           u_held (work q') = (u_held (work q) ++ [m])%list ∧ u_staged (work q') = u_staged (work q) ∧
           prefix_of rest (u_queue (work q'));
  mqput_law c b q : let '(cc, _, q') := MQPUT c b q in
    if cc =? MQCC_FAILED then untouched (work q) (work q')
    else u_gone (work q') = u_gone (work q) ∧ u_delivered (work q') = u_delivered (work q) ∧
         u_held (work q') = u_held (work q) ∧ u_staged (work q') = (u_staged (work q) ++ [{| body := b; correlid := c |}])%list ∧
         prefix_of (u_queue (work q)) (u_queue (work q'));
  mqcmit_law q : let '(cc, rc, q') := MQCMIT q in
    if cc =? MQCC_OK then committed (work q) (work q')
    else if cc =? MQCC_WARNING then rc = MQRC_BACKED_OUT ∧ rolled_back (work q) (work q')
    else cc = MQCC_FAILED ∧ (committed (work q) (work q') ∨ rolled_back (work q) (work q') ∨ untouched (work q) (work q'));
  mqback_law q : let '(cc, _, q') := MQBACK q in
    if cc =? MQCC_OK then rolled_back (work q) (work q')
    else cc = MQCC_FAILED ∧ (rolled_back (work q) (work q') ∨ untouched (work q) (work q'))
}.

Definition gmessages (u : Unit_) : list MqMessage := (u_gone u ++ u_held u ++ u_queue u)%list.

Lemma prefix_of_app {A} (a l l' : list A) : prefix_of l l' → prefix_of (a ++ l)%list (a ++ l')%list.
Proof. intros [x ->]. exists x. by rewrite app_assoc. Qed.
Lemma same_arrived u u' : u_gone u' = u_gone u → u_held u' = u_held u → prefix_of (u_queue u) (u_queue u') →
  prefix_of (gmessages u) (gmessages u').
Proof. intros Hg Hh Hq. unfold gmessages. rewrite Hg, Hh. by do 2 apply prefix_of_app. Qed.
Lemma untouched_arrived u u' : untouched u u' → prefix_of (gmessages u) (gmessages u').
Proof. intros [(Hg & _ & Hh & _) Hq]. by apply same_arrived. Qed.
Lemma rolled_arrived u u' : rolled_back u u' → prefix_of (gmessages u) (gmessages u').
Proof. intros (Hg & _ & Hh & _ & Hq). unfold gmessages. rewrite Hg, Hh. by apply prefix_of_app. Qed.
Lemma committed_arrived u u' : committed u u' → prefix_of (gmessages u) (gmessages u').
Proof. intros (Hg & _ & Hh & _ & Hq). unfold gmessages. rewrite Hg, Hh, <- app_assoc. by do 2 apply prefix_of_app. Qed.

(** The seam is implemented, whatever the library warns of. *)
Section Implements.
Context {Q : Type} {MQ : Mqi Q} {ML : MqiLaws Q}.

#[export] Program Instance mqi_laws : BrokerLaws Q := {|
  arrived q := gmessages (work q);
  gone q := u_gone (work q);
  in_work q := u_held (work q);
  waiting_on q := u_queue (work q);
  staged q := u_staged (work q);
  delivered_to q := u_delivered (work q)
|}.
Next Obligation. done. Qed.
Next Obligation.
  intros w q. cbn. unfold mqi_get. pose proof (mqget_law (Z.min w i32_max) read_buf_len q) as H.
  destruct (MQGET _ _ q) as [g q']. destruct (gt_cc g =? MQCC_FAILED).
  - pose proof H as [(Hg & Hd & Hh & Hs) _]. split; [by apply untouched_arrived|]. split_and!; try done.
    by destruct (gt_rc g =? _).
  - destruct H as (m & rest & Hq & Hl & Hc & Hb & H).
    destruct (Z.ltb_spec read_buf_len (gt_len g)) as [_|Hfit].
    { destruct H as (_ & _ & H). pose proof H as [(Hg & Hd & Hh & Hs) _].
      split; [by apply untouched_arrived|]. split_and!; try done. by right. }
    destruct H as (Hg & Hd & Hh & Hs & Hp). split; [|split_and!; try done].
    + unfold gmessages. rewrite Hg, Hh, Hq, <- app_assoc. do 2 apply prefix_of_app. by apply (prefix_of_app [m]).
    + left. rewrite Hh. do 2 f_equal. destruct m as [bm cm]. cbn in *. rewrite Hc, Hb. f_equal.
      rewrite Z.min_l, Hl, Nat2Z.id by done. by rewrite !(stake_all _ bm) by lia.
Qed.
Next Obligation.
  intros m q. cbn. unfold mqi_put, failed_call. pose proof (mqput_law (correlid m) (body m) q) as H.
  destruct (MQPUT _ _ q) as [[cc rc] q']. destruct (cc =? MQCC_FAILED).
  - pose proof H as [(Hg & Hd & Hh & Hs) _]. split; [by apply untouched_arrived|]. split_and!; try done. by left.
  - destruct H as (Hg & Hd & Hh & Hs & Hp). split_and!; try done; [|rewrite Hs; by destruct m].
    by apply same_arrived.
Qed.
Next Obligation.
  intros q. cbn. unfold mqi_commit, failed_call. pose proof (mqcmit_law q) as H.
  destruct (MQCMIT q) as [[cc rc] q']. destruct (Z.eqb_spec cc MQCC_OK) as [-> |_].
  - cbn. split; [by apply committed_arrived|]. destruct H as (? & ? & ? & ? & _). by left.
  - destruct (Z.eqb_spec cc MQCC_WARNING) as [-> |_].
    { cbn. destruct H as [_ H]. split; [by apply rolled_arrived|]. destruct H as (? & ? & ? & ? & _). by right. } destruct H as [-> H]. cbn.
    destruct H as [H|[H|H]]; (split; [first [by apply committed_arrived|by apply rolled_arrived|by apply untouched_arrived]|]).
    + left. destruct H as (? & ? & ? & ? & _). done.
    + right. destruct H as (? & ? & ? & ? & _). auto.
    + right. destruct H as [(? & ? & ? & ?) _]. auto.
Qed.
Next Obligation.
  intros q. cbn. unfold mqi_backout, failed_call. pose proof (mqback_law q) as H.
  destruct (MQBACK q) as [[cc rc] q']. destruct (Z.eqb_spec cc MQCC_OK) as [-> |_].
  - cbn. split; [by apply rolled_arrived|]. destruct H as (? & ? & ? & ? & _). done.
  - destruct H as [-> [H|H]]; cbn; (split; [first [by apply rolled_arrived|by apply untouched_arrived]|]).
    + destruct H as (? & ? & ? & ? & _). auto.
    + destruct H as [(? & ? & ? & ?) _]. auto.
Qed.

(** A commit that answers is one, where none completes with a warning. *)
Lemma mqi_sure : (∀ q, fst (fst (MQCMIT q)) ≠ MQCC_WARNING) → BrokerSure Q.
Proof.
  intros Hn q x Hok Hx. cbn in *. pose proof (mqcmit_law q) as H. specialize (Hn q). revert Hok.
  unfold mqi_commit, failed_call. destruct (MQCMIT q) as [[cc rc] q']. cbn in Hn.
  destruct (Z.eqb_spec cc MQCC_OK) as [-> |_].
  - intros _. cbn. destruct H as (_ & -> & _). apply elem_of_app. by right.
  - destruct (Z.eqb_spec cc MQCC_WARNING) as [-> |_]; [done|]. by destruct H as [-> _].
Qed.
End Implements.

(** A message that is longer than the buffer is published cut, again and again:
    the warning of MQGET is taken for success, the commit that follows holds
    nothing, and the message is still the first of the queue. *)
Lemma oversized_published_cut {N : Type} {NET : Net N} {Q : Type} {MQ : Mqi Q} {ML : MqiLaws Q} subject wait alive
  (s s' : MqSource N Q) u m rest :
  u_queue (work (ms_broker s)) = m :: rest → u_held (work (ms_broker s)) = [] →
  read_buf_len < Z.of_nat (slen (body m)) →
  gt_cc (fst (MQGET (Z.min wait i32_max) read_buf_len (ms_broker s))) ≠ MQCC_FAILED →
  is_ok (fst (net_store subject (stake (Z.to_nat read_buf_len) (body m)) (ms_net s))) = true →
  source_turn subject wait alive s = (Ok u, s') →
  ms_net s' = snd (net_store subject (stake (Z.to_nat read_buf_len) (body m)) (ms_net s)) ∧
  ∃ rest', u_queue (work (ms_broker s')) = m :: rest'.
Proof.
  unfold source_turn, mbind, sr_bind, ms_call. cbn [get_syncpoint mqi_broker]. unfold mqi_get.
  generalize read_buf_len. intros len Hq Hh Hlong Hcc Hst E.
  pose proof (mqget_law (Z.min wait i32_max) len (ms_broker s)) as H.
  destruct (MQGET _ _ (ms_broker s)) as [g q]. cbn [fst] in Hcc. rewrite (proj2 (Z.eqb_neq _ _) Hcc) in H, E.
  destruct H as (m' & rest' & Hq' & Hl & _ & Hb & H). rewrite Hq in Hq'. injection Hq' as <- <-.
  rewrite Hl in H. rewrite (proj2 (Z.ltb_lt _ _) Hlong) in H.
  destruct H as (_ & _ & (Hg & Hd & Hh' & Hs) & Hp).
  rewrite Hl in Hb, E. rewrite Z.min_r in Hb, E by lia. cbn [map_err] in E. unfold sr_out, ms_publish in E. cbn [body ms_net] in E.
  rewrite Hb, (stake_all _ (stake _ _)) in E by (rewrite slen_stake; lia).
  destruct (net_store subject _ (ms_net s)) as [r n]. destruct r as [z|e| |]; try done. cbn [ms_broker snd ms_net] in *.
  assert (prefix_of (m :: rest)%list (u_queue (work q))) as Hp' by (by rewrite <- Hq).
  cbn [commit mqi_broker] in E. unfold mqi_commit, failed_call in E. pose proof (mqcmit_law q) as Hc.
  destruct (MQCMIT q) as [[cc rc] q']. destruct (Z.eqb_spec cc MQCC_FAILED) as [|Hf]; [done|].
  injection E as _ <-. split; [done|]. cbn [ms_broker ms_set_fails].
  destruct (Z.eqb_spec cc MQCC_OK) as [|_]; [|destruct (Z.eqb_spec cc MQCC_WARNING) as [|_]; [|by destruct Hc]].
  - destruct Hc as (_ & _ & _ & _ & [new ->]). destruct Hp' as [x ->]. by eexists.
  - destruct Hc as (_ & (_ & _ & _ & _ & [new ->])). rewrite Hh', Hh. destruct Hp' as [x ->]. by eexists.
Qed.

(** ** A queue manager *)

(** Whether each commit to come is backed out instead. *)
Record SimMq : Type := { sq_work : Unit_; sq_warns : list bool }.

Definition sim_backed_out (u : Unit_) : Unit_ :=
  {| u_gone := u_gone u; u_held := []; u_queue := (u_held u ++ u_queue u)%list; u_staged := []; u_delivered := u_delivered u |}.

#[export] Instance sim_mqi : Mqi SimMq := {|
  MQGET _ len q :=
    let u := sq_work q in
    match u_queue u with
    | [] => ({| gt_cc := MQCC_FAILED; gt_rc := MQRC_NO_MSG_AVAILABLE; gt_len := 0; gt_buffer := ""; gt_correlid := "" |}, q)
    | m :: rest =>
      let n := Z.of_nat (slen (body m)) in
      let got := λ cc rc, {| gt_cc := cc; gt_rc := rc; gt_len := n; gt_correlid := correlid m;
                             gt_buffer := stake (Z.to_nat (Z.min n len)) (body m) |} in
      if len <? n then (got MQCC_WARNING MQRC_TRUNCATED_MSG_FAILED, q)
      else (got MQCC_OK 0, {| sq_work := {| u_gone := u_gone u; u_held := (u_held u ++ [m])%list; u_queue := rest;
                                            u_staged := u_staged u; u_delivered := u_delivered u |};
                              sq_warns := sq_warns q |})
    end;
  MQPUT c b q :=
    let u := sq_work q in
    (MQCC_OK, 0, {| sq_work := {| u_gone := u_gone u; u_held := u_held u; u_queue := u_queue u;
                                  u_staged := (u_staged u ++ [{| body := b; correlid := c |}])%list;
                                  u_delivered := u_delivered u |}; sq_warns := sq_warns q |});
  MQCMIT q :=
    let u := sq_work q in
    match sq_warns q with
    | true :: ws => (MQCC_WARNING, MQRC_BACKED_OUT, {| sq_work := sim_backed_out u; sq_warns := ws |})
    | ws => (MQCC_OK, 0,
             {| sq_work := {| u_gone := (u_gone u ++ u_held u)%list; u_held := []; u_queue := u_queue u; u_staged := [];
                              u_delivered := (u_delivered u ++ u_staged u)%list |}; sq_warns := drop 1 ws |})
    end;
  MQBACK q := (MQCC_OK, 0, {| sq_work := sim_backed_out (sq_work q); sq_warns := sq_warns q |})
|}.

#[export] Instance sim_mqi_laws : MqiLaws SimMq.
Proof.
  refine {| work := sq_work |}; intros.
  - destruct q as [[g h [|m rest] st d] ws]; cbn; [by repeat split|].
    destruct (len <? Z.of_nat (slen (body m))) eqn:E; cbn; exists m, rest; rewrite E; by repeat split.
  - destruct q as [[g h qs st d] ws]. by repeat split.
  - destruct q as [[g h qs st d] [|[] ws]]; cbn; by repeat split.
  - destruct q as [[g h qs st d] ws]; cbn; by repeat split.
Defined.

(** A commit that completes with a warning loses the message: the queue manager
    backed the put out, the bridge acknowledges the message to the bus. *)
Definition mq_order : Message := {| subject := "vx.out"; data := "{}"; reply := Some "$JS.ACK.1" |}.
Definition mq_warned : MqSink SimNet SimMq :=
  {| mk_broker := {| sq_work := {| u_gone := []; u_held := []; u_queue := []; u_staged := []; u_delivered := [] |};
                     sq_warns := [true] |};
     mk_link := sim_link; mk_asked := 0 |}.
Example warned_commit_loses :
  let s := snd (run_sink None (λ _, true) [Ok [mq_order]] mq_warned) in
  map (λ x, fst (snd x)) (taken (client (mk_link s))) = ["$JS.ACK.1"] ∧
  u_delivered (work (mk_broker s)) = [] ∧ u_staged (work (mk_broker s)) = [].
Proof. vm_compute. split; [|split]; reflexivity. Qed.

(** The source on a queue whose first commit is backed out with a warning: the
    message is published twice, and none is lost. *)
Definition mqi_start : MqSource SimNet SimMq :=
  {| ms_broker := {| sq_work := {| u_gone := []; u_held := []; u_queue := [plain "a"; plain "b"]; u_staged := [];
                                   u_delivered := [] |}; sq_warns := [true; false] |};
     ms_net := sim_start; ms_fails := 0; ms_asked := 0; ms_slept := [] |}.
Definition mqi_end : MqSource SimNet SimMq := snd (run_source "vx.q" 3000 (λ _, true) 2 mqi_start).
Example mqi_end_is : sim_stored (ms_net mqi_end) = [("vx.q", "a"); ("vx.q", "a")] ∧
  u_gone (work (ms_broker mqi_end)) = [plain "a"] ∧ u_queue (work (ms_broker mqi_end)) = [plain "b"].
Proof. vm_compute. split_and!; reflexivity. Qed.
Lemma mq_source_loses_none_witness :
  in_work (ms_broker mqi_start) = [] ∧
  ∃ out sent,
    gone (ms_broker mqi_end) = (gone (ms_broker mqi_start) ++ out)%list ∧
    stored (ms_net mqi_end) = (stored (ms_net mqi_start) ++ sent)%list ∧
    sublist (map (λ m, ("vx.q", body m)) out) sent ∧
    prefix_of (gone (ms_broker mqi_start) ++ waiting_on (ms_broker mqi_start))%list
              (gone (ms_broker mqi_start) ++ out ++ in_work (ms_broker mqi_end) ++ waiting_on (ms_broker mqi_end))%list ∧
    (length (in_work (ms_broker mqi_end)) <= 1)%nat.
Proof.
  split; [reflexivity|].
  refine (mq_source_loses_none "vx.q" 3000 (λ _, true) 2 mqi_start _). reflexivity.
Defined.

(** ** The descriptors of the client library *)

(** The C types of the fields, with their values: character and byte arrays,
    MQLONG, pointers (0 is null). *)
Inductive CField : Type := Chars (s : string) | Bytes (s : string) | Long (z : Z) | Ptr (p : Z).

(** A struct of #[repr(C)]: its fields in order. *)
Definition Struct : Type := list (string * CField).

Definition c_size (f : CField) : Z := match f with Chars s | Bytes s => Z.of_nat (slen s) | Long _ => 4 | Ptr _ => 8 end.
Definition c_align (f : CField) : Z := match f with Chars _ | Bytes _ => 1 | Long _ => 4 | Ptr _ => 8 end.

(** The layout of #[repr(C)]: each field at the next multiple of its
    alignment, the size a multiple of the largest. *)
Definition round_up (n a : Z) : Z := (n + a - 1) / a * a.
Fixpoint offsets (at_ : Z) (fs : Struct) : list (string * Z) :=
  match fs with
  | [] => []
  | (n, f) :: fs => let o := round_up at_ (c_align f) in (n, o) :: offsets (o + c_size f) fs
  end.
Fixpoint end_of (at_ : Z) (fs : Struct) : Z :=
  match fs with [] => at_ | (_, f) :: fs => end_of (round_up at_ (c_align f) + c_size f) fs end.
Definition size_of (fs : Struct) : Z := round_up (end_of 0 fs) (foldr Z.max 1 (map (λ f, c_align (snd f)) fs)).
(** Without padding, the fields follow one another. *)
Definition packed (fs : Struct) : Z := foldr Z.add 0 (map (λ f, c_size (snd f)) fs).

Definition filled (b : byte) (n : nat) : string := concat_strs (repeat (String b "") n).
Definition blanks : nat → string := filled " "%char.
Definition zeros : nat → string := filled Ascii.zero.
(** The first [n] bytes, in a field of [n] that the byte fills. *)
Definition padded (b : byte) (n : nat) (s : string) : string := stake n s ++ filled b (n - slen s).

(** connectors/mq/src/mqi.rs [cc48] *)
Definition cc48 (s : string) : string := padded " "%char 48 s.

(** connectors/mq/src/mqi.rs:83-112 [Mqcno] *)
Definition Mqcno : Struct :=
  [("StrucId", Chars "CNO "); ("Version", Long 1); ("Options", Long 0); ("ClientConnOffset", Long 0);
   ("ClientConnPtr", Ptr 0); ("ConnTag", Bytes (zeros 128)); ("SSLConfigPtr", Ptr 0); ("SSLConfigOffset", Long 0);
   ("ConnectionId", Bytes (zeros 24)); ("SecurityParmsOffset", Long 0); ("SecurityParmsPtr", Ptr 0)].

(** connectors/mq/src/mqi.rs:119-148 [Mqcsp] *)
Definition Mqcsp : Struct :=
  [("StrucId", Chars "CSP "); ("Version", Long 1); ("AuthenticationType", Long 0); ("Reserved1", Bytes (zeros 4));
   ("CSPUserIdPtr", Ptr 0); ("CSPUserIdOffset", Long 0); ("CSPUserIdLength", Long 0); ("Reserved2", Bytes (zeros 8));
   ("CSPPasswordPtr", Ptr 0); ("CSPPasswordOffset", Long 0); ("CSPPasswordLength", Long 0)].

(** connectors/mq/src/mqi.rs:151-172 [Mqod] *)
Definition Mqod : Struct :=
  [("StrucId", Chars "OD  "); ("Version", Long 1); ("ObjectType", Long 1); ("ObjectName", Chars (blanks 48));
   ("ObjectQMgrName", Chars (blanks 48)); ("DynamicQName", Chars (cc48 "AMQ.*")); ("AlternateUserId", Chars (blanks 12))].

(** connectors/mq/src/mqi.rs:175-233 [Mqmd] *)
Definition Mqmd : Struct :=
  [("StrucId", Chars "MD  "); ("Version", Long 1); ("Report", Long 0); ("MsgType", Long 8); ("Expiry", Long (-1));
   ("Feedback", Long 0); ("Encoding", Long 273); ("CodedCharSetId", Long 0); ("Format", Chars "MQSTR   ");
   ("Priority", Long (-1)); ("Persistence", Long 2); ("MsgId", Bytes (zeros 24)); ("CorrelId", Bytes (zeros 24));
   ("BackoutCount", Long 0); ("ReplyToQ", Chars (blanks 48)); ("ReplyToQMgr", Chars (blanks 48));
   ("UserIdentifier", Chars (blanks 12)); ("AccountingToken", Bytes (zeros 32)); ("ApplIdentityData", Chars (blanks 32));
   ("PutApplType", Long 0); ("PutApplName", Chars (blanks 28)); ("PutDate", Chars (blanks 8)); ("PutTime", Chars (blanks 8));
   ("ApplOriginData", Chars (blanks 4))].

Definition MQGMO_WAIT : Z := 0x1.
Definition MQGMO_SYNCPOINT : Z := 0x2.
Definition MQGMO_FAIL_IF_QUIESCING : Z := 0x2000.
Definition MQPMO_SYNCPOINT : Z := 0x2.
Definition MQPMO_FAIL_IF_QUIESCING : Z := 0x2000.
Definition MQPMO_NEW_MSG_ID : Z := 0x40.

(** connectors/mq/src/mqi.rs:236-257 [get_under_syncpoint] *)
Definition get_under_syncpoint (wait_ms : Z) : Struct :=
  [("StrucId", Chars "GMO "); ("Version", Long 1);
   ("Options", Long (Z.lor (Z.lor MQGMO_SYNCPOINT MQGMO_WAIT) MQGMO_FAIL_IF_QUIESCING));
   ("WaitInterval", Long wait_ms); ("Signal1", Long 0); ("Signal2", Long 0); ("ResolvedQName", Chars (blanks 48))].

(** connectors/mq/src/mqi.rs:260-287 [Mqpmo] *)
Definition Mqpmo : Struct :=
  [("StrucId", Chars "PMO "); ("Version", Long 1);
   ("Options", Long (Z.lor (Z.lor MQPMO_SYNCPOINT MQPMO_FAIL_IF_QUIESCING) MQPMO_NEW_MSG_ID)); ("Timeout", Long (-1));
   ("Context", Long 0); ("KnownDestCount", Long 0); ("UnknownDestCount", Long 0); ("InvalidDestCount", Long 0);
   ("ResolvedQName", Chars (blanks 48)); ("ResolvedQMgrName", Chars (blanks 48))].

(** The lengths of cmqc.h, and no padding anywhere, whatever the wait. *)
Lemma descriptor_lengths wait :
  map size_of [Mqod; Mqmd; get_under_syncpoint wait; Mqpmo; Mqcno; Mqcsp] = [168; 324; 72; 128; 200; 56] ∧
  map packed [Mqod; Mqmd; get_under_syncpoint wait; Mqpmo; Mqcno; Mqcsp] = [168; 324; 72; 128; 200; 56].
Proof. split; vm_compute; reflexivity. Qed.

(** ** Opening a queue *)

Fixpoint set_member (name : string) (v : CField) (fs : Struct) : Struct :=
  match fs with
  | [] => []
  | (n, f) :: fs => if String.eqb n name then (n, v) :: fs else (n, f) :: set_member name v fs
  end.
Definition member (name : string) (fs : Struct) : option CField :=
  option_map snd (find (λ f, String.eqb (fst f) name) fs).

(** MQCONNX with the name of the queue manager, the options, and what they
    point to: the security parameters with the two buffers; it gives a handle
    and codes.  MQOPEN likewise. *)
Class MqiConnect (Q : Type) := {
  MQCONNX : string → Struct → option (Struct * string * string) → Q → Z * Z * Z * Q;
  MQOPEN : Z → Struct → Z → Q → Z * Z * Z * Q;
  MQDISC : Z → Q → Q;
  MQCLOSE : Z → Z → Q → Q
}.

Section Open.
Context {Q : Type} {MC : MqiConnect Q} (env : string → option string).
(** Where the structures lie in memory. *)
Context (csp_at user_at pass_at : Z).

(** connectors/mq/src/mqi.rs:463-488 [MqiQueue::open] *)
Definition connect_options : Struct * option (Struct * string * string) :=
  match env_set env "VEJAS_MQ_USER", env_set env "VEJAS_MQ_PASSWORD" with
  | Some u, Some p =>
    let csp := set_member "AuthenticationType" (Long 1) Mqcsp in
    let csp := set_member "CSPUserIdPtr" (Ptr user_at) csp in
    let csp := set_member "CSPUserIdLength" (Long (Z.of_nat (Nat.min (slen u) 64))) csp in
    let csp := set_member "CSPPasswordPtr" (Ptr pass_at) csp in
    let csp := set_member "CSPPasswordLength" (Long (Z.of_nat (Nat.min (slen p) 256))) csp in
    (set_member "SecurityParmsPtr" (Ptr csp_at) (set_member "Version" (Long 5) Mqcno),
     Some (csp, padded Ascii.zero 64 u, padded Ascii.zero 256 p))
  | _, _ => (Mqcno, None)
  end.

Definition MQOO_FAIL_IF_QUIESCING : Z := 0x2000.
(** connectors/mq/src/mqi.rs:499-503 [MqiQueue::open] *)
Definition open_options (for_output : bool) : Z := Z.lor (if for_output then 0x10 else 0x1) MQOO_FAIL_IF_QUIESCING.

(** connectors/mq/src/mqi.rs [MqiQueue::open] *)
Definition mqi_open (qmgr queue : string) (for_output : bool) : sr Q string (Z * Z) := λ q,
  let '(cno, csp) := connect_options in
  let '(hconn, cc, rc, q) := MQCONNX (padded " "%char 48 qmgr) cno csp q in
  if cc =? MQCC_FAILED then
    (Err ("MQCONNX(" ++ qmgr ++ ") failed: CompCode=" ++ dec_of_Z cc ++ " Reason=" ++ dec_of_Z rc), q)
  else
    let od := set_member "ObjectName" (Chars (padded " "%char 48 queue)) Mqod in
    let '(hobj, cc, rc, q) := MQOPEN hconn od (open_options for_output) q in
    if cc =? MQCC_FAILED then
      (Err ("MQOPEN(" ++ queue ++ ") failed: CompCode=" ++ dec_of_Z cc ++ " Reason=" ++ dec_of_Z rc), MQDISC hconn q)
    else (Ok (hconn, hobj), q).

(** connectors/mq/src/mqi.rs [MqiQueue::drop] *)
Definition mqi_drop (h : Z * Z) (q : Q) : Q := MQDISC (fst h) (MQCLOSE (fst h) (snd h) q).
End Open.

(** The credentials reach the queue manager as they are, in buffers that hold
    them, when they are not longer than the MQI allows; without both of them
    the options are those of version 1 and point nowhere. *)
Lemma credentials_reach env csp_at user_at pass_at :
  match connect_options env csp_at user_at pass_at with
  | (cno, Some (csp, ub, pb)) => ∃ u p, env_set env "VEJAS_MQ_USER" = Some u ∧ env_set env "VEJAS_MQ_PASSWORD" = Some p ∧
      member "Version" cno = Some (Long 5) ∧ member "SecurityParmsPtr" cno = Some (Ptr csp_at) ∧
      slen ub = 64%nat ∧ slen pb = 256%nat ∧
      ((slen u <= 64)%nat → member "CSPUserIdLength" csp = Some (Long (Z.of_nat (slen u))) ∧ stake (slen u) ub = u) ∧
      ((slen p <= 256)%nat → member "CSPPasswordLength" csp = Some (Long (Z.of_nat (slen p))) ∧ stake (slen p) pb = p)
  | (cno, None) => member "Version" cno = Some (Long 1) ∧ member "SecurityParmsPtr" cno = Some (Ptr 0)
  end.
Proof.
  assert (∀ b n, slen (filled b n) = n) as Hf.
  { intros b n. induction n as [|n IH]; [done|]. unfold filled in *. cbn. by rewrite IH. }
  assert (∀ b n s, slen (padded b n s) = n) as Hp by (intros; unfold padded; rewrite slen_app, slen_stake, Hf; lia).
  assert (∀ b n s, (slen s <= n)%nat → stake (slen s) (padded b n s) = s) as Hs.
  { intros b n s H. unfold padded. rewrite (stake_all n s H). apply stake_app. }
  unfold connect_options. destruct (env_set env "VEJAS_MQ_USER") as [u|]; [|done].
  destruct (env_set env "VEJAS_MQ_PASSWORD") as [p|]; [|done]. exists u, p. rewrite !Hp. do 6 (split; [done|]).
  split; intros H; (split; [|by apply Hs]); cbn; by rewrite Nat.min_l by done.
Qed.
