(* ===== verification/BridgeLease.v ===== *)
(** * The leases of the bridges

    The MQ and AMQP processes take a lease of their own, in the bucket that the
    runtime uses (connectors/amqp/src/lease.rs, and the same text in
    connectors/mq/src/lease.rs): its configuration and key, the wait for it,
    its renewal and its release.  Bridges that contend for a key are a cluster
    in the sense of [Cluster]: their turns are its steps. *)

From stdpp Require Import base gmap list strings relations.
From Stdlib Require Import ZArith Lia Ascii.
From S2P Require Import Prelude Triples Text Store Cluster IbmMq.
Open Scope string_scope.
Open Scope Z_scope.

(** ** Configuration *)

(** connectors/amqp/src/lease.rs [lease_ttl] *)
Definition bridge_lease_ttl (env : string → option string) : Z :=
  let n := match env "VEJAS_LEASE_TTL_SECS" ≫= parse_u64 with
           | Some s => if 0 <? s then s else 10
           | None => 10
           end in
  secs n.

(** connectors/amqp/src/lease.rs [instance_id] *)
Definition bridge_instance_id (env : string → option string) (pid : Z) : string :=
  match env_set env "VEJAS_INSTANCE" with
  | Some v => v
  | None => default "host" (env_set env "HOSTNAME") ++ "-" ++ dec_of_Z pid
  end.

(** connectors/amqp/src/lease.rs [source_key] *)
Definition source_key (prefix queue : string) : string :=
  prefix ++ map_chars (λ c s, if is_ascii_alphanumeric c then s else "_") queue.

(** ** The lease *)

(** The guard and its renewal thread, which has ended when the lease is lost
    or it was told to stop. *)
(** connectors/amqp/src/lease.rs:70-75 [Lease] *)
Record Lease : Type := { le_key : string; le_rev : Z; le_stop_renew : bool; le_lost : bool }.

Section Lease.
Context {K : Type} {KO : KvOps K}.

(** connectors/amqp/src/lease.rs:108-117 [acquire_blocking] *)
Definition bridge_try (key id : string) (store : K) : option Lease * K :=
  match kv_create key id store with
  | (Ok rev, store) => (Some {| le_key := key; le_rev := rev; le_stop_renew := false; le_lost := false |}, store)
  | (_, store) => (None, store)
  end.

(** connectors/amqp/src/lease.rs:135-142 [acquire_blocking] *)
Definition bridge_renew (id : string) (l : Lease) (store : K) : Lease * K :=
  match kv_update (le_key l) id (le_rev l) store with
  | (Ok r, store) => ({| le_key := le_key l; le_rev := r; le_stop_renew := le_stop_renew l; le_lost := le_lost l |}, store)
  | (_, store) => ({| le_key := le_key l; le_rev := le_rev l; le_stop_renew := le_stop_renew l; le_lost := true |}, store)
  end.

(** connectors/amqp/src/lease.rs [drop] *)
Definition bridge_drop (l : Lease) (store : K) : res string () * K := kv_delete (le_key l) store.

(** The wait: the bucket and how often the flag was asked and a second slept. *)
(** connectors/amqp/src/lease.rs:104-115 [acquire_blocking] *)
Fixpoint bridge_acquire (alive : nat → bool) (key id : string) (n : nat) (asked : nat) (store : K)
  : res Empty_set (option Lease) * K :=
  match n with
  | O => (NoFuel, store)
  | S n =>
    if negb (alive asked) then (Ok None, store)
    else match bridge_try key id store with
         | (Some l, store) => (Ok (Some l), store)
         | (None, store) => bridge_acquire alive key id n (S asked) store
         end
  end.

(** ** A cluster of bridges *)

Record Bridges : Type := { b_bucket : K; b_leases : gmap string Lease }.

Context {KL : KvLaws K} {KS : KvSeq K} (key : string).

(** A turn: a renewal thread runs until it lost the lease. *)
Inductive bridge_step (s : Bridges) : Bridges → Prop :=
| bs_acquire p l b : b_leases s !! p = None → bridge_try key p (b_bucket s) = (Some l, b) →
    bridge_step s {| b_bucket := b; b_leases := <[p := l]> (b_leases s) |}
| bs_standby p b : b_leases s !! p = None → bridge_try key p (b_bucket s) = (None, b) →
    bridge_step s {| b_bucket := b; b_leases := b_leases s |}
| bs_renew p l l' b : b_leases s !! p = Some l → le_lost l = false → le_stop_renew l = false →
    bridge_renew p l (b_bucket s) = (l', b) →
    bridge_step s {| b_bucket := b; b_leases := <[p := l']> (b_leases s) |}
| bs_drop p l r b : b_leases s !! p = Some l → bridge_drop l (b_bucket s) = (r, b) →
    bridge_step s {| b_bucket := b; b_leases := delete p (b_leases s) |}
| bs_crash p : bridge_step s {| b_bucket := b_bucket s; b_leases := delete p (b_leases s) |}
| bs_age b : aged key (b_bucket s) b → bridge_step s {| b_bucket := b; b_leases := b_leases s |}.

(** The guard of the runtime that a lease is. *)
Definition as_guard (l : Lease) : LeaseGuard :=
  {| g_key := le_key l; g_stop_renew := le_stop_renew l; g_rev := le_rev l;
     g_renewing := negb (le_lost l); g_running := negb (le_lost l) |}.
Definition as_cluster (s : Bridges) : Cluster K := {| bucket := b_bucket s; guards := as_guard <$> b_leases s |}.

Definition bridges_initial (s : Bridges) : Prop := b_leases s = ∅ ∧ seq_ok (b_bucket s).
(** A bridge holds the lease when its revision is the one of the bucket. *)
Definition bridge_holds (s : Bridges) (p : string) : Prop :=
  ∃ l, b_leases s !! p = Some l ∧ option_map snd (view (b_bucket s) key) = Some (le_rev l).

Lemma bridge_turn s s' : bridge_step s s' → step key (as_cluster s) (as_cluster s').
Proof.
  assert (∀ p, b_leases s !! p = None → guards (as_cluster s) !! p = None) as Hnone.
  { intros p Hp. cbn. by rewrite lookup_fmap, Hp. }
  assert (∀ p l, b_leases s !! p = Some l → guards (as_cluster s) !! p = Some (as_guard l)) as Hsome.
  { intros p l Hp. cbn. by rewrite lookup_fmap, Hp. }
  intros [p l b Hp Ht|p b Hp Ht|p l l' b Hp Hl Hs Hr|p l r b Hp Hd|p|b Ha]; unfold as_cluster at 2; cbn [b_bucket b_leases].
  - rewrite fmap_insert. apply (s_acquire key (as_cluster s) p (as_guard l) b); [by apply Hnone|].
    revert Ht. unfold bridge_try, try_acquire. cbn [bucket as_cluster].
    destruct (kv_create _ _ _) as [[z|e| |] b1]; try done. by intros [= <- <-].
  - apply (s_standby key (as_cluster s) p b); [by apply Hnone|].
    revert Ht. unfold bridge_try, try_acquire. cbn [bucket as_cluster].
    destruct (kv_create _ _ _) as [[z|e| |] b1]; try done; by intros [= <-].
  - rewrite fmap_insert. apply (s_renew key (as_cluster s) p (as_guard l) (as_guard l') b); [by apply Hsome|cbn; by rewrite Hl|done|].
    revert Hr. unfold bridge_renew, renew. cbn [bucket as_cluster as_guard g_key g_rev].
    destruct (kv_update _ _ _ _) as [[z|e| |] b1]; intros [= <- <-]; unfold as_guard; cbn; by rewrite ?Hl.
  - rewrite fmap_delete. by apply (s_drop key (as_cluster s) p (as_guard l) r b); [apply Hsome|].
  - rewrite fmap_delete. apply (s_crash key (as_cluster s) p).
  - by apply (s_age key (as_cluster s) b).
Qed.

Lemma bridge_turns s s' : rtc bridge_step s s' → rtc (step key) (as_cluster s) (as_cluster s').
Proof. induction 1 as [|s s1 s2 H _ IH]; [done|]. eapply rtc_l; [by apply bridge_turn|done]. Qed.
End Lease.
Arguments Bridges K : clear implicits.

(** One bridge reads a queue: whatever the bridges, the bucket and the
    clock do, from bridges that stand by, each run is one of the runtime's own
    cluster, and at most one bridge holds the lease. *)
Theorem one_bridge_reads {K : Type} {KO : KvOps K} {KL : KvLaws K} {KS : KvSeq K} key (s0 s : Bridges K) p q :
  bridges_initial s0 → rtc (bridge_step key) s0 s →
  rtc (step key) (as_cluster s0) (as_cluster s) ∧
  (bridge_holds key s p → bridge_holds key s q → p = q).
Proof.
  intros [H0 Hok] Hr. pose proof (bridge_turns key s0 s Hr) as Hrun. split; [done|].
  assert (reachable key (as_cluster s)) as (_ & _ & Hd)%reachable_inv.
  { exists (as_cluster s0). split; [|done]. split; [|done]. cbn. by rewrite H0, fmap_empty. }
  intros (l & Hp & Hl) (m & Hq & Hm). apply (Hd p q (as_guard l) (as_guard m)); cbn; rewrite ?lookup_fmap, ?Hp, ?Hq; try done.
  congruence.
Qed.

(** Distinct queues can share a key, so that one of two bridges never reads. *)
Example source_key_collides : source_key "mq_source_" "ORDERS.IN" = source_key "mq_source_" "ORDERS-IN".
Proof. reflexivity. Qed.

Definition bridges_start : Bridges MapKv := {| b_bucket := empty_kv; b_leases := ∅ |}.
Definition bridge_a : option Lease * MapKv := bridge_try "mq_source_Q" "a" empty_kv.
Definition lease_a : Lease := default {| le_key := ""; le_rev := 0; le_stop_renew := false; le_lost := false |} (fst bridge_a).
Definition bridges_end : Bridges MapKv := {| b_bucket := snd bridge_a; b_leases := <["a" := lease_a]> ∅ |}.
Lemma one_bridge_reads_witness :
  bridges_initial bridges_start ∧ rtc (bridge_step "mq_source_Q") bridges_start bridges_end ∧
  bridge_holds "mq_source_Q" bridges_end "a" ∧
  rtc (step "mq_source_Q") (as_cluster bridges_start) (as_cluster bridges_end) ∧
  (bridge_holds "mq_source_Q" bridges_end "a" → bridge_holds "mq_source_Q" bridges_end "b" → "a" = "b").
Proof.
  assert (bridges_initial bridges_start) as H0.
  { split; [done|]. intros ???. cbn. by rewrite lookup_empty. }
  assert (rtc (bridge_step "mq_source_Q") bridges_start bridges_end) as H1.
  { apply rtc_once. apply (bs_acquire "mq_source_Q" bridges_start "a" lease_a (snd bridge_a)); reflexivity. }
  split; [exact H0|]. split; [exact H1|]. split; [exists lease_a; split; reflexivity|].
  exact (one_bridge_reads "mq_source_Q" bridges_start bridges_end "a" "b" H0 H1).
Defined.
