(* ===== verification/Csv.v ===== *)
(** * Comma-separated values

    The reader and the writer of the Salesforce connector
    (connectors/salesforce/src/main.rs): exports arrive and imports leave as
    CSV documents.  The reader works on bytes: what it looks for is ASCII, and
    no byte of a longer character is. *)

From stdpp Require Import base list strings.
From Stdlib Require Import ZArith Lia Ascii.
From S2P Require Import Prelude Text F64 Json Metrics Concrete.
Open Scope string_scope.

Definition comma : byte := ",".
Definition lf : byte := "010".
Definition cret : byte := "013".
Definition dq : byte := "034".

(** ** Reading *)

Definition push (field : string) (c : byte) : string := field ++ String c "".

(** The state of the loop: whether inside quotes, the field, the record and
    the records so far. *)
(** connectors/salesforce/src/main.rs:157-187 [parse_csv] *)
Fixpoint csv_loop (s : string) (in_quotes : bool) (field : string) (record : list string)
    (records : list (list string)) : list (list string) :=
  match s with
  | "" =>
    if negb (String.eqb field "") || negb (Nat.eqb (length record) 0)
    then (records ++ [record ++ [field]])%list else records
  | String c s =>
    if in_quotes then
      if Ascii.eqb c dq then
        match s with
        | String d s' =>
          if Ascii.eqb d dq then csv_loop s' true (push field dq) record records
          else csv_loop s false field record records
        | "" => csv_loop s false field record records
        end
      else csv_loop s true (push field c) record records
    else if Ascii.eqb c dq then csv_loop s true field record records
    else if Ascii.eqb c comma then csv_loop s false "" (record ++ [field])%list records
    else if Ascii.eqb c lf then csv_loop s false "" [] (records ++ [record ++ [field]])%list
    else if Ascii.eqb c cret then csv_loop s false field record records
    else csv_loop s false (push field c) record records
  end.

(** connectors/salesforce/src/main.rs [parse_csv] *)
Definition parse_csv (data : string) : list (list string) := csv_loop data false "" [] [].

(** ** Writing *)

Section Writing.
Context {SD : Serde}.

Definition cell_text (v : Value) : string :=
  match v with VString s => s | VNull => "" | other => to_json other end.

Definition special (c : byte) : bool := existsb (Ascii.eqb c) [comma; dq; lf; cret].
Definition has_special (s : string) : bool := existsb special (String.list_ascii_of_string s).

(** connectors/salesforce/src/main.rs [csv_cell] *)
Definition csv_cell (v : Value) : string :=
  let s := cell_text v in
  if has_special s then String dq (replace_byte dq (String dq (String dq "")) s ++ String dq "") else s.

Definition add_column (cols : list string) (k : string) : list string :=
  if existsb (String.eqb k) cols then cols else (cols ++ [k])%list.
(** The keys of the rows, in the order in which they are met. *)
(** connectors/salesforce/src/main.rs:351-358 [rows_to_csv] *)
Definition csv_columns (rows : list (smap Value)) : list string :=
  fold_left (λ cols r, fold_left add_column (map_keys r) cols) rows [].

Definition csv_line (cells : list Value) : string :=
  str_join (String comma "") (map csv_cell cells) ++ String lf "".
Definition row_cells (cols : list string) (r : smap Value) : list Value := map (λ c, default VNull (map_get c r)) cols.

(** connectors/salesforce/src/main.rs [rows_to_csv] *)
Definition rows_to_csv (rows : list (smap Value)) : list string * string :=
  let cols := csv_columns rows in
  (cols, concat_strs (csv_line (map VString cols) :: map (λ r, csv_line (row_cells cols r)) rows)).

(** ** What is written is read back *)

Lemma csv_plain s : has_special s = false → ∀ rest f rec recs,
  csv_loop (s ++ rest) false f rec recs = csv_loop rest false (f ++ s) rec recs.
Proof.
  unfold has_special. induction s as [|c s IH]; intros H rest f rec recs; [by rewrite app_nil_str|].
  cbn in H. apply orb_false_iff in H as [Hc Hs]. unfold special in Hc. cbn in Hc.
  repeat (apply orb_false_iff in Hc as [? Hc]).
  cbn [String.append csv_loop]. rewrite H0, H, H1, H2, IH by done. f_equal.
  unfold push. by rewrite <- app_assoc_str.
Qed.

Lemma csv_quoted s rest rec recs : (∀ c r, rest = String c r → c ≠ dq) → ∀ f,
  csv_loop (replace_byte dq (String dq (String dq "")) s ++ String dq rest) true f rec recs
  = csv_loop rest false (f ++ s) rec recs.
Proof.
  intros Hr. induction s as [|c s IH]; intros f.
  - rewrite app_nil_str. cbn [replace_byte map String.list_ascii_of_string str_join String.concat String.append csv_loop].
    rewrite Ascii.eqb_refl. destruct rest as [|d r]; [done|].
    rewrite (proj2 (Ascii.eqb_neq _ _)) by (by eapply Hr). done.
  - rewrite replace_byte_cons, <- app_assoc_str. destruct (Ascii.eqb_spec c dq) as [-> |Hc].
    + cbn [String.append csv_loop]. rewrite Ascii.eqb_refl, IH. f_equal. unfold push. by rewrite <- app_assoc_str.
    + cbn [String.append csv_loop]. rewrite (proj2 (Ascii.eqb_neq _ _) Hc), IH. f_equal. unfold push. by rewrite <- app_assoc_str.
Qed.

(** A cell, up to the byte that ends it. *)
Lemma csv_cell_read v rest rec recs : (∀ c r, rest = String c r → c ≠ dq) →
  csv_loop (csv_cell v ++ rest) false "" rec recs = csv_loop rest false (cell_text v) rec recs.
Proof.
  intros Hr. unfold csv_cell. cbn zeta. destruct (has_special (cell_text v)) eqn:E.
  - cbn [String.append csv_loop]. rewrite Ascii.eqb_refl, <- app_assoc_str. by apply csv_quoted.
  - by apply csv_plain.
Qed.

Lemma csv_line_read cells rest recs : cells ≠ [] →
  csv_loop (csv_line cells ++ rest) false "" [] recs = csv_loop rest false "" [] (recs ++ [map cell_text cells])%list.
Proof.
  intros Hne. unfold csv_line. rewrite <- app_assoc_str. change [map cell_text cells] with [[] ++ map cell_text cells]%list.
  generalize (@nil string) at 1 3. induction cells as [|v cells IH]; intros rec; [done|].
  destruct cells as [|w cells].
  - cbn [map str_join String.concat]. rewrite csv_cell_read; [done|]. by intros c r [= <- _].
  - cbn [map str_join String.concat] in *. rewrite <- app_assoc_str.
    rewrite csv_cell_read by (by intros c r [= <- _]).
    cbn [String.append csv_loop]. rewrite IH by done. f_equal. by rewrite <- app_assoc.
Qed.

Lemma csv_lines_read lines : Forall (.≠ []) lines → ∀ recs,
  csv_loop (concat_strs (map csv_line lines)) false "" [] recs = (recs ++ map (map cell_text) lines)%list.
Proof.
  induction 1 as [|l lines Hl _ IH]; intros recs; cbn [map concat_strs]; [cbn; by rewrite app_nil_r|].
  by rewrite csv_line_read, IH, <- app_assoc.
Qed.

Lemma add_columns_ne ks : ∀ cols, cols ≠ [] → fold_left add_column ks cols ≠ [].
Proof.
  induction ks as [|x ks IH]; intros cols Hc; [done|]. cbn. apply IH. unfold add_column.
  destruct (existsb _ _); [done|]. by destruct cols.
Qed.
Lemma columns_ne rows : Exists (.≠ []) rows → csv_columns rows ≠ [].
Proof.
  assert (∀ (rows : list (smap Value)) cols, cols ≠ [] →
    fold_left (λ cols r, fold_left add_column (map_keys r) cols) rows cols ≠ []) as Hout.
  { induction rows0 as [|x rows0 IH]; intros cols Hc; [done|]. cbn. by apply IH, add_columns_ne. }
  unfold csv_columns. generalize (@nil string) at 1. intros cols H. revert cols.
  induction H as [r rows Hr|r rows _ IH]; intros cols; cbn [fold_left]; [|apply IH].
  apply Hout. destruct r as [|[k v] r]; [done|]. cbn. apply add_columns_ne. unfold add_column.
  destruct (existsb _ _) eqn:E; [by destruct cols|by destruct cols].
Qed.

(** C9: what a bulk import uploads is what its rows say.  When some row has a
    key, reading the CSV document built from the rows gives the columns and
    then, for each row, the text of its cell under each column: a string as it
    is, null or a missing key as the empty text, anything else as its JSON,
    whatever commas, quotes and line breaks the texts hold. *)
Theorem csv_roundtrip rows :
  Exists (.≠ []) rows →
  parse_csv (snd (rows_to_csv rows)) =
    fst (rows_to_csv rows) :: map (λ r, map cell_text (row_cells (fst (rows_to_csv rows)) r)) rows.
Proof.
  intros Hc%columns_ne.
  unfold rows_to_csv, parse_csv. cbn [fst snd].
  rewrite <- (map_map (row_cells (csv_columns rows)) csv_line).
  change (csv_line (map VString (csv_columns rows)) :: map csv_line (map (row_cells (csv_columns rows)) rows))
    with (map csv_line (map VString (csv_columns rows) :: map (row_cells (csv_columns rows)) rows)).
  rewrite csv_lines_read.
  - cbn [map app]. rewrite !map_map. f_equal. cbn. by rewrite map_id.
  - constructor; [by destruct (csv_columns rows)|]. apply Forall_map, Forall_forall. intros x _.
    unfold row_cells. by destruct (csv_columns rows).
Qed.
End Writing.

Definition demo_rows : list (smap Value) :=
  [map_extend [] [("Name", VString ("a" ++ String comma (String dq (String lf "b")))); ("Size", VNumber (NInt 3))];
   map_extend [] [("Note", VNull)]].
Lemma csv_roundtrip_witness :
  Exists (.≠ []) demo_rows ∧
  parse_csv (snd (rows_to_csv demo_rows)) =
    fst (rows_to_csv demo_rows) :: map (λ r, map cell_text (row_cells (fst (rows_to_csv demo_rows)) r)) demo_rows ∧
  fst (rows_to_csv demo_rows) = ["Name"; "Size"; "Note"].
Proof.
  assert (Exists (.≠ []) demo_rows) as H by (left; done).
  split; [exact H|]. split; [exact (csv_roundtrip demo_rows H)|]. vm_compute. reflexivity.
Defined.
