(* ===== verification/Salesforce.v ===== *)
(** * The Salesforce connector

    The process that exports the result of a query and imports rows through the
    Bulk API (connectors/salesforce/src/main.rs).  Its requests go through the
    program curl, which reads them from a configuration file: the class [Curl].
    What it prints on its two outputs and how long it sleeps is part of the
    state; the loops that poll have fuel. *)

From stdpp Require Import base gmap list strings.
From Stdlib Require Import ZArith Lia Ascii.
From S2P Require Import Prelude Triples Text F64 Json Metrics Connect Api Csv Concrete.
Open Scope string_scope.
Open Scope Z_scope.

(** ** Requests *)

(** connectors/salesforce/src/main.rs [q] *)
Definition q (v : string) : string :=
  String quote (replace_byte quote (String backslash (String quote ""))
    (replace_byte backslash (String backslash (String backslash "")) v) ++ String quote "").

(** connectors/salesforce/src/main.rs [enc] *)
Definition enc : string → string := urlencode.

(** connectors/salesforce/src/main.rs:63-71 [http] *)
Definition curl_config (method url : string) (headers : list (string * string)) (has_body : bool) : string :=
  "silent" ++ newline ++ "show-error" ++ newline ++ "include" ++ newline ++
  "request = " ++ q method ++ newline ++ "url = " ++ q url ++ newline ++
  concat_strs (map (λ h, "header = " ++ q (fst h ++ ": " ++ snd h) ++ newline) headers) ++
  (if has_body then "data-binary = @-" ++ newline else "").

(** How a run of curl ends: not run (the file, the process, its input), or
    with a status and its outputs. *)
Inductive CurlEnd : Type := NotRun (e : string) | Ran (success : bool) (stdout stderr : string).
Class Curl (W : Type) := { curl : string → option string → W → CurlEnd * W }.

Definition crlf2 : string := cr ++ newline ++ cr ++ newline.

(** The headers of a block: its lines but the first, where a colon is. *)
(** connectors/salesforce/src/main.rs:130-137 [parse_response] *)
Definition response_headers (head : string) : list (string * string) :=
  omap (λ l, match split_once l ":" with Some (k, v) => Some (trim k, trim v) | None => None end) (drop 1 (lines head)).

(** connectors/salesforce/src/main.rs [parse_response] *)
Fixpoint parse_response_fuel (fuel : nat) (rest : string) : res string (Z * list (string * string) * string) :=
  match fuel with
  | O => NoFuel
  | S fuel =>
    '(head_, after) ← ok_or (split_once rest crlf2) "no header/body separator";
    let status_line := default "" (head (lines head_)) in
    code ← ok_or (split_whitespace status_line !! 1%nat ≫= parse_unsigned 65535) ("bad status line: " ++ status_line);
    if code =? 100 then parse_response_fuel fuel after
    else Ok (code, response_headers head_, after)
  end.
Definition parse_response (raw : string) : res string (Z * list (string * string) * string) :=
  parse_response_fuel (S (slen raw)) raw.

(** connectors/salesforce/src/main.rs [header] *)
Definition header (headers : list (string * string)) (name : string) : option string :=
  option_map snd (find (λ h, String.eqb (to_ascii_lowercase (fst h)) (to_ascii_lowercase name)) headers).

Section Salesforce.
Context {SD : Serde} {W : Type} {CU : Curl W} (env : string → option string).

Record Sf : Type := { sf_web : W; sf_out : list Value; sf_status : list Value; sf_slept : Z }.
Notation R := (sr Sf string).

(** connectors/salesforce/src/main.rs [env_or] *)
Definition sf_env (k d : string) : string := default d (env k).

(** connectors/salesforce/src/main.rs [emit] *)
Definition emit_row (v : Value) : R () := sr_mod (λ s,
  {| sf_web := sf_web s; sf_out := (sf_out s ++ [v])%list; sf_status := sf_status s; sf_slept := sf_slept s |}).
(** connectors/salesforce/src/main.rs [status] *)
Definition say (v : Value) : R () := sr_mod (λ s,
  {| sf_web := sf_web s; sf_out := sf_out s; sf_status := (sf_status s ++ [v])%list; sf_slept := sf_slept s |}).
Definition sf_sleep (ms : Z) : R () := sr_mod (λ s,
  {| sf_web := sf_web s; sf_out := sf_out s; sf_status := sf_status s; sf_slept := sf_slept s + ms |}).

(** connectors/salesforce/src/main.rs [http] *)
Definition http (method url : string) (headers : list (string * string)) (body : option string)
  : R (Z * list (string * string) * string) := λ s,
  let '(r, w) := curl (curl_config method url headers (if body then true else false)) body (sf_web s) in
  (match r with
   | NotRun e => Err e
   | Ran true out _ => parse_response (from_utf8_lossy out)
   | Ran false _ err => Err ("curl: " ++ trim (from_utf8_lossy err))
   end,
   {| sf_web := w; sf_out := sf_out s; sf_status := sf_status s; sf_slept := sf_slept s |}).

(** A request that must be answered with one status. *)
Definition expect (code : Z) (what : string) (m : R (Z * list (string * string) * string)) : R (list (string * string) * string) :=
  '(c, h, body) ← m;
  if c =? code then mret (h, body) else sr_fail (what ++ " (" ++ dec_of_Z c ++ "): " ++ trim body).
Definition as_json (body : string) : R Value :=
  sr_lift (ok_or (from_json (trim body)) "expected value").

(** ** Sessions and jobs *)

(** connectors/salesforce/src/main.rs [Session] *)
Record Session : Type := { ss_token : string; ss_instance : string }.

(** connectors/salesforce/src/main.rs [oauth] *)
Definition oauth : R Session :=
  let login := sf_env "SF_LOGIN_URL" "https://login.salesforce.com" in
  let grant := sf_env "SF_GRANT_TYPE" "password" in
  let form := "grant_type=" ++ enc grant ++ "&client_id=" ++ enc (sf_env "SF_CLIENT_ID" "") ++
              "&client_secret=" ++ enc (sf_env "SF_CLIENT_SECRET" "") ++
              (if String.eqb grant "password"
               then "&username=" ++ enc (sf_env "SF_USERNAME" "") ++ "&password=" ++ enc (sf_env "SF_PASSWORD" "") else "") in
  '(_, body) ← expect 200 "oauth failed"
    (http "POST" (login ++ "/services/oauth2/token") [("Content-Type", "application/x-www-form-urlencoded")] (Some form));
  v ← as_json body;
  token ← sr_lift (ok_or (as_str (vindex v "access_token")) "no access_token in token response");
  instance ← sr_lift (ok_or (as_str (vindex v "instance_url")) "no instance_url in token response");
  mret {| ss_token := token; ss_instance := instance |}.

(** connectors/salesforce/src/main.rs [auth] *)
Definition auth (s : Session) : list (string * string) := [("Authorization", "Bearer " ++ ss_token s)].
Definition auth_as (s : Session) (content_type : string) : list (string * string) :=
  (auth s ++ [("Content-Type", content_type)])%list.

Definition jobs_url (s : Session) (ver path : string) : string :=
  ss_instance s ++ "/services/data/" ++ ver ++ "/jobs/" ++ path.

(** connectors/salesforce/src/main.rs [create_job] *)
Definition create_job (s : Session) (ver query operation : string) : R string :=
  '(_, resp) ← expect 200 "create job failed"
    (http "POST" (jobs_url s ver "query") (auth_as s "application/json")
       (Some (to_json (obj [("operation", VString operation); ("query", VString query)]))));
  v ← as_json resp;
  sr_lift (ok_or (as_str (vindex v "id")) "no job id").

(** Poll a job until it completes, a second between two requests. *)
Fixpoint poll (fuel : nat) (what failed url : string) (s : Session) : R Value :=
  match fuel with
  | O => sr_lift NoFuel
  | S fuel =>
    '(_, resp) ← expect 200 what (http "GET" url (auth s) None);
    v ← as_json resp;
    let state := default "" (as_str (vindex v "state")) in
    if String.eqb state "JobComplete" then mret v
    else if String.eqb state "Failed" || String.eqb state "Aborted" then
      sr_fail (failed ++ " " ++ to_json (vindex v "state") ++ ": " ++ to_json (vindex v "errorMessage"))
    else
      _ ← say (obj [("stage", VString "poll"); ("state", VString state)]);
      _ ← sf_sleep 1000;
      poll fuel what failed url s
  end.

(** connectors/salesforce/src/main.rs [poll_job] *)
Definition poll_job (fuel : nat) (s : Session) (ver id : string) : R () :=
  _ ← poll fuel "poll failed" "job" (jobs_url s ver ("query/" ++ id)) s; mret ().

(** A record of a page under the columns of its head. *)
(** connectors/salesforce/src/main.rs:292-298 [stream_results] *)
Definition row_object (cols r : list string) : Value :=
  VObject (fold_left (λ m ic, map_insert (snd ic) (VString (default "" (r !! fst ic))) m) (imap pair cols) []).
Definition row_event (cols r : list string) : Value :=
  obj [("stream", VBool true); ("source", VString "salesforce"); ("row", row_object cols r)].

Fixpoint emit_rows (cols : list string) (data : list (list string)) : R () :=
  match data with
  | [] => mret ()
  | r :: data => _ ← emit_row (row_event cols r); emit_rows cols data
  end.

(** connectors/salesforce/src/main.rs:304-307 [stream_results] *)
Definition next_locator (h : list (string * string)) : option string :=
  match header h "Sforce-Locator" with
  | Some l => if String.eqb l "" || String.eqb l "null" then None else Some l
  | None => None
  end.

(** connectors/salesforce/src/main.rs [stream_results] *)
Fixpoint stream_pages (fuel : nat) (s : Session) (base : string) (max_records : Z) (locator : option string) (total : Z)
  : R Z :=
  match fuel with
  | O => sr_lift NoFuel
  | S fuel =>
    let url := base ++ "?maxRecords=" ++ dec_of_Z max_records ++
               (match locator with Some l => "&locator=" ++ enc l | None => "" end) in
    '(hd, body) ← expect 200 "results failed" (http "GET" url (auth s) None);
    let rows := parse_csv body in
    _ ← emit_rows (default [] (head rows)) (drop 1 rows);
    let total := total + Z.of_nat (length (drop 1 rows)) in
    match next_locator hd with
    | Some l => stream_pages fuel s base max_records (Some l) total
    | None => mret total
    end
  end.
Definition stream_results (fuel : nat) (s : Session) (ver id : string) (max_records : Z) : R Z :=
  stream_pages fuel s (jobs_url s ver ("query/" ++ id ++ "/results")) max_records None 0.

(** connectors/salesforce/src/main.rs [session] *)
Definition session : R Session :=
  let set := λ k, match env k with Some v => if String.eqb v "" then None else Some v | None => None end in
  match set "SF_ACCESS_TOKEN", set "SF_INSTANCE_URL" with
  | Some token, Some instance => mret {| ss_token := token; ss_instance := instance |}
  | _, _ => oauth
  end.

(** connectors/salesforce/src/main.rs [export_once] *)
Definition export_once (fuel : nat) (ver query operation : string) (max_records : Z) : R Z :=
  s ← session;
  _ ← say (obj [("stage", VString "auth"); ("instance", VString (ss_instance s))]);
  id ← create_job s ver query operation;
  _ ← say (obj [("stage", VString "job"); ("id", VString id)]);
  _ ← poll_job fuel s ver id;
  n ← stream_results fuel s ver id max_records;
  _ ← say (obj [("stage", VString "done"); ("rows", vint n); ("job", VString id)]);
  mret n.

(** ** Imports *)

(** connectors/salesforce/src/main.rs [poll_ingest] *)
Definition poll_ingest (fuel : nat) (s : Session) (ver id : string) : R Value :=
  poll fuel "poll ingest failed" "ingest job" (jobs_url s ver ("ingest/" ++ id)) s.

(** A sample of the records that failed; no answer where the request fails. *)
(** connectors/salesforce/src/main.rs [fetch_failed] *)
Definition fetch_failed (s : Session) (ver id : string) : R (option Value) :=
  r ← sr_out (http "GET" (jobs_url s ver ("ingest/" ++ id ++ "/failedResults")) (auth s) None);
  match r with
  | Ok (code, _, body) =>
    if code =? 200 then
      match parse_csv body with
      | head :: data =>
        let sample := map (row_object head) (take 20 data) in
        mret (Some (obj [("returned", vint (Z.of_nat (length sample))); ("total", vint (Z.of_nat (length data)));
                         ("rows", VArray sample)]))
      | [] => mret None
      end
    else mret None
  | Err _ => mret None
  | Panic => sr_lift Panic
  | NoFuel => sr_lift NoFuel
  end.

(** connectors/salesforce/src/main.rs [ingest] *)
Definition ingest (fuel : nat) (s : Session) (ver object operation external_id : string) (rows : list (smap Value)) : R Value :=
  let create := obj ([("object", VString object); ("operation", VString operation); ("contentType", VString "CSV");
                      ("lineEnding", VString "LF")] ++
                     (if String.eqb operation "upsert" && negb (String.eqb external_id "")
                      then [("externalIdFieldName", VString external_id)] else []))%list in
  let h := auth_as s "application/json" in
  '(_, resp) ← expect 200 "create ingest failed" (http "POST" (jobs_url s ver "ingest") h (Some (to_json create)));
  job ← as_json resp;
  id ← sr_lift (ok_or (as_str (vindex job "id")) "no ingest job id");
  _ ← say (obj [("stage", VString "ingest_job"); ("id", VString id); ("object", VString object); ("operation", VString operation)]);
  let '(_, csv) := rows_to_csv rows in
  _ ← expect 201 "upload failed" (http "PUT" (jobs_url s ver ("ingest/" ++ id ++ "/batches")) (auth_as s "text/csv") (Some csv));
  _ ← expect 200 "close failed" (http "PATCH" (jobs_url s ver ("ingest/" ++ id)) h
                                   (Some (to_json (obj [("state", VString "UploadComplete")]))));
  final_job ← poll_ingest fuel s ver id;
  let processed := default 0 (as_u64 (vindex final_job "numberRecordsProcessed")) in
  let failed := default 0 (as_u64 (vindex final_job "numberRecordsFailed")) in
  let out := [("ok", VBool (failed =? 0)); ("job", VString id); ("object", VString object); ("operation", VString operation);
              ("records", vint (Z.of_nat (length rows))); ("processed", vint processed); ("failed", vint failed);
              ("succeeded", vint (sat_sub processed failed))] in
  if 0 <? failed then
    errs ← fetch_failed s ver id;
    mret (obj (out ++ match errs with Some e => [("failures", e)] | None => [] end)%list)
  else mret (obj out).

(** connectors/salesforce/src/main.rs:487-502 [run_ingest] *)
Definition unwrap_row (v : Value) : option (smap Value) :=
  match v with
  | VObject m =>
    let inner := λ key, match m with
                        | [_] => match map_get key m with Some (VObject i) => Some i | _ => None end
                        | _ => None end in
    Some (default (default m (inner "fields")) (inner "row"))
  | _ => None
  end.

(** connectors/salesforce/src/main.rs:503-530 [run_ingest] *)
Definition read_rows (input : string) : list (smap Value) :=
  match from_json (trim input) with
  | Some (VArray arr) => omap unwrap_row arr
  | Some (VObject m) =>
    match (match map_get "rows" m with Some v => Some v | None => map_get "accounts" m end) with
    | Some (VArray arr) => omap unwrap_row arr
    | _ => match unwrap_row (VObject m) with Some r => [r] | None => [] end
    end
  | Some _ => []
  | None =>
    concat (map (λ line, let line := trim line in
      if String.eqb line "" then []
      else match from_json line with
           | Some (VArray arr) => omap unwrap_row arr
           | Some other => match unwrap_row other with Some r => [r] | None => [] end
           | None => []
           end) (lines input))
  end.

Definition refused_by (e : string) : Value := obj [("ok", VBool false); ("error", VString e)].

(** Import what is on the standard input; the exit status. *)
(** connectors/salesforce/src/main.rs [run_ingest] *)
Definition run_ingest (fuel : nat) (ver : string) (stdin : option string) : R Z :=
  r ← sr_out session;
  match r with
  | Err e => _ ← say (obj [("ok", VBool false); ("fatal", VBool true); ("error", VString e)]); mret 1
  | Panic => sr_lift Panic
  | NoFuel => sr_lift NoFuel
  | Ok s =>
    let object := sf_env "SF_OBJECT" "Account" in
    let operation := sf_env "SF_OPERATION" "insert" in
    let external_id := sf_env "SF_EXTERNAL_ID" "" in
    match stdin with
    | None => _ ← say (refused_by "read stdin failed"); mret 1
    | Some input =>
      match read_rows input with
      | [] =>
        _ ← say (obj [("ok", VBool true); ("note", VString "no rows to ingest")]);
        _ ← emit_row (obj [("ok", VBool true); ("processed", vint 0); ("created", vint 0)]);
        mret 0
      | rows =>
        r ← sr_out (ingest fuel s ver object operation external_id rows);
        match r with
        | Ok v => _ ← say v; _ ← emit_row v; mret 0
        | Err e => _ ← say (refused_by e); _ ← emit_row (refused_by e); mret 1
        | Panic => sr_lift Panic
        | NoFuel => sr_lift NoFuel
        end
      end
    end
  end.

(** The exports of the main loop; the exit status, or nothing when the rounds
    that are followed are over. *)
(** connectors/salesforce/src/main.rs:562-576 [main] *)
Fixpoint export_loop (rounds fuel : nat) (ver query operation : string) (max_records interval : Z) : R (option Z) :=
  match rounds with
  | O => mret None
  | S rounds =>
    r ← sr_out (export_once fuel ver query operation max_records);
    match r with
    | Ok _ => if interval =? 0 then mret (Some 0)
              else _ ← sf_sleep (interval * 1000); export_loop rounds fuel ver query operation max_records interval
    | Err e => _ ← say (refused_by e);
               if interval =? 0 then mret (Some 1)
               else _ ← sf_sleep (interval * 1000); export_loop rounds fuel ver query operation max_records interval
    | Panic => sr_lift Panic
    | NoFuel => sr_lift NoFuel
    end
  end.

(** connectors/salesforce/src/main.rs:542-577 [main] *)
Definition salesforce_main (rounds fuel : nat) (arg stdin : option string) : R (option Z) :=
  let ver := sf_env "SF_API_VERSION" "v60.0" in
  let mode := default "" (match arg with Some a => Some a | None => env "SF_MODE" end) in
  if String.eqb mode "ingest" then
    code ← run_ingest fuel ver stdin; mret (Some code)
  else
    match env "SF_QUERY" with
    | Some query =>
      if String.eqb query "" then
        _ ← say (obj [("ok", VBool false); ("fatal", VBool true); ("error", VString "SF_QUERY required")]); mret (Some 1)
      else
        export_loop rounds fuel ver query (sf_env "SF_QUERY_OPERATION" "query")
          (default 10000 (parse_u64 (sf_env "SF_MAX_RECORDS" "10000"))) (default 0 (parse_u64 (sf_env "SF_INTERVAL_SECS" "0")))
    | None =>
      _ ← say (obj [("ok", VBool false); ("fatal", VBool true); ("error", VString "SF_QUERY required")]); mret (Some 1)
    end.
End Salesforce.
Arguments Sf W : clear implicits.

(** ** An export is all the pages, once *)

(** The program with its log: each configuration, each body and the end. *)
Definition CurlLog : Type := list (string * option string * CurlEnd).
Definition logging (answers : CurlLog → string → option string → CurlEnd) : Curl CurlLog :=
  {| curl cfg body log := let r := answers log cfg body in (r, (log ++ [(cfg, body, r)])%list) |}.

(** What the connector reads in the end of a run. *)
Definition answered (e : CurlEnd) : res string (Z * list (string * string) * string) :=
  match e with
  | NotRun e => Err e
  | Ran true out _ => parse_response (from_utf8_lossy out)
  | Ran false _ err => Err ("curl: " ++ trim (from_utf8_lossy err))
  end.

Definition page_url (base : string) (max_records : Z) (locator : option string) : string :=
  base ++ "?maxRecords=" ++ dec_of_Z max_records ++ (match locator with Some l => "&locator=" ++ enc l | None => "" end).
Definition page_events (body : string) : list Value :=
  let rows := parse_csv body in map (row_event (default [] (head rows))) (drop 1 rows).

(** Requests for pages, each for the one that the answer before points to,
    until an answer points to none; with the bodies. *)
Fixpoint pages_asked (s : Session) (base : string) (max_records : Z) (locator : option string)
    (exs : CurlLog) (bodies : list string) : Prop :=
  match exs, bodies with
  | (cfg, b, r) :: exs, body :: bodies =>
    cfg = curl_config "GET" (page_url base max_records locator) (auth s) false ∧ b = None ∧
    ∃ hd, answered r = Ok (200, hd, body) ∧
      match next_locator hd with
      | Some l => pages_asked s base max_records (Some l) exs bodies
      | None => exs = [] ∧ bodies = []
      end
  | _, _ => False
  end.

Section Exact.
Context {SD : Serde} (answers : CurlLog → string → option string → CurlEnd).
#[local] Hint Extern 0 (Curl CurlLog) => exact (logging answers) : typeclass_instances.
Notation Sf := (Sf CurlLog).
Implicit Types s : Sf.

(** A request is one entry of the log. *)
Lemma http_logged m url hs b s : 
  let '(r, s') := http m url hs b s in
  ∃ e, sf_web s' = (sf_web s ++ [(curl_config m url hs (if b then true else false), b, e)])%list ∧ r = answered e ∧
       sf_out s' = sf_out s.
Proof. unfold http. cbn. eexists. done. Qed.

Lemma expect_Ok code what m s h body s' :
  expect code what m s = (Ok (h, body), s') → m s = (Ok (code, h, body), s').
Proof.
  unfold expect, mbind, sr_bind. destruct (m s) as [[[[c h'] b']|e| |] s1]; try done.
  destruct (Z.eqb_spec c code) as [-> |]; [|done]. by intros [= -> -> ->].
Qed.

Lemma emit_rows_out cols data : ∀ s, emit_rows cols data s =
  (Ok (), {| sf_web := sf_web s; sf_out := (sf_out s ++ map (row_event cols) data)%list;
             sf_status := sf_status s; sf_slept := sf_slept s |}).
Proof.
  induction data as [|r data IH]; intros s.
  - cbn. rewrite app_nil_r. by destruct s.
  - cbn [emit_rows map]. unfold mbind, sr_bind, emit_row, sr_mod. rewrite IH. cbn. by rewrite <- app_assoc.
Qed.

Lemma pages_exact fuel (ss : Session) base mx : ∀ locator total s n s',
  stream_pages fuel ss base mx locator total s = (Ok n, s') →
  ∃ exs bodies, sf_web s' = (sf_web s ++ exs)%list ∧ pages_asked ss base mx locator exs bodies ∧
    sf_out s' = (sf_out s ++ concat (map page_events bodies))%list ∧
    n = total + Z.of_nat (length (concat (map page_events bodies))).
Proof.
  induction fuel as [|fuel IH]; intros locator total s n s' E; [done|].
  cbn [stream_pages] in E. apply sr_bind_Ok in E as ([hd body] & s1 & E1 & E).
  apply expect_Ok in E1. fold (page_url base mx locator) in E1.
  pose proof (http_logged "GET" (page_url base mx locator) (auth ss) None s) as H. rewrite E1 in H.
  destruct H as (e & Hw & Hr & Ho). symmetry in Hr.
  apply sr_bind_Ok in E as ([] & s2 & E2 & E). rewrite emit_rows_out in E2. injection E2 as <-.
  assert (length (page_events body) = length (drop 1 (parse_csv body))) as Hlen by (unfold page_events; by rewrite length_map).
  destruct (next_locator hd) as [l|] eqn:Hn.
  - apply IH in E as (exs & bodies & Hw' & Hp & Ho' & Hnum). cbn [sf_web sf_out] in *.
    exists ((curl_config "GET" (page_url base mx locator) (auth ss) false, None, e) :: exs), (body :: bodies).
    split; [by rewrite Hw', Hw, <- app_assoc|]. split; [|split].
    + cbn. split; [done|]. split; [done|]. exists hd. split; [done|]. by rewrite Hn.
    + cbn. rewrite Ho', Ho, <- app_assoc. done.
    + cbn [map concat]. rewrite length_app, Hlen, Hnum. lia.
  - injection E as <- <-. cbn [sf_web sf_out].
    exists [(curl_config "GET" (page_url base mx locator) (auth ss) false, None, e)], [body].
    split; [done|]. split; [|split].
    + cbn. split; [done|]. split; [done|]. exists hd. split; [done|]. by rewrite Hn.
    + cbn. by rewrite Ho, app_nil_r.
    + cbn. by rewrite app_nil_r, Hlen.
Qed.

(** What comes before the pages leaves nothing on the data channel. *)
Definition quiet (s0 : Sf) (s : Sf) : Prop := sf_out s = sf_out s0 ∧ ∃ before, sf_web s = (sf_web s0 ++ before)%list.
Lemma quiet_http s0 m url hs b : keeps (quiet s0) (http m url hs b).
Proof.
  intros s [Ho [l Hw]]. pose proof (http_logged m url hs b s) as H. destruct (http m url hs b s) as [r s'].
  destruct H as (e & He & _ & Ho'). split; [by rewrite <- Ho|]. eexists. cbn. by rewrite He, Hw, <- app_assoc.
Qed.
Lemma quiet_say s0 v : keeps (quiet s0) (say v).
Proof. by intros s Hs. Qed.
Lemma quiet_sleep s0 ms : keeps (quiet s0) (sf_sleep ms).
Proof. by intros s Hs. Qed.
Lemma quiet_fail {A} s0 e : keeps (quiet s0) (sr_fail e : sr Sf string A).
Proof. by intros s Hs. Qed.
#[local] Hint Resolve quiet_http quiet_say quiet_sleep quiet_fail : keeps.
Lemma quiet_expect s0 c w m : keeps (quiet s0) m → keeps (quiet s0) (expect c w m).
Proof. intros Hm. unfold expect. keeps_walk. Qed.
#[local] Hint Resolve quiet_expect : keeps.
Lemma quiet_json s0 b : keeps (quiet s0) (as_json b).
Proof. unfold as_json. keeps_walk. Qed.
#[local] Hint Resolve quiet_json : keeps.
Lemma quiet_session env s0 : keeps (quiet s0) (session env).
Proof. unfold session, oauth. keeps_walk. Qed.
Lemma quiet_create ss ver query op s0 : keeps (quiet s0) (create_job ss ver query op).
Proof. unfold create_job. keeps_walk. Qed.
Lemma quiet_poll fuel what failed url ss s0 : keeps (quiet s0) (poll fuel what failed url ss).
Proof. induction fuel as [|fuel IH]; cbn [poll]; [by intros s Hs|]. keeps_walk. Qed.
#[local] Hint Resolve quiet_session quiet_create quiet_poll : keeps.
End Exact.

(** C34: an export is the pages of its job, once and in order: when it returns,
    the last requests were for the first page and for each that the page before
    pointed to, all were answered 200, and what was printed is one event for
    each row of these pages; the number returned is theirs.  The session and the
    job's id are what the answers before them gave, and which page is next is
    read from an answer as [next_locator] reads it. *)
Theorem export_exact {SD : Serde} answers env fuel ver query operation max_records (s s' : Sf CurlLog) n :
  @export_once SD CurlLog (logging answers) env fuel ver query operation max_records s = (Ok n, s') →
  ∃ ss id before exs bodies,
    sf_web s' = (sf_web s ++ before ++ exs)%list ∧
    pages_asked ss (jobs_url ss ver ("query/" ++ id ++ "/results")) max_records None exs bodies ∧
    sf_out s' = (sf_out s ++ concat (map page_events bodies))%list ∧
    n = Z.of_nat (length (concat (map page_events bodies))).
Proof.
  unfold export_once. intros E.
  apply sr_bind_Ok in E as (ss & s1 & E1 & E). apply sr_bind_Ok in E as ([] & s2 & E2 & E).
  apply sr_bind_Ok in E as (id & s3 & E3 & E). apply sr_bind_Ok in E as ([] & s4 & E4 & E).
  apply sr_bind_Ok in E as ([] & s5 & E5 & E). apply sr_bind_Ok in E as (m & s6 & E6 & E).
  apply sr_bind_Ok in E as ([] & s7 & E7 & E). injection E as <- <-.
  injection E7 as <-. cbn [sf_web sf_out].
  assert (quiet s s5) as [Ho [before Hw]].
  { assert (quiet s s1) as H1.
    { pose proof (quiet_session answers env s s) as H. rewrite E1 in H. apply H. split; [done|]. exists []. by rewrite app_nil_r. }
    pose proof (quiet_say s (obj [("stage", VString "auth"); ("instance", VString (ss_instance ss))]) s1 H1) as H2.
    rewrite E2 in H2. pose proof (quiet_create answers ss ver query operation s s2 H2) as H3. rewrite E3 in H3.
    pose proof (quiet_say s (obj [("stage", VString "job"); ("id", VString id)]) s3 H3) as H4. rewrite E4 in H4.
    apply sr_bind_Ok in E5 as (v & s5' & E5 & E5'). injection E5' as <-.
    pose proof (quiet_poll answers fuel "poll failed" "job" (jobs_url ss ver ("query/" ++ id)) ss s s4 H4) as H5.
    by rewrite E5 in H5. }
  apply pages_exact in E6 as (exs & bodies & Hw6 & Hp & Ho6 & Hn).
  exists ss, id, before, exs, bodies. rewrite Hw6, Hw, Ho6, Ho, <- app_assoc. done.
Qed.

(** A server with a job of two pages. *)
Definition http_ok (extra body : string) : CurlEnd :=
  Ran true ("HTTP/1.1 200 OK" ++ cr ++ newline ++ extra ++ cr ++ newline ++ body) "".
Definition sf_server (log : CurlLog) (cfg : string) (body : option string) : CurlEnd :=
  match length log with
  | 0%nat => http_ok "" (to_json (obj [("id", VString "7")]))
  | 1%nat => http_ok "" (to_json (obj [("state", VString "JobComplete")]))
  | 2%nat => http_ok ("Sforce-Locator: p2" ++ cr ++ newline) ("Id,Name" ++ newline ++ "1,a" ++ newline ++ "2,b" ++ newline)
  | _ => http_ok "" ("Id,Name" ++ newline ++ "3,c" ++ newline)
  end.
Definition sf_env_demo (k : string) : option string :=
  if String.eqb k "SF_ACCESS_TOKEN" then Some "t" else if String.eqb k "SF_INSTANCE_URL" then Some "https://i" else None.
Definition sf_start : Sf CurlLog := {| sf_web := []; sf_out := []; sf_status := []; sf_slept := 0 |}.
Definition sf_export : res string Z * Sf CurlLog :=
  @export_once _ CurlLog (logging sf_server) sf_env_demo 5 "v60.0" "SELECT Id, Name FROM Account" "query" 10000 sf_start.
Lemma export_exact_witness :
  sf_export = (Ok 3, snd sf_export) ∧ length (sf_out (snd sf_export)) = 3%nat ∧
  ∃ ss id before exs bodies,
    sf_web (snd sf_export) = (sf_web sf_start ++ before ++ exs)%list ∧
    pages_asked ss (jobs_url ss "v60.0" ("query/" ++ id ++ "/results")) 10000 None exs bodies ∧
    sf_out (snd sf_export) = (sf_out sf_start ++ concat (map page_events bodies))%list ∧
    3 = Z.of_nat (length (concat (map page_events bodies))).
Proof.
  assert (sf_export = (Ok 3, snd sf_export)) as H by (vm_compute; reflexivity).
  split; [exact H|]. split; [vm_compute; reflexivity|].
  exact (export_exact sf_server sf_env_demo 5 "v60.0" "SELECT Id, Name FROM Account" "query" 10000 sf_start (snd sf_export) 3 H).
Defined.

(** Only a block of status 100 is passed over: any other informational answer
    is taken for the response. *)
Example early_hints_taken :
  (match parse_response ("HTTP/1.1 103 Early Hints" ++ crlf2 ++ "HTTP/1.1 200 OK" ++ crlf2 ++ "{}") with
   | Ok (code, _, _) => Some code | _ => None end) = Some 103.
Proof. vm_compute. reflexivity. Qed.

(** A line break in a value ends its line of the configuration, and what
    follows is a line of its own. *)
Example line_break_adds_option :
  existsb (λ l, starts_with l "output = ") (lines (curl_config "GET" ("https://i" ++ newline ++ "output = f") [] false)) = true.
Proof. vm_compute. reflexivity. Qed.
