(* ===== verification/Utf16.v ===== *)
(** * UTF-16

    The text of the SAP library is UTF-16 and ends with a zero
    (connectors/sap-rfc/src/main.rs): the conversions from and to UTF-8
    strings, with the encodings of [char] they rest on. *)

From stdpp Require Import base list strings.
From Stdlib Require Import NArith ZArith Lia Ascii.
From S2P Require Import Prelude Text.
Open Scope string_scope.
Open Scope N_scope.

(** [char::encode_utf8]. *)
Definition cont (n : N) : byte := ascii_of_N (128 + n mod 64).
Definition char_utf8 (n : N) : string :=
  if n <? 128 then String (ascii_of_N n) ""
  else if n <? 2048 then String (ascii_of_N (192 + n / 64)) (String (cont n) "")
  else if n <? 65536 then String (ascii_of_N (224 + n / 4096)) (String (cont (n / 64)) (String (cont n) ""))
  else String (ascii_of_N (240 + n / 262144)) (String (cont (n / 4096)) (String (cont (n / 64)) (String (cont n) ""))).

(** [char::encode_utf16]: a unit, or two surrogates. *)
Definition char_utf16 (n : N) : list N :=
  if n <? 65536 then [n]
  else let m := n - 65536 in [55296 + m / 1024; 56320 + m mod 1024].

Definition high_surrogate (u : N) : bool := (55296 <=? u) && (u <? 56320).
Definition low_surrogate (u : N) : bool := (56320 <=? u) && (u <? 57344).

(** The characters of [String::from_utf16_lossy]: a surrogate that has no
    partner is replaced. *)
Fixpoint utf16_chars (l : list N) : list N :=
  match l with
  | [] => []
  | u :: r =>
    if high_surrogate u then
      match r with
      | v :: r' =>
        if low_surrogate v then (65536 + (u - 55296) * 1024 + (v - 56320)) :: utf16_chars r'
        else 65533 :: utf16_chars r
      | [] => [65533]
      end
    else if low_surrogate u then 65533 :: utf16_chars r
    else u :: utf16_chars r
  end.

(** connectors/sap-rfc/src/main.rs [to_uc] *)
Definition to_uc (s : string) : list N := (concat (map char_utf16 (chars s)) ++ [0])%list.

Fixpoint until_zero (l : list N) : list N :=
  match l with [] => [] | u :: r => if u =? 0 then [] else u :: until_zero r end.

(** connectors/sap-rfc/src/main.rs [from_uc] *)
Definition from_uc (buf : list N) : string :=
  trim_end (concat_strs (map char_utf8 (utf16_chars (until_zero buf)))).

(** ** The two conversions *)

Lemma lor_shift h k l : l < 2 ^ k → N.lor (N.shiftl h k) l = h * 2 ^ k + l.
Proof.
  intros Hl. assert (N.land (h * 2 ^ k) l = 0) as H0.
  { apply N.bits_inj. intros i. rewrite N.land_spec, N.bits_0.
    destruct (N.lt_ge_cases i k) as [Hi|Hi]; [by rewrite N.mul_pow2_bits_low|].
    rewrite (N.mod_small l (2 ^ k)) at 1 || idtac. rewrite <- (N.mod_small l (2 ^ k)) by done.
    by rewrite N.mod_pow2_bits_high, andb_false_r. }
  rewrite N.shiftl_mul_pow2. by rewrite <- N.lxor_lor, <- N.add_nocarry_lxor.
Qed.
Lemma low6_mod b : low6 b = bval b mod 64.
Proof. unfold low6. change 63 with (N.ones 6). by rewrite N.land_ones. Qed.
Lemma land_mod n k : N.land n (N.ones k) = n mod 2 ^ k.
Proof. apply N.land_ones. Qed.

(** A scalar value: what a character of a string is. *)
Definition scalar (v : N) : Prop := v < 55296 ∨ 57344 <= v < 1114112.

#[local] Ltac Zify.zify_post_hook ::= Z.to_euclidean_division_equations.

Lemma byte_of b n : n = bval b → ascii_of_N n = b.
Proof. intros ->. apply ascii_N_embedding. Qed.
Lemma cont_of b n : 128 <= bval b <= 191 → n mod 64 = bval b - 128 → cont n = b.
Proof. intros Hb Hn. apply byte_of. unfold bval in *. lia. Qed.
Lemma in_range_spec lo hi b : in_range lo hi b = true → lo <= bval b <= hi.
Proof. unfold in_range. intros H. bool_prop. lia. Qed.

Definition seq2 (a b : N) : N := (a - 192) * 64 + (b - 128).
Definition seq3 (a b c : N) : N := (a - 224) * 4096 + (b - 128) * 64 + (c - 128).
Definition seq4 (a b c d : N) : N := (a - 240) * 262144 + (b - 128) * 4096 + (c - 128) * 64 + (d - 128).

(** The second byte, with what it excludes. *)
Lemma second_ok_spec a b : second_ok a b = true → 224 <= bval a <= 244 →
  128 <= bval b <= 191 ∧ (bval a = 224 → 160 <= bval b) ∧ (bval a = 237 → bval b <= 159) ∧
  (bval a = 240 → 144 <= bval b) ∧ (bval a = 244 → bval b <= 143).
Proof.
  unfold second_ok, is_cont. intros H Ha.
  repeat case_match; apply in_range_spec in H; repeat split; intros; lia.
Qed.

Lemma width_spec a :
  match utf8_width a with
  | 1%nat => bval a < 128
  | 2%nat => 194 <= bval a <= 223
  | 3%nat => 224 <= bval a <= 239
  | 4%nat => 240 <= bval a <= 244
  | _ => True
  end.
Proof.
  unfold utf8_width. destruct (N.ltb_spec (bval a) 128); [done|].
  repeat match goal with |- context [if ?b then _ else _] => destruct b eqn:? end; bool_prop; lia.
Qed.

(** A character of a string is a scalar value, and its bytes are its encoding. *)
Lemma step_scalar s v bs r : utf8_step s = Some (Some v, bs, r) → scalar v ∧ char_utf8 v = bs.
Proof.
  destruct s as [|a s]; [done|]. unfold utf8_step. pose proof (width_spec a) as Hw.
  destruct (utf8_width a) as [|[|[|[|[|w]]]]]; try done.
  - intros [= <- <- _]. split; [left; lia|]. unfold char_utf8. rewrite (proj2 (N.ltb_lt _ _) Hw). by rewrite (byte_of a).
  - destruct s as [|b s]; [done|]. destruct (is_cont b) eqn:Eb; [|done]. intros [= <- <- _].
    apply in_range_spec in Eb. change 31 with (N.ones 5). rewrite land_mod, low6_mod, (lor_shift _ 6) by (apply N.mod_lt; done).
    change (2 ^ 5) with 32. change (2 ^ 6) with 64.
    set (x := bval a) in *. set (y := bval b) in *.
    assert (x mod 32 * 64 + y mod 64 = (x - 192) * 64 + (y - 128)) as -> by lia.
    set (v := (x - 192) * 64 + (y - 128)). assert (128 <= v < 2048) as Hv by (subst v; lia).
    split; [left; lia|]. unfold char_utf8. rewrite (proj2 (N.ltb_ge _ _)), (proj2 (N.ltb_lt v 2048)) by lia.
    rewrite (byte_of a), (cont_of b); [done| | |]; subst v x y; lia.
  - destruct s as [|b s]; [done|]. destruct (second_ok a b) eqn:Eb; [|done].
    destruct s as [|c s]; [done|]. destruct (is_cont c) eqn:Ec; [|done]. intros [= <- <- _].
    apply second_ok_spec in Eb; [|lia]. apply in_range_spec in Ec.
    change 15 with (N.ones 4). rewrite land_mod, !low6_mod, (lor_shift _ 6) by (apply N.mod_lt; done).
    assert (bval b mod 64 * 2 ^ 6 + bval c mod 64 < 2 ^ 12) as Hl by (change (2 ^ 6) with 64; change (2 ^ 12) with 4096; lia).
    rewrite (lor_shift _ 12) by done. change (2 ^ 4) with 16. change (2 ^ 6) with 64. change (2 ^ 12) with 4096. clear Hl.
    set (x := bval a) in *. set (y := bval b) in *. set (z := bval c) in *.
    assert (x mod 16 * 4096 + (y mod 64 * 64 + z mod 64) = (x - 224) * 4096 + (y - 128) * 64 + (z - 128)) as -> by lia.
    set (v := (x - 224) * 4096 + (y - 128) * 64 + (z - 128)). assert (2048 <= v < 65536) as Hv by (subst v; lia).
    split; [unfold scalar; subst v; lia|]. unfold char_utf8.
    rewrite !(proj2 (N.ltb_ge _ _)), (proj2 (N.ltb_lt v 65536)) by lia.
    rewrite (byte_of a), (cont_of b), (cont_of c); [done| | | | |]; subst v x y z; lia.
  - destruct s as [|b s]; [done|]. destruct (second_ok a b) eqn:Eb; [|done].
    destruct s as [|c s]; [done|]. destruct (is_cont c) eqn:Ec; [|done].
    destruct s as [|d s]; [done|]. destruct (is_cont d) eqn:Ed; [|done]. intros [= <- <- _].
    apply second_ok_spec in Eb; [|lia]. apply in_range_spec in Ec. apply in_range_spec in Ed.
    change 7 with (N.ones 3). rewrite land_mod, !low6_mod, (lor_shift _ 6) by (apply N.mod_lt; done).
    assert (bval c mod 64 * 2 ^ 6 + bval d mod 64 < 2 ^ 12) as Hl by (change (2 ^ 6) with 64; change (2 ^ 12) with 4096; lia).
    rewrite (lor_shift _ 12) by done.
    assert (bval b mod 64 * 2 ^ 12 + (bval c mod 64 * 2 ^ 6 + bval d mod 64) < 2 ^ 18) as Hl'
      by (change (2 ^ 6) with 64 in *; change (2 ^ 12) with 4096 in *; change (2 ^ 18) with 262144; lia).
    rewrite (lor_shift _ 18) by done.
    change (2 ^ 3) with 8. change (2 ^ 6) with 64. change (2 ^ 12) with 4096. change (2 ^ 18) with 262144. clear Hl Hl'.
    set (x := bval a) in *. set (y := bval b) in *. set (z := bval c) in *. set (w := bval d) in *.
    assert (x mod 8 * 262144 + (y mod 64 * 4096 + (z mod 64 * 64 + w mod 64)) =
            (x - 240) * 262144 + (y - 128) * 4096 + (z - 128) * 64 + (w - 128)) as -> by lia.
    set (v := (x - 240) * 262144 + (y - 128) * 4096 + (z - 128) * 64 + (w - 128)).
    assert (65536 <= v < 1114112) as Hv by (subst v; lia).
    split; [right; lia|]. unfold char_utf8. rewrite !(proj2 (N.ltb_ge _ _)) by lia.
    rewrite (byte_of a), (cont_of b), (cont_of c), (cont_of d); [done| | | | | | |]; subst v x y z w; lia.
Qed.

(** The units of a scalar value are read back, whatever follows. *)
Lemma utf16_read v l : scalar v → utf16_chars (char_utf16 v ++ l)%list = v :: utf16_chars l.
Proof.
  intros Hv. unfold char_utf16. destruct (N.ltb_spec v 65536) as [Hs|Hb].
  - cbn [app utf16_chars]. assert (high_surrogate v = false) as ->.
    { unfold high_surrogate. destruct Hv; [rewrite (proj2 (N.leb_gt _ _)) by lia|rewrite (proj2 (N.ltb_ge _ _)) by lia; apply andb_false_r]; done. }
    assert (low_surrogate v = false) as ->; [|done].
    unfold low_surrogate. destruct Hv; [rewrite (proj2 (N.leb_gt _ _)) by lia|rewrite (proj2 (N.ltb_ge _ _)) by lia; apply andb_false_r]; done.
  - destruct Hv as [Hv|Hv]; [lia|]. destruct (N.le_exists_sub 65536 v Hb) as (m & -> & _).
    rewrite N.add_sub. assert (m < 1048576) as Hm by lia. cbn [app utf16_chars].
    assert (high_surrogate (55296 + m / 1024) = true) as ->.
    { unfold high_surrogate. rewrite (proj2 (N.leb_le _ _)), (proj2 (N.ltb_lt _ _)) by lia. done. }
    assert (low_surrogate (56320 + m mod 1024) = true) as ->.
    { unfold low_surrogate. rewrite (proj2 (N.leb_le _ _)), (proj2 (N.ltb_lt _ _)) by lia. done. }
    f_equal. lia.
Qed.

(** The units of a scalar value but zero are not zero. *)
Lemma utf16_nonzero v : v ≠ 0 → Forall (.≠ 0) (char_utf16 v).
Proof. intros Hv. unfold char_utf16. destruct (v <? 65536); repeat constructor; lia. Qed.

Lemma until_zero_app l : Forall (.≠ 0) l → until_zero (l ++ [0])%list = l.
Proof. induction 1 as [|u l Hu _ IH]; [done|]. cbn. rewrite (proj2 (N.eqb_neq _ _) Hu). by rewrite IH. Qed.

(** A text goes to the SAP library and comes back: what [from_uc] reads in
    the units that [to_uc] wrote is the text, but for white space at its end,
    when the text holds no zero. *)
Theorem uc_roundtrip s : valid_utf8 s = true → 0 ∉ chars s → from_uc (to_uc s) = trim_end s.
Proof.
  intros Hv H0. unfold from_uc, to_uc.
  assert (Forall (.≠ 0) (concat (map char_utf16 (chars s)))) as Hz.
  { apply Forall_concat, Forall_map, Forall_forall. intros c Hc. apply utf16_nonzero. by intros ->. }
  rewrite until_zero_app by done. f_equal. clear Hz H0.
  induction s as [|s c bs r E -> IH] using chunks_ind; [done|].
  rewrite (valid_utf8_cons _ _ _ _ E) in Hv. destruct c as [v|]; [|done].
  destruct (step_scalar _ _ _ _ E) as [Hsc Hb]. unfold chars in *. rewrite chunks_unfold, E.
  cbn [omap list_omap fst map concat]. rewrite utf16_read by done. cbn [map concat_strs]. rewrite Hb. f_equal. by apply IH.
Qed.

Definition to_sap : string := "Zoë" ++ String "240" (String "159" (String "153" (String "130" " "))).
Lemma uc_roundtrip_witness : valid_utf8 to_sap = true ∧ 0 ∉ chars to_sap ∧ from_uc (to_uc to_sap) = trim_end to_sap ∧
  length (to_uc to_sap) = 7%nat.
Proof.
  assert (valid_utf8 to_sap = true) as H by (vm_compute; reflexivity).
  assert (0 ∉ chars to_sap) as H0 by (intros H0%list_elem_of_In; vm_compute in H0; intuition discriminate).
  split; [exact H|]. split; [exact H0|]. split; [exact (uc_roundtrip to_sap H H0)|]. vm_compute. reflexivity.
Defined.
