(* ===== verification/Sap.v ===== *)
(** * The SAP connector

    The process that calls functions of an SAP system and serves calls from it
    (connectors/sap-rfc/src/main.rs), over the SAP library, which is the class
    [Rfc]: its calls are the constructors of [RfcOp], handles are numbers, 0 is
    the null handle, and texts are UTF-16.  A reply line is a JSON document. *)

From stdpp Require Import base gmap list strings.
From Stdlib Require Import ZArith NArith Lia Ascii.
From S2P Require Import Prelude Triples Text F64 Json Utf16 Concrete.
Open Scope string_scope.
Open Scope Z_scope.

(** ** The library *)

Notation uc := (list N).

(** connectors/sap-rfc/src/main.rs:64-82 [RfcErrorInfo] *)
Record RfcErrorInfo : Type := {
  ei_code : Z; ei_group : Z; ei_key : uc; ei_message : uc; ei_class : uc; ei_type : uc; ei_number : uc;
  ei_v1 : uc; ei_v2 : uc; ei_v3 : uc; ei_v4 : uc
}.

(** connectors/sap-rfc/src/main.rs:114-126 [RfcParameterDesc] *)
Record RfcParameterDesc : Type := {
  pd_name : uc; pd_type : Z; pd_direction : Z; pd_uc_length : Z; pd_decimals : Z; pd_optional : Z; pd_text : uc
}.

(** connectors/sap-rfc/src/main.rs:160-207 [Fn] *)
Inductive RfcOp : Type :=
| OpenConnection (params : list (uc * uc))
| Ping (c : Z)
| CloseConnection (c : Z)
| GetFunctionDesc (c : Z) (name : uc)
| CreateFunction (desc : Z)
| DestroyFunction (f : Z)
| Invoke (c f : Z)
| SetString (container : Z) (name value : uc) (len : Z)
| GetString (container : Z) (name : uc) (buffer : Z)
| GetParameterCount (desc : Z)
| GetParameterDesc (desc i : Z)
| DescribeType (container : Z)
| GetFieldCount (type : Z)
| GetFieldDesc (type i : Z)
| GetStructure (container : Z) (name : uc)
| GetTable (container : Z) (name : uc)
| GetRowCount (table : Z)
| MoveTo (table i : Z)
| GetCurrentRow (table : Z)
| AppendNewRow (table : Z)
| DescribeFunction (f : Z)
| GetFunctionName (desc : Z)
| RegisterServer (params : list (uc * uc))
| InstallServerFunction (desc : Z)
| ListenAndDispatch (server timeout : Z)
| GetTransactionID (c : Z)
| CreateTransaction (c : Z) (tid : uc)
| InvokeInTransaction (t f : Z)
| SubmitTransaction (t : Z)
| ConfirmTransaction (t : Z)
| DestroyTransaction (t : Z).

(** What a call gives, of which each uses its part: the code, the error, a
    handle, a number, a text, the description of a parameter. *)
Record RfcReply : Type := {
  rr_rc : Z; rr_info : RfcErrorInfo; rr_handle : Z; rr_num : Z; rr_text : uc; rr_param : RfcParameterDesc
}.
Class Rfc (W : Type) := { rfc : RfcOp → W → RfcReply * W }.

Definition RFC_OK : Z := 0.
Definition RFC_COMMUNICATION_FAILURE : Z := 1.
Definition RFC_CLOSED : Z := 6.
Definition RFC_INVALID_HANDLE : Z := 13.
Definition RFC_RETRY : Z := 14.
Definition RFC_BUFFER_TOO_SMALL : Z := 23.
Definition RFC_IMPORT : Z := 1.
Definition RFC_EXPORT : Z := 2.
Definition RFC_CHANGING : Z := 3.
Definition RFC_TABLES : Z := 7.
Definition RFCTYPE_STRUCTURE : Z := 17.

(** connectors/sap-rfc/src/main.rs:87-109 [RfcErrorInfo::to_json] *)
Definition info_json (stage : string) (e : RfcErrorInfo) : Value :=
  let cls := from_uc (ei_class e) in
  obj ([("ok", VBool false); ("stage", VString stage); ("code", vint (ei_code e)); ("group", vint (ei_group e));
        ("key", VString (from_uc (ei_key e))); ("message", VString (from_uc (ei_message e)))] ++
       (if String.eqb cls "" then []
        else [("abap_msg", obj [("class", VString cls); ("type", VString (from_uc (ei_type e)));
                ("number", VString (from_uc (ei_number e))); ("v1", VString (from_uc (ei_v1 e)));
                ("v2", VString (from_uc (ei_v2 e))); ("v3", VString (from_uc (ei_v3 e)));
                ("v4", VString (from_uc (ei_v4 e)))])]))%list.

(** connectors/sap-rfc/src/main.rs [dir_name] *)
Definition dir_name (d : Z) : string :=
  if d =? RFC_IMPORT then "import" else if d =? RFC_EXPORT then "export"
  else if d =? RFC_CHANGING then "changing" else if d =? RFC_TABLES then "tables" else "?".

Definition type_names : list (Z * string) :=
  [(0, "CHAR"); (1, "DATE"); (2, "BCD"); (3, "TIME"); (4, "BYTE"); (5, "TABLE"); (6, "NUM"); (7, "FLOAT"); (8, "INT");
   (9, "INT2"); (10, "INT1"); (17, "STRUCTURE"); (23, "DECF16"); (24, "DECF34"); (29, "STRING"); (30, "XSTRING");
   (31, "INT8"); (32, "UTCLONG")].
(** connectors/sap-rfc/src/main.rs [type_name] *)
Definition type_name (t : Z) : string :=
  match find (λ x, fst x =? t) type_names with Some (_, s) => s | None => "TYPE" ++ dec_of_Z t end.

Section Sap.
Context {SD : Serde} {W : Type} {RF : Rfc W} (env : string → option string).
(** An operation ends with a document in both cases: what it found, or why not. *)
Notation R := (sr W Value).

Definition ask (op : RfcOp) : R RfcReply := λ w, let '(r, w) := rfc op w in (Ok r, w).
(** A call whose code must be 0, and one that must give a handle. *)
Definition must (stage : string) (op : RfcOp) : R RfcReply :=
  r ← ask op; if rr_rc r =? 0 then mret r else sr_fail (info_json stage (rr_info r)).
Definition must_handle (stage : string) (op : RfcOp) : R Z :=
  r ← ask op; if rr_handle r =? 0 then sr_fail (info_json stage (rr_info r)) else mret (rr_handle r).
(** [m], and [after] whatever it gives. *)
Definition finally {A} (m : R A) (after : RfcOp) : R A := λ w, let '(r, w) := m w in (r, snd (rfc after w)).

Definition sap_env (k d : string) : string := default d (env k).

(** connectors/sap-rfc/src/main.rs [open_connection] *)
Definition open_connection : R Z :=
  let pairs := [("ashost", sap_env "SAP_ASHOST" "localhost"); ("sysnr", sap_env "SAP_SYSNR" "00");
                ("client", sap_env "SAP_CLIENT" "001"); ("user", sap_env "SAP_USER" "");
                ("passwd", sap_env "SAP_PASSWD" ""); ("lang", sap_env "SAP_LANG" "EN")] in
  must_handle "open" (OpenConnection (map (λ p, (to_uc (fst p), to_uc (snd p))) pairs)).

(** ** Reading *)

(** The length is asked for first, with no buffer. *)
(** connectors/sap-rfc/src/main.rs [get_string] *)
Definition get_string (container : Z) (field : string) : R string :=
  let name := to_uc field in
  r ← ask (GetString container name 0);
  if negb (rr_rc r =? 0) && negb (rr_rc r =? RFC_BUFFER_TOO_SMALL) then sr_fail (info_json ("get_string:" ++ field) (rr_info r))
  else
    let len := rr_num r + 2 in
    r2 ← must ("get_string:" ++ field) (GetString container name (wrap 32 len));
    mret (from_uc (take (Z.to_nat (Z.min (rr_num r2) len)) (rr_text r2))).

(** A field that does not read as a string is null. *)
Definition string_or_null (container : Z) (field : string) : R Value :=
  r ← sr_out (get_string container field);
  match r with Ok s => mret (VString s) | Err _ => mret VNull | Panic => sr_lift Panic | NoFuel => sr_lift NoFuel end.

Fixpoint each_index {A} (f : Z → R A) (n : nat) (i : Z) : R (list A) :=
  match n with
  | O => mret []
  | S n => x ← f i; xs ← each_index f n (i + 1); mret (x :: xs)
  end.

(** connectors/sap-rfc/src/main.rs [field_names] *)
Definition field_names (container : Z) : R (list string) :=
  td ← must_handle "describe_type" (DescribeType container);
  r ← must "get_field_count" (GetFieldCount td);
  each_index (λ i, fd ← must "get_field_desc" (GetFieldDesc td i); mret (from_uc (pd_name (rr_param fd))))
             (Z.to_nat (rr_num r)) 0.

Fixpoint read_fields (container : Z) (cols : list string) (m : smap Value) : R (smap Value) :=
  match cols with
  | [] => mret m
  | c :: cols => v ← string_or_null container c; read_fields container cols (map_insert c v m)
  end.

(** connectors/sap-rfc/src/main.rs [read_structure] *)
Definition read_structure (container : Z) : R Value :=
  cols ← field_names container; m ← read_fields container cols []; mret (VObject m).

(** connectors/sap-rfc/src/main.rs [marshal_structure] *)
Definition marshal_structure (container : Z) (name : string) : R Value :=
  r ← must ("get_structure:" ++ name) (GetStructure container (to_uc name));
  read_structure (rr_handle r).

(** The rows from [i] on, [n] of them, or until there is none. *)
(** connectors/sap-rfc/src/main.rs:500-518 [marshal_table] *)
Fixpoint read_table_rows (name : string) (table : Z) (cols : list string) (n : nat) (i : Z) : R (list Value) :=
  match n with
  | O => mret []
  | S n =>
    _ ← must ("move_to:" ++ name) (MoveTo table i);
    row ← ask (GetCurrentRow table);
    if rr_handle row =? 0 then mret []
    else
      m ← read_fields (rr_handle row) cols [];
      rest ← read_table_rows name table cols n (i + 1);
      mret (VObject m :: rest)
  end.

(** connectors/sap-rfc/src/main.rs [marshal_table] *)
Definition marshal_table (container : Z) (name : string) (max_rows : option Z) : R Value :=
  t ← must ("get_table:" ++ name) (GetTable container (to_uc name));
  let table := rr_handle t in
  c ← must ("get_row_count:" ++ name) (GetRowCount table);
  let total := rr_num c in
  if total =? 0 then mret (VArray [])
  else
    _ ← must ("move_to:" ++ name) (MoveTo table 0);
    first ← ask (GetCurrentRow table);
    if rr_handle first =? 0 then sr_fail (obj [("ok", VBool false); ("stage", VString ("get_current_row:" ++ name))])
    else
      cols ← field_names (rr_handle first);
      let limit := match max_rows with Some m => Z.min total m | None => total end in
      arr ← read_table_rows name table cols (Z.to_nat limit) 0;
      mret (obj [("rows", VArray arr); ("total", vint total); ("returned", vint limit)]).

(** ** Writing *)

(** connectors/sap-rfc/src/main.rs [set_field] *)
Fixpoint set_field (container : Z) (name : string) (value : Value) : R () :=
  let set_all := fix set_all (c : Z) (m : smap Value) : R () :=
    match m with
    | [] => mret ()
    | (k, v) :: m => _ ← set_field c k v; set_all c m
    end in
  match value with
  | VArray rows =>
    t ← must ("get_table:" ++ name) (GetTable container (to_uc name));
    (fix set_rows (rows : list Value) : R () :=
       match rows with
       | [] => mret ()
       | VObject m :: rows =>
         r ← must_handle ("append_row:" ++ name) (AppendNewRow (rr_handle t));
         _ ← set_all r m;
         set_rows rows
       | _ :: rows => set_rows rows
       end) rows
  | VObject m =>
    st ← must ("get_structure:" ++ name) (GetStructure container (to_uc name));
    set_all (rr_handle st) m
  | other =>
    let val := match other with VString s => s | v => to_json v end in
    let vu := to_uc val in
    _ ← must ("set_string:" ++ name) (SetString container (to_uc name) vu (wrap 32 (Z.of_nat (length vu - 1))));
    mret ()
  end.

Fixpoint set_fields (container : Z) (m : smap Value) : R () :=
  match m with [] => mret () | (k, v) :: m => _ ← set_field container k v; set_fields container m end.

(** ** Operations *)

(** connectors/sap-rfc/src/main.rs [op_ping] *)
Definition op_ping (conn : Z) : R Value := _ ← must "ping" (Ping conn); mret (obj [("ok", VBool true)]).

(** connectors/sap-rfc/src/main.rs [parameters] *)
Definition parameters (desc : Z) : R (list RfcParameterDesc) :=
  r ← must "get_param_count" (GetParameterCount desc);
  each_index (λ i, p ← must "get_param_desc" (GetParameterDesc desc i); mret (rr_param p)) (Z.to_nat (rr_num r)) 0.

(** connectors/sap-rfc/src/main.rs [func_desc] *)
Definition func_desc (conn : Z) (func : string) : R Z := must_handle "get_func_desc" (GetFunctionDesc conn (to_uc func)).

Definition req_str (k : string) (req : Value) : option string := vget k req ≫= as_str.
Definition missing_func : Value := obj [("ok", VBool false); ("error", VString "missing 'func'")].

(** connectors/sap-rfc/src/main.rs:627-640 [op_describe] *)
Definition parameter_json (p : RfcParameterDesc) : Value :=
  obj [("name", VString (from_uc (pd_name p))); ("direction", VString (dir_name (pd_direction p)));
       ("type", VString (type_name (pd_type p))); ("length", vint (pd_uc_length p)); ("decimals", vint (pd_decimals p));
       ("optional", VBool (negb (pd_optional p =? 0))); ("text", VString (from_uc (pd_text p)))].

(** connectors/sap-rfc/src/main.rs [op_describe] *)
Definition op_describe (conn : Z) (req : Value) : R Value :=
  match req_str "func" req with
  | None => mret missing_func
  | Some func =>
    desc ← func_desc conn func;
    params ← parameters desc;
    mret (obj [("ok", VBool true); ("func", VString func); ("parameters", VArray (map parameter_json params))])
  end.

(** A value of a parameter that is not a table. *)
Definition parameter_value (f : Z) (p : RfcParameterDesc) : R Value :=
  let name := from_uc (pd_name p) in
  if pd_type p =? RFCTYPE_STRUCTURE then
    r ← sr_out (marshal_structure f name);
    match r with Ok v => mret v | Err _ => mret VNull | Panic => sr_lift Panic | NoFuel => sr_lift NoFuel end
  else string_or_null f name.

(** connectors/sap-rfc/src/main.rs:691-716 [op_call] *)
Fixpoint marshal_outputs (f max_rows : Z) (ps : list RfcParameterDesc) (export tables : smap Value)
  : R (smap Value * smap Value) :=
  match ps with
  | [] => mret (export, tables)
  | p :: ps =>
    let name := from_uc (pd_name p) in
    let d := pd_direction p in
    if d =? RFC_TABLES then
      v ← marshal_table f name (Some max_rows);
      marshal_outputs f max_rows ps export (map_insert name v tables)
    else if (d =? RFC_EXPORT) || (d =? RFC_CHANGING) then
      v ← parameter_value f p;
      marshal_outputs f max_rows ps (map_insert name v export) tables
    else marshal_outputs f max_rows ps export tables
  end.

(** connectors/sap-rfc/src/main.rs [op_call] *)
Definition op_call (conn : Z) (req : Value) : R Value :=
  match req_str "func" req with
  | None => mret missing_func
  | Some func =>
    let max_rows := default 1000 (vget "max_rows" req ≫= as_u64) in
    desc ← func_desc conn func;
    f ← must_handle "create_func" (CreateFunction desc);
    finally (
      _ ← (match vget "import" req ≫= as_object with Some m => set_fields f m | None => mret () end);
      _ ← must "invoke" (Invoke conn f);
      params ← parameters desc;
      '(export, tables) ← marshal_outputs f max_rows params [] [];
      mret (obj [("ok", VBool true); ("func", VString func); ("export", VObject export); ("tables", VObject tables)]))
      (DestroyFunction f)
  end.

(** A transaction id of the caller: its first 24 characters, each in a unit. *)
(** connectors/sap-rfc/src/main.rs:757-761 [op_send_idoc] *)
Definition given_tid (t : string) : uc :=
  let us := map (λ c, (c mod 65536)%N) (take 24 (chars t)) in (us ++ repeat 0%N (25 - length us))%list.

(** connectors/sap-rfc/src/main.rs [op_send_idoc] *)
Definition op_send_idoc (conn : Z) (req : Value) : R Value :=
  desc ← func_desc conn "IDOC_INBOUND_ASYNCHRONOUS";
  f ← must_handle "create_func" (CreateFunction desc);
  finally (
    _ ← (match vget "control" req with Some c => set_field f "IDOC_CONTROL_REC_40" (VArray [c]) | None => mret () end);
    _ ← (match vget "data" req with Some d => set_field f "IDOC_DATA_REC_40" d | None => mret () end);
    tid ← (match req_str "tid" req with
           | Some t => mret (given_tid t)
           | None => r ← must "get_transaction_id" (GetTransactionID conn); mret (rr_text r)
           end);
    th ← must_handle "create_transaction" (CreateTransaction conn tid);
    finally (
      _ ← must "invoke_in_transaction" (InvokeInTransaction th f);
      _ ← must "submit_transaction" (SubmitTransaction th);
      _ ← must "confirm_transaction" (ConfirmTransaction th);
      mret (obj [("ok", VBool true); ("func", VString "IDOC_INBOUND_ASYNCHRONOUS"); ("tid", VString (from_uc tid))]))
      (DestroyTransaction th))
    (DestroyFunction f).

Definition result_of (m : R Value) : R Value := λ w,
  let '(r, w) := m w in (match r with Ok v | Err v => Ok v | Panic => Panic | NoFuel => NoFuel end, w).

(** connectors/sap-rfc/src/main.rs [op_list] *)
Definition op_list (conn : Z) (req : Value) : R Value :=
  let call := obj [("func", VString "RFC_FUNCTION_SEARCH");
                   ("import", obj [("FUNCNAME", VString (default "*" (req_str "pattern" req)))]);
                   ("max_rows", default (vint 200) (vget "max_rows" req))] in
  res ← result_of (op_call conn call);
  mret (match res with
        | VObject o =>
          match (t ← map_get "tables" o; t ← as_object t; map_get "FUNCTIONS" t) : option Value with
          | Some funcs => VObject (map_insert "functions" funcs o)
          | None => res
          end
        | _ => res
        end).

(** connectors/sap-rfc/src/main.rs [dispatch] *)
Definition sap_dispatch (conn : Z) (op : string) (req : Value) : R Value :=
  result_of (
    if String.eqb op "ping" then op_ping conn
    else if String.eqb op "describe" then op_describe conn req
    else if String.eqb op "list" then op_list conn req
    else if String.eqb op "call" then op_call conn req
    else if String.eqb op "send_idoc" then op_send_idoc conn req
    else mret (obj [("ok", VBool false); ("error", VString ("unknown op: " ++ op))])).
End Sap.

(** ** The loop over requests *)

(** connectors/sap-rfc/src/main.rs [connection_lost] *)
Definition connection_lost (out : Value) : bool :=
  match vget "ok" out, vget "code" out ≫= as_i64 with
  | Some (VBool false), Some c => (c =? RFC_COMMUNICATION_FAILURE) || (c =? RFC_CLOSED) || (c =? RFC_INVALID_HANDLE)
  | _, _ => false
  end.

(** connectors/sap-rfc/src/main.rs [with_id] *)
Definition with_id (req out : Value) : Value :=
  match vget "id" req, out with
  | Some id, VObject m => VObject (map_insert "id" id m)
  | _, o => o
  end.

(** connectors/sap-rfc/src/main.rs [IDLE_CHECK_AFTER] *)
Definition IDLE_CHECK_AFTER : Z := 60.

Section Serving.
Context {SD : Serde} {W : Type} {RF : Rfc W} (env : string → option string).
(** The n-th reading of the clock, in seconds; whether the test hook is on. *)
Context (instant : nat → Z) (test_hooks : bool).

Record Sap : Type := {
  sp_lib : W; sp_conn : Z; sp_last_use : Z; sp_reads : nat;
  sp_out : list string                       (** the lines of the reply channel *)
}.
Notation R := (sr Sap string).

Definition on_lib {A} (m : sr W Value A) : R (res Value A) := λ s,
  let '(r, w) := m (sp_lib s) in
  (Ok r, {| sp_lib := w; sp_conn := sp_conn s; sp_last_use := sp_last_use s; sp_reads := sp_reads s; sp_out := sp_out s |}).
Definition now : R Z := λ s,
  (Ok (instant (sp_reads s)),
   {| sp_lib := sp_lib s; sp_conn := sp_conn s; sp_last_use := sp_last_use s; sp_reads := S (sp_reads s); sp_out := sp_out s |}).
Definition use_conn (c : Z) : R () := sr_mod (λ s,
  {| sp_lib := sp_lib s; sp_conn := c; sp_last_use := sp_last_use s; sp_reads := sp_reads s; sp_out := sp_out s |}).
Definition used_at (t : Z) : R () := sr_mod (λ s,
  {| sp_lib := sp_lib s; sp_conn := sp_conn s; sp_last_use := t; sp_reads := sp_reads s; sp_out := sp_out s |}).
(** connectors/sap-rfc/src/main.rs [reply] *)
Definition sap_reply (v : Value) : R () := sr_mod (λ s,
  {| sp_lib := sp_lib s; sp_conn := sp_conn s; sp_last_use := sp_last_use s; sp_reads := sp_reads s;
     sp_out := (sp_out s ++ [to_json v])%list |}).

(** connectors/sap-rfc/src/main.rs [connection_alive] *)
Definition connection_alive (c : Z) : sr W Value bool := r ← ask (Ping c); mret (rr_rc r =? RFC_OK).

(** connectors/sap-rfc/src/main.rs [reopen] *)
Definition reopen (old : Z) : sr W Value Z := _ ← ask (CloseConnection old); open_connection env.

(** The document an operation ended with. *)
Definition document (r : res Value Value) : Value := match r with Ok v | Err v => v | _ => VNull end.

(** The operation, once more on a fresh connection when the first was lost. *)
(** connectors/sap-rfc/src/main.rs:1099-1108 [main] *)
Definition dispatch_replay (op : string) (req : Value) : R (res Value Value) :=
  s ← sr_get;
  out ← on_lib (sap_dispatch (sp_conn s) op req);
  if connection_lost (document out) then
    r ← on_lib (reopen (sp_conn s));
    match r with
    | Ok c => _ ← use_conn c; on_lib (sap_dispatch c op req)
    | r => mret (Err (document (_ ← r; Ok VNull)))
    end
  else mret out.

(** The connection checked after a long rest: a fresh one if it was lost. *)
(** connectors/sap-rfc/src/main.rs:1086-1098 [main] *)
Definition idle_check (t : Z) : R (option (res Value Z)) :=
  s ← sr_get;
  if IDLE_CHECK_AFTER <=? t - sp_last_use s then
    alive ← on_lib (connection_alive (sp_conn s));
    match alive with
    | Ok true => mret None
    | _ => r ← on_lib (reopen (sp_conn s)); mret (Some r)
    end
  else mret None.

(** connectors/sap-rfc/src/main.rs:1086-1117 [main] *)
Definition serve_request (req : Value) : R () :=
  let op := default "" (req_str "op" req) in
  t ← now;
  idle ← idle_check t;
  match idle with
  | Some (Err je) => sap_reply (with_id req je)
  | other =>
    _ ← (match other with Some (Ok c) => use_conn c | _ => mret () end);
    out ← dispatch_replay op req;
    t ← now;
    _ ← used_at t;
    sap_reply (with_id req (document out))
  end.

(** connectors/sap-rfc/src/main.rs:1067-1085 [main] *)
Definition serve_line (line : string) : R () :=
  let line := trim line in
  if String.eqb line "" then mret ()
  else match from_json line with
       | None => sap_reply (obj [("ok", VBool false); ("error", VString "bad json: expected value")])
       | Some req =>
         if test_hooks && String.eqb (default "" (req_str "op" req)) "_drop" then
           s ← sr_get;
           _ ← on_lib (ask (CloseConnection (sp_conn s)));
           sap_reply (obj [("ok", VBool true); ("dropped", VBool true)])
         else serve_request req
       end.

(** The lines of the input, up to its end or to one that cannot be read. *)
(** connectors/sap-rfc/src/main.rs:1067-1120 [main] *)
Fixpoint serve_lines (input : list (option string)) : R () :=
  match input with
  | Some line :: input => _ ← serve_line line; serve_lines input
  | _ => s ← sr_get; _ ← on_lib (ask (CloseConnection (sp_conn s))); mret ()
  end.

(** ** Serving calls *)

(** A value of a parameter, null where it does not read; a table that does not
    read is left out. *)
(** connectors/sap-rfc/src/main.rs:853-873 [on_server_call] *)
Fixpoint call_inputs (f : Z) (ps : list RfcParameterDesc) (import tables : smap Value)
  : sr W Value (smap Value * smap Value) :=
  match ps with
  | [] => mret (import, tables)
  | p :: ps =>
    let pn := from_uc (pd_name p) in
    let d := pd_direction p in
    if d =? RFC_TABLES then
      r ← sr_out (marshal_table f pn None);
      call_inputs f ps import (match r with Ok v => map_insert pn v tables | _ => tables end)
    else if (d =? RFC_IMPORT) || (d =? RFC_CHANGING) then
      v ← parameter_value f p;
      call_inputs f ps (map_insert pn v import) tables
    else call_inputs f ps import tables
  end.

(** The event of a call, and the code that the caller gets. *)
(** connectors/sap-rfc/src/main.rs:834-888 [on_server_call] *)
Definition on_server_call (func : Z) : sr W Value (Value * Z) :=
  d ← ask (DescribeFunction func);
  let fd := rr_handle d in
  name ← (if fd =? 0 then mret "?"
          else n ← ask (GetFunctionName fd); mret (if rr_rc n =? RFC_OK then from_uc (rr_text n) else "?"));
  '(import, tables) ←
    (if fd =? 0 then mret ([], [])
     else ps ← sr_out (parameters fd);
          match ps with Ok ps => call_inputs func ps [] [] | _ => mret ([], []) end);
  mret (obj [("stream", VBool true); ("kind", VString "call"); ("func", VString name); ("import", VObject import);
             ("tables", VObject tables)], RFC_OK).
End Serving.
Arguments Sap W : clear implicits.

(** ** The server *)

Section Server.
Context {SD : Serde} {W : Type} {RF : Rfc W} (env : string → option string).
(** The handles of the calls that arrive while the library waits, in order. *)
Context (incoming : W → list Z).

(** The lines of both channels; an error is the code the process exits with. *)
Record Srv : Type := { sv_lib : W; sv_out : list string; sv_err : list string }.
Notation R := (sr Srv Z).

Definition srv_lib {A} (m : sr W Value A) : R (res Value A) := λ s,
  let '(r, w) := m (sv_lib s) in (Ok r, {| sv_lib := w; sv_out := sv_out s; sv_err := sv_err s |}).
Definition srv_reply (v : Value) : R () := sr_mod (λ s,
  {| sv_lib := sv_lib s; sv_out := (sv_out s ++ [to_json v])%list; sv_err := sv_err s |}).
(** connectors/sap-rfc/src/main.rs [emit_err] *)
Definition emit_err (v : Value) : R () := sr_mod (λ s,
  {| sv_lib := sv_lib s; sv_out := sv_out s; sv_err := (sv_err s ++ [to_json v])%list |}).

(** connectors/sap-rfc/src/main.rs:905-918 [run_server] *)
Fixpoint install (client : Z) (names : list string) : R () :=
  match names with
  | [] => mret ()
  | fname :: names =>
    fd ← srv_lib (func_desc client fname);
    _ ← (match fd with
         | Ok fd =>
           r ← srv_lib (must ("install:" ++ fname) (InstallServerFunction fd));
           match r with Err je => emit_err je | _ => mret () end
         | Err je => emit_err (obj [("ok", VBool false); ("stage", VString ("metadata:" ++ fname)); ("detail", je)])
         | _ => mret ()
         end);
    install client names
  end.

(** The installed function runs for each call that arrives; what it returns is
    the library's to pass on. *)
Fixpoint serve_calls (calls : list Z) : R () :=
  match calls with
  | [] => mret ()
  | f :: calls =>
    ev ← srv_lib (on_server_call f);
    _ ← (match ev with Ok (v, _) => srv_reply v | _ => mret () end);
    serve_calls calls
  end.

(** connectors/sap-rfc/src/main.rs:957-968 [run_server] *)
Definition listen_turn (server : Z) : R () :=
  s ← sr_get;
  _ ← serve_calls (incoming (sv_lib s));
  r ← srv_lib (ask (ListenAndDispatch server 5));
  match r with
  | Ok r =>
    if (rr_rc r =? RFC_OK) || (rr_rc r =? RFC_RETRY) then mret ()
    else if (rr_rc r =? RFC_CLOSED) || (rr_rc r =? RFC_COMMUNICATION_FAILURE) then
      _ ← emit_err (info_json "listen" (rr_info r)); sr_fail 1
    else emit_err (info_json "dispatch" (rr_info r))
  | _ => mret ()
  end.

Fixpoint listen_turns (fuel : nat) (server : Z) : R () :=
  match fuel with O => sr_lift NoFuel | S fuel => _ ← listen_turn server; listen_turns fuel server end.

(** connectors/sap-rfc/src/main.rs [run_server] *)
Definition run_server (fuel : nat) : R () :=
  client ← srv_lib (open_connection env);
  match client with
  | Ok client =>
    _ ← install client ["IDOC_INBOUND_ASYNCHRONOUS"; "STFC_CONNECTION"];
    let program_id := sap_env env "SAP_PROGRAM_ID" "VEJAS_IDOC" in
    let gwhost := sap_env env "SAP_GWHOST" (sap_env env "SAP_ASHOST" "localhost") in
    let gwserv := sap_env env "SAP_GWSERV" "sapgw00" in
    let pairs := [("program_id", program_id); ("gwhost", gwhost); ("gwserv", gwserv)] in
    server ← srv_lib (must_handle "register_server" (RegisterServer (map (λ p, (to_uc (fst p), to_uc (snd p))) pairs)));
    match server with
    | Ok server =>
      _ ← emit_err (obj [("ok", VBool true); ("ready", VBool true); ("mode", VString "idoc-server");
                         ("program_id", VString program_id); ("gwhost", VString gwhost);
                         ("gwserv", VString gwserv); ("connector", VString "sap-rfc")]);
      listen_turns fuel server
    | Err je => _ ← emit_err je; sr_fail 1
    | _ => sr_fail 1
    end
  | Err je => _ ← emit_err je; sr_fail 1
  | _ => sr_fail 1
  end.
End Server.
Arguments Srv W : clear implicits.

(** The default mode: a connection, the line that says so, and the requests. *)
(** connectors/sap-rfc/src/main.rs:1042-1066 [main] *)
Definition sap_client {SD : Serde} {W} {RF : Rfc W} (env : string → option string) (instant : nat → Z)
    (input : list (option string)) (w : W) : Sap W * option Z :=
  let start w c := {| sp_lib := w; sp_conn := c; sp_last_use := instant 0%nat; sp_reads := 1; sp_out := [] |} in
  match open_connection env w with
  | (Ok c, w) =>
    let test_hooks := bool_decide (env "SAP_RFC_TEST_HOOKS" = Some "1") in
    let '(_, s) := (_ ← sap_reply (obj [("ok", VBool true); ("ready", VBool true); ("connector", VString "sap-rfc")]);
                    serve_lines env instant test_hooks input) (start w c) in
    (s, None)
  | (r, w) => let '(_, s) := sap_reply (document (_ ← r; Ok VNull)) (start w 0) in (s, Some 1)
  end.

(** ** What holds of every reading and writing of a container

    A property of computations that is closed under their combinators, and
    holds of the calls that only reach into containers and descriptions, holds
    of every helper of the operations. *)

(** A document that says what failed. *)
Definition failure (v : Value) : bool :=
  match v with VObject m => match map_get "ok" m with Some (VBool false) => true | _ => false end | _ => false end.

Lemma info_json_failure stage e : failure (info_json stage e) = true.
Proof. unfold info_json. by destruct (String.eqb _ _). Qed.

Definition plain (op : RfcOp) : bool :=
  match op with
  | SetString _ _ _ _ | GetString _ _ _ | GetParameterCount _ | GetParameterDesc _ _ | DescribeType _
  | GetFieldCount _ | GetFieldDesc _ _ | GetStructure _ _ | GetTable _ _ | GetRowCount _ | MoveTo _ _
  | GetCurrentRow _ | AppendNewRow _ => true
  | _ => false
  end.

Class Closed {W} {RF : Rfc W} (P : ∀ A, sr W Value A → Prop) : Prop := {
  closed_ret : ∀ A (a : A), P A (mret a);
  closed_bind : ∀ A B (m : sr W Value A) (f : A → sr W Value B), P A m → (∀ a, P B (f a)) → P B (m ≫= f);
  closed_fail : ∀ A e, failure e = true → P A (sr_fail e);
  closed_ask : ∀ op, plain op = true → P RfcReply (ask op);
  (** what is made of an outcome, which is never a panic *)
  closed_out : ∀ A B (m : sr W Value A) (f : res Value A → sr W Value B),
    P A m → (∀ a, P B (f (Ok a))) → (∀ e, failure e = true → P B (f (Err e))) → P B (sr_out m ≫= f)
}.

Create HintDb closed.
#[export] Hint Extern 1 => simple apply closed_ret : closed.
#[export] Hint Extern 1 => simple apply closed_fail : closed.
#[export] Hint Extern 1 => simple apply closed_ask : closed.
#[export] Hint Extern 0 (Closed _) => exact _ : closed.
#[export] Hint Resolve info_json_failure : closed.
#[export] Hint Extern 1 (failure _ = true) => reflexivity : closed.
#[export] Hint Extern 1 (plain _ = true) => reflexivity : closed.
(** Through the binds of a computation. *)
Ltac closed := repeat first
  [ progress auto with closed nocore
  | simple apply closed_bind; [|intros ?]
  | case_match ].

Section ClosedHelpers.
Context {SD : Serde} {W : Type} {RF : Rfc W} (P : ∀ A, sr W Value A → Prop) {CP : Closed P}.
Local Notation Q m := (P _ m).

Lemma closed_must stage op : plain op = true → Q (must stage op).
Proof. intros Hp. unfold must. closed. Qed.
Lemma closed_must_handle stage op : plain op = true → Q (must_handle stage op).
Proof. intros Hp. unfold must_handle. closed. Qed.
#[local] Hint Resolve closed_must closed_must_handle : closed.
Lemma closed_each {A} (f : Z → sr W Value A) n i : (∀ i, Q (f i)) → Q (each_index f n i).
Proof. intros Hf. revert i. induction n as [|n IH]; intros i; cbn; closed. Qed.
Lemma closed_get_string c field : Q (get_string c field).
Proof. unfold get_string. closed. Qed.
#[local] Hint Resolve closed_get_string : closed.
Lemma closed_string_or_null c field : Q (string_or_null c field).
Proof. apply closed_out; intros; closed. Qed.
#[local] Hint Resolve closed_string_or_null : closed.
Lemma closed_read_fields c cols m : Q (read_fields c cols m).
Proof. revert m. induction cols as [|col cols IH]; intros m; cbn; closed. Qed.
#[local] Hint Resolve closed_read_fields : closed.
Lemma closed_field_names c : Q (field_names c).
Proof. unfold field_names. closed. apply closed_each. intros i. closed. Qed.
#[local] Hint Resolve closed_field_names : closed.
Lemma closed_marshal_structure c name : Q (marshal_structure c name).
Proof. unfold marshal_structure, read_structure. closed. Qed.
#[local] Hint Resolve closed_marshal_structure : closed.
Lemma closed_table_rows name t cols n i : Q (read_table_rows name t cols n i).
Proof. revert i. induction n as [|n IH]; intros i; cbn; closed. Qed.
#[local] Hint Resolve closed_table_rows : closed.
Lemma closed_marshal_table c name max : Q (marshal_table c name max).
Proof. unfold marshal_table. closed. Qed.
#[local] Hint Resolve closed_marshal_table : closed.
Lemma closed_parameters d : Q (parameters d).
Proof. unfold parameters. closed. apply closed_each. intros i. closed. Qed.
#[local] Hint Resolve closed_parameters : closed.
Lemma closed_parameter_value f p : Q (parameter_value f p).
Proof. unfold parameter_value. case_match; [apply closed_out; intros|]; closed. Qed.
#[local] Hint Resolve closed_parameter_value : closed.
Lemma closed_outputs f max ps ex tb : Q (marshal_outputs f max ps ex tb).
Proof. revert ex tb. induction ps as [|p ps IH]; intros ex tb; cbn; closed. Qed.

(** The rows that an array sets. *)
Definition set_rows (name : string) (t : Z) : list Value → sr W Value () := fix go (rows : list Value) :=
  match rows with
  | [] => mret ()
  | VObject m :: rows =>
    r ← must_handle ("append_row:" ++ name) (AppendNewRow t);
    _ ← set_fields r m;
    go rows
  | _ :: rows => go rows
  end.
Lemma set_field_object c name m :
  set_field c name (VObject m) =
    (st ← must ("get_structure:" ++ name) (GetStructure c (to_uc name)); set_fields (rr_handle st) m).
Proof. done. Qed.
Lemma set_field_array c name rows :
  set_field c name (VArray rows) =
    (t ← must ("get_table:" ++ name) (GetTable c (to_uc name)); set_rows name (rr_handle t) rows).
Proof. done. Qed.

Lemma closed_set_fields m : Forall (λ kv, ∀ c name, Q (set_field c name (snd kv))) m → ∀ c, Q (set_fields c m).
Proof. intros H c. induction H as [|[k v] m Hv _ IH]; cbn; closed. Qed.

Lemma closed_set_field v : (∀ c name, Q (set_field c name v)) ∧ (∀ m c, v = VObject m → Q (set_fields c m)).
Proof.
  induction v as [|b|n|x|l IH|m IH] using value_ind'; (split; [intros c name|intros m' c Hm]); try done;
    try (by cbn; closed).
  - rewrite set_field_array. apply closed_bind; [closed|intros t]. induction IH as [|x l [_ Hx] _ IHl]; [cbn; closed|].
    destruct x as [| | | | |m]; try exact IHl. cbn [set_rows].
    apply closed_bind; [closed|intros r]. apply closed_bind; [by apply Hx|intros _; exact IHl].
  - rewrite set_field_object. closed. apply closed_set_fields. by apply (Forall_impl _ _ _ IH); intros ? [? _].
  - injection Hm as <-. apply closed_set_fields. by apply (Forall_impl _ _ _ IH); intros ? [? _].
Qed.
End ClosedHelpers.
#[export] Hint Extern 1 => simple apply closed_must : closed.
#[export] Hint Extern 1 => simple apply closed_must_handle : closed.
#[export] Hint Extern 1 => simple apply closed_parameters : closed.
#[export] Hint Extern 1 => simple apply closed_outputs : closed.

(** ** The failures are documents *)

(** A computation that answers, or fails with a document that says so. *)
Definition documented {W} A (m : sr W Value A) : Prop :=
  ∀ w, match fst (m w) with Ok _ => True | Err e => failure e = true | _ => False end.
(** One whose answer is an object too. *)
Definition is_doc (v : Value) : bool := match v with VObject _ => true | _ => false end.
Definition gives_doc {W} (m : sr W Value Value) : Prop :=
  ∀ w, match fst (m w) with Ok v => is_doc v = true | Err v => failure v = true | _ => False end.

Section Documents.
Context {SD : Serde} {W : Type} {RF : Rfc W}.

Lemma failure_is_doc v : failure v = true → is_doc v = true.
Proof. by destruct v. Qed.

Lemma documented_ask op : documented _ (ask op : sr W Value RfcReply).
Proof. intros w. unfold ask. by destruct (rfc op w). Qed.

#[export] Instance documented_closed : Closed (@documented W).
Proof.
  split; try done.
  - intros A B m f Hm Hf w. specialize (Hm w). unfold mbind, sr_bind. destruct (m w) as [[a|e| |] w1]; try done. apply Hf.
  - by intros A e He w.
  - intros op ?. apply documented_ask.
  - intros A B m f Hm Hok Herr w. specialize (Hm w). unfold mbind, sr_bind, sr_out.
    destruct (m w) as [[a|e| |] w1]; cbn in *; try done; [apply Hok|by apply Herr].
Qed.

Lemma documented_must stage op : documented _ (must stage op : sr W Value RfcReply).
Proof. unfold must. apply closed_bind; [apply documented_ask|intros r]. closed. Qed.
Lemma documented_must_handle stage op : documented _ (must_handle stage op : sr W Value Z).
Proof. unfold must_handle. apply closed_bind; [apply documented_ask|intros r]. closed. Qed.

Lemma gives_bind {A} (m : sr W Value A) (f : A → sr W Value Value) :
  documented _ m → (∀ a, gives_doc (f a)) → gives_doc (m ≫= f).
Proof.
  intros Hm Hf w. specialize (Hm w). unfold mbind, sr_bind. destruct (m w) as [[a|e| |] w1]; try done. apply Hf.
Qed.
Lemma gives_ret (v : Value) : is_doc v = true → gives_doc (mret v : sr W Value Value).
Proof. by intros H w. Qed.
Lemma gives_finally (m : sr W Value Value) op : gives_doc m → gives_doc (finally m op).
Proof. intros Hm w. specialize (Hm w). unfold finally. by destruct (m w) as [[] ?]. Qed.
Lemma gives_documented (m : sr W Value Value) : gives_doc m → documented _ m.
Proof. intros Hm w. specialize (Hm w). by destruct (m w) as [[] ?]. Qed.

#[local] Hint Resolve documented_must documented_must_handle : closed.
Ltac gives := repeat first
  [ simple apply gives_finally | simple apply gives_ret; reflexivity
  | simple apply gives_bind; [|intros ?]
  | case_match | progress closed ].

Lemma set_fields_documented c m : documented _ (set_fields c m : sr W Value ()).
Proof. by apply (closed_set_field documented (VObject m)). Qed.
Lemma set_field_documented c name v : documented _ (set_field c name v : sr W Value ()).
Proof. apply (closed_set_field documented v). Qed.
#[local] Hint Resolve set_fields_documented set_field_documented : closed.

Lemma op_describe_gives conn req : gives_doc (op_describe conn req : sr W Value Value).
Proof. unfold op_describe, func_desc. gives. Qed.
Lemma op_call_gives conn req : gives_doc (op_call conn req : sr W Value Value).
Proof. unfold op_call, func_desc. gives. Qed.
Lemma op_send_idoc_gives conn req : gives_doc (op_send_idoc conn req : sr W Value Value).
Proof. unfold op_send_idoc, func_desc. gives. Qed.

(** A result that is an answer, whatever the operation ended with. *)
Lemma result_of_gives (m : sr W Value Value) w :
  gives_doc m → ∃ v, fst (result_of m w) = Ok v ∧ is_doc v = true.
Proof.
  intros Hm. specialize (Hm w). unfold result_of. destruct (m w) as [[v|v| |] w1]; cbn in *; try done; eexists; (split; [done|]);
    [done|by apply failure_is_doc].
Qed.

Lemma op_list_gives conn req : gives_doc (op_list conn req : sr W Value Value).
Proof.
  intros w. unfold op_list, mbind at 1, sr_bind at 1.
  match goal with |- context [result_of ?m w] =>
    destruct (result_of_gives m w (op_call_gives _ _)) as (v & Hv & Hd); destruct (result_of m w) as [r w1] end.
  cbn in Hv. subst r. destruct v; try done. cbn. by destruct (_ : option Value).
Qed.

Lemma sap_dispatch_gives conn op req w :
  ∃ v w', sap_dispatch conn op req w = (Ok v, w') ∧ is_doc v = true.
Proof.
  unfold sap_dispatch.
  match goal with |- context [result_of ?m w] =>
    assert (gives_doc m) as Hm; [|destruct (result_of_gives m w Hm) as (v & Hv & Hd)] end.
  - repeat case_match; first [apply op_describe_gives|apply op_list_gives|apply op_call_gives|apply op_send_idoc_gives|idtac].
    + unfold op_ping. gives.
    + by apply gives_ret.
  - exists v. destruct (result_of _ w) as [r w1]. cbn in Hv. subst r. by eexists.
Qed.

End Documents.

(** ** What is created is destroyed *)

Notation Event := (RfcOp * RfcReply)%type.

(** The library with a log of its calls. *)
Definition logged {W} {RF : Rfc W} : Rfc (W * list Event) :=
  {| rfc op wl := let '(r, w) := rfc op (fst wl) in (r, (w, snd wl ++ [(op, r)])%list) |}.

(** What is open between the calls on a connection: a function, a transaction,
    and what is reached within the function: itself, and the structures, tables
    and rows that calls on what is within it gave. *)
Record Open : Type := { o_func : option Z; o_trans : option Z; o_within : list Z }.
Definition nothing_open : Open := {| o_func := None; o_trans := None; o_within := [] |}.

Definition if_ {A} (P : Prop) {D : Decision P} (a : A) : option A := if decide P then Some a else None.

(** A call, given what is open: what is open after it, or [None] where it uses a
    handle that is not: one that was never created, was destroyed, or was
    reached within a function that was. Descriptions are the library's own,
    and are not given back. *)
Definition opened (conn : Z) (e : Event) (s : Open) : option Open :=
  let h := rr_handle (snd e) in
  let within c := if_ (c ∈ o_within s) s in
  let reached c := if_ (c ∈ o_within s) {| o_func := o_func s; o_trans := o_trans s; o_within := h :: o_within s |} in
  match fst e with
  | Ping c | GetFunctionDesc c _ | GetTransactionID c => if_ (c = conn) s
  | GetParameterCount _ | GetParameterDesc _ _ | GetFieldCount _ | GetFieldDesc _ _ => Some s
  | CreateFunction _ =>
    if h =? 0 then Some s
    else if_ (o_func s = None) {| o_func := Some h; o_trans := o_trans s; o_within := [h] |}
  | SetString c _ _ _ | GetString c _ _ | DescribeType c | GetRowCount c | MoveTo c _ => within c
  | GetStructure c _ | GetTable c _ | GetCurrentRow c | AppendNewRow c => reached c
  | Invoke c f => if_ (c = conn ∧ o_func s = Some f) s
  | DestroyFunction f =>
    if_ (o_func s = Some f ∧ o_trans s = None) {| o_func := None; o_trans := None; o_within := [] |}
  | CreateTransaction c _ =>
    if h =? 0 then if_ (c = conn) s
    else if_ (c = conn ∧ o_trans s = None) {| o_func := o_func s; o_trans := Some h; o_within := o_within s |}
  | InvokeInTransaction t f => if_ (o_trans s = Some t ∧ o_func s = Some f) s
  | SubmitTransaction t | ConfirmTransaction t => if_ (o_trans s = Some t) s
  | DestroyTransaction t => if_ (o_trans s = Some t) {| o_func := o_func s; o_trans := None; o_within := o_within s |}
  | OpenConnection _ | CloseConnection _ | DescribeFunction _ | GetFunctionName _ | RegisterServer _
  | InstallServerFunction _ | ListenAndDispatch _ _ => None
  end.
Fixpoint opens (conn : Z) (l : list Event) (s : Open) : option Open :=
  match l with [] => Some s | e :: l => s ← opened conn e s; opens conn l s end.

Lemma opens_app conn k l s : opens conn (k ++ l) s = (s ← opens conn k s; opens conn l s).
Proof. revert s. induction k as [|e k IH]; intros s; cbn; [done|]. destruct (opened conn e s); [apply IH|done]. Qed.

Section Scopes.
Context {SD : Serde} {W : Type} {RF : Rfc W} (conn : Z).
Notation LW := (W * list Event)%type.
#[local] Existing Instance logged.

(** Within a function and a transaction, where [ws] can be reached. *)
Definition scope (F T : option Z) (ws : list Z) (s : Open) : Prop :=
  o_func s = F ∧ o_trans s = T ∧ ws ⊆ o_within s.

(** From there a computation uses only what is open, leaves both open, and
    gives something of which [more] can be reached. *)
Definition uses {A} (F T : option Z) (ws : list Z) (m : sr LW Value A) (more : A → list Z) : Prop :=
  ∀ w l s, scope F T ws s →
    ∃ w' k s', snd (m (w, l)) = (w', (l ++ k)%list) ∧ opens conn k s = Some s' ∧ scope F T ws s' ∧
      ∀ a, fst (m (w, l)) = Ok a → more a ⊆ o_within s'.
Notation plainly F T ws m := (uses F T ws m (λ _, [])).

Lemma uses_lift {A} F T ws (r : res Value A) more : (∀ a, r = Ok a → more a ⊆ ws) → uses F T ws (sr_lift r) more.
Proof.
  intros Hr w l s Hs. exists w, [], s. rewrite app_nil_r. split; [done|]. split; [done|]. split; [done|].
  intros a Ha. etransitivity; [by apply Hr|apply Hs].
Qed.
Lemma uses_bind {A B} F T ws (m : sr LW Value A) (f : A → sr LW Value B) more more' :
  uses F T ws m more → (∀ a, uses F T (more a ++ ws) (f a) more') → uses F T ws (m ≫= f) more'.
Proof.
  intros Hm Hf w l s Hs. destruct (Hm w l s Hs) as (w1 & k & s1 & E & Ho & Hs1 & Hmore). unfold mbind, sr_bind.
  destruct (m (w, l)) as [[a|e| |] x]; cbn in E, Hmore; subst x; try (by exists w1, k, s1).
  destruct (Hf a w1 (l ++ k)%list s1) as (w2 & k2 & s2 & E2 & Ho2 & (H1 & H2 & H3) & Hmore2).
  { destruct Hs1 as (? & ? & ?). split; [done|]. split; [done|]. specialize (Hmore a eq_refl). set_solver. }
  exists w2, (k ++ k2)%list, s2. rewrite E2, app_assoc, opens_app, Ho. split; [done|]. split; [exact Ho2|].
  split; [|done]. split; [done|]. split; [done|]. set_solver.
Qed.
Lemma uses_out {A} F T ws (m : sr LW Value A) more : uses F T ws m more → plainly F T ws (sr_out m).
Proof.
  intros Hm w l s Hs. destruct (Hm w l s Hs) as (w1 & k & s1 & E & Ho & Hs1 & _). unfold sr_out.
  destruct (m (w, l)) as [r x]. cbn in E. exists w1, k, s1. split; [done|]. split; [done|]. split; [done|].
  intros a _. apply list_subseteq_nil.
Qed.
Lemma uses_less {A} F T ws (m : sr LW Value A) more : uses F T ws m more → plainly F T ws m.
Proof.
  intros Hm w l s Hs. destruct (Hm w l s Hs) as (w1 & k & s1 & E & Ho & Hs1 & _).
  exists w1, k, s1. do 3 (split; [done|]). intros a _. apply list_subseteq_nil.
Qed.
Lemma uses_ret {A} F T ws (a : A) : plainly F T ws (mret a : sr LW Value A).
Proof. apply (uses_lift F T ws (Ok a)). intros ? _. apply list_subseteq_nil. Qed.
Lemma uses_fail {A} F T ws e more : uses F T ws (sr_fail e : sr LW Value A) more.
Proof. by apply (uses_lift F T ws (Err e)). Qed.

(** A call that was asked for. *)
Lemma uses_ask F T ws op more :
  (∀ r s, scope F T ws s → ∃ s', opened conn (op, r) s = Some s' ∧ scope F T ws s' ∧ more r ⊆ o_within s') →
  uses F T ws (ask op) more.
Proof.
  intros H w l s Hs. unfold ask. cbn. destruct (rfc op w) as [r w1]. destruct (H r s Hs) as (s' & E & Hs' & Hm).
  exists w1, [(op, r)], s'. cbn. rewrite E. split; [done|]. split; [done|]. split; [done|]. by intros a [= <-].
Qed.

(** The calls that reach into a container: the container, and what they give
    that lies within. *)
Definition touches (op : RfcOp) : list Z :=
  match op with
  | SetString c _ _ _ | GetString c _ _ | DescribeType c | GetRowCount c | MoveTo c _
  | GetStructure c _ | GetTable c _ | GetCurrentRow c | AppendNewRow c => [c]
  | _ => []
  end.
Definition inner (op : RfcOp) (h : Z) : list Z :=
  match op with GetStructure _ _ | GetTable _ _ | GetCurrentRow _ | AppendNewRow _ => [h] | _ => [] end.

Lemma if_true {A} (P : Prop) {D : Decision P} (a : A) : P → if_ P a = Some a.
Proof. intros H. unfold if_. by rewrite decide_True. Qed.

Lemma uses_plain F T ws op : plain op = true → touches op ⊆ ws →
  uses F T ws (ask op) (λ r, inner op (rr_handle r)).
Proof.
  intros Hp Ht. apply uses_ask. intros r s (HF & HT & Hw).
  assert (∀ c, touches op = [c] → c ∈ o_within s) as Hin by (intros c E; rewrite E in Ht; set_solver).
  destruct op; try done; cbn [opened fst snd inner touches] in *; try (rewrite if_true by (by apply Hin));
    eexists; (split; [reflexivity|]); (split; [split; [done|]; split; [done|]; cbn; set_solver|cbn; set_solver]).
Qed.
Lemma uses_must F T ws stage op : plain op = true → touches op ⊆ ws →
  uses F T ws (must stage op) (λ r, inner op (rr_handle r)).
Proof.
  intros Hp Ht. unfold must. eapply uses_bind; [by apply uses_plain|]. intros r.
  case_match; apply uses_lift; [intros a [= <-]; set_solver|done].
Qed.
Lemma uses_must_handle F T ws stage op : plain op = true → touches op ⊆ ws →
  uses F T ws (must_handle stage op) (inner op).
Proof.
  intros Hp Ht. unfold must_handle. eapply uses_bind; [by apply uses_plain|]. intros r.
  case_match; apply uses_lift; [done|intros a [= <-]; set_solver].
Qed.

(** A computation uses what it is given. *)
Ltac given := cbn [touches inner app]; set_solver.
Ltac scopes := repeat first
  [ simple apply uses_ret | simple apply uses_fail
  | solve [eauto 3 with scopes nocore]
  | simple eapply uses_bind; [solve [eauto 3 with scopes nocore | eapply uses_must; [reflexivity|given]
      | eapply uses_must_handle; [reflexivity|given] | eapply uses_plain; [reflexivity|given]]|intros ?; cbn [touches inner app]]
  | case_match ].

Lemma uses_each {A} F T ws (f : Z → sr LW Value A) n i : (∀ i, plainly F T ws (f i)) → plainly F T ws (each_index f n i).
Proof.
  intros Hf. revert i. induction n as [|n IH]; intros i; cbn [each_index]; [apply uses_ret|].
  eapply uses_bind; [apply Hf|]. intros x. eapply uses_bind; [apply IH|]. intros xs. apply uses_ret.
Qed.
Lemma uses_get_string F T ws c field : c ∈ ws → plainly F T ws (get_string c field).
Proof. intros Hc. unfold get_string. scopes. Qed.
Lemma uses_string_or_null F T ws c field : c ∈ ws → plainly F T ws (string_or_null c field).
Proof.
  intros Hc. unfold string_or_null. eapply uses_bind; [by eapply uses_out, uses_get_string|]. intros [a|e| |]; cbn [app];
    [apply uses_ret|apply uses_ret|by apply (uses_lift F T ws Panic)|by apply (uses_lift F T ws NoFuel)].
Qed.
Lemma uses_read_fields F T ws c cols m : c ∈ ws → plainly F T ws (read_fields c cols m).
Proof.
  intros Hc. revert m. induction cols as [|col cols IH]; intros m; cbn [read_fields]; [apply uses_ret|].
  eapply uses_bind; [by apply uses_string_or_null|]. intros v. apply IH.
Qed.
Lemma uses_field_names F T ws c : c ∈ ws → plainly F T ws (field_names c).
Proof. intros Hc. unfold field_names. scopes. apply uses_each. intros i. scopes. Qed.
Lemma uses_read_structure F T ws c : c ∈ ws → plainly F T ws (read_structure c).
Proof.
  intros Hc. unfold read_structure. eapply uses_bind; [by apply uses_field_names|]. intros cols.
  eapply uses_bind; [by apply uses_read_fields|]. intros m. apply uses_ret.
Qed.
Lemma uses_marshal_structure F T ws c name : c ∈ ws → plainly F T ws (marshal_structure c name).
Proof. intros Hc. unfold marshal_structure. scopes. apply uses_read_structure. set_solver. Qed.
Lemma uses_table_rows F T name t cols n : ∀ ws i, t ∈ ws → plainly F T ws (read_table_rows name t cols n i).
Proof.
  induction n as [|n IH]; intros ws i Ht; cbn [read_table_rows]; [apply uses_ret|]. scopes.
  eapply uses_bind; [apply uses_read_fields; set_solver|]. intros m.
  eapply uses_bind; [apply IH; set_solver|]. intros rest. apply uses_ret.
Qed.
Lemma uses_marshal_table F T ws c name max : c ∈ ws → plainly F T ws (marshal_table c name max).
Proof.
  intros Hc. unfold marshal_table. scopes.
  all: eapply uses_bind; [apply uses_field_names; set_solver|]; intros cols.
  all: eapply uses_bind; [apply uses_table_rows; set_solver|]; intros rows; apply uses_ret.
Qed.
Lemma uses_parameters F T ws d : plainly F T ws (parameters d).
Proof. unfold parameters. scopes. apply uses_each. intros i. scopes. Qed.
Lemma uses_parameter_value F T ws f p : f ∈ ws → plainly F T ws (parameter_value f p).
Proof.
  intros Hf. unfold parameter_value. case_match; [|by apply uses_string_or_null].
  eapply uses_bind; [by eapply uses_out, uses_marshal_structure|]. intros [a|e| |]; cbn [app];
    [apply uses_ret|apply uses_ret|by apply (uses_lift F T ws Panic)|by apply (uses_lift F T ws NoFuel)].
Qed.
Lemma uses_outputs F T ws f max ps : f ∈ ws → ∀ ex tb, plainly F T ws (marshal_outputs f max ps ex tb).
Proof.
  intros Hf. induction ps as [|p ps IH]; intros ex tb; cbn [marshal_outputs]; [apply uses_ret|].
  case_match; [eapply uses_bind; [by apply uses_marshal_table|intros v; apply IH]|].
  case_match; [eapply uses_bind; [by apply uses_parameter_value|intros v; apply IH]|apply IH].
Qed.

Definition sets F T (v : Value) : Prop := ∀ ws c name, c ∈ ws → plainly F T ws (set_field c name v).
Lemma uses_set_fields F T m : Forall (λ kv, sets F T (snd kv)) m → ∀ ws c, c ∈ ws → plainly F T ws (set_fields c m).
Proof.
  intros H. induction H as [|[k v] m Hv _ IH]; intros ws c Hc; cbn [set_fields]; [apply uses_ret|].
  eapply uses_bind; [by apply Hv|]. intros []. by apply IH.
Qed.
Lemma uses_set_field F T v : sets F T v ∧ (∀ m ws c, v = VObject m → c ∈ ws → plainly F T ws (set_fields c m)).
Proof.
  induction v as [|b|n|x|l IH|m IH] using value_ind'; (split; [intros ws c name Hc|intros m' ws c Hm Hc]); try done;
    try (by cbn [set_field]; scopes).
  - rewrite set_field_array. scopes. assert (rr_handle a ∈ rr_handle a :: ws) as Ht by set_solver.
    revert Ht. generalize (rr_handle a :: ws). induction IH as [|x l [_ Hx] _ IHl]; intros ws' Ht; [apply uses_ret|].
    destruct x as [| | | | |m]; try by apply IHl. cbn [set_rows]. scopes.
    eapply uses_bind; [apply Hx; [done|set_solver]|]. intros []. apply IHl. set_solver.
  - rewrite set_field_object. scopes. apply uses_set_fields; [|set_solver].
    by apply (Forall_impl _ _ _ IH); intros ? [? _].
  - injection Hm as <-. apply uses_set_fields; [|done]. by apply (Forall_impl _ _ _ IH); intros ? [? _].
Qed.

(** ** The operations *)

Lemma uses_ask_open {A} F T ws (op : RfcOp) (f : RfcReply → sr LW Value A) :
  (∀ r s, scope F T ws s → opened conn (op, r) s = Some s) → (∀ r, plainly F T ws (f r)) →
  plainly F T ws (ask op ≫= f).
Proof.
  intros Ho Hf. eapply (uses_bind _ _ _ _ _ (λ _, [])); [|exact Hf]. apply uses_ask. intros r s Hs. exists s.
  split; [by apply Ho|]. split; [done|apply list_subseteq_nil].
Qed.
Ltac still := intros ? ? (HF & HT & _); cbn [opened fst]; rewrite ?HF, ?HT; by apply if_true.

Lemma uses_func_desc F T ws func : plainly F T ws (func_desc conn func).
Proof. apply uses_ask_open; [still|]. intros r. case_match; [apply uses_fail|apply uses_ret]. Qed.

(** A function is created, used and destroyed, whatever becomes of its use. *)
Lemma uses_function {A} stage desc (m : Z → sr LW Value A) :
  (∀ f, plainly (Some f) None [f] (m f)) →
  plainly None None [] (f ← must_handle stage (CreateFunction desc); finally (m f) (DestroyFunction f)).
Proof.
  intros Hm w l s (HF & HT & _). unfold must_handle, ask, finally, mbind, sr_bind. cbn.
  destruct (rfc (CreateFunction desc) w) as [r w1]. cbn. destruct (rr_handle r =? 0) eqn:Eh; cbn.
  - exists w1, [(CreateFunction desc, r)], s. cbn [opens opened fst snd]. rewrite Eh. cbn.
    do 2 (split; [done|]). split; [split; [done|]; split; [done|apply list_subseteq_nil]|]. intros a _. apply list_subseteq_nil.
  - set (f := rr_handle r) in *. set (s1 := {| o_func := Some f; o_trans := o_trans s; o_within := [f] |}).
    destruct (Hm f w1 (l ++ [(CreateFunction desc, r)])%list s1) as (w2 & k & s2 & E & Ho & (HF2 & HT2 & _) & _);
      [by split|]. destruct (m f _) as [o x]. cbn in E. subst x. cbn.
    destruct (rfc (DestroyFunction f) w2) as [r2 w3]. cbn.
    exists w3, ((CreateFunction desc, r) :: k ++ [(DestroyFunction f, r2)])%list, nothing_open.
    split; [by rewrite <- !app_assoc|]. split.
    + cbn [opens opened fst snd]. fold f. rewrite Eh, HF, (if_true _ _ eq_refl). cbn [mbind option_bind].
      change {| o_func := Some f; o_trans := o_trans s; o_within := [f] |} with s1. rewrite opens_app, Ho.
      cbn [mbind option_bind opens opened fst snd]. by rewrite HF2, HT2, if_true.
    + split; [split; [done|]; split; [done|apply list_subseteq_nil]|]. intros a _. apply list_subseteq_nil.
Qed.
(** So is a transaction. *)
Lemma uses_transaction {A} F ws stage tid (m : Z → sr LW Value A) :
  (∀ t, plainly F (Some t) ws (m t)) →
  plainly F None ws (t ← must_handle stage (CreateTransaction conn tid); finally (m t) (DestroyTransaction t)).
Proof.
  intros Hm w l s (HF & HT & Hw). unfold must_handle, ask, finally, mbind, sr_bind. cbn.
  destruct (rfc (CreateTransaction conn tid) w) as [r w1]. cbn. destruct (rr_handle r =? 0) eqn:Eh; cbn.
  - exists w1, [(CreateTransaction conn tid, r)], s. cbn [opens opened fst snd]. rewrite Eh, if_true by done. cbn.
    do 2 (split; [done|]). split; [done|]. intros a _. apply list_subseteq_nil.
  - set (t := rr_handle r) in *. set (s1 := {| o_func := o_func s; o_trans := Some t; o_within := o_within s |}).
    destruct (Hm t w1 (l ++ [(CreateTransaction conn tid, r)])%list s1) as (w2 & k & s2 & E & Ho & (HF2 & HT2 & Hw2) & _);
      [by split|]. destruct (m t _) as [o x]. cbn in E. subst x. cbn.
    destruct (rfc (DestroyTransaction t) w2) as [r2 w3]. cbn.
    exists w3, ((CreateTransaction conn tid, r) :: k ++ [(DestroyTransaction t, r2)])%list,
      {| o_func := o_func s2; o_trans := None; o_within := o_within s2 |}.
    split; [by rewrite <- !app_assoc|]. split.
    + cbn [opens opened fst snd]. fold t. rewrite Eh, if_true by done. cbn [mbind option_bind].
      change {| o_func := o_func s; o_trans := Some t; o_within := o_within s |} with s1. rewrite opens_app, Ho.
      cbn [mbind option_bind opens opened fst snd]. by rewrite HT2, if_true.
    + split; [by split|]. intros a _. apply list_subseteq_nil.
Qed.
Lemma uses_result F T ws m : plainly F T ws m → plainly F T ws (result_of m).
Proof.
  intros Hm w l s Hs. destruct (Hm w l s Hs) as (w1 & k & s1 & E & Ho & Hs1 & _). unfold result_of.
  destruct (m (w, l)) as [r x]. cbn in E. exists w1, k, s1. do 3 (split; [done|]). intros a _. apply list_subseteq_nil.
Qed.

Lemma uses_op_ping : plainly None None [] (op_ping conn).
Proof.
  unfold op_ping, must. eapply (uses_bind _ _ _ _ _ (λ _, [])); [|intros a; apply uses_ret].
  apply uses_ask_open; [still|]. intros r. case_match; [apply uses_ret|apply uses_fail].
Qed.
Lemma uses_op_describe req : plainly None None [] (op_describe conn req).
Proof.
  unfold op_describe. case_match; [|apply uses_ret]. eapply uses_bind; [apply uses_func_desc|]. intros d.
  eapply uses_bind; [apply uses_parameters|]. intros ps. apply uses_ret.
Qed.
Lemma uses_op_call req : plainly None None [] (op_call conn req).
Proof.
  unfold op_call. case_match; [|apply uses_ret]. eapply uses_bind; [apply uses_func_desc|]. intros d.
  apply uses_function. intros f. eapply (uses_bind _ _ _ _ _ (λ _, [])).
  { case_match; [|apply uses_ret]. eapply uses_set_field; [done|by left]. }
  intros []. eapply (uses_bind _ _ _ _ _ (λ _, [])).
  { apply uses_ask_open; [still|]. intros r. case_match; [apply uses_ret|apply uses_fail]. }
  intros a. eapply uses_bind; [apply uses_parameters|]. intros ps.
  eapply uses_bind; [apply uses_outputs; by left|]. intros [ex tb]. apply uses_ret.
Qed.
Lemma uses_op_send_idoc req : plainly None None [] (op_send_idoc conn req).
Proof.
  unfold op_send_idoc. eapply uses_bind; [apply uses_func_desc|]. intros d. apply uses_function. intros f.
  eapply (uses_bind _ _ _ _ _ (λ _, [])); [case_match; [apply uses_set_field; by left|apply uses_ret]|]. intros [].
  eapply (uses_bind _ _ _ _ _ (λ _, [])); [case_match; [apply uses_set_field; by left|apply uses_ret]|]. intros [].
  eapply (uses_bind _ _ _ _ _ (λ _, [])).
  { case_match; [apply uses_ret|]. eapply (uses_bind _ _ _ _ _ (λ _, [])); [|intros a; apply uses_ret].
    apply uses_ask_open; [still|]. intros r. case_match; [apply uses_ret|apply uses_fail]. }
  intros tid. apply uses_transaction. intros t.
  do 3 (eapply (uses_bind _ _ _ _ _ (λ _, [])); [apply uses_ask_open; [still|]; intros r; case_match; [apply uses_ret|apply uses_fail]|intros ?]).
  apply uses_ret.
Qed.
Lemma uses_op_list req : plainly None None [] (op_list conn req).
Proof. unfold op_list. eapply uses_bind; [apply uses_result, uses_op_call|]. intros v. apply uses_ret. Qed.

(** C32: Whatever the SAP library answers, an operation on a connection - a
    ping, a description, a listing, a call, an IDoc - uses only handles that
    are open when it uses them, on the connection it was given: a function only
    between its creation and its destruction, a structure, a table or a row
    only within the function it was reached in, a transaction only between its
    creation and its destruction, which comes before its function's.  One
    function and one transaction are open at a time; when it ends nothing is
    open, on every path out of it, the failing ones too: each handle that was
    created was destroyed once, and no other.  It ends with a document, never
    in a panic. *)
Theorem sap_calls_release op req (w : W) :
  ∃ v w' l s, sap_dispatch conn op req (w, []) = (Ok v, (w', l)) ∧ is_doc v = true ∧
    opens conn l nothing_open = Some s ∧ o_func s = None ∧ o_trans s = None.
Proof.
  destruct (sap_dispatch_gives conn op req (w, [])) as (v & [w' l] & E & Hd).
  assert (plainly None None [] (sap_dispatch conn op req)) as Hu.
  { unfold sap_dispatch. apply uses_result. repeat case_match;
      first [apply uses_op_ping|apply uses_op_describe|apply uses_op_list|apply uses_op_call|apply uses_op_send_idoc
            |apply uses_ret]. }
  destruct (Hu w [] nothing_open) as (w2 & k & s & Ek & Ho & (HF & HT & _) & _); [by split; [|split; [|apply list_subseteq_nil]]|].
  rewrite E in Ek. cbn in Ek. injection Ek as -> ->. by exists v, w2, k, s.
Qed.
End Scopes.

(** ** Calls that only reach into containers *)

Section Plain.
Context {SD : Serde} {W : Type} {RF : Rfc W}.
Notation LW := (W * list Event)%type.
#[local] Existing Instance logged.

(** A computation that is [documented] and whose calls are a [Q]. *)
Definition calls (Q : list Event → Prop) A (m : sr LW Value A) : Prop :=
  ∀ w l, (match fst (m (w, l)) with Ok _ => True | Err e => failure e = true | _ => False end) ∧
         ∃ w' k, snd (m (w, l)) = (w', (l ++ k)%list) ∧ Q k.
Definition plain_calls (l : list Event) : Prop := Forall (λ e, plain (fst e) = true) l.
Class Gathers (Q : list Event → Prop) : Prop := { gathers_nil : Q []; gathers_app : ∀ k l, Q k → Q l → Q (k ++ l)%list }.
#[export] Instance plain_gathers : Gathers plain_calls.
Proof. split; [apply Forall_nil_2|apply Forall_app_2]. Qed.
Section Gathering.
Context (Q : list Event → Prop) {GQ : Gathers Q}.

Lemma calls_pure {A} (r : res Value A) :
  (match r with Ok _ => True | Err e => failure e = true | _ => False end) → calls Q A (sr_lift r).
Proof. intros Hr w l. split; [done|]. exists w, []. by rewrite app_nil_r; split; [|apply gathers_nil]. Qed.
Lemma calls_bind {A B} (m : sr LW Value A) (f : A → sr LW Value B) :
  calls Q A m → (∀ a, calls Q B (f a)) → calls Q B (m ≫= f).
Proof.
  intros Hm Hf w l. destruct (Hm w l) as (Ho & w1 & k & E & Hk). unfold mbind, sr_bind.
  destruct (m (w, l)) as [[a|e| |] s]; cbn in *; try done; subst s; [|by split; [|eauto]].
  destruct (Hf a w1 (l ++ k)%list) as (Ho2 & w2 & k2 & E2 & Hk2). split; [done|].
  exists w2, (k ++ k2)%list. rewrite E2, <- app_assoc. by split; [|apply gathers_app].
Qed.
Lemma calls_out {A B} (m : sr LW Value A) (f : res Value A → sr LW Value B) :
  calls Q A m → (∀ a, calls Q B (f (Ok a))) → (∀ e, failure e = true → calls Q B (f (Err e))) →
  calls Q B (sr_out m ≫= f).
Proof.
  intros Hm Hok Herr w l. destruct (Hm w l) as (Ho & w1 & k & E & Hk). unfold mbind, sr_bind, sr_out.
  destruct (m (w, l)) as [[a|e| |] s]; cbn in *; try done; subst s;
    [destruct (Hok a w1 (l ++ k)%list) as (Ho2 & w2 & k2 & E2 & Hk2)
    |destruct (Herr e Ho w1 (l ++ k)%list) as (Ho2 & w2 & k2 & E2 & Hk2)]; (split; [done|]);
    exists w2, (k ++ k2)%list; rewrite E2, <- app_assoc; (by split; [|apply gathers_app]).
Qed.
Lemma calls_ask op : (∀ r, Q [(op, r)]) → calls Q _ (ask op).
Proof. intros Hq w l. cbn. unfold ask. cbn. destruct (rfc op w) as [r w1]. cbn. split; [done|]. by eexists _, _. Qed.
End Gathering.

#[export] Instance plain_closed : Closed (calls plain_calls).
Proof.
  split.
  - intros A a. by apply (calls_pure _ (Ok a)).
  - intros A B m f Hm Hf. by apply (calls_bind _ m f).
  - intros A e He. by apply (calls_pure _ (Err e)).
  - intros op Hop. apply calls_ask. intros r. by apply Forall_singleton.
  - intros A B m f Hm Hok Herr. by apply (calls_out _ m f).
Qed.

Lemma set_fields_calls c m : calls plain_calls _ (set_fields c m : sr LW Value ()).
Proof. by apply (closed_set_field (calls plain_calls) (VObject m)). Qed.
Lemma set_field_calls c name v : calls plain_calls _ (set_field c name v : sr LW Value ()).
Proof. apply (closed_set_field (calls plain_calls) v). Qed.
End Plain.

(** ** IDocs *)

Section Idocs.
Context {SD : Serde} {W : Type} {RF : Rfc W}.
Notation LW := (W * list Event)%type.
#[local] Existing Instance logged.

Lemma must_Ok stage op (w : W) l r s :
  must stage op (w, l) = (Ok r, s) → ∃ w', s = (w', (l ++ [(op, r)])%list) ∧ rr_rc r = 0.
Proof.
  unfold must, ask, mbind, sr_bind. cbn. destruct (rfc op w) as [r0 w1]. cbn.
  case_match; intros [= <- <-]. exists w1. split; [done|]. by apply Z.eqb_eq.
Qed.
Lemma must_handle_Ok stage op (w : W) l h s :
  must_handle stage op (w, l) = (Ok h, s) → ∃ w' r, s = (w', (l ++ [(op, r)])%list) ∧ rr_handle r = h ∧ h ≠ 0.
Proof.
  unfold must_handle, ask, mbind, sr_bind. cbn. destruct (rfc op w) as [r0 w1]. cbn.
  case_match eqn:E; intros [= <- <-]. exists w1, r0. split; [done|]. split; [done|]. by apply Z.eqb_neq.
Qed.
Lemma finally_Ok {A} (m : sr LW Value A) op (w : W) l a s :
  finally m op (w, l) = (Ok a, s) →
  ∃ w1 l1 w2 r, m (w, l) = (Ok a, (w1, l1)) ∧ s = (w2, (l1 ++ [(op, r)])%list).
Proof.
  unfold finally. destruct (m (w, l)) as [o [w1 l1]]. cbn. destruct (rfc op w1) as [r w2]. intros [= -> <-].
  by exists w1, l1, w2, r.
Qed.
Lemma plain_Ok {A} (m : sr LW Value A) (w : W) l a s :
  calls plain_calls A m → m (w, l) = (Ok a, s) → ∃ w' k, s = (w', (l ++ k)%list) ∧ plain_calls k.
Proof. intros Hm E. destruct (Hm w l) as (_ & w' & k & Hk & Hp). rewrite E in Hk. cbn in Hk. eauto. Qed.
Lemma option_set_calls {A} (o : option A) (f : A → sr LW Value ()) :
  (∀ a, calls plain_calls _ (f a)) → calls plain_calls _ (match o with Some a => f a | None => mret () end).
Proof. intros Hf. destruct o; [apply Hf|by apply (calls_pure plain_calls (Ok tt))]. Qed.

(** The calls of a transaction that carried [f]. *)
Definition transaction (conn f : Z) (tid : uc) (l : list Event) : Prop :=
  ∃ r0 r1 r2 r3 r4, let th := rr_handle r0 in
  l = [(CreateTransaction conn tid, r0); (InvokeInTransaction th f, r1); (SubmitTransaction th, r2);
       (ConfirmTransaction th, r3); (DestroyTransaction th, r4)] ∧
  th ≠ 0 ∧ rr_rc r1 = 0 ∧ rr_rc r2 = 0 ∧ rr_rc r3 = 0.

Lemma transaction_Ok conn f tid (w : W) l v s :
  (th ← must_handle "create_transaction" (CreateTransaction conn tid);
   finally (
     _ ← must "invoke_in_transaction" (InvokeInTransaction th f);
     _ ← must "submit_transaction" (SubmitTransaction th);
     _ ← must "confirm_transaction" (ConfirmTransaction th);
     mret (obj [("ok", VBool true); ("func", VString "IDOC_INBOUND_ASYNCHRONOUS"); ("tid", VString (from_uc tid))]))
     (DestroyTransaction th)) (w, l) = (Ok v, s) →
  ∃ w' k, s = (w', (l ++ k)%list) ∧ transaction conn f tid k ∧ vget "tid" v = Some (VString (from_uc tid)).
Proof.
  intros H. apply sr_bind_Ok in H as (th & s1 & H0 & H). apply must_handle_Ok in H0 as (w1 & r0 & -> & <- & Hth).
  apply finally_Ok in H as (w2 & l2 & w3 & r4 & H & ->).
  apply sr_bind_Ok in H as (r1 & s2 & H1 & H). apply must_Ok in H1 as (w4 & -> & Hr1).
  apply sr_bind_Ok in H as (r2 & s3 & H2 & H). apply must_Ok in H2 as (w5 & -> & Hr2).
  apply sr_bind_Ok in H as (r3 & s4 & H3 & H). apply must_Ok in H3 as (w6 & -> & Hr3).
  injection H as <- _ <-. eexists _, _. rewrite <- !app_assoc. split; [done|]. split; [|done].
  by exists r0, r1, r2, r3, r4.
Qed.

(** An outcome that says [ok] is that of an answer. *)
Lemma result_ok (m : sr LW Value Value) s v s' :
  documented _ m → result_of m s = (Ok v, s') → vget "ok" v = Some (VBool true) → m s = (Ok v, s').
Proof.
  intros Hm. specialize (Hm s). unfold result_of. destruct (m s) as [[a|e| |] s1]; cbn in *; intros [= -> ->]; [done|].
  destruct v; try done. cbn in *. intros Hok. by rewrite Hok in Hm.
Qed.

(** C31: An IDoc is reported as sent only when SAP took it over: when the
    answer says [ok], the calls made were those that fill the record, then, in
    this order and once each, the creation of a transaction, the invocation of
    that function in it, its submission and its confirmation, each of which
    succeeded, and the destructions; the transaction id is the one of the
    request where it has one, and it is the one the answer names. *)
Theorem idoc_ok_confirmed conn req (w w' : W) l v
    (Hrun : sap_dispatch conn "send_idoc" req (w, []) = (Ok v, (w', l)))
    (Hok : vget "ok" v = Some (VBool true)) :
  ∃ desc tid pre tx rd rf rz, let f := rr_handle rf in
    l = ((GetFunctionDesc conn (to_uc "IDOC_INBOUND_ASYNCHRONOUS"), rd) :: (CreateFunction desc, rf) ::
         pre ++ tx ++ [(DestroyFunction f, rz)])%list ∧
    transaction conn f tid tx ∧
    Forall (λ e, plain (fst e) = true ∨ fst e = GetTransactionID conn) pre ∧
    (∀ t, req_str "tid" req = Some t → tid = given_tid t) ∧
    vget "tid" v = Some (VString (from_uc tid)).
Proof.
  apply result_ok in Hrun; [|apply gives_documented, op_send_idoc_gives|done].
  apply sr_bind_Ok in Hrun as (desc & s1 & H0 & H). apply must_handle_Ok in H0 as (w1 & rd & -> & Hd & _).
  apply sr_bind_Ok in H as (f & s2 & H0 & H). apply must_handle_Ok in H0 as (w2 & rf & -> & <- & _).
  apply finally_Ok in H as (w3 & l3 & w4 & rz & H & [= -> ->]).
  apply sr_bind_Ok in H as ([] & s3 & H0 & H). apply plain_Ok in H0 as (w5 & k1 & -> & Hk1);
    [|apply option_set_calls; intros ?; apply set_field_calls].
  apply sr_bind_Ok in H as ([] & s4 & H0 & H). apply plain_Ok in H0 as (w6 & k2 & -> & Hk2);
    [|apply option_set_calls; intros ?; apply set_field_calls].
  apply sr_bind_Ok in H as (tid & s5 & H0 & H).
  assert (∃ w7 k3, s5 = (w7, (((([] ++ [(GetFunctionDesc conn (to_uc "IDOC_INBOUND_ASYNCHRONOUS"), rd)]) ++ [(CreateFunction desc, rf)]) ++ k1) ++ k2) ++ k3)%list
      ∧ Forall (λ e, plain (fst e) = true ∨ fst e = GetTransactionID conn) k3 ∧
      (∀ t, req_str "tid" req = Some t → tid = given_tid t)) as (w7 & k3 & -> & Hk3 & Htid).
  { destruct (req_str "tid" req) as [t|].
    - injection H0 as <- <-. exists w6, []. rewrite app_nil_r. split; [done|]. split; [done|]. by intros ? [= ->].
    - apply sr_bind_Ok in H0 as (r & s6 & H1 & H2). apply must_Ok in H1 as (w7 & -> & _). injection H2 as <- <-.
      eexists w7, _. split; [done|]. split; [|done]. apply Forall_singleton. by right. }
  apply transaction_Ok in H as (w8 & tx & [= -> ->] & Htx & Hv).
  exists desc, tid, (k1 ++ k2 ++ k3)%list, tx, rd, rf, rz. split; [by rewrite <- !app_assoc; cbn; rewrite <- !app_assoc|].
  split; [done|]. split; [|by split].
  rewrite !Forall_app. split; [|split; [|done]]; eapply Forall_impl; try done; by left.
Qed.
End Idocs.

(** ** One reply for each request *)

Section Replies.
Context {SD : Serde} {W : Type} {RF : Rfc W} (env : string → option string) (instant : nat → Z) (test_hooks : bool).
Notation serve_line := (serve_line env instant test_hooks).
Notation serve_lines := (serve_lines env instant test_hooks).

(** What a computation of the loop adds to the reply channel. *)
Definition says (Q : list string → Prop) (m : sr (Sap W) string ()) : Prop :=
  ∀ s, fst (m s) = Ok () ∧ ∃ k, sp_out (snd (m s)) = (sp_out s ++ k)%list ∧ Q k.
(** A computation that says nothing, and gives a [P]. *)
Definition silent {A} (P : A → Prop) (m : sr (Sap W) string A) : Prop :=
  ∀ s, (∃ a, fst (m s) = Ok a ∧ P a) ∧ sp_out (snd (m s)) = sp_out s.

Lemma silent_bind {A B} P (Q : B → Prop) (m : sr (Sap W) string A) f :
  silent P m → (∀ a, P a → silent Q (f a)) → silent Q (m ≫= f).
Proof.
  intros Hm Hf s. destruct (Hm s) as [(a & Ha & Hp) Ho]. unfold mbind, sr_bind.
  destruct (m s) as [r s1]. cbn in *. subst r. rewrite <- Ho. by apply Hf.
Qed.
Lemma silent_says {A} P Q (m : sr (Sap W) string A) f :
  silent P m → (∀ a, P a → says Q (f a)) → says Q (m ≫= f).
Proof.
  intros Hm Hf s. destruct (Hm s) as [(a & Ha & Hp) Ho]. unfold mbind, sr_bind.
  destruct (m s) as [r s1]. cbn in *. subst r. rewrite <- Ho. by apply Hf.
Qed.
Lemma says_bind Q1 Q2 Q m (f : () → sr (Sap W) string ()) :
  says Q1 m → says Q2 (f ()) → (∀ k l, Q1 k → Q2 l → Q (k ++ l)%list) → says Q (m ≫= f).
Proof.
  intros Hm Hf HQ s. destruct (Hm s) as (Ha & k & Ho & Hk). unfold mbind, sr_bind.
  destruct (m s) as [r s1]. cbn in *. subst r. destruct (Hf s1) as (Hr & l & Hl & HQl). split; [done|].
  exists (k ++ l)%list. split; [by rewrite Hl, Ho, app_assoc|auto].
Qed.
Lemma says_reply (Q : list string → Prop) v : Q [to_json v] → says Q (sap_reply v).
Proof. intros HQ s. by split; [|eexists]. Qed.
Lemma says_nothing (Q : list string → Prop) : Q [] → says Q (mret ()).
Proof. intros HQ s. split; [done|]. exists []. by rewrite app_nil_r. Qed.
Lemma silent_ret {A} (P : A → Prop) a : P a → silent P (mret a).
Proof. intros Hp s. by split; [eexists|]. Qed.
Lemma silent_lib {A} P (m : sr W Value A) : (∀ w, P (fst (m w))) → silent P (on_lib m).
Proof. intros Hp s. specialize (Hp (sp_lib s)). unfold on_lib. destruct (m (sp_lib s)). by split; [eexists|]. Qed.
Lemma silent_any {A} (m : sr W Value A) : silent (λ _, True) (on_lib m).
Proof. by apply silent_lib. Qed.
Lemma silent_mod f : (∀ s, sp_out (f s) = sp_out s) → silent (λ _, True) (sr_mod f : sr (Sap W) string ()).
Proof. intros Hf s. split; [by eexists|apply Hf]. Qed.
Lemma silent_get : silent (λ _, True) (sr_get : sr (Sap W) string (Sap W)).
Proof. intros s. by split; [eexists|]. Qed.
Lemma silent_now : silent (λ _, True) (now instant : sr (Sap W) string Z).
Proof. intros s. by split; [eexists|]. Qed.

(** An outcome that is a document. *)
Definition is_document (r : res Value Value) : Prop := is_doc (document r) = true.
Definition failed_well {A} (r : res Value A) : Prop := match r with Err e => is_doc e = true | Ok _ => True | _ => False end.

Lemma dispatch_document conn op req : silent is_document (on_lib (sap_dispatch (RF := RF) conn op req)).
Proof. apply silent_lib. intros w. by destruct (sap_dispatch_gives conn op req w) as (v & w' & -> & Hd). Qed.
Lemma reopen_well c : silent failed_well (on_lib (reopen (RF := RF) env c)).
Proof.
  apply silent_lib. intros w. unfold reopen, mbind, sr_bind, ask. destruct (rfc _ w) as [r w1].
  pose proof (documented_must_handle "open" (OpenConnection (map (λ p, (to_uc (fst p), to_uc (snd p)))
    [("ashost", sap_env env "SAP_ASHOST" "localhost"); ("sysnr", sap_env env "SAP_SYSNR" "00");
     ("client", sap_env env "SAP_CLIENT" "001"); ("user", sap_env env "SAP_USER" "");
     ("passwd", sap_env env "SAP_PASSWD" ""); ("lang", sap_env env "SAP_LANG" "EN")])) w1) as H.
  unfold open_connection. destruct (fst (must_handle _ _ w1)); try done. by apply failure_is_doc.
Qed.

(** A line that answers a request: a document, with the id of the request. *)
Definition answers (req : Value) (reply : string) : Prop :=
  ∃ v, reply = to_json v ∧ is_doc v = true ∧ ∀ id, vget "id" req = Some id → vget "id" v = Some id.

Lemma with_id_answers req v : is_doc v = true → answers req (to_json (with_id req v)).
Proof.
  intros Hd. destruct v as [| | | | |m]; try done. exists (with_id req (VObject m)). split; [done|]. unfold with_id.
  destruct (vget "id" req) as [id|]; (split; [done|]); [|done]. intros ? [= <-]. apply map_get_insert_eq.
Qed.

Definition one (P : string → Prop) (k : list string) : Prop := ∃ r, k = [r] ∧ P r.

Lemma use_conn_silent c : silent (λ _, True) (use_conn c : sr (Sap W) string ()).
Proof. by apply silent_mod. Qed.

Lemma dispatch_replay_document op req : silent is_document (dispatch_replay env op req).
Proof.
  unfold dispatch_replay. eapply silent_bind; [apply silent_get|intros s _].
  eapply silent_bind; [apply dispatch_document|intros out Hout].
  destruct (connection_lost _); [|by apply silent_ret].
  eapply silent_bind; [apply reopen_well|intros [c|e| |] Hr]; try done; [|by apply silent_ret].
  eapply silent_bind; [apply use_conn_silent|intros _ _; apply dispatch_document].
Qed.

Lemma idle_check_well t :
  silent (λ i, match i with Some r => failed_well r | None => True end) (idle_check env t : sr (Sap W) string _).
Proof.
  unfold idle_check. eapply silent_bind; [apply silent_get|intros s _].
  destruct (_ <=? _); [|by apply silent_ret]. eapply silent_bind; [apply silent_any|intros alive _].
  destruct alive as [[|]| | |]; try (by apply silent_ret);
    (eapply silent_bind; [apply reopen_well|intros r Hr; by apply silent_ret]).
Qed.

Lemma serve_request_answers req : says (one (answers req)) (serve_request env instant req).
Proof.
  unfold serve_request. eapply silent_says; [apply silent_now|intros t _].
  eapply silent_says; [apply idle_check_well|intros idle Hidle].
  destruct idle as [[c|je| |]|]; try done.
  2: { apply says_reply. eexists. split; [done|]. by apply with_id_answers. }
  all: eapply (silent_says (λ _, True)); [first [apply use_conn_silent|by apply silent_ret]|intros _ _];
    (eapply silent_says; [apply dispatch_replay_document|intros out Hout]);
    (eapply silent_says; [apply silent_now|intros t2 _]);
    (eapply (silent_says (λ _, True)); [by apply silent_mod|intros _ _]);
    apply says_reply; eexists; (split; [done|]); by apply with_id_answers.
Qed.

(** What the loop makes of a line that is not blank. *)
Definition answers_line (line reply : string) : Prop :=
  match from_json (trim line) with
  | None => ∃ v, reply = to_json v ∧ failure v = true
  | Some req =>
    if test_hooks && String.eqb (default "" (req_str "op" req)) "_drop"
    then reply = to_json (obj [("ok", VBool true); ("dropped", VBool true)])
    else answers req reply
  end.
Definition blank (line : string) : bool := String.eqb (trim line) "".

Lemma serve_line_answers line : blank line = false → says (one (answers_line line)) (serve_line line).
Proof.
  unfold blank, serve_line, answers_line. intros ->. destruct (from_json (trim line)) as [req|].
  - destruct (_ && _); [|apply serve_request_answers].
    eapply silent_says; [apply silent_get|intros s _]. eapply silent_says; [apply silent_any|intros r _].
    apply says_reply. by eexists.
  - apply says_reply. eexists. split; [done|]. by eexists.
Qed.

(** The loop over requests answers each line of its input that is not
    blank with one line, in the order of the input, whatever the SAP library
    answers and however often the connection is lost and reopened: the answer
    to a request is a JSON object that carries the id of that request, and the
    answer to a line that is no JSON says that it failed; a blank line has no
    answer. *)
Theorem sap_one_reply_each lines s :
  fst (serve_lines (map Some lines) s) = Ok () ∧
  ∃ replies, sp_out (snd (serve_lines (map Some lines) s)) = (sp_out s ++ replies)%list ∧
    Forall2 answers_line (filter (λ l, blank l = false) lines) replies.
Proof.
  revert s. change (says (Forall2 answers_line (filter (λ l, blank l = false) lines)) (serve_lines (map Some lines))).
  induction lines as [|line lines IH]; cbn [map Sap.serve_lines].
  - eapply silent_says; [apply silent_get|intros s _]. eapply silent_says; [apply silent_any|intros r _].
    by apply says_nothing, Forall2_nil_2.
  - rewrite filter_cons. destruct (decide (blank line = false)) as [Hb|Hb].
    + eapply says_bind; [by apply serve_line_answers|exact IH|]. intros k l (r & -> & Hr) Hl. by apply Forall2_cons_2.
    + eapply (says_bind (λ k, k = [])); [|exact IH|by intros k l ->].
      unfold blank in Hb. apply not_false_iff_true in Hb. unfold serve_line. rewrite Hb. by apply says_nothing.
Qed.
End Replies.

(** ** On a small library *)

Module FakeSap.
Definition no_info (code : Z) : RfcErrorInfo :=
  {| ei_code := code; ei_group := 0; ei_key := []; ei_message := []; ei_class := []; ei_type := []; ei_number := [];
     ei_v1 := []; ei_v2 := []; ei_v3 := []; ei_v4 := [] |}.
Definition no_param : RfcParameterDesc :=
  {| pd_name := []; pd_type := 0; pd_direction := 0; pd_uc_length := 0; pd_decimals := 0; pd_optional := 0; pd_text := [] |}.
Definition reply (code handle num : Z) (text : uc) : RfcReply :=
  {| rr_rc := code; rr_info := no_info code; rr_handle := handle; rr_num := num; rr_text := text; rr_param := no_param |}.

(** A library that counts its calls and names its handles after the count; it
    loses the connection at the calls [lost] says, after what they do. *)
#[local] Instance fake (lost : RfcOp → nat → bool) : Rfc nat :=
  {| rfc op n :=
       (reply (if lost op n then RFC_COMMUNICATION_FAILURE else 0) (Z.of_nat (S n)) 0 [N.of_nat (65 + n)], S n) |}.
Definition env (k : string) : option string := None.

Definition idoc : Value := obj [("op", VString "send_idoc"); ("id", vint 7); ("tid", VString "T1")].
Definition never (op : RfcOp) (n : nat) : bool := false.

Lemma idoc_ok_confirmed_witness :
  ∃ v w' l, @sap_dispatch _ _ (logged (RF := fake never)) 1 "send_idoc" idoc (0%nat, []) = (Ok v, (w', l)) ∧
    ∃ desc tid pre tx rd rf rz, let f := rr_handle rf in
      l = ((GetFunctionDesc 1 (to_uc "IDOC_INBOUND_ASYNCHRONOUS"), rd) :: (CreateFunction desc, rf) ::
           pre ++ tx ++ [(DestroyFunction f, rz)])%list ∧
      transaction 1 f tid tx ∧
      Forall (λ e, plain (fst e) = true ∨ fst e = GetTransactionID 1) pre ∧
      (∀ t, req_str "tid" idoc = Some t → tid = given_tid t) ∧
      vget "tid" v = Some (VString (from_uc tid)).
Proof.
  eexists _, _, _. split; [vm_compute; reflexivity|].
  eapply (@idoc_ok_confirmed _ nat (fake never) 1 idoc 0%nat); [vm_compute; reflexivity|reflexivity].
Defined.

(** A conversation that is lost when a transaction is submitted is replayed,
    and without an id in the request under a fresh one: the IDoc was submitted
    twice, under two ids. *)
Definition lost_submit (op : RfcOp) (n : nat) : bool :=
  match op with SubmitTransaction _ => (n <? 8)%nat | _ => false end.
Definition submissions (l : list Event) : list RfcOp :=
  map fst (List.filter (λ e, match fst e with CreateTransaction _ _ | SubmitTransaction _ => true | _ => false end) l).
Example replay_submits_twice :
  let s := {| sp_lib := (0%nat, []); sp_conn := 1; sp_last_use := 0; sp_reads := 0; sp_out := [] |} in
  let s' := snd (serve_request (RF := logged (RF := fake lost_submit)) env (λ _, 0)
                   (obj [("op", VString "send_idoc")]) s) in
  submissions (snd (sp_lib s')) =
    [CreateTransaction 1 [67%N]; SubmitTransaction 4; CreateTransaction 10 [77%N]; SubmitTransaction 14].
Proof. vm_compute. reflexivity. Qed.

(** A call whose parameters cannot be read is acknowledged, with an event that
    holds none of what it carried. *)
Definition unreadable (op : RfcOp) (n : nat) : bool := match op with GetParameterCount _ => true | _ => false end.
Example unread_call_acknowledged :
  fst (on_server_call (RF := fake unreadable) 5 0%nat) =
    Ok (obj [("stream", VBool true); ("kind", VString "call"); ("func", VString "B"); ("import", VObject []);
             ("tables", VObject [])], RFC_OK).
Proof. vm_compute. reflexivity. Qed.
End FakeSap.
