(* ===== verification/Detect.v ===== *)
(** * Detections

    A detect unit ([supervise_detect] of core/src/main.rs) runs a program of an
    embedded event engine over the bus: it restores a snapshot, feeds each
    message, publishes what the engine emits before it acknowledges, and takes
    snapshots.  The engine is a library; the class [Engine] has what the code
    asks of it.  The reader thread is the list of what it has put on the
    channel, the clock is arguments. *)

From stdpp Require Import base gmap list strings.
From Stdlib Require Import ZArith Lia.
From S2P Require Import Prelude Triples Text F64 Json Eval Bus Dlq Traces Flow FlowProps Versions Connect Metrics Sinks OAuth Concrete.
Open Scope string_scope.
Open Scope Z_scope.

(** ** The engine *)

Record Binding : Type := { connector_name : string; event_type : string; topic_override : option string }.
(** An emit, with the topic of its sink, when it has one that names one. *)
Record Emit : Type := { em_stream : string; em_topic : option string; em_payload : string }.
(** What feeding a payload gives: emits, not an event, or another error. *)
Inductive Fed : Type := Emits (l : list Emit) | NotEvent (e : string) | FeedFailed (e : string).

Class Engine (P : Type) := {
  compile : string → res string P;
  sources : P → list Binding;
  feed_json : string → string → P → Fed * P;
  tick : P → res string (list Emit) * P;
  take_snapshot : P → res string string;
  restore : string → P → res string () * P;
  set_idle_grace : option Z → P → P
}.

(** The object store of the snapshots. *)
Class Objects (O : Type) := {
  obj_get : string → O → res string (option string);
  obj_put : string → string → O → res string () * O
}.

(** core/src/main.rs [emit_subject] *)
Definition emit_subject (e : Emit) (subj_root stem : string) : string :=
  default (subj_root ++ ".detect." ++ stem ++ "." ++ em_stream e) (em_topic e).

(** core/src/main.rs [program_is_stateful] *)
Definition program_is_stateful `{SD : Serde} {P} `{EN : Engine P} (p : P) : bool :=
  match take_snapshot p with
  | Ok bytes =>
    match from_json bytes with
    | None => true
    | Some v =>
      existsb (λ k, match vget k v with Some (VObject (_ :: _)) => true | _ => false end)
        ["sase_states"; "window_states"; "join_states"]
    end
  | _ => true
  end.

(** core/src/connectors.rs [snapshot_put] *)
Definition snapshot_put `{SD : Serde} {O} `{OB : Objects O} (unit : string) (snap : Snapshot) (store : O)
  : res string () * O :=
  let '(r, store) := obj_put unit (snapshot_bytes snap) store in
  (match r with Err e => Err ("snapshot put: " ++ e) | r => r end, store).

(** core/src/connectors.rs [snapshot_get] *)
Definition snapshot_get `{SD : Serde} {O} `{OB : Objects O} (why : snapshot_err → string) (unit : string) (store : O)
  : res string (option Snapshot) :=
  match obj_get unit store with
  | Ok None => Ok None
  | Ok (Some bytes) =>
    match snapshot_read bytes with
    | Ok s => Ok (Some s)
    | Err e => Err (why e)
    | Panic => Panic
    | NoFuel => NoFuel
    end
  | Err e => Err ("snapshot get: " ++ e)
  | Panic => Panic
  | NoFuel => NoFuel
  end.

Section Detect.
Context {SD : Serde} {N : Type} {NET : Net N} {P : Type} {EN : Engine P} {O : Type} {OB : Objects O}.
Context (env : string → option string) (name subj_root : string) (why : snapshot_err → string).
(** The clock, how long a message took and the parts of a round, whether a
    thread can be spawned, whether the unit may go on at the n-th time it asks. *)
Context (now : Z) (took : Message → f64) (round_secs : f64 * f64) (snapshot_secs : f64) (spawns : bool)
  (alive : nat → bool).

Record Detect : Type := {
  de_link : Link N;
  de_dlq : Dlq;
  de_traces : Traces;
  de_units : UNITS;
  de_program : P;
  de_store : option O;
  de_outbox : Batch;
  de_to_ack : list (Message * Z);
  de_channel : list Message;
  de_acked_max : Z;
  de_retrying : gset Z;
  de_acks : Z;                       (** since the last snapshot *)
  de_last_error : option string;
  de_asked : nat
}.
Notation R := (sr Detect string).

Definition de_set_link l s : Detect :=
  {| de_link := l; de_dlq := de_dlq s; de_traces := de_traces s; de_units := de_units s; de_program := de_program s;
     de_store := de_store s; de_outbox := de_outbox s; de_to_ack := de_to_ack s; de_channel := de_channel s;
     de_acked_max := de_acked_max s; de_retrying := de_retrying s; de_acks := de_acks s;
     de_last_error := de_last_error s; de_asked := de_asked s |}.
Definition de_set_dlq d s : Detect :=
  {| de_link := de_link s; de_dlq := d; de_traces := de_traces s; de_units := de_units s; de_program := de_program s;
     de_store := de_store s; de_outbox := de_outbox s; de_to_ack := de_to_ack s; de_channel := de_channel s;
     de_acked_max := de_acked_max s; de_retrying := de_retrying s; de_acks := de_acks s;
     de_last_error := de_last_error s; de_asked := de_asked s |}.
Definition de_set_traces t s : Detect :=
  {| de_link := de_link s; de_dlq := de_dlq s; de_traces := t; de_units := de_units s; de_program := de_program s;
     de_store := de_store s; de_outbox := de_outbox s; de_to_ack := de_to_ack s; de_channel := de_channel s;
     de_acked_max := de_acked_max s; de_retrying := de_retrying s; de_acks := de_acks s;
     de_last_error := de_last_error s; de_asked := de_asked s |}.
Definition de_set_units u s : Detect :=
  {| de_link := de_link s; de_dlq := de_dlq s; de_traces := de_traces s; de_units := u; de_program := de_program s;
     de_store := de_store s; de_outbox := de_outbox s; de_to_ack := de_to_ack s; de_channel := de_channel s;
     de_acked_max := de_acked_max s; de_retrying := de_retrying s; de_acks := de_acks s;
     de_last_error := de_last_error s; de_asked := de_asked s |}.
Definition de_set_program p s : Detect :=
  {| de_link := de_link s; de_dlq := de_dlq s; de_traces := de_traces s; de_units := de_units s; de_program := p;
     de_store := de_store s; de_outbox := de_outbox s; de_to_ack := de_to_ack s; de_channel := de_channel s;
     de_acked_max := de_acked_max s; de_retrying := de_retrying s; de_acks := de_acks s;
     de_last_error := de_last_error s; de_asked := de_asked s |}.
Definition de_set_store o s : Detect :=
  {| de_link := de_link s; de_dlq := de_dlq s; de_traces := de_traces s; de_units := de_units s; de_program := de_program s;
     de_store := o; de_outbox := de_outbox s; de_to_ack := de_to_ack s; de_channel := de_channel s;
     de_acked_max := de_acked_max s; de_retrying := de_retrying s; de_acks := de_acks s;
     de_last_error := de_last_error s; de_asked := de_asked s |}.
Definition de_set_outbox b s : Detect :=
  {| de_link := de_link s; de_dlq := de_dlq s; de_traces := de_traces s; de_units := de_units s; de_program := de_program s;
     de_store := de_store s; de_outbox := b; de_to_ack := de_to_ack s; de_channel := de_channel s;
     de_acked_max := de_acked_max s; de_retrying := de_retrying s; de_acks := de_acks s;
     de_last_error := de_last_error s; de_asked := de_asked s |}.
Definition de_set_to_ack a s : Detect :=
  {| de_link := de_link s; de_dlq := de_dlq s; de_traces := de_traces s; de_units := de_units s; de_program := de_program s;
     de_store := de_store s; de_outbox := de_outbox s; de_to_ack := a; de_channel := de_channel s;
     de_acked_max := de_acked_max s; de_retrying := de_retrying s; de_acks := de_acks s;
     de_last_error := de_last_error s; de_asked := de_asked s |}.
Definition de_set_channel c s : Detect :=
  {| de_link := de_link s; de_dlq := de_dlq s; de_traces := de_traces s; de_units := de_units s; de_program := de_program s;
     de_store := de_store s; de_outbox := de_outbox s; de_to_ack := de_to_ack s; de_channel := c;
     de_acked_max := de_acked_max s; de_retrying := de_retrying s; de_acks := de_acks s;
     de_last_error := de_last_error s; de_asked := de_asked s |}.
Definition de_set_books m r a s : Detect :=
  {| de_link := de_link s; de_dlq := de_dlq s; de_traces := de_traces s; de_units := de_units s; de_program := de_program s;
     de_store := de_store s; de_outbox := de_outbox s; de_to_ack := de_to_ack s; de_channel := de_channel s;
     de_acked_max := m; de_retrying := r; de_acks := a;
     de_last_error := de_last_error s; de_asked := de_asked s |}.
Definition de_set_error e s : Detect :=
  {| de_link := de_link s; de_dlq := de_dlq s; de_traces := de_traces s; de_units := de_units s; de_program := de_program s;
     de_store := de_store s; de_outbox := de_outbox s; de_to_ack := de_to_ack s; de_channel := de_channel s;
     de_acked_max := de_acked_max s; de_retrying := de_retrying s; de_acks := de_acks s;
     de_last_error := e; de_asked := de_asked s |}.
Definition de_alive : R bool := λ s,
  (Ok (alive (de_asked s)),
   {| de_link := de_link s; de_dlq := de_dlq s; de_traces := de_traces s; de_units := de_units s; de_program := de_program s;
      de_store := de_store s; de_outbox := de_outbox s; de_to_ack := de_to_ack s; de_channel := de_channel s;
      de_acked_max := de_acked_max s; de_retrying := de_retrying s; de_acks := de_acks s;
      de_last_error := de_last_error s; de_asked := S (de_asked s) |}).

(** ** Snapshots *)

(** core/src/main.rs [snapshot_unit] *)
Definition snapshot_unit (version : string) (seq : Z) : R () := λ s,
  match de_store s with
  | None => (Ok (), s)
  | Some store =>
    match take_snapshot (de_program s) with
    | Ok state =>
      let snap := {| sn_version := version; sn_seq := seq; sn_taken_at := now; sn_state := state |} in
      let '(r, store) := snapshot_put name snap store in
      let s := de_set_store (Some store) s in
      match r with
      | Ok _ => (Ok (), de_set_units (observe_snapshot name seq (Z.of_nat (slen state)) snapshot_secs (de_units s)) s)
      | r => (r, s)
      end
    | Err e => (Err e, s)
    | Panic => (Panic, s)
    | NoFuel => (NoFuel, s)
    end
  end.

(** ** Messages *)

Context (version stem : string) (bindings : list (string * string)).

Definition seq_of_message (m : Message) : Z := match delivery m with Some d => stream_seq d | None => 0 end.

Definition de_measure (m : Message) (ok : bool) (emits : Z) (secs : f64) : R () :=
  sr_mod (λ s, de_set_units (observe name ok emits secs (de_units s)) s).
Definition de_trace (m : Message) (ok : bool) (error : option string) (subjects : list string) : R () :=
  sr_mod (λ s, de_set_traces (record_trace now name (subject m) ok error subjects (bytes_preview (data m)) None
                                (de_traces s)) s).
Definition de_reply (payload : string) (m : Message) : R () :=
  sr_mod (λ s, de_set_link (snd (answer payload m (de_link s))) s).
Definition retry_later (seq : Z) : R () :=
  sr_mod (λ s, de_set_books (de_acked_max s) ({[seq]} ∪ de_retrying s) (de_acks s) s).
Definition settled (seq : Z) : R () :=
  sr_mod (λ s, de_set_books (de_acked_max s) (de_retrying s ∖ {[seq]}) (de_acks s) s).

Definition de_park (m : Message) (err : string) : R bool := λ s,
  let '(r, d, n) := to_dlq env name (subject m) (attempts m) err (data m) version now spawns (de_dlq s)
                      (client (de_link s)) in
  let s := de_set_dlq d (de_set_link (set_client n (de_link s)) s) in
  match r with
  | Ok _ => (Ok true, s)
  | Err _ => (Ok false, s)
  | Panic => (Panic, s)
  | NoFuel => (NoFuel, s)
  end.

(** core/src/main.rs:1653-1663 [supervise_detect] *)
Definition dead_letter (m : Message) (err : string) : R () :=
  parked ← de_park m err;
  if (parked : bool) then
    _ ← sr_mod (λ s, de_set_units (inc_dead_letter name (de_units s)) s);
    _ ← de_reply "" m;
    settled (seq_of_message m)
  else
    _ ← de_reply "-NAK" m;
    retry_later (seq_of_message m).

(** Hold the emits; whether all were taken, with their subjects. *)
(** core/src/main.rs:1667-1674 [supervise_detect] *)
Fixpoint hold_emits (l : list Emit) (b : Batch) (link : Link N) : res string (bool * list string) * Batch :=
  match l with
  | [] => (Ok (true, []), b)
  | e :: l =>
    let subject := emit_subject e subj_root stem in
    match batch_publish subject (em_payload e) b link with
    | Ok b =>
      let '(r, b) := hold_emits l b link in
      ('(ok, subjects) ← r; Ok (ok, subject :: subjects), b)
    | Err _ =>
      let '(r, b) := hold_emits l b link in
      ('(_, subjects) ← r; Ok (false, subject :: subjects), b)
    | Panic => (Panic, b)
    | NoFuel => (NoFuel, b)
    end
  end.

(** core/src/main.rs:1664-1688 [supervise_detect] *)
Definition emitted (m : Message) (l : list Emit) : R () := λ s,
  let '(r, b) := hold_emits l (de_outbox s) (de_link s) in
  let s := de_set_outbox b s in
  match r with
  | Ok (ok, subjects) =>
    (_ ← de_measure m ok (Z.of_nat (length l)) (took m);
     _ ← de_trace m ok (if ok then None else Some "publish failed (will redeliver)") subjects;
     if ok : bool then sr_mod (λ s, de_set_to_ack (de_to_ack s ++ [(m, seq_of_message m)])%list s) else mret ()) s
  | Err e => (Err e, s)
  | Panic => (Panic, s)
  | NoFuel => (NoFuel, s)
  end.

(** core/src/main.rs:1689-1717 [supervise_detect] *)
Definition feed_failed (m : Message) (e : string) : R () :=
  _ ← de_measure m false 0 (took m);
  _ ← (if MAX_DELIVERIES <=? attempts m then dead_letter m e else retry_later (seq_of_message m));
  _ ← de_trace m false (Some e) [];
  sr_mod (de_set_error (Some e)).

(** core/src/main.rs:1617-1719 [supervise_detect] *)
Definition detect_message (m : Message) : R () :=
  match find (λ b, subject_matches (fst b) (subject m)) bindings with
  | None => sr_fail ("received " ++ subject m ++ " which no `.from()` subject matches: consumer is not the one this unit created")
  | Some (_, ty) =>
    fed ← (λ s, let '(f, p) := feed_json ty (data m) (de_program s) in (Ok f, de_set_program p s));
    match fed with
    | NotEvent e =>
      _ ← de_measure m false 0 f64_zero;
      dead_letter m ("bad payload: " ++ e)
    | Emits l => emitted m l
    | FeedFailed e => feed_failed m e
    end
  end.

(** Until the unit is stopped. *)
Fixpoint detect_messages (ms : list Message) : R bool :=
  match ms with
  | [] => mret true
  | m :: ms =>
    go ← de_alive;
    if (go : bool) then _ ← detect_message m; detect_messages ms else mret false
  end.

(** core/src/main.rs:1720-1736 [supervise_detect] *)
Definition confirm_round : R () := λ s,
  let '(r, b, l) := confirm (de_outbox s) (de_link s) in
  let s := de_set_outbox b (de_set_link l s) in
  match r with
  | Ok _ =>
    let acks := de_to_ack s in
    let s := de_set_link (snd (ack_all (map fst acks) (de_link s))) s in
    (Ok (), de_set_books (fold_left Z.max (map snd acks) (de_acked_max s))
              (de_retrying s ∖ list_to_set (map snd acks))
              (de_acks s + Z.of_nat (length acks)) s)
  | Err _ => (Ok (), s)
  | Panic => (Panic, s)
  | NoFuel => (NoFuel, s)
  end.

Definition may_snapshot (s : Detect) : bool :=
  match de_store s with Some _ => (0 <? de_acks s) && bool_decide (de_retrying s = ∅) | None => false end.

(** A snapshot that fails is logged, and tried again at the next batch. *)
(** core/src/main.rs:1743-1759 [supervise_detect] *)
Definition snapshot_if_due (every_acks : Z) (due : bool) : R () := λ s,
  if may_snapshot s && ((every_acks <=? de_acks s) || due) then
    match snapshot_unit version (de_acked_max s) s with
    | (Ok _, s) => (Ok (), de_set_books (de_acked_max s) (de_retrying s) 0 s)
    | (Err _, s) => (Ok (), s)
    | (r, s) => (r, s)
    end
  else (Ok (), s).

(** core/src/main.rs:1566-1573 [supervise_detect] *)
Definition stop_detect : R bool := λ s,
  if may_snapshot s then
    match snapshot_unit version (de_acked_max s) s with
    | (Ok _, s) | (Err _, s) => (Ok false, s)
    | (Panic, s) => (Panic, s)
    | (NoFuel, s) => (NoFuel, s)
    end
  else (Ok false, s).

(** core/src/main.rs:1585-1590 [supervise_detect] *)
Fixpoint publish_tick (l : list Emit) (n : N) : N :=
  match l with
  | [] => n
  | e :: l => publish_tick l (snd (net_publish (emit_subject e subj_root stem) (em_payload e) n))
  end.

(** core/src/main.rs:1580-1598 [supervise_detect] *)
Definition quiet_turn (grace : option Z) : R () := λ s,
  match grace with
  | None => (Ok (), s)
  | Some _ =>
    let '(r, p) := tick (de_program s) in
    let s := de_set_program p s in
    match r with
    | Ok [] => (Ok (), s)
    | Ok l =>
      let s := de_set_link (set_client (publish_tick l (client (de_link s))) (de_link s)) s in
      (Ok (), de_set_units (observe_tick_emits name (Z.of_nat (length l)) (de_units s)) s)
    | Err _ => (Ok (), s)
    | Panic => (Panic, s)
    | NoFuel => (NoFuel, s)
    end
  end.

(** One turn: what the reader put on the channel since, whether it is gone, and
    whether a snapshot is due.  [true] when the loop goes on. *)
Record Turn : Type := { tn_arrived : list Message; tn_gone : bool; tn_due : bool }.

(** core/src/main.rs:1561-1761 [supervise_detect] *)
Definition detect_turn (grace : option Z) (every_acks : Z) (t : Turn) : R bool :=
  go ← de_alive;
  if negb (go : bool) then stop_detect
  else
    _ ← sr_mod (λ s, de_set_channel (de_channel s ++ tn_arrived t)%list s);
    s ← sr_get;
    match de_channel s with
    | [] =>
      if tn_gone t then sr_fail "the consumer reader stopped"
      else _ ← quiet_turn grace; mret true
    | queue =>
      _ ← sr_mod (λ s, de_set_to_ack [] (de_set_channel (drop 256 queue) s));
      more ← detect_messages (take 256 queue);
      if negb (more : bool) then mret false
      else
        _ ← confirm_round;
        _ ← sr_mod (λ s, de_set_units (observe_round name f64_zero (fst round_secs) (snd round_secs) (de_units s)) s);
        _ ← snapshot_if_due every_acks (tn_due t);
        mret true
    end.

Fixpoint detect_turns (grace : option Z) (every_acks : Z) (ts : list Turn) : R bool :=
  match ts with
  | [] => mret true
  | t :: ts =>
    go ← detect_turn grace every_acks t;
    if (go : bool) then detect_turns grace every_acks ts else mret false
  end.
End Detect.
Arguments Detect N P O : clear implicits.

(** ** Starting *)

Section Start.
Context {SD : Serde} {N : Type} {NET : Net N} {P : Type} {EN : Engine P} {O : Type} {OB : Objects O}.
Context (name subj_root : string) (why : snapshot_err → string) (now : Z) (snapshot_secs : f64).

(** core/src/main.rs:1451-1461 [supervise_detect] *)
Fixpoint source_bindings (l : list Binding) : res string (list (string * string)) :=
  match l with
  | [] => Ok []
  | b :: l =>
    subject ← ok_or (topic_override b)
      ("`.from(" ++ connector_name b ++ ", ...)` names no topic: a detect unit consumes a bus subject, write `.from("
       ++ connector_name b ++ ", topic: " ++ quoted "~" ++ subj_root ++ quoted ".some.subject~)`");
    rest ← source_bindings l;
    Ok ((subject, event_type b) :: rest)
  end.

(** core/src/main.rs:1446-1464 [supervise_detect] *)
Definition load_program (src : string) : res string (P * string * list (string * string)) :=
  program ← compile src;
  let version := hash_content src in
  bindings ← source_bindings (sources program);
  match bindings with
  | [] => Err (quoted "no `.from(<connector>, topic: ~...~)` declaration: nothing to consume")
  | _ => Ok (program, version, bindings)
  end.

(** core/src/main.rs:1465-1471 [supervise_detect] *)
Definition unit_stem : string := List.last (str_split name ":") name.

(** A snapshot of this version is restored, and says where to resume; one of
    another version is left alone. *)
(** core/src/main.rs:1505-1527 [supervise_detect] *)
Definition resume_point (version : string) (program : P) (store : option O) : res string (P * option Z) :=
  match store with
  | None => Ok (program, None)
  | Some store =>
    found ← snapshot_get why name store;
    match found with
    | Some snap =>
      if String.eqb (sn_version snap) version then
        match restore (sn_state snap) program with
        | (Ok _, program) => Ok (program, Some (wrap 64 (sn_seq snap + 1)))
        | (Err e, _) => Err ("restore snapshot: " ++ e)
        | (Panic, _) => Panic
        | (NoFuel, _) => NoFuel
        end
      else Ok (program, None)
    | None => Ok (program, None)
    end
  end.

(** Up to the loop: the source that was read, the bucket if it opens, the
    consumer created at its place, its ack floor. *)
(** core/src/main.rs:1443-1561 [supervise_detect] *)
Definition detect_start (src : res string string) (open_state : option O) (grace : option Z)
  (create : option Z → res string ()) (floor : res string Z) (s0 : P → option O → Detect N P O)
  : res string (Detect N P O * string * list (string * string)) :=
  src ← src;
  '(program, version, bindings) ← load_program src;
  let store := if program_is_stateful program then open_state else None in
  '(program, resume) ← resume_point version program store;
  _ ← create resume;
  let s := s0 (set_idle_grace grace program) store in
  Ok (match resume with
      | Some seq => de_set_units (observe_restore name seq (de_units s)) s
      | None =>
        match store with
        | Some _ => snd (snapshot_unit name now snapshot_secs version
                           (match floor with Ok f => f | _ => 0 end) s)
        | None => s
        end
      end, version, bindings).
End Start.

(** ** Nothing is acknowledged too early *)

Section Earned.
Context {SD : Serde} {N : Type} {NET : Net N} {NL : NetLaws N} {P : Type} {EN : Engine P} {O : Type} {OB : Objects O}.
Context (env : string → option string) (name subj_root : string).
Context (now : Z) (took : Message → f64) (round_secs : f64 * f64) (snapshot_secs : f64) (spawns : bool)
  (alive : nat → bool) (version stem : string) (bindings : list (string * string)).
Notation Detect := (Detect N P O).
Notation out s := (client (de_link s)).
Notation target e := (emit_subject e subj_root stem).

Definition entombed (m : Message) (n : N) : Prop :=
  ∃ err, (DLQ_ROOT ++ "." ++ dlq_unit_token name,
          to_json (envelope name (subject m) (attempts m) err (data m) version now)) ∈ stored n.
(** A feeding of a message that gave emits, all of them among some publishes. *)
Definition detected (m : Message) (pubs : pub → Prop) : Prop :=
  ∃ ty p l p', feed_json ty (data m) p = (Emits l, p') ∧ ∀ e, e ∈ l → pubs (target e, em_payload e).

Context (ms : list Message) (s0 : Detect).
Notation own := (echo (de_link s0)).
Hypothesis replies_elsewhere : ∀ m, m ∈ ms → reply m ≠ Some own.
Hypothesis fed_plain : ∀ ty d p l p' e, feed_json ty d p = (Emits l, p') → e ∈ l → target e ≠ own ∧ em_payload e ≠ "".

Definition left_ok (n : N) (x : Z * pub) : Prop :=
  fst (snd x) ≠ own ∧ (snd (snd x) = "" → ∃ m, m ∈ ms ∧ reply m = Some (fst (snd x)) ∧ entombed m n).
Definition plain (p : pub) : Prop := fst p ≠ own ∧ snd p ≠ "".

(** The invariant of a round, on the parts of the state it is about. *)
Definition on_round (l : Link N) (b : Batch) (a : list (Message * Z)) : Prop :=
  link_ok l ∧ echo l = own ∧ next_id l = next_id (de_link s0) ∧
  (∃ t, taken (client l) = (taken (out s0) ++ t)%list ∧ Forall (left_ok (client l)) t) ∧
  Forall plain (held b) ∧ Forall (λ ms', fst ms' ∈ ms ∧ detected (fst ms') (λ p, p ∈ held b)) a.
Definition DInv (s : Detect) : Prop := on_round (de_link s) (de_outbox s) (de_to_ack s).
Notation T := (triple DInv).

Lemma entombed_later m n n' : later n n' → entombed m n → entombed m n'.
Proof. intros (_ & _ & Hs) [err H]. exists err. by apply Hs. Qed.
Lemma left_later n n' x : later n n' → left_ok n x → left_ok n' x.
Proof.
  intros Hl [He Hs]. split; [done|]. intros H. destruct (Hs H) as (m & ? & ? & ?). exists m. eauto using entombed_later.
Qed.
Lemma detected_mono m (Q R : pub → Prop) : (∀ x, Q x → R x) → detected m Q → detected m R.
Proof. intros H (ty & p & l & p' & ? & ?). exists ty, p, l, p'. eauto. Qed.

Lemma round_sends l l' b a t :
  on_round l b a → later (client l) (client l') → echo l' = echo l → next_id l' = next_id l →
  taken (client l') = (taken (client l) ++ t)%list → Forall (left_ok (client l')) t → on_round l' b a.
Proof.
  intros (Hok & He & Hn & (t0 & Ht0 & Hf0) & Hh) Hl He' Hn' Ht Hf.
  split; [|split; [congruence|split; [congruence|split; [|done]]]].
  - destruct Hok as [Hid Hfr]. split; [lia|]. rewrite He', Hn', Ht.
    intros e p [Hin|Hin]%elem_of_app Hp; [by eapply Hfr|].
    rewrite Forall_forall in Hf. destruct (Hf _ Hin) as [Hne _]. cbn in Hne. congruence.
  - exists (t0 ++ t)%list. rewrite Ht, Ht0, app_assoc. split; [done|]. apply Forall_app. split; [|done].
    eapply Forall_impl; [exact Hf0|]. intros x. by apply left_later.
Qed.

Lemma same_triple (Q : Detect → Prop) f :
  (∀ s, Q s → DInv s ∧ Q (f s)) → (∀ s, DInv s → DInv (f s)) → T Q (sr_mod f : sr Detect string ()) (λ _, Q).
Proof. intros H1 H2. apply triple_mod. intros s Hs. destruct (H1 s Hs). auto. Qed.

Lemma park_triple m err :
  T DInv (de_park env name now spawns version m err) (λ r s, DInv s ∧ (r = true → entombed m (out s))).
Proof.
  intros s Hs. unfold de_park, to_dlq.
  pose proof (store_later (DLQ_ROOT ++ "." ++ dlq_unit_token name)
    (to_json (envelope name (subject m) (attempts m) err (data m) version now)) (out s)) as (Hl & Ht & Hd).
  destruct (net_store _ _ _) as [r n]. cbn in Hl, Ht, Hd.
  assert (∀ n', later n n' → taken n' = taken n → on_round (set_client n' (de_link s)) (de_outbox s) (de_to_ack s)) as HI.
  { intros n' Hl' Ht'. refine (round_sends (de_link s) (set_client n' (de_link s)) _ _ [] Hs _ eq_refl eq_refl _ _); cbn;
      [by etransitivity|by rewrite Ht', Ht, app_nil_r|done]. }
  assert (on_round (set_client n (de_link s)) (de_outbox s) (de_to_ack s)) as HI0 by (by apply HI).
  destruct r as [z|e| |]; cbn [fst snd]; [|by split..].
  destruct (announce_dead_letter _ _ _ _ _ _ _ _) as [d due].
  destruct (publish_all_later env due n) as [Hl2 Ht2].
  assert (on_round (set_client (publish_all env due n) (de_link s)) (de_outbox s) (de_to_ack s)) as HI1 by (by apply HI).
  split; [exact HI1|]. split; [exact HI1|]. intros _. exists err. cbn. apply Hl2. by apply Hd.
Qed.

Lemma de_reply_triple p m : m ∈ ms →
  T (λ s, DInv s ∧ (p = "" → entombed m (out s))) (de_reply p m) (λ _, DInv).
Proof.
  intros Hm. apply triple_mod. intros s [Hs Hd].
  destruct (answer_taken p m (de_link s)) as (Hl & He & Hn & t & Ht & Hf).
  assert (on_round (snd (answer p m (de_link s))) (de_outbox s) (de_to_ack s)) as HI; [|done].
  eapply round_sends; [done|done|done|done|exact Ht|]. eapply Forall_impl; [exact Hf|].
  intros [e [rp q]] [Hr Hq]. cbn in Hr, Hq. subst q. split; cbn.
  - intros ->. by apply (replies_elsewhere m Hm).
  - intros ->. exists m. split; [done|]. split; [done|]. eapply entombed_later; [exact Hl|]. auto.
Qed.

Lemma dead_letter_triple m err : m ∈ ms → T DInv (dead_letter env name now spawns version m err) (λ _, DInv).
Proof.
  intros Hm. unfold dead_letter. eapply triple_bind; [apply park_triple|]. intros [|]; cbn beta iota.
  - apply triple_weaken with (P' := λ s, DInv s ∧ entombed m (out s)) (Q' := λ _, DInv); [|intros s [? H]; auto|done].
    eapply triple_bind; [apply (same_triple (λ s, DInv s ∧ entombed m (out s))); [by intros ? [? ?]|done]|]. intros [].
    eapply triple_bind with (Q := λ _, DInv); [|intros []; by apply (same_triple DInv)].
    eapply triple_weaken; [by apply (de_reply_triple "" m)|by intros s [? ?]|done].
  - apply triple_weaken with (P' := DInv) (Q' := λ _, DInv); [|by intros s [? _]|done].
    eapply triple_bind with (Q := λ _, DInv); [|intros []; by apply (same_triple DInv)].
    eapply triple_weaken; [by apply (de_reply_triple "-NAK" m)|done|done].
Qed.

Lemma hold_emits_spec l link : ∀ b, Forall plain (held b) → (∀ e, e ∈ l → target e ≠ own ∧ em_payload e ≠ "") →
  Forall plain (held (snd (hold_emits subj_root stem l b link))) ∧
  (∀ p, p ∈ held b → p ∈ held (snd (hold_emits subj_root stem l b link))) ∧
  (∀ subjects, fst (hold_emits subj_root stem l b link) = Ok (true, subjects) →
   ∀ e, e ∈ l → (target e, em_payload e) ∈ held (snd (hold_emits subj_root stem l b link))).
Proof.
  induction l as [|e l IH]; intros b Hb Hl; cbn [hold_emits].
  { split; [done|]. split; [done|]. intros _ _ e. by rewrite elem_of_nil. }
  assert (∀ e', e' ∈ l → target e' ≠ own ∧ em_payload e' ≠ "") as Hl' by (intros e' H; apply Hl; by right).
  unfold batch_publish. destruct (_ || _).
  { destruct (IH b Hb Hl') as (H1 & H2 & _). destruct (hold_emits _ _ l b link) as [r b']. cbn in *.
    split; [done|]. split; [done|]. intros subjects. by destruct r as [[[] ?]|?| |]. }
  cbv zeta. destruct (_ <? _).
  { destruct (IH b Hb Hl') as (H1 & H2 & _). destruct (hold_emits _ _ l b link) as [r b']. cbn in *.
    split; [done|]. split; [done|]. intros subjects. by destruct r as [[[] ?]|?| |]. }
  set (b1 := {| held := (held b ++ [(target e, em_payload e)])%list |}).
  destruct (IH b1) as (H1 & H2 & H3); [|done|].
  { apply Forall_app. split; [done|]. constructor; [|done]. apply Hl. by left. }
  destruct (hold_emits subj_root stem l b1 link) as [r b']. cbn [fst snd] in *. split; [done|].
  split; [intros p Hp; apply H2, elem_of_app; by left|].
  intros subjects Hr e' [->|He']%elem_of_cons.
  - apply H2, elem_of_app. right. by apply list_elem_of_singleton.
  - destruct r as [[ok sub]|?| |]; try done. cbn in Hr. injection Hr as -> _. by eapply H3.
Qed.

Lemma emitted_triple m l ty p p' : m ∈ ms → feed_json ty (data m) p = (Emits l, p') →
  T DInv (emitted name subj_root now took stem m l) (λ _, DInv).
Proof.
  intros Hm Hfeed s Hs. unfold emitted. pose proof Hs as (Hok & He & Hn & Ht & Hh & Ha).
  destruct (hold_emits_spec l (de_link s) (de_outbox s) Hh) as (H1 & H2 & H3); [intros e; by eapply fed_plain|].
  destruct (hold_emits _ _ _ _ _) as [r b]. cbn [fst snd] in *.
  assert (on_round (de_link s) b (de_to_ack s)) as HI.
  { do 4 (split; [done|]). split; [done|]. eapply Forall_impl; [exact Ha|]. intros x [Hx Hd].
    split; [done|]. eapply detected_mono; [|exact Hd]. exact H2. }
  destruct r as [[ok subjects]|e| |]; try (by split). destruct ok; [|by split].
  assert (on_round (de_link s) b (de_to_ack s ++ [(m, seq_of_message m)])) as HI2; [|by split].
  destruct HI as (? & ? & ? & ? & ? & Ha'). do 5 (split; [done|]). apply Forall_app. split; [done|].
  constructor; [|done]. split; [done|]. exists ty, p, l, p'. split; [done|]. by eapply H3.
Qed.

Lemma measure_de_triple m ok n x : T DInv (de_measure name m ok n x) (λ _, DInv).
Proof. by apply (same_triple DInv). Qed.

Lemma detect_message_triple m : m ∈ ms →
  T DInv (detect_message env name subj_root now took spawns version stem bindings m) (λ _, DInv).
Proof.
  intros Hm. unfold detect_message. destruct (find _ _) as [[pat ty]|]; [|by intros s Hs].
  eapply triple_bind with (Q := λ f s, DInv s ∧ ∃ p p', feed_json ty (data m) p = (f, p')).
  { intros s Hs. destruct (feed_json ty (data m) (de_program s)) as [f p] eqn:E. cbn. split; [exact Hs|].
    split; [exact Hs|]. eauto. }
  intros [l|e|e].
  - intros s (Hs & p & p' & Hf). by eapply emitted_triple.
  - apply triple_weaken with (P' := DInv) (Q' := λ _, DInv); [|by intros s [? _]|done].
    eapply triple_bind; [apply measure_de_triple|]. intros []. by apply dead_letter_triple.
  - apply triple_weaken with (P' := DInv) (Q' := λ _, DInv); [|by intros s [? _]|done]. unfold feed_failed.
    eapply triple_bind; [apply measure_de_triple|]. intros [].
    eapply triple_bind with (Q := λ _, DInv).
    { destruct (_ <=? _); [by apply dead_letter_triple|by apply (same_triple DInv)]. }
    intros []. eapply triple_bind; [by apply (same_triple DInv)|]. intros []. by apply (same_triple DInv).
Qed.

Lemma detect_messages_triple l : (∀ m, m ∈ l → m ∈ ms) →
  T DInv (detect_messages env name subj_root now took spawns alive version stem bindings l) (λ _, DInv).
Proof.
  induction l as [|m l IH]; intros Hl; [by apply triple_ret|]. cbn [detect_messages].
  eapply triple_bind with (Q := λ _, DInv); [by intros s Hs|]. intros [|]; [|by apply triple_ret].
  eapply triple_bind; [apply detect_message_triple, Hl; by left|]. intros []. apply IH. intros m' H. apply Hl. by right.
Qed.

(** What left in the turn: an acknowledgement is deserved. *)
Definition due_ack (n : N) (x : Z * pub) : Prop :=
  snd (snd x) = "" → ∃ m, m ∈ ms ∧ reply m = Some (fst (snd x)) ∧ (entombed m n ∨ detected m (λ p, p ∈ read n)).
Definition all_due (s : Detect) : Prop :=
  ∃ t, taken (out s) = (taken (out s0) ++ t)%list ∧ Forall (due_ack (out s)) t.

Lemma round_due s : DInv s → all_due s.
Proof.
  intros (_ & _ & _ & (t & Ht & Hf) & _). exists t. split; [done|]. eapply Forall_impl; [exact Hf|].
  intros x [_ Hs] Hx. destruct (Hs Hx) as (m & ? & ? & ?). exists m. auto.
Qed.

Lemma due_later n n' x : later n n' → due_ack n x → due_ack n' x.
Proof.
  intros Hl Hd Hx. destruct (Hd Hx) as (m & ? & ? & [H|H]); exists m; (do 2 (split; [done|]));
    [left; by eapply entombed_later|right]. eapply detected_mono; [|exact H]. intros p. apply Hl.
Qed.

Lemma confirm_due s : next_id (de_link s0) < 2 ^ 64 - 2 → DInv s → all_due (snd (confirm_round s)).
Proof.
  intros Hid (Hok & He & Hn & (t & Ht & Hf) & Hh & Ha). unfold confirm_round.
  pose proof (confirm_taken (de_outbox s) (de_link s)) as (t1 & Ht1 & Hf1).
  pose proof (confirm_later (de_outbox s) (de_link s)) as Hl1.
  destruct (confirm (de_outbox s) (de_link s)) as [[r b] l] eqn:Hc. cbn [snd] in *.
  assert (Forall (due_ack (client l)) (t ++ t1)) as Hf'.
  { apply Forall_app. split.
    - eapply Forall_impl; [exact Hf|]. intros x [_ Hs] Hx. destruct (Hs Hx) as (m & ? & ? & ?).
      exists m. split; [done|]. split; [done|]. left. by eapply entombed_later.
    - eapply Forall_impl; [exact Hf1|]. intros [e [rp p]] Hx Hp. cbn in *. subst p.
      destruct Hx as [Hx|Hx]; [|done]. rewrite Forall_forall in Hh. by destruct (Hh _ Hx). }
  destruct r as [u|x| |]; try (exists (t ++ t1)%list; cbn; rewrite Ht1, Ht, app_assoc; done).
  destruct (confirm_Ok (de_outbox s) (de_link s) u b l Hok ltac:(lia)) as (_ & Hread & _); [|done|].
  { rewrite He. eapply Forall_impl; [exact Hh|]. by intros x [? _]. }
  cbn. destruct (ack_all_taken (map fst (de_to_ack s)) l) as (Hl2 & _ & _ & t2 & Ht2 & Hf2).
  exists ((t ++ t1) ++ t2)%list. cbn. rewrite Ht2, Ht1, Ht, !app_assoc. split; [done|].
  apply Forall_app. split; [eapply Forall_impl; [exact Hf'|]; intros x; by apply due_later|].
  eapply Forall_impl; [exact Hf2|]. intros x (m & Hm & Hr) _. rewrite Forall_forall in Ha.
  apply list_elem_of_fmap in Hm as ([m' sq] & -> & Hin). destruct (Ha _ Hin) as [Hms Hd]. cbn in *.
  exists m'. split; [done|]. split; [done|]. right. eapply detected_mono; [|exact Hd].
  intros p Hp. apply Hl2. by apply Hread.
Qed.
End Earned.

Section Turns.
Context {SD : Serde} {N : Type} {NET : Net N} {NL : NetLaws N} {P : Type} {EN : Engine P} {O : Type} {OB : Objects O}.
Context (env : string → option string) (name subj_root : string).
Context (now : Z) (took : Message → f64) (round_secs : f64 * f64) (snapshot_secs : f64) (spawns : bool)
  (alive : nat → bool) (version stem : string) (bindings : list (string * string)).
Notation Detect := (Detect N P O).
Notation out s := (client (de_link s)).
Notation target e := (emit_subject e subj_root stem).

Lemma snapshot_same_link v seq (s : Detect) : de_link (snd (snapshot_unit name now snapshot_secs v seq s)) = de_link s.
Proof.
  unfold snapshot_unit. destruct (de_store s); [|done]. destruct (take_snapshot _); try done.
  by destruct (snapshot_put _ _ _) as [[] ?].
Qed.
Lemma if_due_same_link every due (s : Detect) :
  de_link (snd (snapshot_if_due name now snapshot_secs version every due s)) = de_link s.
Proof.
  unfold snapshot_if_due. destruct (_ && _); [|done]. pose proof (snapshot_same_link version (de_acked_max s) s) as H.
  by destruct (snapshot_unit _ _ _ _ _ s) as [[u|e| |] s'].
Qed.
Lemma stop_same_link (s : Detect) : de_link (snd (stop_detect name now snapshot_secs version s)) = de_link s.
Proof.
  unfold stop_detect. destruct (may_snapshot s); [|done]. pose proof (snapshot_same_link version (de_acked_max s) s) as H.
  by destruct (snapshot_unit _ _ _ _ _ s) as [[u|e| |] s'].
Qed.

Lemma tick_taken l : (∀ e, e ∈ l → em_payload e ≠ "") → ∀ n : N,
  ∃ t, taken (publish_tick subj_root stem l n) = (taken n ++ t)%list ∧ Forall (λ x, snd (snd x) ≠ "") t.
Proof.
  induction l as [|e l IH]; intros Hl n; cbn [publish_tick]; [exists []; by rewrite app_nil_r|].
  destruct (publish_taken (target e) (em_payload e) n) as (t1 & E1 & F1).
  destruct (IH (λ e' H, Hl e' (list_elem_of_further _ _ _ H)) (snd (net_publish (target e) (em_payload e) n)))
    as (t2 & E2 & F2).
  exists (t1 ++ t2)%list. rewrite E2, E1, app_assoc. split; [done|]. apply Forall_app. split; [|done].
  eapply Forall_impl; [exact F1|]. intros x ->. apply Hl. by left.
Qed.

(** In any turn, what is acknowledged is earned. *)
Lemma turn_earned grace every t (s : Detect) :
  link_ok (de_link s) → next_id (de_link s) < 2 ^ 64 - 2 → held (de_outbox s) = [] →
  (∀ m, m ∈ (de_channel s ++ tn_arrived t)%list → reply m ≠ Some (echo (de_link s))) →
  (∀ ty d p l p' e, feed_json ty d p = (Emits l, p') → e ∈ l → target e ≠ echo (de_link s) ∧ em_payload e ≠ "") →
  (∀ p l p' e, tick p = (Ok l, p') → e ∈ l → em_payload e ≠ "") →
  let s' := snd (detect_turn env name subj_root now took round_secs snapshot_secs spawns alive version stem bindings
                   grace every t s) in
  ∃ sent, taken (out s') = (taken (out s) ++ sent)%list ∧
    ∀ e rp, (e, (rp, "")) ∈ sent → ∃ m, m ∈ (de_channel s ++ tn_arrived t)%list ∧ reply m = Some rp ∧
      (entombed name now version m (out s') ∨ detected subj_root stem m (λ p, p ∈ read (out s'))).
Proof.
  intros Hok Hid Hb Hre Hfed Htick. cbv zeta.
  assert (∀ s' : Detect, de_link s' = de_link s → ∃ sent, taken (out s') = (taken (out s) ++ sent)%list ∧
    ∀ e rp, (e, (rp, "")) ∈ sent → ∃ m, m ∈ (de_channel s ++ tn_arrived t)%list ∧ reply m = Some rp ∧
      (entombed name now version m (out s') ∨ detected subj_root stem m (λ p, p ∈ read (out s')))) as Hsame.
  { intros s' ->. exists []. rewrite app_nil_r. split; [done|]. by intros ? ? ?%elem_of_nil. }
  unfold detect_turn, de_alive, sr_mod, sr_get, mbind, sr_bind. cbv beta iota.
  destruct (alive (de_asked s)); cbn [negb]; [|by apply Hsame; rewrite stop_same_link].
  cbn [de_channel de_set_channel]. destruct (de_channel s ++ tn_arrived t)%list as [|m0 q] eqn:Eq.
  { destruct (tn_gone t); [by apply Hsame|]. unfold quiet_turn. destruct grace; [|by apply Hsame].
    cbn [de_program de_set_channel].
    destruct (tick (de_program s)) as [[[|e l]|?| |] p'] eqn:Et; try by apply Hsame.
    destruct (tick_taken (e :: l) (λ e' H, Htick _ _ _ _ Et H) (out s)) as (sent & E & F).
    exists sent. split; [exact E|]. intros e' rp Hin. rewrite Forall_forall in F. by destruct (F _ Hin). }
  set (queue := m0 :: q) in *. set (ms := take 256 queue).
  set (s1 := de_set_to_ack [] _).
  assert (∀ m, m ∈ ms → m ∈ queue) as Hms by (intros m H; rewrite <- (take_drop 256 queue); apply elem_of_app; by left).
  assert (DInv name subj_root now version stem ms s s1) as HI.
  { split; [exact Hok|]. do 2 (split; [done|]). split; [exists []; by rewrite app_nil_r|].
    cbn. by rewrite Hb. }
  assert (∀ s' : Detect, all_due name subj_root now version stem ms s s' → ∃ sent, taken (out s') = (taken (out s) ++ sent)%list ∧
    ∀ e rp, (e, (rp, "")) ∈ sent → ∃ m, m ∈ queue ∧ reply m = Some rp ∧
      (entombed name now version m (out s') ∨ detected subj_root stem m (λ p, p ∈ read (out s')))) as Hdue.
  { intros s' (sent & E & F). exists sent. split; [done|]. intros e rp Hin. rewrite Forall_forall in F.
    destruct (F _ Hin eq_refl) as (m & Hm & H). exists m. split; [by apply Hms|done]. }
  destruct (detect_messages_triple env name subj_root now took spawns alive version stem bindings ms s
    (λ m Hm, Hre m (Hms m Hm)) Hfed ms ltac:(done) s1 HI) as [HI2 _].
  destruct (detect_messages _ _ _ _ _ _ _ _ _ _ ms s1) as [[[|]|e| |] s2]; cbn [negb];
    try (by apply Hdue, round_due). cbv beta iota.
  pose proof (confirm_due name subj_root now version stem ms s s2 Hid HI2) as Hc.
  destruct (confirm_round s2) as [[[]|e| |] s3]; try (by apply Hdue). apply Hdue.
  cbn [snd] in Hc. set (s4 := de_set_units _ s3).
  pose proof (if_due_same_link every (tn_due t) s4) as Hl. 
  assert (∀ s', de_link s' = de_link s4 → all_due name subj_root now version stem ms s s') as H5.
  { intros s' E. unfold all_due. rewrite E. exact Hc. }
  destruct (snapshot_if_due _ _ _ _ _ _ s4) as [[[]|e| |] s5]; exact (H5 s5 Hl).
Qed.

(** C2: a detection is acknowledged after its effect: in any turn of a detect
    unit, a message whose acknowledgement was sent is one whose dead letter is
    stored, or one that the engine was fed and whose every emit the server has
    read; whatever fails, stops or is idle in between. *)
Theorem detect_acks_earned grace every t (s : Detect) :
  link_ok (de_link s) → next_id (de_link s) < 2 ^ 64 - 2 → held (de_outbox s) = [] →
  (∀ m, m ∈ (de_channel s ++ tn_arrived t)%list → reply m ≠ Some (echo (de_link s))) →
  (∀ ty d p l p' e, feed_json ty d p = (Emits l, p') → e ∈ l → target e ≠ echo (de_link s) ∧ em_payload e ≠ "") →
  (∀ p l p' e, tick p = (Ok l, p') → e ∈ l → em_payload e ≠ "") →
  let s' := snd (detect_turn env name subj_root now took round_secs snapshot_secs spawns alive version stem bindings
                   grace every t s) in
  ∃ sent, taken (out s') = (taken (out s) ++ sent)%list ∧
    ∀ e rp, (e, (rp, "")) ∈ sent → ∃ m, m ∈ (de_channel s ++ tn_arrived t)%list ∧ reply m = Some rp ∧
      (entombed name now version m (out s') ∨ detected subj_root stem m (λ p, p ∈ read (out s'))).
Proof. exact (turn_earned grace every t s). Qed.
End Turns.

(** ** A snapshot resumes where it was taken *)

(** What is put is what is got. *)
Class ObjectsLaws (O : Type) `{Objects O} := {
  obj_put_law k v o o' : obj_put k v o = (Ok (), o') → obj_get k o' = Ok (Some v)
}.

Section Resume.
Context {SD : Serde} {SO : SerdeOk} {N : Type} {P : Type} {EN : Engine P} {O : Type} {OB : Objects O}
  {OL : ObjectsLaws O}.

(** A snapshot resumes where it was taken: once it is stored, a start of
    the same version of the program restores the very bytes the engine gave
    and resumes at the sequence after the one it stands for; a start of another
    version ignores it. *)
Theorem snapshot_resumes name why now secs version seq (s s' : Detect N P O) o u p :
  de_store s = Some o → snapshot_unit name now secs version seq s = (Ok u, s') →
  valid_utf8 version = true → 0 <= seq < u64_max → 0 <= now <= u64_max →
  ∃ o' state, de_store s' = Some o' ∧ take_snapshot (de_program s) = Ok state ∧
    (Z.of_nat (slen state) <= u64_max →
     (∀ p', restore state p = (Ok (), p') →
        resume_point name why version p (Some o') = Ok (p', Some (seq + 1))) ∧
     ∀ v, v ≠ version → resume_point name why v p (Some o') = Ok (p, None)).
Proof.
  intros Hs H Hv Hseq Hnow. unfold snapshot_unit in H. rewrite Hs in H.
  destruct (take_snapshot (de_program s)) as [state|e| |] eqn:Et; try done. unfold snapshot_put in H.
  set (snap := {| sn_version := version; sn_seq := seq; sn_taken_at := now; sn_state := state |}) in *.
  destruct (obj_put name (snapshot_bytes snap) o) as [[[]|e| |] o'] eqn:Ep; try done. injection H as _ <-.
  exists o', state. split; [done|]. split; [done|]. intros Hlen.
  assert (snapshot_get why name o' = Ok (Some snap)) as Hget.
  { unfold snapshot_get. rewrite (obj_put_law _ _ _ _ Ep), snapshot_roundtrip by (done || cbn; lia). done. }
  unfold resume_point. rewrite Hget. cbn [mbind res_bind sn_version sn_state sn_seq snap]. split.
  - intros p' Hr. cbn. rewrite String.eqb_refl, Hr, wrap_small; [done|]. unfold u64_max in *. lia.
  - intros v Hne. cbn. destruct (String.eqb_spec version v); [by subst|done].
Qed.
End Resume.

(** ** An engine that repeats what it is fed *)

Section Toy.
Record Toy : Type := { toy_seen : Z; toy_grace : option Z }.
#[local] Instance toy_engine : Engine Toy := {|
  compile src := Ok {| toy_seen := 0; toy_grace := None |};
  sources _ := [{| connector_name := "nats"; event_type := "E"; topic_override := Some "vx.d" |}];
  feed_json ty d p :=
    if String.eqb d "bad" then (NotEvent "not an event", p)
    else (Emits [{| em_stream := "again"; em_topic := None; em_payload := "got " ++ d |}],
          {| toy_seen := toy_seen p + 1; toy_grace := toy_grace p |});
  tick p := (Ok [], p);
  take_snapshot p := Ok (to_json (obj [("sase_states", obj [("n", vint (toy_seen p))])]));
  restore bytes p :=
    match from_json bytes ≫= (λ v, as_i64 (vindex (vindex v "sase_states") "n")) with
    | Some n => (Ok (), {| toy_seen := n; toy_grace := toy_grace p |})
    | None => (Err "not a snapshot", p)
    end;
  set_idle_grace g p := {| toy_seen := toy_seen p; toy_grace := g |}
|}.
#[local] Instance map_objects : Objects (gmap string string) := {|
  obj_get k o := Ok (o !! k);
  obj_put k v o := (Ok (), <[k := v]> o)
|}.
#[local] Instance map_objects_laws : ObjectsLaws (gmap string string).
Proof. split. intros k v o o' [= <-]. cbn. by rewrite lookup_insert_eq. Qed.

Definition toy_name : string := "detect:d".
Definition toy_start (limit : Z) : Detect SimNet Toy (gmap string string) :=
  {| de_link := {| client := {| sim_taken := []; sim_stored := []; sim_inbox := []; sim_limit := limit |};
                   echo := "_INBOX.e"; next_id := 0; waiting := [] |};
     de_dlq := {| pending := ∅; flusher := false |}; de_traces := no_traces; de_units := ∅;
     de_program := {| toy_seen := 0; toy_grace := None |}; de_store := Some ∅; de_outbox := {| held := [] |};
     de_to_ack := []; de_channel := []; de_acked_max := 0; de_retrying := ∅; de_acks := 0;
     de_last_error := None; de_asked := 0 |}.
Definition delivered_as (d : string) (seq : Z) : Message :=
  {| subject := "vx.d"; data := d; reply := Some ("$JS.ACK.V.d.1." ++ dec_of_Z seq ++ "." ++ dec_of_Z seq ++ ".1.0") |}.
Definition toy_turn (ms : list Message) (s : Detect SimNet Toy (gmap string string))
  : res string bool * Detect SimNet Toy (gmap string string) :=
  detect_turn (λ _, None) toy_name "vx" 7 (λ _, f64_zero) (f64_zero, f64_zero) f64_zero false (λ _, true) "v1" "d"
    [("vx.d", "E")] (Some 60) 10000 {| tn_arrived := ms; tn_gone := false; tn_due := true |} s.
Definition toy_end : Detect SimNet Toy (gmap string string) :=
  snd (toy_turn [delivered_as "a" 1; delivered_as "bad" 2] (toy_start 1048576)).

Example toy_end_acks :
  map snd (taken (client (de_link toy_end))) =
    [("$JS.ACK.V.d.1.2.2.1.0", ""); ("vx.detect.d.again", "got a"); ("_INBOX.e", be_bytes 8 0 "");
     ("$JS.ACK.V.d.1.1.1.1.0", "")].
Proof. vm_compute. reflexivity. Qed.

Lemma detect_acks_earned_witness :
  ∃ sent, taken (client (de_link toy_end)) = (taken (client (de_link (toy_start 1048576))) ++ sent)%list ∧
    ∀ e rp, (e, (rp, "")) ∈ sent → ∃ m, m ∈ [delivered_as "a" 1; delivered_as "bad" 2] ∧ reply m = Some rp ∧
      (entombed toy_name 7 "v1" m (client (de_link toy_end)) ∨
       detected "vx" "d" m (λ p, p ∈ read (client (de_link toy_end)))).
Proof.
  apply (detect_acks_earned (λ _, None) toy_name "vx" 7 (λ _, f64_zero) (f64_zero, f64_zero) f64_zero false (λ _, true)
    "v1" "d" [("vx.d", "E")] (Some 60) 10000
    {| tn_arrived := [delivered_as "a" 1; delivered_as "bad" 2]; tn_gone := false; tn_due := true |}
    (toy_start 1048576)).
  - exact sim_link_ok.
  - by vm_compute.
  - done.
  - intros m [-> | [-> | []%elem_of_nil]%elem_of_cons]%elem_of_cons; by vm_compute.
  - intros ty d p l p' e. cbn. destruct (String.eqb d "bad"); [done|]. intros [= <- _] ->%list_elem_of_singleton. done.
  - intros p l p' e [= <- _] []%elem_of_nil.
Defined.

(** A message whose emit was refused is neither acknowledged nor among those
    that a snapshot waits for: the next turn's snapshot stands for a sequence
    past it, and a restart resumes after it. *)
Definition toy_skipped : Detect SimNet Toy (gmap string string) :=
  snd (toy_turn [delivered_as "b" 2] (snd (toy_turn [delivered_as "a longer one" 1] (toy_start 8)))).
Example toy_skipped_resumes :
  resume_point toy_name (λ _, "") "v1" {| toy_seen := 0; toy_grace := None |} (de_store toy_skipped) =
    Ok ({| toy_seen := 2; toy_grace := None |}, Some 3) ∧
  existsb (λ x, String.eqb (fst (snd x)) "$JS.ACK.V.d.1.1.1.1.0") (taken (client (de_link toy_skipped))) = false.
Proof. vm_compute. split; reflexivity. Qed.

Definition toy_snapshot : res string () * Detect SimNet Toy (gmap string string) :=
  snapshot_unit toy_name 7 f64_zero "v1" 5 (toy_start 100).
Lemma snapshot_resumes_witness :
  ∃ o' state, de_store (snd toy_snapshot) = Some o' ∧ take_snapshot (de_program (toy_start 100)) = Ok state ∧
    (Z.of_nat (slen state) <= u64_max →
     (∀ p', restore state {| toy_seen := 9; toy_grace := None |} = (Ok (), p') →
        resume_point toy_name (λ _, "") "v1" {| toy_seen := 9; toy_grace := None |} (Some o') = Ok (p', Some (5 + 1))) ∧
     ∀ v, v ≠ "v1" → resume_point toy_name (λ _, "") v {| toy_seen := 9; toy_grace := None |} (Some o') =
       Ok ({| toy_seen := 9; toy_grace := None |}, None)).
Proof.
  apply (snapshot_resumes (SO := printer_ok) toy_name (λ _, "") 7 f64_zero "v1" 5 (toy_start 100) (snd toy_snapshot) ∅ ()
    {| toy_seen := 9; toy_grace := None |}); [reflexivity|reflexivity|reflexivity|by vm_compute|by vm_compute].
Defined.
End Toy.
