(* ===== verification/Supervise.v ===== *)
(** * Supervision

    The threads that keep the units running (core/src/main.rs): an attempt with
    its panics caught, the loops that start another one after a delay, what an
    attempt at a flow or a connector does before its loop, the wait for a lease
    of a singleton (core/src/cluster.rs), and the watch of versions.  What is
    asked of the clock is how long was slept; whether the process and the unit
    may go on is asked of an argument, by the number of times it was asked. *)

From stdpp Require Import base gmap list strings.
From Stdlib Require Import ZArith Lia.
From S2P Require Import Prelude Triples Text F64 Json Syntax Analysis Lexer Parser Secrets Eval Store Versions Cluster Dlq Connect Project Registry FlowProps OAuth Concrete.
Open Scope string_scope.
Open Scope Z_scope.

(** core/src/main.rs [contained] *)
Definition contained (panic_text : string) (r : res string ()) : res string () :=
  match r with Panic => Err ("panic: " ++ panic_text) | r => r end.

(** A state that is supervised: the unit's state, how often the flags were
    asked, what was slept, in milliseconds, and the rest. *)
Record Sup (W : Type) : Type := { su_state : ProcState; su_asked : nat; su_slept : list Z; su_world : W }.
Arguments su_state {W}. Arguments su_asked {W}. Arguments su_slept {W}. Arguments su_world {W}.

Section Loops.
Context {W : Type} (alive : nat → bool).
Notation Sup := (Sup W).
Notation R := (sr Sup string).

Definition su_set (st : ProcState) (s : Sup) : Sup :=
  {| su_state := st; su_asked := su_asked s; su_slept := su_slept s; su_world := su_world s |}.
(** core/src/main.rs [set_state] *)
Definition set_state (f : ProcState → ProcState) : R () := sr_mod (λ s, su_set (f (su_state s)) s).
Definition su_alive : R bool := λ s,
  (Ok (alive (su_asked s)),
   {| su_state := su_state s; su_asked := S (su_asked s); su_slept := su_slept s; su_world := su_world s |}).
(** [thread::sleep] *)
Definition sleep (ms : Z) : R () := sr_mod (λ s,
  {| su_state := su_state s; su_asked := su_asked s; su_slept := (su_slept s ++ [ms])%list; su_world := su_world s |}).

Definition with_status (status : string) (st : ProcState) : ProcState :=
  {| st_status := status; st_restarts := st_restarts st; st_started_at := st_started_at st;
     st_last_error := st_last_error st |}.
Definition started (status : string) (now : Z) (st : ProcState) : ProcState :=
  {| st_status := status; st_restarts := st_restarts st; st_started_at := Some now; st_last_error := None |}.
(** core/src/main.rs:1368-1372 [supervise_vjs] *)
Definition restarting (e : string) (st : ProcState) : ProcState :=
  {| st_status := "restarting"; st_restarts := wrap 64 (st_restarts st + 1); st_started_at := st_started_at st;
     st_last_error := Some e |}.

(** The delay after the next failure, in seconds. *)
(** core/src/main.rs:1374-1374 [supervise_vjs] *)
Definition next_delay (delay : Z) : Z := Z.min (delay * 2) 30.

(** [n] rounds of the loop of a flow or a detect unit; [true] when it is still
    in the loop. *)
(** core/src/main.rs:1098-1377 [supervise_vjs] *)
Fixpoint supervise_loop (panic_text : string) (attempt : R ()) (n : nat) (delay : Z) : R bool :=
  match n with
  | O => mret true
  | S n =>
    go ← su_alive;
    if negb (go : bool) then mret false
    else
      r ← sr_out attempt;
      match contained panic_text r with
      | Ok _ => mret false
      | Err e =>
        _ ← set_state (restarting e);
        _ ← sleep (delay * 1000);
        supervise_loop panic_text attempt n (next_delay delay)
      | Panic => sr_lift Panic
      | NoFuel => sr_lift NoFuel
      end
  end.
(** core/src/main.rs:1378-1380 [supervise_vjs] *)
Definition supervise (panic_text : string) (attempt : R ()) (n : nat) : R () :=
  more ← supervise_loop panic_text attempt n 1;
  if (more : bool) then mret () else set_state (with_status "stopped").

(** The loop of a connector: one whose driver returned without being told to
    stop, a singleton that lost its lease, goes back to standing by. *)
(** core/src/main.rs:2031-2058 [supervise_connector] *)
Fixpoint connector_loop (panic_text : string) (attempt : R ()) (n : nat) (delay : Z) : R bool :=
  match n with
  | O => mret true
  | S n =>
    go ← su_alive;
    if negb (go : bool) then mret false
    else
      r ← sr_out attempt;
      match contained panic_text r with
      | Ok _ =>
        go ← su_alive;
        if negb (go : bool) then mret false
        else _ ← sleep 300; connector_loop panic_text attempt n 1
      | Err e =>
        _ ← set_state (restarting e);
        go ← su_alive;
        if negb (go : bool) then mret false
        else _ ← sleep (delay * 1000); connector_loop panic_text attempt n (next_delay delay)
      | Panic => sr_lift Panic
      | NoFuel => sr_lift NoFuel
      end
  end.
(** core/src/main.rs:1935-2060 [supervise_connector] *)
Definition supervise_connector (panic_text : string) (attempt : R ()) (n : nat) : R () :=
  more ← connector_loop panic_text attempt n 1;
  if (more : bool) then mret () else set_state (with_status "stopped").

(** core/src/main.rs [background] *)
Fixpoint background (panic_text : string) (body : R ()) (n : nat) : R bool :=
  match n with
  | O => mret true
  | S n =>
    go ← su_alive;
    if negb (go : bool) then mret false
    else
      r ← sr_out body;
      match contained panic_text r with
      | Ok _ => mret false
      | Err _ => _ ← sleep 2000; background panic_text body n
      | Panic => sr_lift Panic
      | NoFuel => sr_lift NoFuel
      end
  end.

(** Served by the routers: nothing to consume. *)
(** core/src/main.rs:1153-1155 [supervise_vjs] *)
Fixpoint park (n : nat) : R () :=
  match n with
  | O => sr_lift NoFuel
  | S n => go ← su_alive; if (go : bool) then _ ← sleep 200; park n else mret ()
  end.
End Loops.

(** ** What an attempt opens *)

Section Flow.
Context {SD : Serde} {CT : CaseTables} {FL : FloatLib} {K : Type} {KV : KvOps K}.
Context (wording : perr → string).

Inductive Role : Type := Consumes (subject : string) | Serves (how : string).

(** The program a flow runs, the version it is, what it does with it, and the
    record of an eviction for the audit. *)
(** core/src/main.rs:1101-1160 [supervise_vjs] *)
Definition flow_open (unit : string) (now : Z) (baseline : res string string) (st : vstate K)
  : res string (Program * string * Role) * option Value * vstate K :=
  match baseline with
  | Ok baseline =>
    let '(src, outcome, st) := resolve_source unit baseline now st in
    let audit := match outcome with
                 | OEvicted parent base_hash => Some (obj [("ts", vint now); ("actor", VString "eviction");
                     ("unit", VString unit); ("kind", VString "overlay-evicted"); ("parent", VString parent);
                     ("baseline", VString base_hash)])
                 | _ => None
                 end in
    (match parse src with
     | Ok prog =>
       match p_source prog with
       | Some subject => Ok (prog, hash_content src, Consumes subject)
       | None =>
         match p_api prog, p_tool prog with
         | Some _, _ => Ok (prog, hash_content src, Serves "api")
         | None, Some _ => Ok (prog, hash_content src, Serves "tool")
         | None, None => Err "no `source` declaration"
         end
       end
     | Err e => Err (wording e)
     | Panic => Panic
     | NoFuel => NoFuel
     end, audit, st)
  | Err e => (Err e, None, st)
  | Panic => (Panic, None, st)
  | NoFuel => (NoFuel, None, st)
  end.

(** An attempt at a flow: opened, then parked or handed to the loop of
    [Flow], with the status it shows. *)
(** core/src/main.rs:1101-1190 [supervise_vjs] *)
Definition flow_attempt (alive : nat → bool) (unit : string) (now : Z) (baseline : res string string)
  (patience : nat) (bus : res string ()) (loop : Program → string → string → sr (Sup (vstate K)) string ())
  : sr (Sup (vstate K)) string () := λ s,
  let '(r, _, st) := flow_open unit now baseline (su_world s) in
  let s := {| su_state := su_state s; su_asked := su_asked s; su_slept := su_slept s; su_world := st |} in
  match r with
  | Ok (prog, version, Serves how) =>
    (_ ← set_state (started ("serving (" ++ how ++ ")") now); park alive patience) s
  | Ok (prog, version, Consumes subject) =>
    (_ ← sr_lift bus; _ ← set_state (started "running" now); loop prog version subject) s
  | Err e => (Err e, s)
  | Panic => (Panic, s)
  | NoFuel => (NoFuel, s)
  end.
End Flow.

Section Connector.
Context {SD : Serde} {CT : CaseTables} {FL : FloatLib} {K : Type} {KV : KvOps K}.
Context (files : string → option string) (alive : nat → bool).
Context (parse_wording : perr → string) (run_wording : verr → string) (debug : string → string).

(** The driver of a manifest and its configuration, which is the manifest
    evaluated: a secret in it is its value. *)
(** core/src/main.rs:1946-1966 [supervise_connector] *)
Definition connector_open (src : res string string) (engine : Engine) : res string (Driver * Config) :=
  src ← src;
  match parse src with
  | Ok prog =>
    driver_name ← ok_or (p_driver prog) "no `driver` declaration";
    driver ← ok_or (driver_for driver_name) ("unknown driver " ++ debug driver_name);
    match fst (run files prog (obj []) engine) with
    | Ok ctx => Ok (driver, config_of (vars ctx))
    | Err e => Err (run_wording e)
    | Panic => Panic
    | NoFuel => NoFuel
    end
  | Err e => Err (parse_wording e)
  | Panic => Panic
  | NoFuel => NoFuel
  end.

(** The leases' bucket is the world, when it opens. *)
Notation S_ := (Sup (option K)).
Notation R := (sr S_ string).

(** Wait for the lease, [n] times at most; nothing when told to stop. *)
(** core/src/cluster.rs:118-130 [acquire_blocking] *)
Fixpoint acquire_blocking (key id : string) (n : nat) : R (option LeaseGuard) :=
  match n with
  | O => sr_lift NoFuel
  | S n =>
    go ← su_alive alive;
    if negb (go : bool) then mret None
    else
      got ← (λ s,
        match su_world s with
        | Some k =>
          let '(g, k) := try_acquire key id k in
          (Ok g, {| su_state := su_state s; su_asked := su_asked s; su_slept := su_slept s; su_world := Some k |})
        | None => (Ok None, s)
        end);
      match got with
      | Some g => mret (Some g)
      | None => _ ← sleep 1000; acquire_blocking key id n
      end
  end.

(** The guard drops on every way out of the attempt. *)
Definition release (g : LeaseGuard) : R () := sr_mod (λ s,
  match su_world s with
  | Some k => {| su_state := su_state s; su_asked := su_asked s; su_slept := su_slept s;
                 su_world := Some (snd (drop_guard g k)) |}
  | None => s
  end).

(** core/src/main.rs:1945-2029 [supervise_connector] *)
Definition connector_attempt (name id : string) (now : Z) (src : res string string) (engine : Engine) (patience : nat)
  (drive : Driver → Config → R ()) : R () :=
  '(driver, config) ← sr_lift (connector_open src engine);
  let kind := driver_kind driver in
  _ ← set_state (started ("running (" ++ kind ++ ")") now);
  s ← sr_get;
  match is_singleton kind, su_world s with
  | true, Some _ =>
    _ ← set_state (with_status ("standby (" ++ kind ++ ")"));
    guard ← acquire_blocking (dlq_unit_token name) id patience;
    match guard with
    | None => mret ()
    | Some g =>
      _ ← set_state (with_status ("running (" ++ kind ++ ", leader)"));
      r ← sr_out (drive driver config);
      _ ← release g;
      sr_lift r
    end
  | _, _ => drive driver config
  end.
End Connector.

(** ** The watch of versions *)

(** What a watch gives in a turn: a key, nothing in time, or its end. *)
Inductive Watched : Type := Changed (key : string) | Quiet | Ended.

Section Watch.
Context (fs : FS) (root : string) (spawns : string → bool) (no_thread : string) (alive : nat → bool).
Notation R := (sr (Sup Units) string).

Definition on_units (f : Units → res string Units) : R () := λ s,
  match f (su_world s) with
  | Ok u => (Ok (), {| su_state := su_state s; su_asked := su_asked s; su_slept := su_slept s; su_world := u |})
  | Err e => (Err e, s)
  | Panic => (Panic, s)
  | NoFuel => (NoFuel, s)
  end.

(** core/src/main.rs:2081-2100 [version_watch] *)
Fixpoint watch_turns (l : list Watched) : R () :=
  match l with
  | [] => mret ()
  | w :: l =>
    go ← su_alive alive;
    if negb (go : bool) then mret ()
    else match w with
         | Changed key => _ ← on_units (version_changed fs root spawns no_thread key); watch_turns l
         | Quiet => watch_turns l
         | Ended => mret ()
         end
  end.

(** The sessions: the bucket or its watch may not open. *)
(** core/src/main.rs [version_watch] *)
Fixpoint version_watch (sessions : list (option (list Watched))) : R () :=
  match sessions with
  | [] => mret ()
  | session :: sessions =>
    go ← su_alive alive;
    if negb (go : bool) then mret ()
    else match session with
         | None => _ ← sleep 2000; version_watch sessions
         | Some l => _ ← watch_turns l; _ ← sleep 1000; version_watch sessions
         end
  end.
End Watch.

(** ** A unit that fails is tried again *)

(** The delays of a unit that keeps failing, in seconds. *)
Definition backoff (i : nat) : Z := Z.min (2 ^ Z.of_nat i) 30.

Lemma backoff_next i : next_delay (backoff i) = backoff (S i).
Proof. unfold next_delay, backoff. rewrite Nat2Z.inj_succ, Z.pow_succ_r by lia. lia. Qed.

Section Retries.
Context {W : Type} (alive : nat → bool) (panic_text : string) (attempt : sr (Sup W) string ()).
Hypothesis lives : ∀ k, alive k = true.
(** The attempt fails or panics, and leaves the count and the clock alone. *)
Hypothesis fails : ∀ s, ∃ e, contained panic_text (fst (attempt s)) = Err e.
Hypothesis counts : ∀ s, st_restarts (su_state (snd (attempt s))) = st_restarts (su_state s) ∧
  su_slept (snd (attempt s)) = su_slept s.

Lemma retries n : ∀ i s, 0 <= st_restarts (su_state s) → st_restarts (su_state s) + Z.of_nat n < 2 ^ 64 →
  ∃ s', supervise_loop alive panic_text attempt n (backoff i) s = (Ok true, s') ∧
    su_slept s' = (su_slept s ++ map (λ j, backoff j * 1000) (seq i n))%list ∧
    st_restarts (su_state s') = st_restarts (su_state s) + Z.of_nat n ∧
    ((0 < n)%nat → st_status (su_state s') = "restarting" ∧ is_Some (st_last_error (su_state s'))).
Proof.
  induction n as [|n IH]; intros i s H0 Hn.
  { exists s. rewrite app_nil_r, Z.add_0_r. repeat split; lia || done. }
  cbn [supervise_loop]. unfold su_alive, mbind, sr_bind. rewrite lives. cbv beta iota. cbn [negb].
  set (s1 := {| su_state := su_state s; su_asked := _; su_slept := _; su_world := _ |}).
  unfold sr_out. destruct (fails s1) as [e He]. destruct (counts s1) as [Hr Hs].
  destruct (attempt s1) as [r s2]. cbn [fst snd] in *. rewrite He. unfold set_state, sleep, sr_mod. cbv beta iota.
  rewrite backoff_next.
  set (s3 := {| su_state := su_state _; su_asked := _; su_slept := (_ ++ _)%list; su_world := _ |}).
  assert (st_restarts (su_state s3) = st_restarts (su_state s) + 1) as Hr3.
  { cbn. rewrite Hr. cbn. apply wrap_small. lia. }
  destruct (IH (S i) s3) as (s' & E & Hsl & Hre & Hst); [lia|lia|]. exists s'. split; [exact E|]. split.
  - rewrite Hsl. cbn [su_slept s3 su_set seq map]. rewrite Hs. cbn [su_slept s1]. by rewrite <- app_assoc.
  - split; [lia|]. intros _. destruct n as [|n]; [|apply Hst; lia].
    cbn in E. injection E as <-. done.
Qed.
End Retries.

(** C18: a unit that fails is tried again: as long as it is not told to stop,
    every attempt that fails or panics is followed by another, after delays of
    1, 2, 4, 8, 16 seconds and 30 from then on, and each is counted; a panic
    never ends the supervision. *)
Theorem failures_are_retried {W} alive panic_text (attempt : sr (Sup W) string ()) n s :
  (∀ k, alive k = true) → (∀ s, ∃ e, contained panic_text (fst (attempt s)) = Err e) →
  (∀ s, st_restarts (su_state (snd (attempt s))) = st_restarts (su_state s) ∧
        su_slept (snd (attempt s)) = su_slept s) →
  st_restarts (su_state s) = 0 → 0 < Z.of_nat n < 2 ^ 64 →
  ∃ s', supervise alive panic_text attempt n s = (Ok (), s') ∧
    su_slept s' = (su_slept s ++ map (λ i, Z.min (2 ^ Z.of_nat i) 30 * 1000) (seq 0 n))%list ∧
    st_restarts (su_state s') = Z.of_nat n ∧
    st_status (su_state s') = "restarting" ∧ is_Some (st_last_error (su_state s')).
Proof.
  intros Hl Hf Hc H0 Hn. destruct (retries alive panic_text attempt Hl Hf Hc n 0 s) as (s' & E & Hs & Hr & Hst); [lia..|].
  exists s'. change (backoff 0) with 1 in E. unfold supervise, mbind, sr_bind. rewrite E. split; [done|].
  rewrite H0, Z.add_0_l in Hr. split; [exact Hs|]. split; [done|]. apply Hst. lia.
Qed.

Definition fresh_state : ProcState :=
  {| st_status := "starting"; st_restarts := 0; st_started_at := None; st_last_error := None |}.
Definition a_panic : sr (Sup ()) string () := λ s, (Panic, s).
Lemma failures_are_retried_witness :
  let s := {| su_state := fresh_state; su_asked := 0; su_slept := []; su_world := () |} in
  ∃ s', supervise (λ _, true) "boom" a_panic 7 s = (Ok (), s') ∧
    su_slept s' = (su_slept s ++ map (λ i, Z.min (2 ^ Z.of_nat i) 30 * 1000) (seq 0 7))%list ∧
    st_restarts (su_state s') = Z.of_nat 7 ∧
    st_status (su_state s') = "restarting" ∧ is_Some (st_last_error (su_state s')).
Proof.
  apply (failures_are_retried (λ _, true) "boom" a_panic 7); [done|intros s; by eexists|done|done|lia].
Defined.

(** ** A singleton runs under its lease *)

Section Leads.
Context {SD : Serde} {CT : CaseTables} {FL : FloatLib} {K : Type} {KV : KvOps K} {KL : KvLaws K}.
Context (files : string → option string) (alive : nat → bool).
Context (parse_wording : perr → string) (run_wording : verr → string) (debug : string → string).

(** The lease is in the bucket, with this instance as its value. *)
Definition leads (key id : string) (s : Sup (option K)) : Prop :=
  ∃ k rev, su_world s = Some k ∧ view k key = Some (id, rev).

Lemma acquired_leads key id n : ∀ (s s' : Sup (option K)) g, is_Some (su_world s) →
  acquire_blocking alive key id n s = (Ok (Some g), s') → leads key id s'.
Proof.
  induction n as [|n IH]; intros s s' g Hw; [done|]. cbn [acquire_blocking].
  unfold su_alive, mbind, sr_bind. destruct (alive _); cbn [negb]; [|done]. cbv beta iota.
  destruct Hw as [k Hk]. cbn [su_world]. rewrite Hk. unfold try_acquire.
  pose proof (kv_create_law key id k) as Hc. destruct (kv_create key id k) as [r k'] eqn:E.
  destruct r as [rev|e| |]; cbv beta iota.
  - intros [= _ <-]. exists k'. destruct (view k key); [by destruct Hc as [[? ?] _]|].
    destruct Hc as (z & Hc & _). exists z. split; [done|]. cbn in Hc. by rewrite Hc, view_set_eq.
  - unfold sleep, sr_mod. apply IH. by eexists.
  - unfold sleep, sr_mod. apply IH. by eexists.
  - unfold sleep, sr_mod. apply IH. by eexists.
Qed.

(** C11: a singleton driver runs only as the leader: when there is a bucket for
    leases, what its driver would do in a state where this instance is not the
    one in the bucket has no influence on an attempt; it is never asked. *)
Theorem singleton_runs_as_leader name id now src engine patience drive drive' (s : Sup (option K)) :
  (∀ d, is_singleton (driver_kind d) = false → ∀ c s, drive d c s = drive' d c s) →
  (∀ d c s, leads (dlq_unit_token name) id s → drive d c s = drive' d c s) →
  is_Some (su_world s) →
  connector_attempt files alive parse_wording run_wording debug name id now src engine patience drive s =
  connector_attempt files alive parse_wording run_wording debug name id now src engine patience drive' s.
Proof.
  intros Hother Hlead Hw. unfold connector_attempt, sr_lift, mbind, sr_bind at 1.
  unfold mbind, sr_bind at 1. destruct (connector_open _ _ _ _ _ _) as [[driver config]|e| |]; try done.
  unfold set_state, sr_mod, sr_get, mbind, sr_bind. cbv beta iota zeta.
  set (s1 := su_set _ s). change (su_world s1) with (su_world s). destruct Hw as [k Hk]. rewrite Hk.
  destruct (is_singleton (driver_kind driver)) eqn:Es; [|by apply Hother].
  set (s2 := su_set _ s1).
  destruct (acquire_blocking alive (dlq_unit_token name) id patience s2) as [[[g|]|e| |] s3] eqn:Ea; try done.
  unfold sr_out. set (s4 := su_set _ s3).
  rewrite (Hlead driver config s4); [done|]. apply acquired_leads in Ea; [exact Ea|]. cbn. rewrite Hk. by eexists.
Qed.
End Leads.

Section LeadsDemo.
(** A timer's manifest; the driver notes what it sees. *)
Definition timer_manifest : string := script "driver 'timer'|SUBJECT = 't'|".
Definition noting (d : Driver) (c : Config) : sr (Sup (option MapKv)) string () := λ s, (Err (driver_kind d), s).
(** The same, but it works only for who leads. *)
Definition noting_leader (d : Driver) (c : Config) : sr (Sup (option MapKv)) string () := λ s,
  if negb (is_singleton (driver_kind d)) then noting d c s
  else match su_world s with
       | Some k => match mk_map k !! "connector_t" with
                   | Some (id, _) => if String.eqb id "me" then noting d c s else (Panic, s)
                   | None => (Panic, s)
                   end
       | None => (Panic, s)
       end.
Definition sup_start : Sup (option MapKv) :=
  {| su_state := fresh_state; su_asked := 0; su_slept := []; su_world := Some empty_kv |}.
Definition attempt_with drive := connector_attempt (λ _, None) (λ _, true) (λ _, "") (λ _, "") (λ s, s) "connector:t" "me" 7
  (Ok timer_manifest) (live {| ss_kind := "echo"; ss_get r := Ok r |} "root" "default") 3 drive sup_start.

Example attempt_leads :
  fst (attempt_with noting) = Err "source:interval" ∧ su_world (snd (attempt_with noting)) = Some {| mk_map := ∅; mk_rev := 2 |}.
Proof. vm_compute. split; reflexivity. Qed.

Lemma singleton_runs_as_leader_witness : attempt_with noting = attempt_with noting_leader.
Proof.
  apply (singleton_runs_as_leader (λ _, None) (λ _, true) (λ _, "") (λ _, "") (λ s, s) "connector:t" "me" 7).
  - intros d Hd c s. unfold noting_leader. by rewrite Hd.
  - intros d c s (k & rev & Hk & Hv). unfold noting_leader. destruct (negb _); [done|]. rewrite Hk.
    change (mk_map k !! "connector_t" = Some ("me", rev)) in Hv. by rewrite Hv.
  - by eexists.
Defined.
End LeadsDemo.
