(* ===== verification/Shadow.v ===== *)
(** * Shadow runs

    What a change would do, tried on real events without effects
    (core/src/main.rs, core/src/connectors.rs): the replay of a literal change,
    the replay of a candidate over a window of the stream, and the canary, a
    thread that follows the live stream.  Emits are collected and compared,
    never published; the engines are shadow engines.

    A canary shares its counters with the table it is read from: canaries are
    objects with an index, the table maps a unit to its latest one, and the
    thread of a replaced canary goes on with its own.  The counters and the
    ring move in one step for each event. *)

From stdpp Require Import base gmap list strings.
From Stdlib Require Import ZArith Lia.
From S2P Require Import Prelude Text F64 Json Syntax Lexer Parser Secrets Eval EvalFacts RunProps Edit Store Versions Paths Bus Traces Concrete.
Open Scope string_scope.
Open Scope Z_scope.

Inductive serr_shadow : Type :=
| ShPathNotAllowed
| ShUnreadable
| ShEdit (e : edit_err)
| ShParse (e : perr)
| ShUnreachable
| ShNoSource
| ShFeed (e : string)
| ShAlreadyRunning.

(** What the stream shows a reader: its last sequence, when its state can be
    had; whether an ephemeral consumer opens, on a subject and from a sequence
    or at the tail; and the pull rounds of that consumer. *)
Record Feed : Type := {
  last_seq : option Z;
  opens : string → option Z → res string ();
  rounds : nat → res string (list Message)
}.

(** ** Hydration *)

Section Hydrate.
Context {SD : Serde} (feed : Feed).

(** core/src/connectors.rs:633-637 [hydrate_recent] *)
Definition row_of (m : Message) : option (Z * string * Value) :=
  v ← from_json (data m);
  Some (match delivery m with Some d => stream_seq d | None => 0 end, subject m, v).

(** core/src/connectors.rs:631-643 [hydrate_recent] *)
Fixpoint keep (n : nat) (ms : list Message) (ring : list (Z * string * Value))
  : list (Z * string * Value) :=
  match ms with
  | [] => ring
  | m :: ms =>
    match row_of m with
    | Some r => keep n ms (last_n n (ring ++ [r])%list)
    | None => keep n ms ring
    end
  end.

(** core/src/connectors.rs:626-648 [hydrate_recent] *)
Fixpoint scan (fuel i n : nat) (window scanned : Z) (ring : list (Z * string * Value))
  : res string (list (Z * string * Value)) :=
  match fuel with
  | O => NoFuel
  | S fuel =>
    batch ← rounds feed i;
    match batch with
    | [] => Ok ring
    | _ =>
      let scanned := scanned + Z.of_nat (length batch) in
      let ring := keep n batch ring in
      if window <=? scanned then Ok ring else scan fuel (S i) n window scanned ring
    end
  end.

Definition hydrate_n (n : Z) : nat := Z.to_nat (Z.max 1 (Z.min n 5000)).
Definition hydrate_window (n : nat) : Z := Z.min (Z.max (Z.of_nat n * 8) 256) 200000.

(** core/src/connectors.rs:600-650 [hydrate_recent] *)
Definition hydrate_recent (subject : string) (n : Z) : res string (list (Z * string * Value)) :=
  let n := hydrate_n n in
  let last := default 0 (last_seq feed) in
  if last =? 0 then Ok []
  else
    let window := hydrate_window n in
    let start := Z.max (Z.max 0 (last - window)) 1 in
    _ ← opens feed subject (Some start);
    scan (S (Z.to_nat window)) 0 n window 0 [].

Lemma keep_rows n ms ring : (0 < n)%nat →
  keep n ms (last_n n ring) = last_n n (ring ++ omap row_of ms)%list.
Proof.
  intros Hn. revert ring. induction ms as [|m ms IH]; intros ring; cbn [keep omap list_omap].
  { by rewrite app_nil_r. }
  destruct (row_of m) as [r|]; [|apply IH].
  by rewrite last_n_snoc, IH, <- app_assoc by done.
Qed.

(** The messages of the first [k] rounds. *)
Fixpoint scanned_in (i k : nat) : list Message :=
  match k with
  | O => []
  | S k => ((match rounds feed i with Ok ms => ms | _ => [] end) ++ scanned_in (S i) k)%list
  end.

Hypothesis round_returns : ∀ i, returns (rounds feed i).

Lemma scan_rows fuel i n window scanned ring : (0 < n)%nat → (0 < fuel)%nat → 0 <= scanned →
  window <= scanned + Z.of_nat fuel - 1 →
  let r := scan fuel i n window scanned (last_n n ring) in
  returns r ∧ ∀ rows, r = Ok rows →
    ∃ k, (k <= fuel)%nat ∧ rows = last_n n (ring ++ omap row_of (scanned_in i k))%list.
Proof.
  intros Hn. revert i scanned ring. induction fuel as [|fuel IH]; intros i scanned ring Hf Hs Hw; cbn zeta.
  { lia. }
  cbn [scan]. specialize (round_returns i). destruct (rounds feed i) as [batch|e| |] eqn:E; try done.
  cbn [mbind res_mbind res_bind]. destruct batch as [|m ms] eqn:Eb.
  { split; [done|]. intros rows [= <-]. exists 0%nat. split; [lia|]. cbn. by rewrite app_nil_r. }
  rewrite <- Eb in *. rewrite keep_rows by done.
  assert (1 <= Z.of_nat (length batch)) as Hl by (subst batch; cbn; lia).
  assert (scanned_in i 1 = batch) as H1 by (cbn; rewrite E; apply app_nil_r).
  destruct (Z.leb_spec window (scanned + Z.of_nat (length batch))).
  { split; [done|]. intros rows [= <-]. exists 1%nat. split; [lia|]. by rewrite H1. }
  destruct (IH (S i) (scanned + Z.of_nat (length batch)) (ring ++ omap row_of batch)%list) as [Hr Hk];
    [lia..|]. split; [done|].
  intros rows Hrows. destruct (Hk rows Hrows) as (k & Hle & ->). exists (S k). split; [lia|].
  cbn [scanned_in]. by rewrite E, omap_app, app_assoc.
Qed.

(** Hydration ends, after at most a window of rounds, and what it returns
    is exactly the last [n] of the messages it scanned that are JSON, in stream
    order; it never holds more than it may. *)
Theorem hydrate_exact subject n : (∀ s o, returns (opens feed s o)) →
  let r := hydrate_recent subject n in
  returns r ∧ ∀ rows, r = Ok rows →
    (length rows <= hydrate_n n)%nat ∧
    ∃ k, (k <= S (Z.to_nat (hydrate_window (hydrate_n n))))%nat ∧
      rows = last_n (hydrate_n n) (omap row_of (scanned_in 0 k)).
Proof.
  intros Ho. cbn zeta. unfold hydrate_recent.
  assert (0 < hydrate_n n)%nat as Hn by (unfold hydrate_n; lia).
  assert (0 <= hydrate_window (hydrate_n n)) as Hw by (unfold hydrate_window; lia).
  case_match.
  { split; [done|]. intros rows [= <-]. split; [cbn; lia|]. exists 0%nat. split; [lia|done]. }
  match goal with |- context [opens feed subject ?o] => specialize (Ho subject o); destruct (opens feed subject o) end;
    try done. cbn [mbind res_mbind res_bind].
  destruct (scan_rows (S (Z.to_nat (hydrate_window (hydrate_n n)))) 0 (hydrate_n n)
    (hydrate_window (hydrate_n n)) 0 []) as [Hr Hk]; [done|lia..|].
  split; [done|]. intros rows Hrows. destruct (Hk rows Hrows) as (k & Hle & ->).
  split; [rewrite last_n_length; lia|]. by exists k.
Qed.
End Hydrate.

(** ** Replays *)

Section Shadow.
Context {SD : Serde} {CT : CaseTables} {FL : FloatLib} {K : Type} {KO : KvOps K}.
(** The project on disk, its real paths, the secrets, the text of a run's error. *)
Context (files : string → option string) (root : string) (canonicalize : string → option string)
  (store : SecretStore) (text : verr → string).

(** core/src/main.rs [shadow_emits] *)
Definition shadow_emits (prog : Program) (ev : Value) (pkg : string) : res serr_shadow Value :=
  match fst (run files prog ev (shadow store root pkg)) with
  | Ok ctx =>
    Ok (obj [("emits", VArray (map (λ sp, obj [("subject", VString (fst sp)); ("payload", snd sp)])
                                 (emits ctx)));
             ("error", VNull)])
  | Err e => Ok (obj [("emits", VArray []); ("error", VString (text e))])
  | Panic => Panic
  | NoFuel => NoFuel
  end.

(** An event under both programs: before, after, and whether they differ. *)
Definition compare_runs (before after : Program) (pkg : string) (ev : Value)
  : res serr_shadow (Value * Value * bool) :=
  b ← shadow_emits before ev pkg;
  a ← shadow_emits after ev pkg;
  Ok (b, a, negb (value_eqb b a)).

Definition as_sparse {A} (r : res perr A) : res serr_shadow A :=
  match r with Ok a => Ok a | Err e => Err (ShParse e) | Panic => Panic | NoFuel => NoFuel end.
Definition as_sedit {A} (r : res edit_err A) : res serr_shadow A :=
  match r with Ok a => Ok a | Err e => Err (ShEdit e) | Panic => Panic | NoFuel => NoFuel end.
Definition as_sfeed {A} (r : res string A) : res serr_shadow A :=
  match r with Ok a => Ok a | Err e => Err (ShFeed e) | Panic => Panic | NoFuel => NoFuel end.

Definition row_event (r : Z * string * Value) : Value :=
  let '(seq, subject, event) := r in
  obj [("ts", VNull); ("seq", vint seq); ("subject", VString subject);
       ("preview", VString (preview_of event)); ("event", event)].

(** The events to replay and where they come from; [bus] is the stream, when
    the bus answers. *)
(** core/src/main.rs:240-270 [replay_literal] *)
Definition replay_events (bus : option Feed) (traces : Traces) (before : Program) (proc : string) (n : Z)
  : res serr_shadow (list Value * string) :=
  let ring := take (Z.to_nat (Z.max 1 (Z.min n 50))) (rev (default [] (rings traces !! proc))) in
  match p_source before, bus with
  | Some subject, Some feed =>
    match hydrate_recent feed subject n with
    | Ok (r :: rows) => Ok (map row_event (r :: rows), "jetstream")
    | Ok [] | Err _ => Ok (ring, "trace-ring")
    | Panic => Panic
    | NoFuel => NoFuel
    end
  | _, _ => Ok (ring, "trace-ring")
  end.

(** core/src/main.rs:282-295 [replay_literal] *)
Fixpoint replay_results (before after : Program) (pkg : string) (events : list Value)
  : res serr_shadow (list Value * Z) :=
  match events with
  | [] => Ok ([], 0)
  | entry :: events =>
    let ev := default VNull (vget "event" entry) in
    if value_eqb ev VNull then replay_results before after pkg events
    else
      '(b, a, changed) ← compare_runs before after pkg ev;
      '(results, n) ← replay_results before after pkg events;
      Ok (obj [("ts", vindex entry "ts"); ("subject", vindex entry "subject");
               ("preview", VString (trace_preview entry));
               ("before", b); ("after", a); ("changed", VBool changed)] :: results,
          if changed then n + 1 else n)
  end.

(** core/src/main.rs:214-300 [replay_literal] *)
Definition replay_literal (bus : option Feed) (traces : Traces) (file name key : string) (value : Value)
  (n : Z) : res serr_shadow Value :=
  path ← ok_or (guard_path canonicalize root file) ShPathNotAllowed;
  src ← ok_or (files path) ShUnreadable;
  patched ← as_sedit (set_literal src name key value);
  before ← as_sparse (parse src);
  after ← as_sparse (parse patched);
  '(events, replay_source) ← replay_events bus traces before (flow_proc_name path) n;
  '(results, changed) ← replay_results before after (pkg_of_path path) events;
  Ok (obj [("file", VString file); ("name", VString name); ("key", VString key); ("value", value);
           ("source", VString replay_source); ("events", vint (Z.of_nat (length results)));
           ("changed", vint changed); ("results", VArray results)]).

(** core/src/main.rs:337-350 [time_travel] *)
Fixpoint travel_results (current candidate : Program) (pkg : string) (rows : list (Z * string * Value))
  : res serr_shadow (list Value * Z) :=
  match rows with
  | [] => Ok ([], 0)
  | (seq, subject, event) :: rows =>
    '(b, a, ch) ← compare_runs current candidate pkg event;
    '(results, n) ← travel_results current candidate pkg rows;
    Ok (obj [("seq", vint seq); ("subject", VString subject); ("preview", VString (preview_of event));
             ("before", b); ("after", a); ("changed", VBool ch)] :: results,
        if (ch : bool) then n + 1 else n)
  end.

Notation S := (sr (vstate K) serr_shadow).

(** The effective source of a file: the bucket may evict a stale version. *)
Definition effective_src (unit baseline : string) (now : Z) : S string := λ st,
  let '(src, _, st) := resolve_source unit baseline now st in (Ok src, st).

(** core/src/main.rs:309-355 [time_travel] *)
Definition time_travel (bus : option Feed) (file candidate_src : string) (n now : Z) : S Value :=
  path ← sr_lift (ok_or (guard_path canonicalize root file) ShPathNotAllowed);
  baseline ← sr_lift (ok_or (files path) ShUnreadable);
  let unit := flow_proc_name path in
  feed ← sr_lift (ok_or bus ShUnreachable);
  current_src ← effective_src unit baseline now;
  sr_lift (
    current ← as_sparse (parse current_src);
    candidate ← as_sparse (parse candidate_src);
    source_subj ← ok_or (p_source current) ShNoSource;
    rows ← as_sfeed (hydrate_recent feed source_subj n);
    '(results, changed) ← travel_results current candidate (pkg_of_path path) rows;
    Ok (obj [("file", VString file); ("flow", VString unit);
             ("candidate_hash", VString (hash_content candidate_src));
             ("events", vint (Z.of_nat (length results))); ("changed", vint changed);
             ("results", VArray results)])).

(** ** Canaries *)

(** core/src/main.rs [Canary] *)
Record Canary : Type := {
  candidate_hash : string;
  started_at : Z;
  running : bool;
  total : Z;
  changed : Z;
  ring : list Value;
  stop_reason : option string
}.

(** A canary's thread: what it captured, and where it is. *)
Inductive pc : Type := Opening | Looping | Working (ms : list Message) | Ended.
Record Shadower : Type := {
  sh_current : Program;
  sh_candidate : Program;
  sh_hash : string;       (** of the source it diffs against *)
  sh_path : string;
  sh_unit : string;
  sh_pkg : string;
  sh_pc : pc
}.

Record Canaries : Type := {
  objs : list (Canary * Shadower);
  table : gmap string nat;
  overlays : vstate K
}.
Notation C := (sr Canaries serr_shadow).

Definition at_pc (p : pc) (t : Shadower) : Shadower :=
  {| sh_current := sh_current t; sh_candidate := sh_candidate t; sh_hash := sh_hash t;
     sh_path := sh_path t; sh_unit := sh_unit t; sh_pkg := sh_pkg t; sh_pc := p |}.
Definition stopped (c : Canary) (reason : option string) : Canary :=
  {| candidate_hash := candidate_hash c; started_at := started_at c; running := false;
     total := total c; changed := changed c; ring := ring c; stop_reason := reason |}.
Definition set_obj (i : nat) (o : Canary * Shadower) (s : Canaries) : Canaries :=
  {| objs := <[i := o]> (objs s); table := table s; overlays := overlays s |}.
Definition set_overlays (v : vstate K) (s : Canaries) : Canaries :=
  {| objs := objs s; table := table s; overlays := v |}.
Definition in_table (unit : string) (s : Canaries) : option (nat * (Canary * Shadower)) :=
  i ← table s !! unit; o ← objs s !! i; Some (i, o).

Definition effective_now (unit baseline : string) (now : Z) : C string := λ s,
  let '(src, _, st) := resolve_source unit baseline now (overlays s) in (Ok src, set_overlays st s).

(** core/src/main.rs:397-447 [canary_start] *)
Definition canary_start (bus : bool) (now : Z) (file candidate_src : string) : C Value :=
  path ← sr_lift (ok_or (guard_path canonicalize root file) ShPathNotAllowed);
  baseline ← sr_lift (ok_or (files path) ShUnreadable);
  let unit := flow_proc_name path in
  _ ← sr_lift (if bus then Ok () else Err ShUnreachable);
  current_src ← effective_now unit baseline now;
  current ← sr_lift (as_sparse (parse current_src));
  candidate ← sr_lift (as_sparse (parse candidate_src));
  _ ← sr_lift (ok_or (p_source current) ShNoSource);
  s ← sr_get;
  match in_table unit s with
  | Some (_, (prev, _)) => if running prev then sr_fail ShAlreadyRunning else mret ()
  | None => mret ()
  end ;;
  let canary := {| candidate_hash := hash_content candidate_src; started_at := now; running := true;
                   total := 0; changed := 0; ring := []; stop_reason := None |} in
  let thread := {| sh_current := current; sh_candidate := candidate;
                   sh_hash := hash_content current_src; sh_path := path; sh_unit := unit;
                   sh_pkg := pkg_of_path path; sh_pc := Opening |} in
  _ ← sr_mod (λ s, {| objs := (objs s ++ [(canary, thread)])%list;
                      table := <[unit := length (objs s)]> (table s); overlays := overlays s |});
  mret (obj [("ok", VBool true); ("flow", VString unit);
             ("candidate_hash", VString (hash_content candidate_src))]).

(** core/src/main.rs:478-486 [canary_start] *)
Definition canary_event (seq : Z) (b a : Value) (ch : bool) (c : Canary) : Canary :=
  {| candidate_hash := candidate_hash c; started_at := started_at c; running := running c;
     total := wrap 64 (total c + 1); changed := if ch then wrap 64 (changed c + 1) else changed c;
     ring := last_n 500 (ring c ++ [obj [("seq", vint seq); ("changed", VBool ch);
                                        ("before", b); ("after", a)]])%list;
     stop_reason := stop_reason c |}.

(** What a turn of the thread meets: whether the consumer opened, the runtime
    still runs, the file as it reads, the pull round ([unwrap_or_default]). *)
Record Turn : Type := {
  t_opened : bool;
  t_running : bool;
  t_baseline : option string;
  t_batch : list Message;
  t_now : Z
}.

Definition changed_under : string := "baseline changed (live version promoted or overlay evicted)".

(** core/src/main.rs:463-473 [canary_start] *)
Definition canary_check (t : Turn) (i : nat) (c : Canary) (th : Shadower) (s : Canaries) : Canaries :=
  if running c && t_running t then
    match t_baseline t with
    | Some baseline =>
      match effective_now (sh_unit th) baseline (t_now t) s with
      | (Ok eff, s) =>
        if String.eqb (hash_content eff) (sh_hash th)
        then set_obj i (c, at_pc (Working (t_batch t)) th) s
        else set_obj i (stopped c (Some changed_under), at_pc Ended th) s
      | (_, s) => s
      end
    | None => set_obj i (c, at_pc (Working (t_batch t)) th) s
    end
  else set_obj i (c, at_pc Ended th) s.

(** A turn of the thread of canary [i]; a panic ends the thread. *)
(** core/src/main.rs:451-488 [canary_start] *)
Definition canary_turn (t : Turn) (i : nat) (s : Canaries) : Canaries :=
  match objs s !! i with
  | None => s
  | Some (c, th) =>
    match sh_pc th with
    | Opening => set_obj i (c, at_pc (if t_opened t then Looping else Ended) th) s
    | Looping => canary_check t i c th s
    | Working [] => set_obj i (c, at_pc Looping th) s
    | Working (m :: ms) =>
      match from_json (data m) with
      | None => set_obj i (c, at_pc (Working ms) th) s
      | Some event =>
        match compare_runs (sh_current th) (sh_candidate th) (sh_pkg th) event with
        | Ok (b, a, ch) =>
          let seq := match delivery m with Some d => stream_seq d | None => 0 end in
          set_obj i (canary_event seq b a ch c, at_pc (Working ms) th) s
        | _ => set_obj i (c, at_pc Ended th) s
        end
      end
    | Ended => s
    end
  end.

(** core/src/main.rs [canary_read] *)
Definition canary_read (file : string) : C Value :=
  path ← sr_lift (ok_or (guard_path canonicalize root file) ShPathNotAllowed);
  let unit := flow_proc_name path in
  s ← sr_get;
  match in_table unit s with
  | None => mret (obj [("running", VBool false); ("flow", VString unit); ("events", vint 0)])
  | Some (_, (c, _)) =>
    mret (obj [("running", VBool (running c)); ("flow", VString unit);
               ("candidate_hash", VString (candidate_hash c)); ("started_at", vint (started_at c));
               ("events", vint (total c)); ("changed", vint (changed c));
               ("stop_reason", opt_str (stop_reason c));
               ("results", VArray (take 100 (rev (ring c))))])
  end.

(** core/src/main.rs [canary_stop] *)
Definition canary_stop (file : string) : C Value :=
  path ← sr_lift (ok_or (guard_path canonicalize root file) ShPathNotAllowed);
  let unit := flow_proc_name path in
  s ← sr_get;
  match in_table unit s with
  | Some (i, (c, th)) =>
    _ ← sr_mod (set_obj i (stopped c (stop_reason c), th));
    mret (obj [("ok", VBool true); ("flow", VString unit); ("stopped", VBool true)])
  | None => mret (obj [("ok", VBool true); ("flow", VString unit); ("stopped", VBool false)])
  end.

(** ** What a canary shows *)

Definition diff : Type := Z * Value * Value * bool.
Definition differs (d : diff) : bool := snd d.
Definition diff_entry (d : diff) : Value :=
  let '(seq, b, a, ch) := d in
  obj [("seq", vint seq); ("changed", VBool ch); ("before", b); ("after", a)].

(** A canary as its log of diffs explains it. *)
Definition explained (log : list diff) (o : Canary * Shadower) : Prop :=
  let '(c, th) := o in
  ring c = last_n 500 (map diff_entry log) ∧
  total c = wrap 64 (Z.of_nat (length log)) ∧
  changed c = wrap 64 (Z.of_nat (length (List.filter differs log))) ∧
  Forall (λ d, ∃ ev, compare_runs (sh_current th) (sh_candidate th) (sh_pkg th) ev =
                     Ok (snd (fst (fst d)), snd (fst d), differs d)) log.

(** The table points at the canaries that run. *)
Definition tabled (s : Canaries) : Prop :=
  (∀ i c th, objs s !! i = Some (c, th) → running c = true → table s !! sh_unit th = Some i) ∧
  ∀ u i, table s !! u = Some i → ∃ c th, objs s !! i = Some (c, th) ∧ sh_unit th = u.

Definition canaries_ok (s : Canaries) : Prop :=
  (∀ i o, objs s !! i = Some o → ∃ log, explained log o) ∧ tabled s.

Inductive canary_step (s : Canaries) : Canaries → Prop :=
| CStart bus now file src : canary_step s (snd (canary_start bus now file src s))
| CStop file : canary_step s (snd (canary_stop file s))
| CTurn t i : canary_step s (canary_turn t i s).

Definition no_canaries (v : vstate K) : Canaries := {| objs := []; table := ∅; overlays := v |}.
Definition canaries_reached (s : Canaries) : Prop := ∃ v, rtc canary_step (no_canaries v) s.

Lemma canaries_ok_overlays v s : canaries_ok s → canaries_ok (set_overlays v s).
Proof. done. Qed.

Lemma canaries_ok_set s i c th c' th' :
  canaries_ok s → objs s !! i = Some (c, th) → sh_unit th' = sh_unit th →
  (running c' = true → running c = true) → (∀ log, explained log (c, th) → ∃ log', explained log' (c', th')) →
  canaries_ok (set_obj i (c', th') s).
Proof.
  intros (He & Hr & Ht) Hi Hu Hrun Hlog. split; [|split].
  - intros j o. cbn. intros [(<- & <- & _)|[_ H]]%list_lookup_insert_Some; [|by eapply He].
    destruct (He _ _ Hi) as [log H]. by eapply Hlog.
  - intros j c1 th1. cbn. intros [(<- & [= <- <-] & _)|[_ H]]%list_lookup_insert_Some; [|by apply Hr].
    intros H. rewrite Hu. eapply Hr; eauto.
  - intros u j H. cbn in *. destruct (Ht u j H) as (c1 & th1 & Hj & Hn).
    destruct (decide (i = j)) as [<-|Hij].
    + rewrite list_lookup_insert_eq by (by eapply lookup_lt_Some).
      exists c', th'. split; [done|]. congruence.
    + rewrite list_lookup_insert_ne by done. eauto.
Qed.

Lemma canaries_ok_pc s i c th p :
  canaries_ok s → objs s !! i = Some (c, th) → canaries_ok (set_obj i (c, at_pc p th) s).
Proof. intros Hs Hi. eapply canaries_ok_set; eauto. Qed.

Lemma explained_event log seq b a ch c th ev p :
  compare_runs (sh_current th) (sh_candidate th) (sh_pkg th) ev = Ok (b, a, ch) →
  explained log (c, th) → explained (log ++ [(seq, b, a, ch)]) (canary_event seq b a ch c, at_pc p th).
Proof.
  intros Hev (Hr & Ht & Hc & Hl). unfold canary_event, explained. cbn. repeat split.
  - rewrite Hr, map_app. cbn. apply last_n_snoc. lia.
  - rewrite Ht, length_app. cbn. unfold wrap. rewrite Zplus_mod_idemp_l. f_equal. lia.
  - rewrite List.filter_app, length_app, Nat2Z.inj_add, Hc. cbn. unfold differs at 2. cbn.
    destruct ch; cbn; [unfold wrap; by rewrite Zplus_mod_idemp_l|by rewrite Z.add_0_r].
  - apply Forall_app. split; [done|]. constructor; [|done]. by exists ev.
Qed.

Lemma canary_turn_ok t i s : canaries_ok s → canaries_ok (canary_turn t i s).
Proof.
  intros Hs. unfold canary_turn. destruct (objs s !! i) as [[c th]|] eqn:Hi; [|done].
  destruct (sh_pc th) as [| |[|m ms]|]; [by apply canaries_ok_pc| |by apply canaries_ok_pc| |done].
  - unfold canary_check. destruct (running c && t_running t); [|by apply canaries_ok_pc].
    destruct (t_baseline t) as [b|]; [|by apply canaries_ok_pc].
    unfold effective_now. destruct (resolve_source _ _ _ _) as [[src o] st].
    destruct (String.eqb _ _); [by apply canaries_ok_pc|].
    eapply canaries_ok_set; [by apply canaries_ok_overlays|done|done|done|]. intros log H. by exists log.
  - destruct (from_json (data m)) as [event|]; [|by apply canaries_ok_pc].
    destruct (compare_runs _ _ _ event) as [[[b a] ch]|e| |] eqn:E; try by apply canaries_ok_pc.
    eapply canaries_ok_set; eauto. intros log H. eexists. by eapply explained_event.
Qed.

Lemma canaries_ok_new s c th :
  canaries_ok s → explained [] (c, th) →
  (∀ i c1 th1, in_table (sh_unit th) s = Some (i, (c1, th1)) → running c1 = false) →
  canaries_ok {| objs := (objs s ++ [(c, th)])%list;
                 table := <[sh_unit th := length (objs s)]> (table s); overlays := overlays s |}.
Proof.
  intros (He & Hr & Ht) Hlog Hno. split; [|split].
  - intros i o. cbn. intros [H|[_ [_ <-]%list_lookup_singleton_Some]]%lookup_app_Some; [by eapply He|].
    by eexists.
  - intros i c1 th1. cbn. intros [H|[Hge H]]%lookup_app_Some Hrun.
    + destruct (decide (sh_unit th1 = sh_unit th)) as [Eu|Hu].
      * exfalso. specialize (Hr i c1 th1 H Hrun). rewrite Eu in Hr.
        assert (running c1 = false) by (eapply (Hno i c1 th1); unfold in_table; rewrite Hr; cbn; by rewrite H).
        congruence.
      * rewrite lookup_insert_ne by done. eauto.
    + assert (i = length (objs s)) as -> by (apply lookup_lt_Some in H; cbn in H; lia).
      rewrite Nat.sub_diag in H. cbn in H. injection H as <- <-. by rewrite lookup_insert_eq.
  - intros u i. cbn. intros [(<- & <-)|[_ H]]%lookup_insert_Some.
    + exists c, th. by rewrite lookup_app_r, Nat.sub_diag by lia.
    + destruct (Ht u i H) as (c1 & th1 & Hi & Hu). exists c1, th1. split; [|done].
      by apply lookup_app_l_Some.
Qed.

Lemma canary_start_ok bus now file src s : canaries_ok s → canaries_ok (snd (canary_start bus now file src s)).
Proof.
  intros Hs. unfold canary_start, sr_lift, effective_now, mbind, sr_bind.
  destruct (ok_or _ _) as [path|e| |]; try done. destruct (ok_or (files path) _) as [base|e| |]; try done.
  destruct bus; [|done]. destruct (resolve_source _ _ _ _) as [[cur o] st].
  destruct (as_sparse (parse cur)) as [current|e| |]; try done.
  destruct (as_sparse (parse src)) as [candidate|e| |]; try done.
  destruct (ok_or (p_source current) _) as [subj|e| |]; try done.
  unfold sr_get, sr_mod. cbn -[in_table].
  assert (explained [] ({| candidate_hash := hash_content src; started_at := now; running := true;
    total := 0; changed := 0; ring := []; stop_reason := None |},
    {| sh_current := current; sh_candidate := candidate; sh_hash := hash_content cur; sh_path := path;
       sh_unit := flow_proc_name path; sh_pkg := pkg_of_path path; sh_pc := Opening |})) as Hnew
    by (by repeat split).
  destruct (in_table _ _) as [[i [c th]]|] eqn:E.
  - destruct (running c) eqn:Er; [done|].
    apply (canaries_ok_new (set_overlays st s) _ _ Hs Hnew). cbn -[in_table]. intros. congruence.
  - apply (canaries_ok_new (set_overlays st s) _ _ Hs Hnew). cbn -[in_table]. intros. congruence.
Qed.

Lemma canary_stop_ok file s : canaries_ok s → canaries_ok (snd (canary_stop file s)).
Proof.
  intros Hs. unfold canary_stop, sr_lift, sr_get, mbind, sr_bind.
  destruct (ok_or _ _) as [path|e| |]; try done. unfold in_table.
  destruct (table s !! _) as [i|]; [|done]. cbn.
  destruct (objs s !! i) as [[c th]|] eqn:Hi; [|done]. cbn.
  eapply canaries_ok_set; [done|done|done|done|]. intros log H. by exists log.
Qed.

Lemma canaries_reached_ok s : canaries_reached s → canaries_ok s.
Proof.
  intros [v H]. remember (no_canaries v) as s0 eqn:E.
  assert (canaries_ok s0) as H0.
  { subst. split; [|split]; [intros i o|intros i c th|intros u i]; cbn; intros H0;
      by rewrite ?lookup_nil, ?lookup_empty in H0. }
  clear E. induction H as [|s0 s1 s2 Hs _ IH]; [done|]. apply IH.
  destruct Hs; [by apply canary_start_ok|by apply canary_stop_ok|by apply canary_turn_ok].
Qed.

(** Whatever starts, stops and turns there were, no two canaries of a unit
    run at once, and what a canary shows is its history: its ring is the last
    five hundred diffs, each of one event under both programs, and its
    counters count all of them and those that differ. *)
Theorem canary_faithful s : canaries_reached s →
  (∀ i c th, objs s !! i = Some (c, th) → ∃ log, explained log (c, th)) ∧
  (∀ i j c th c' th', objs s !! i = Some (c, th) → objs s !! j = Some (c', th') →
     running c = true → running c' = true → sh_unit th = sh_unit th' → i = j).
Proof.
  intros (He & Hr & _)%canaries_reached_ok. split; [eauto|].
  intros i j c th c' th' Hi Hj Hc Hc' Hu. apply Hr in Hi, Hj; try done. congruence.
Qed.

(** A canary that could not open its consumer has no thread, yet the flow
    cannot have another canary before someone stops it. *)
Theorem unopened_canary_blocks s i c th t bus now file src path :
  objs s !! i = Some (c, th) → sh_pc th = Opening → t_opened t = false → running c = true →
  guard_path canonicalize root file = Some path → sh_unit th = flow_proc_name path →
  table s !! sh_unit th = Some i →
  let s' := canary_turn t i s in
  (∀ t', canary_turn t' i s' = s') ∧ ∀ v, fst (canary_start bus now file src s') ≠ Ok v.
Proof.
  intros Hi Hpc Ho Hrun Hg Hu Ht. cbn zeta. unfold canary_turn at 1 3. rewrite Hi, Hpc, Ho.
  set (s' := set_obj i (c, at_pc Ended th) s).
  assert (objs s' !! i = Some (c, at_pc Ended th)) as Hi'
    by (cbn; apply list_lookup_insert_eq; by eapply lookup_lt_Some).
  assert (s' = canary_turn t i s) as <- by (unfold canary_turn; by rewrite Hi, Hpc, Ho).
  split; [intros t'; unfold canary_turn; by rewrite Hi'|]. intros v.
  unfold canary_start, sr_lift, effective_now, mbind, sr_bind. rewrite Hg. cbn [ok_or].
  destruct (ok_or (files path) _) as [base|e| |]; try done.
  destruct bus; [|done]. destruct (resolve_source _ _ _ _) as [[cur o] st].
  destruct (as_sparse (parse cur)) as [current|e| |]; try done.
  destruct (as_sparse (parse src)) as [candidate|e| |]; try done.
  destruct (ok_or (p_source current) _) as [subj|e| |]; try done.
  unfold sr_get. cbn -[in_table]. unfold in_table. cbn [table set_overlays].
  replace (table s' !! flow_proc_name path) with (Some i) by (by rewrite <- Hu).
  cbn -[s']. cbn [objs set_overlays]. rewrite Hi'. cbn. by rewrite Hrun.
Qed.
End Shadow.

(** ** Secrets stay out *)

Section Hidden.
Context {SD : Serde} {CT : CaseTables} {FL : FloatLib} {K : Type} {KO : KvOps K}.
Context (files : string → option string) (root : string) (canonicalize : string → option string)
  (s1 s2 : SecretStore) (text : verr → string).
Hypotheses (Hret : store_returns s1) (Hdom : same_domain s1 s2).

Lemma shadow_emits_agree prog ev pkg :
  shadow_emits files root s1 text prog ev pkg = shadow_emits files root s2 text prog ev pkg.
Proof. unfold shadow_emits. by rewrite (shadow_runs_agree _ _ _ _ _ s1 s2). Qed.

Lemma compare_runs_agree before after pkg ev :
  compare_runs files root s1 text before after pkg ev = compare_runs files root s2 text before after pkg ev.
Proof. unfold compare_runs. by rewrite !shadow_emits_agree. Qed.

Lemma replay_results_agree before after pkg events :
  replay_results files root s1 text before after pkg events =
  replay_results files root s2 text before after pkg events.
Proof.
  induction events as [|e events IH]; [done|]. cbn [replay_results]. by rewrite IH, compare_runs_agree.
Qed.

Lemma travel_results_agree current candidate pkg rows :
  travel_results files root s1 text current candidate pkg rows =
  travel_results files root s2 text current candidate pkg rows.
Proof.
  induction rows as [|[[seq subj] e] rows IH]; [done|]. cbn [travel_results].
  by rewrite IH, compare_runs_agree.
Qed.

(** C16: trying a change shows nothing of a secret's value: two stores that
    resolve the same references and fail alike on the others give the same
    answer to a replay of a literal, the same answer and versions to a
    time-travel, and the same canaries, turn by turn. *)
Theorem shadow_hides_values bus traces file name key value candidate n now t i :
  replay_literal files root canonicalize s1 text bus traces file name key value n =
  replay_literal files root canonicalize s2 text bus traces file name key value n ∧
  (∀ st : vstate K, time_travel files root canonicalize s1 text bus file candidate n now st =
                    time_travel files root canonicalize s2 text bus file candidate n now st) ∧
  ∀ s : Canaries, canary_turn files root s1 text t i s = canary_turn files root s2 text t i s.
Proof.
  split; [|split].
  - unfold replay_literal. destruct (ok_or _ _) as [p|e| |]; try done. cbn [mbind res_mbind res_bind].
    do 4 (match goal with |- context [@mbind (res _) _ _ _ _ ?m] => destruct m as [?|?| |]; try done;
            cbn [mbind res_mbind res_bind] end).
    destruct (replay_events _ _ _ _ _) as [[events src]|e| |]; try done.
    cbn [mbind res_mbind res_bind]. by rewrite replay_results_agree.
  - intros st. unfold time_travel, sr_lift, mbind, sr_bind.
    destruct (ok_or _ _) as [p|e| |]; try done. destruct (ok_or (files p) _) as [b|e| |]; try done.
    destruct (ok_or bus _) as [feed|e| |]; try done.
    destruct (effective_src _ _ _ _) as [[cur|e| |] st']; try done. f_equal.
    unfold res_mbind, res_bind. destruct (as_sparse (parse cur)) as [c|e| |]; try done.
    destruct (as_sparse (parse candidate)) as [d|e| |]; try done.
    destruct (ok_or (p_source c) _) as [subj|e| |]; try done.
    destruct (as_sfeed _) as [rows|e| |]; try done. by rewrite travel_results_agree.
  - intros s. unfold canary_turn. destruct (objs s !! i) as [[c th]|]; [|done].
    destruct (sh_pc th) as [| |[|m ms]|]; try done.
    destruct (from_json (data m)); [|done]. by rewrite compare_runs_agree.
Qed.
End Hidden.

(** ** Witnesses *)

Definition shadow_files (p : string) : option string :=
  if String.eqb p "/srv/flows/x.vjs"
  then Some (script "source 'vx.in'|LIMIT = 10|k = secret('a/b')|emit 'vx.out', {n: LIMIT, k: k}|") else None.
Definition real_path (p : string) : option string := Some p.
Definition no_text (_ : verr) : string := "failed".
Definition candidate : string := script "source 'vx.in'|emit 'vx.out', {n: 11}|".

Definition event_message (seq : string) : Message :=
  {| subject := "vx.in"; data := to_json (obj [("a", vint 1)]);
     reply := Some ("$JS.ACK.V.f.1." ++ seq ++ ".1.1.0") |}.
Definition two_rounds : Feed :=
  {| last_seq := Some 9; opens _ _ := Ok ();
     rounds i := match i with
                 | 0%nat => Ok [event_message "7"; {| subject := "vx.in"; data := "?"; reply := None |}]
                 | 1%nat => Ok [event_message "9"]
                 | _ => Ok []
                 end |}.

Lemma two_rounds_return : (∀ i, returns (rounds two_rounds i)) ∧ ∀ s o, returns (opens two_rounds s o).
Proof. split; [intros [|[]]|]; done. Qed.

Example hydrated : hydrate_recent two_rounds "vx.in" 5 =
  Ok [(7, "vx.in", obj [("a", vint 1)]); (9, "vx.in", obj [("a", vint 1)])].
Proof. vm_compute. reflexivity. Qed.

Lemma hydrate_exact_witness :
  returns (hydrate_recent two_rounds "vx.in" 1) ∧
  ∀ rows, hydrate_recent two_rounds "vx.in" 1 = Ok rows →
    (length rows <= 1)%nat ∧
    ∃ k, (k <= S (Z.to_nat 256))%nat ∧ rows = last_n 1 (omap row_of (scanned_in two_rounds 0 k)).
Proof.
  exact (hydrate_exact two_rounds (proj1 two_rounds_return) "vx.in" 1 (proj2 two_rounds_return)).
Defined.

(** A time-travel over the two events, and a canary that saw one of them. *)
Definition no_overlays : vstate MapKv := {| vs_store := Some empty_kv; vs_ring := [] |}.
Example travelled :
  (v ← fst (time_travel shadow_files "/srv" real_path Demo.store no_text (Some two_rounds)
              "flows/x.vjs" candidate 5 1 no_overlays);
   Ok (vindex v "events", vindex v "changed", vindex v "flow")) =
  Ok (vint 2, vint 2, VString "flow:x").
Proof. vm_compute. reflexivity. Qed.

Definition watched : Canaries :=
  snd (canary_start shadow_files "/srv" real_path true 1 "flows/x.vjs" candidate (no_canaries no_overlays)).
Definition tick (batch : list Message) : Turn :=
  {| t_opened := true; t_running := true; t_baseline := shadow_files "/srv/flows/x.vjs";
     t_batch := batch; t_now := 2 |}.
Notation turn := (canary_turn shadow_files "/srv" Demo.store no_text).
Definition seen : Canaries :=
  turn (tick []) 0 (turn (tick [event_message "7"]) 0 (turn (tick []) 0 watched)).

Lemma seen_reached : canaries_reached shadow_files "/srv" real_path Demo.store no_text seen.
Proof.
  exists no_overlays. eapply rtc_l; [exact (CStart _ _ _ _ _ _ true 1 "flows/x.vjs" candidate)|].
  eapply rtc_l; [exact (CTurn _ _ _ _ _ _ (tick []) 0)|].
  eapply rtc_l; [exact (CTurn _ _ _ _ _ _ (tick [event_message "7"]) 0)|].
  eapply rtc_l; [exact (CTurn _ _ _ _ _ _ (tick []) 0)|]. reflexivity.
Qed.

Example seen_counts : map (λ o, (total (fst o), changed (fst o), running (fst o))) (objs seen) = [(1, 1, true)].
Proof. vm_compute. reflexivity. Qed.

Lemma canary_faithful_witness :
  (∀ i c th, objs seen !! i = Some (c, th) →
     ∃ log, explained shadow_files "/srv" Demo.store no_text log (c, th)) ∧
  (∀ i j c th c' th', objs seen !! i = Some (c, th) → objs seen !! j = Some (c', th') →
     running c = true → running c' = true → sh_unit th = sh_unit th' → i = j).
Proof.
  exact (canary_faithful shadow_files "/srv" real_path Demo.store no_text seen seen_reached).
Defined.

Definition shut : Turn :=
  {| t_opened := false; t_running := true; t_baseline := None; t_batch := []; t_now := 2 |}.
Lemma watched_obj :
  ∃ c th, objs watched !! 0%nat = Some (c, th) ∧ sh_pc th = Opening ∧ running c = true ∧
          sh_unit th = flow_proc_name "/srv/flows/x.vjs" ∧ table watched !! sh_unit th = Some 0%nat.
Proof. do 2 eexists. split; [vm_compute; reflexivity|]. by repeat split. Qed.

Lemma unopened_canary_blocks_witness :
  (∀ t', turn t' 0 (turn shut 0 watched) = turn shut 0 watched) ∧
  ∀ v, fst (canary_start shadow_files "/srv" real_path true 3 "flows/x.vjs" candidate
              (turn shut 0 watched)) ≠ Ok v.
Proof.
  destruct watched_obj as (c & th & Ho & Hpc & Hr & Hu & Ht).
  exact (unopened_canary_blocks shadow_files "/srv" real_path Demo.store no_text watched 0 c th shut true 3
    "flows/x.vjs" candidate "/srv/flows/x.vjs" Ho Hpc eq_refl Hr ltac:(vm_compute; reflexivity) Hu Ht).
Defined.

Lemma shadow_hides_values_witness :
  fst (time_travel shadow_files "/srv" real_path Demo.store no_text (Some two_rounds)
         "flows/x.vjs" candidate 5 1 no_overlays) =
  fst (time_travel shadow_files "/srv" real_path Demo.other_store no_text (Some two_rounds)
         "flows/x.vjs" candidate 5 1 no_overlays).
Proof.
  exact (f_equal fst (proj1 (proj2 (shadow_hides_values shadow_files "/srv" real_path Demo.store Demo.other_store
    no_text Demo.store_fine Demo.stores_same (Some two_rounds) no_traces "flows/x.vjs" "LIMIT" ""
    (vint 3) candidate 5 1 shut 0)) no_overlays)).
Defined.
