(* ===== verification/Letters.v ===== *)
(** * Reading, replaying and purging dead letters

    The routes over the dead-letter stream (core/src/main.rs): a list newest
    first, a replay that publishes a letter on its original subject before it
    deletes it, a purge.  The stream itself is the class [DlqOps]. *)

From stdpp Require Import base gmap list strings.
From Stdlib Require Import ZArith Lia.
From S2P Require Import Prelude Text F64 Json Bus Dlq Concrete.
Open Scope string_scope.
Open Scope Z_scope.

(** core/src/bus.rs [StreamState] *)
Record StreamState : Type := { first_seq : Z; last_seq : Z; messages : Z }.

(** core/src/bus.rs [StoredMessage] *)
Record StoredMessage : Type := { sequence : Z; s_data : string }.

(** The requests to the stream, each answered or failed. *)
Class DlqOps (D : Type) := {
  stream_state : D → res string StreamState;
  get_message : Z → D → res string StoredMessage;
  delete_message : Z → D → res string () * D;
  purge_stream : D → res string Z * D;
  js_publish : string → string → D → res string Z * D
}.

(** What is in the stream, and what was published elsewhere. *)
Class DlqLaws (D : Type) `{DlqOps D} := {
  letter : D → Z → option string;
  published : D → list pub;
  get_message_law s d m : get_message s d = Ok m → sequence m = s ∧ letter d s = Some (s_data m);
  delete_message_law s d : let '(r, d') := delete_message s d in
    published d' = published d ∧ ∀ s', letter d' s' = letter d s' ∨ s' = s ∧ letter d' s' = None;
  js_publish_law s p d : let '(r, d') := js_publish s p d in
    (∀ s', letter d' s' = letter d s') ∧ (∀ x, x ∈ published d → x ∈ published d') ∧
    (is_ok r = true → (s, p) ∈ published d')
}.

Section Letters.
Context {SD : Serde} {D : Type} {DO : DlqOps D}.

Definition with_seq (env : Value) (seq : Z) : Value :=
  match env with VObject o => VObject (map_insert "seq" (vint seq) o) | v => v end.

(** core/src/main.rs:3023-3038 [dlq_list] *)
Fixpoint list_from (fuel : nat) (first seq : Z) (limit : nat) (out : list Value) (d : D)
  : res string (list Value) :=
  match fuel with
  | O => NoFuel
  | S fuel =>
    let out := match get_message seq d with
               | Ok m => match from_json (s_data m) with
                         | Some env => (out ++ [with_seq env (sequence m)])%list
                         | None => out
                         end
               | _ => out
               end in
    if (seq <=? first) || Nat.leb limit (length out) then Ok out
    else list_from fuel first (seq - 1) limit out d
  end.

(** core/src/main.rs [dlq_list] *)
Definition dlq_list (limit : nat) (d : D) : res string (list Value) :=
  state ← stream_state d;
  if (last_seq state =? 0) || (messages state =? 0) then Ok []
  else list_from (S (Z.to_nat (last_seq state - first_seq state))) (first_seq state) (last_seq state)
         limit [] d.

Definition opt_val {A} (f : A → Value) (o : option A) : Value :=
  match o with Some a => f a | None => VNull end.

(** The audit of a replay or a purge, best effort. *)
(** core/src/main.rs [dlq_audit] *)
Definition dlq_audit (now : Z) (kind actor : string) (seq : option Z) (unit : option string)
  (count : Z) (d : D) : D :=
  let record := obj [("ts", vint now); ("actor", VString actor); ("kind", VString kind);
                     ("unit", opt_val VString unit); ("seq", opt_val vint seq); ("count", vint count)] in
  snd (js_publish ("vxaudit." ++ dlq_unit_token (default "dlq" unit)) (to_json record) d).

(** core/src/main.rs:3067-3073 [dlq_replay] *)
Definition target_of (env : Value) : Z * (string * string) :=
  (default 0 (as_u64 (vindex env "seq")),
   (vstr_or "" env "original_subject", vstr_or "" env "payload")).

(** core/src/main.rs:3074-3087 [dlq_replay] *)
Definition replay_targets (seq : option Z) (unit : option string) (d : D)
  : res string (list (Z * (string * string))) :=
  match seq with
  | Some s =>
    m ← get_message s d;
    env ← ok_or (from_json (s_data m)) "expected value";
    Ok [target_of (with_seq env (sequence m))]
  | None =>
    l ← dlq_list (Z.to_nat 100000) d;
    Ok (map target_of (List.filter (λ env,
      match unit with
      | Some u => bool_decide (as_str (vindex env "unit") = Some u)
      | None => true
      end) l))
  end.

(** core/src/main.rs:3088-3100 [dlq_replay] *)
Fixpoint replay_all (ts : list (Z * (string * string))) (n : Z) (errs : list string) (d : D)
  : Z * list string * D :=
  match ts with
  | [] => (n, errs, d)
  | (s, (subj, payload)) :: ts =>
    if String.eqb subj "" || (s =? 0) then replay_all ts n errs d
    else
      match js_publish subj payload d with
      | (Ok _, d) => replay_all ts (n + 1) errs (snd (delete_message s d))
      | (Err e, d) =>
        let err := "seq " ++ dec_of_Z s ++ ": " ++ e in replay_all ts n (errs ++ [err])%list d
      | (_, d) => (n, errs, d)
      end
  end.

(** core/src/main.rs [dlq_replay] *)
Definition dlq_replay (now : Z) (seq : option Z) (unit : option string) (actor : string) (d : D)
  : res string Value * D :=
  match replay_targets seq unit d with
  | Ok ts =>
    let '(n, errs, d) := replay_all ts 0 [] d in
    let d := dlq_audit now "dlq-replay" actor seq unit n d in
    (Ok (obj [("replayed", vint n); ("errors", VArray (map VString errs))]), d)
  | Err e => (Err e, d)
  | Panic => (Panic, d)
  | NoFuel => (NoFuel, d)
  end.

(** core/src/main.rs:3117-3127 [dlq_purge] *)
Fixpoint purge_unit (u : string) (l : list Value) (n : Z) (d : D) : Z * D :=
  match l with
  | [] => (n, d)
  | env :: l =>
    if bool_decide (as_str (vindex env "unit") = Some u) then
      match as_u64 (vindex env "seq") with
      | Some s => let '(r, d) := delete_message s d in purge_unit u l (if is_ok r then n + 1 else n) d
      | None => purge_unit u l n d
      end
    else purge_unit u l n d
  end.

(** core/src/main.rs [dlq_purge] *)
Definition dlq_purge (now : Z) (seq : option Z) (unit : option string) (actor : string) (d : D)
  : res string Value * D :=
  let done (n : Z) (d : D) :=
    (Ok (obj [("purged", vint n)]), dlq_audit now "dlq-purge" actor seq unit n d) in
  match seq, unit with
  | None, None =>
    let '(r, d) := purge_stream d in
    match r with Ok n => done n d | Err e => (Err e, d) | Panic => (Panic, d) | NoFuel => (NoFuel, d) end
  | Some s, _ =>
    let '(r, d) := delete_message s d in
    match r with Ok _ => done 1 d | Err e => (Err e, d) | Panic => (Panic, d) | NoFuel => (NoFuel, d) end
  | None, Some u =>
    match dlq_list (Z.to_nat 100000) d with
    | Ok l => let '(n, d) := purge_unit u l 0 d in done n d
    | Err e => (Err e, d)
    | Panic => (Panic, d)
    | NoFuel => (NoFuel, d)
    end
  end.

(** ** Facts *)

(** The list ends: no more rounds than sequences. *)
Lemma list_from_ends fuel : ∀ first seq limit out d,
  Z.of_nat fuel > Z.max 0 (seq - first) → list_from fuel first seq limit out d ≠ NoFuel.
Proof.
  induction fuel as [|fuel IH]; intros first seq limit out d Hf; [lia|]. cbn [list_from].
  destruct (Z.leb_spec seq first); [done|]. cbn [orb].
  destruct (Nat.leb _ _); [done|]. apply IH. lia.
Qed.

Lemma dlq_list_ends limit d : stream_state d ≠ NoFuel → dlq_list limit d ≠ NoFuel.
Proof.
  intros Hs. unfold dlq_list. destruct (stream_state d) as [st|e| |]; cbn -[list_from]; try done.
  destruct (_ || _); [done|]. apply list_from_ends. lia.
Qed.
End Letters.

Section Facts.
Context {SD : Serde} {D : Type} {DO : DlqOps D} {DL : DlqLaws D}.

(** A listed letter is one of the stream, with its sequence. *)
Definition listed (d : D) (env : Value) : Prop :=
  ∃ s data e, letter d s = Some data ∧ from_json data = Some e ∧ env = with_seq e s.

Lemma list_from_listed fuel : ∀ first seq limit out (d : D) l,
  Forall (listed d) out → list_from fuel first seq limit out d = Ok l → Forall (listed d) l.
Proof.
  induction fuel as [|fuel IH]; intros first seq limit out d l Ho H; [done|]. cbn [list_from] in H.
  revert H. set (out' := match get_message seq d with Ok _ => _ | _ => _ end). intros H.
  assert (Forall (listed d) out') as Ho'.
  { unfold out'. destruct (get_message seq d) as [m|e| |] eqn:Hm; try done.
    destruct (from_json (s_data m)) as [e|] eqn:He; [|done]. apply Forall_app. split; [done|].
    constructor; [|done]. apply get_message_law in Hm as [<- Hl]. by exists (sequence m), (s_data m), e. }
  destruct (_ || _); [by injection H as <-|]. by eapply IH.
Qed.

Lemma targets_listed seq unit (d : D) ts : replay_targets seq unit d = Ok ts →
  Forall (λ t, ∃ env, listed d env ∧ t = target_of env) ts.
Proof.
  unfold replay_targets. destruct seq as [s|]; intros H.
  - apply bind_Ok in H as (m & Hm & H). apply bind_Ok in H as (e & He & H). injection H as <-.
    unfold ok_or in He. destruct (from_json _) as [e'|] eqn:Hf; [|done]. injection He as <-.
    apply get_message_law in Hm as [<- Hl]. constructor; [|done].
    eexists. split; [|done]. by eexists _, _, _.
  - destruct (dlq_list (Z.to_nat 100000) d) as [l|e| |] eqn:Hl; cbn in H; try done. injection H as <-.
    unfold dlq_list in Hl. apply bind_Ok in Hl as (st & _ & Hl).
    destruct (_ || _) in Hl; [by injection Hl as <-|].
    apply list_from_listed in Hl; [|done]. apply Forall_map, Forall_forall. intros env Hin.
    apply list_elem_of_In, filter_In in Hin as [Hin _]. exists env. split; [|done].
    rewrite Forall_forall in Hl. by apply Hl, list_elem_of_In.
Qed.

(** What a letter says to publish when it is replayed. *)
Definition replays (e : Value) : pub := (vstr_or "" e "original_subject", vstr_or "" e "payload").

Lemma target_origin (d : D) env : listed d env → fst (target_of env) ≠ 0 →
  ∃ data e, letter d (fst (target_of env)) = Some data ∧ from_json data = Some e ∧
    snd (target_of env) = replays e.
Proof.
  intros (s & data & e & Hl & He & ->) Hs. exists data, e. unfold target_of in *. cbn [fst snd] in *.
  destruct e as [| | | | |o]; cbn [with_seq] in *; try (by destruct Hs).
  assert (∀ k, k ≠ "seq" → vindex (VObject (map_insert "seq" (vint s) o)) k = vindex (VObject o) k) as Hk.
  { intros k Hk. unfold vindex, vget. by rewrite map_get_insert_ne. }
  assert (vindex (VObject (map_insert "seq" (vint s) o)) "seq" = vint s) as Hq.
  { unfold vindex, vget. by rewrite map_get_insert_eq. }
  rewrite Hq in *. split; [|split; [done|]].
  - revert Hs. unfold vint, as_u64, num_as_u64. destruct (_ && _); cbn; [|lia]. by destruct s.
  - unfold replays, vstr_or. by rewrite !Hk.
Qed.

(** Nothing is lost on the way from [d0] to [d]. *)
Definition kept (d0 d : D) : Prop := ∀ s data, letter d0 s = Some data →
  letter d s = Some data ∨ ∃ e, from_json data = Some e ∧ replays e ∈ published d.

Lemma replay_all_kept (d0 : D) ts : ∀ n errs d,
  Forall (λ t, ∃ env, listed d0 env ∧ t = target_of env) ts → kept d0 d →
  kept d0 (snd (replay_all ts n errs d)).
Proof.
  induction ts as [|[s [subj payload]] ts IH]; intros n errs d Ht Hk; cbn; [done|].
  inversion Ht as [|? ? (env & Hl & Heq) Hts]; subst.
  destruct (String.eqb subj "" || (s =? 0)) eqn:Hskip; [by apply IH|].
  pose proof (js_publish_law subj payload d) as Hp. destruct (js_publish subj payload d) as [r d1].
  destruct Hp as (Hlet & Hmono & Hpub).
  assert (kept d0 d1) as Hk1.
  { intros s' data' Hs'. rewrite Hlet. destruct (Hk s' data' Hs') as [|(e & ? & ?)]; [by left|right].
    exists e. auto. }
  destruct r as [z|e| |]; try done; [|by apply IH].
  apply IH; [done|]. pose proof (delete_message_law s d1) as Hd. destruct (delete_message s d1) as [r2 d2].
  destruct Hd as [Hpub2 Hdel]. cbn. intros s' data' Hs'. rewrite Hpub2.
  destruct (Hk1 s' data' Hs') as [Hin|]; [|by right].
  destruct (Hdel s') as [->|[-> _]]; [by left|right].
  destruct (target_origin d0 env Hl) as (data & e & Hdata & He & Hr).
  { rewrite <- Heq. cbn. bool_prop. lia. }
  rewrite <- Heq in Hdata, Hr. cbn in Hdata, Hr. rewrite Hs' in Hdata. injection Hdata as <-.
  exists e. split; [done|]. rewrite <- Hr. by apply Hpub.
Qed.

(** C28: a replay loses no dead letter: whatever fails on the way, a letter that
    was in the stream still is, or what it carries was published on its
    original subject. *)
Theorem replay_loses_none now seq unit actor (d : D) r d' s data :
  dlq_replay now seq unit actor d = (r, d') → letter d s = Some data →
  letter d' s = Some data ∨ ∃ e, from_json data = Some e ∧ replays e ∈ published d'.
Proof.
  intros H Hl. unfold dlq_replay in H.
  destruct (replay_targets seq unit d) as [ts|e| |] eqn:Ht; try (injection H as _ <-; by left).
  apply targets_listed in Ht.
  assert (kept d (snd (replay_all ts 0 [] d))) as Hk by (apply replay_all_kept; [done|by left]).
  destruct (replay_all ts 0 [] d) as [[n errs] d1]. cbn in Hk. unfold dlq_audit in H.
  match type of H with context [js_publish ?a ?b d1] => pose proof (js_publish_law a b d1) as Hp;
    destruct (js_publish a b d1) as [r2 d2] end.
  destruct Hp as (Hlet & Hmono & _). injection H as _ <-. cbn.
  rewrite Hlet. destruct (Hk s data Hl) as [|(e & ? & ?)]; [by left|right]. exists e. auto.
Qed.
End Facts.

(** The envelope does not hold every message verbatim: bytes that are not
    UTF-8 are replaced in it, and a replay sends the replacement. *)
Theorem letter_not_verbatim :
  let data := String (Ascii.ascii_of_nat 255) "" in
  vindex (envelope "flow:a" "vx.in" 5 "bad json" data "v" 7) "payload" = VString replacement ∧
  replacement ≠ data.
Proof. split; [vm_compute; reflexivity|done]. Qed.

(** ** An instance *)

Record MapDlq : Type := { md_letters : gmap Z string; md_last : Z; md_published : list pub }.

#[export] Instance map_dlq : DlqOps MapDlq := {|
  stream_state d := Ok {| first_seq := 1; last_seq := md_last d;
                          messages := Z.of_nat (size (md_letters d)) |};
  get_message s d := ok_or (option_map (Build_StoredMessage s) (md_letters d !! s)) "no message found";
  delete_message s d :=
    (if bool_decide (is_Some (md_letters d !! s)) then Ok () else Err "no message found",
     {| md_letters := delete s (md_letters d); md_last := md_last d; md_published := md_published d |});
  purge_stream d :=
    (Ok (Z.of_nat (size (md_letters d))),
     {| md_letters := ∅; md_last := md_last d; md_published := md_published d |});
  js_publish s p d :=
    (Ok (Z.of_nat (S (length (md_published d)))),
     {| md_letters := md_letters d; md_last := md_last d;
        md_published := (md_published d ++ [(s, p)])%list |})
|}.

#[export] Instance map_dlq_laws : DlqLaws MapDlq.
Proof.
  refine {| letter d s := md_letters d !! s; published := md_published |}.
  - intros s d m. cbn. destruct (md_letters d !! s); [|done]. by intros [= <-].
  - intros s d. cbn. split; [done|]. intros s'. destruct (decide (s' = s)) as [->|].
    + right. by rewrite lookup_delete_eq.
    + left. by rewrite lookup_delete_ne.
  - intros s p d. cbn. split; [done|]. split.
    + intros x Hx. apply elem_of_app. by left.
    + intros _. apply elem_of_app. right. by apply list_elem_of_singleton.
Defined.

Section Witness.
Definition a_letter : string := to_json (envelope "flow:a" "vx.in" 5 "boom" "{}" "v" 7).
Definition some_letters : MapDlq :=
  {| md_letters := {[1 := a_letter]} ; md_last := 1; md_published := [] |}.
Definition replayed : res string Value * MapDlq := dlq_replay 9 None None "ann" some_letters.

Example replayed_one :
  map fst (md_published (snd replayed)) = ["vx.in"; "vxaudit.dlq"] ∧ md_letters (snd replayed) = ∅.
Proof. split; vm_compute; reflexivity. Qed.

Lemma replayed_eq : dlq_replay 9 None None "ann" some_letters = (fst replayed, snd replayed).
Proof. unfold replayed. by destruct (dlq_replay _ _ _ _ _). Qed.

Lemma replay_loses_none_witness :
  letter (snd replayed) 1 = Some a_letter ∨
  ∃ e, from_json a_letter = Some e ∧ replays e ∈ published (snd replayed).
Proof.
  apply (replay_loses_none 9 None None "ann" some_letters (fst replayed) (snd replayed) 1 a_letter
    replayed_eq). by vm_compute.
Defined.
End Witness.
