(* ===== verification/Provision.v ===== *)
(** * Provisioning

    A tenant's package is rendered from a template (core/src/main.rs): names
    and parameters are checked against whitelists, every file is rendered and
    validated in memory, and only then is anything written. *)

From stdpp Require Import base gmap list strings.
From Stdlib Require Import ZArith Lia Ascii.
From S2P Require Import Prelude Text F64 Json Syntax Lexer Parser Secrets Concrete.
Open Scope nat_scope.
Open Scope string_scope.

(** core/src/main.rs [valid_slug] *)
Definition valid_slug (s : string) : bool :=
  negb (String.eqb s "") && Nat.leb (slen s) 64 &&
  match chars s with c :: _ => is_ascii_lowercase c | [] => false end &&
  all_chars (λ c, is_ascii_lowercase c || is_ascii_digit c || (c =? 95)%N) s.

(** core/src/main.rs [valid_template_name] *)
Definition valid_template_name (s : string) : bool :=
  negb (String.eqb s "") && Nat.leb (slen s) 64 &&
  all_chars (λ c, is_ascii_alphanumeric c || (c =? 45)%N || (c =? 95)%N) s.

(** core/src/main.rs [valid_param_value] *)
Definition param_char (c : N) : bool :=
  is_ascii_alphanumeric c || existsb (N.eqb c) (chars "-_./:?=&%$@#+, ").
(** core/src/main.rs [valid_param_value] *)
Definition valid_param_value (s : string) : bool := Nat.leb (slen s) 512 && all_chars param_char s.

Definition name_char (c : N) : bool := is_ascii_lowercase c || is_ascii_digit c || (c =? 95)%N.

Inductive prov_err : Type :=
| BadTemplateName
| BadSlug
| BadParamName (k : string)
| BadParamValue (k : string)
| ParamNotString (k : string)
| UnknownTemplate
| AlreadyExists
| EmptyTemplate
| MissingParam (name : string)
| BadVjs (rel : string) (e : perr)
| BadJsonFile (rel : string)
| Unreadable (rel : string)
| WriteFailed (path : string).

Definition placeholder (k : string) : string := "${" ++ k ++ "}".

(** core/src/main.rs:2772-2778 [render_template] *)
Fixpoint fill (params : smap Value) (out : string) : res prov_err string :=
  match params with
  | [] => Ok out
  | (k, v) :: params =>
    match as_str v with
    | None => Err (ParamNotString k)
    | Some v => fill params (str_replace out (placeholder k) v)
    end
  end.

(** Every round drops two bytes at least: the length is enough fuel. *)
(** core/src/main.rs:2779-2793 [render_template] *)
Fixpoint unfilled (fuel : nat) (rest : string) : res prov_err () :=
  match fuel with
  | O => NoFuel
  | S fuel =>
    match str_find rest "${" with
    | None => Ok ()
    | Some i =>
      let tail := sdrop (i + 2) rest in
      match str_find tail "}" with
      | Some j =>
        let name := stake j tail in
        if negb (String.eqb name "") && all_chars name_char name then Err (MissingParam name)
        else unfilled fuel tail
      | None => unfilled fuel tail
      end
    end
  end.

(** core/src/main.rs [render_template] *)
Definition render_template (src slug : string) (params : smap Value) : res prov_err string :=
  out ← fill params (str_replace src (placeholder "tenant_slug") slug);
  _ ← unfilled (S (slen out)) out;
  Ok out.

(** core/src/main.rs:2823-2831 [provision] *)
Fixpoint check_params (params : smap Value) : res prov_err () :=
  match params with
  | [] => Ok ()
  | (k, v) :: params =>
    if negb (all_chars name_char k) then Err (BadParamName k)
    else match as_str v with
         | Some s => if valid_param_value s then check_params params else Err (BadParamValue k)
         | None => Err (ParamNotString k)
         end
  end.

Section Provision.
Context {SD : Serde} {CT : CaseTables}.
(** The files of a template by relative path, [None] one that cannot be read;
    the template and package directories that exist; what can be written. *)
Context (template_of : string → option (list (string * option string))).
Context (pkg_exists writable : string → bool).

(** core/src/main.rs:2849-2862 [provision] *)
Fixpoint render_all (files : list (string * option string)) (slug : string) (params : smap Value)
  : res prov_err (list (string * string)) :=
  match files with
  | [] => Ok []
  | (rel, None) :: _ => Err (Unreadable rel)
  | (rel, Some src) :: files =>
    body ← render_template src slug params;
    _ ← (if ends_with rel ".vjs" then
           match parse body with
           | Ok _ => Ok ()
           | Err e => Err (BadVjs rel e)
           | Panic => Panic
           | NoFuel => NoFuel
           end
         else if ends_with rel ".json" then
           match from_json body with Some _ => Ok () | None => Err (BadJsonFile rel) end
         else Ok ());
    rest ← render_all files slug params;
    Ok ((rel, body) :: rest)
  end.

(** A file of a tenant's package, from the root. *)
Definition package_file (slug rel : string) : string := "packages/" ++ slug ++ "/" ++ rel.

Notation W := (sr (gmap string string) prov_err).

(** core/src/main.rs:2863-2871 [provision] *)
Fixpoint write_all (slug : string) (rendered : list (string * string)) : W (list string) :=
  match rendered with
  | [] => mret []
  | (rel, body) :: rendered =>
    let target := package_file slug rel in
    _ ← (if writable target then sr_mod (λ fs, <[target := body]> fs) else sr_fail (WriteFailed target));
    created ← write_all slug rendered;
    mret (target :: created)
  end.

(** core/src/main.rs:2817-2848 [provision] *)
Definition prepare (template slug : string) (params : smap Value) (force : bool)
  : res prov_err (list (string * string)) :=
  if negb (valid_template_name template) then Err BadTemplateName
  else if negb (valid_slug slug) then Err BadSlug
  else
    _ ← check_params params;
    files ← ok_or (template_of template) UnknownTemplate;
    if pkg_exists slug && negb force then Err AlreadyExists
    else match files with
         | [] => Err EmptyTemplate
         | files => render_all files slug params
         end.

(** core/src/main.rs:2809-2871 [provision] *)
Definition provision (template slug : string) (params : smap Value) (force : bool) : W (list string) :=
  rendered ← sr_lift (prepare template slug params force);
  write_all slug rendered.
End Provision.

(** ** Substitution *)

Section Outer.
Context (P : byte → bool).
Definition only (s : string) : list byte := List.filter P (String.list_ascii_of_string s).

Lemma only_app a b : only (a ++ b) = (only a ++ only b)%list.
Proof. unfold only. by rewrite list_ascii_app, List.filter_app. Qed.

Lemma only_concat sep a l : l ≠ [] →
  String.concat sep (a :: l) = a ++ sep ++ String.concat sep l.
Proof. by destruct l. Qed.

Lemma split_fuel_ne n s p : split_fuel n s p ≠ [].
Proof. destruct n; cbn; [done|]. by destruct (split_once s p) as [[]|]. Qed.

Lemma split_only from to n : only from = [] → only to = [] → ∀ s,
  only (str_join to (split_fuel n s from)) = only s.
Proof.
  intros Hf Ht. induction n as [|n IH]; intros s; cbn [split_fuel]; [done|].
  destruct (split_once s from) as [[a b]|] eqn:E; [|done]. apply split_once_app in E as ->.
  unfold str_join. rewrite only_concat by apply split_fuel_ne.
  rewrite !only_app, Ht, Hf, <- (IH b). done.
Qed.

(** Replacing text that [P] does not see by such text is not seen. *)
Lemma replace_only s from to : only from = [] → only to = [] → from ≠ "" →
  only (str_replace s from to) = only s.
Proof.
  intros Hf Ht Hne. unfold str_replace, str_split.
  destruct (String.eqb_spec from "") as [->|]; [done|]. by apply split_only.
Qed.

Lemma only_none s f : all_chars f s = true → (∀ b, f (bval b) = true → P b = false) →
  (∀ b, P b = true → (bval b < 128)%N) → only s = [].
Proof.
  intros Hs HP Ha. unfold only. destruct (List.filter P _) as [|b l] eqn:E; [done|].
  assert (List.In b (List.filter P (String.list_ascii_of_string s))) as [Hin Hb]%filter_In by (rewrite E; by left).
  apply list_elem_of_In in Hin. pose proof (all_chars_ascii f s b Hs Hin (Ha b Hb)) as H.
  by rewrite (HP b H) in Hb.
Qed.
End Outer.

(** The ASCII bytes that no name, no parameter and no placeholder holds: quotes,
    backslashes, line breaks, parentheses and brackets among them. *)
Definition active (b : byte) : bool :=
  (bval b <? 128)%N && negb (param_char (bval b)) && negb (Ascii.eqb b "{") && negb (Ascii.eqb b "}").
Notation skeleton := (only active).

Lemma active_ascii b : active b = true → (bval b < 128)%N.
Proof. unfold active. intros H. bool_prop. lia. Qed.

Lemma name_char_param c : name_char c = true → param_char c = true.
Proof.
  unfold name_char, param_char, is_ascii_alphanumeric. intros H.
  destruct (is_ascii_lowercase c) eqn:E1, (is_ascii_digit c) eqn:E2; cbn in H;
    rewrite ?orb_true_r; try done. apply N.eqb_eq in H as ->. by vm_compute.
Qed.

Lemma param_inert s : all_chars param_char s = true → skeleton s = [].
Proof.
  intros Hs. eapply only_none; [exact Hs| |exact active_ascii].
  intros b Hb. unfold active. by rewrite Hb, andb_false_r.
Qed.

Lemma all_chars_mono f g s : (∀ c, f c = true → g c = true) → all_chars f s = true → all_chars g s = true.
Proof. unfold all_chars. rewrite !forallb_forall. auto. Qed.

Lemma placeholder_inert k : all_chars name_char k = true → skeleton (placeholder k) = [].
Proof.
  intros Hk. unfold placeholder. rewrite !only_app, (param_inert k); [done|].
  by eapply all_chars_mono; [apply name_char_param|].
Qed.

Lemma fill_skeleton params : ∀ out out', check_params params = Ok () → fill params out = Ok out' →
  skeleton out' = skeleton out.
Proof.
  induction params as [|[k v] params IH]; intros out out' Hc Hf; cbn [check_params fill] in Hc, Hf; [by injection Hf as <-|].
  destruct (all_chars name_char k) eqn:Hk; cbn [negb] in Hc; [|done].
  destruct (as_str v) as [x|]; [|done]. destruct (valid_param_value x) eqn:Hx; [|done].
  apply andb_true_iff in Hx as [_ Hx]. rewrite (IH _ _ Hc Hf).
  apply replace_only; [by apply placeholder_inert|by apply param_inert|done].
Qed.

(** A parameter cannot escape from where the template puts it: the bytes
    that end a string, a line or a call in a rendered file are those of the
    template, in its order, whatever the tenant's name and parameters hold. *)
Theorem params_cannot_escape src slug params out :
  valid_slug slug = true → check_params params = Ok () →
  render_template src slug params = Ok out → skeleton out = skeleton src.
Proof.
  intros Hs Hc H. unfold render_template in H. apply bind_Ok in H as (o & Hf & H).
  apply bind_Ok in H as ([] & _ & H). injection H as ->.
  rewrite (fill_skeleton _ _ _ Hc Hf). apply replace_only; [|apply param_inert|done].
  - apply placeholder_inert. by vm_compute.
  - unfold valid_slug in Hs. bool_prop. by eapply all_chars_mono; [apply name_char_param|].
Qed.

(** ** What is written *)

Section Written.
Context {SD : Serde} {CT : CaseTables}.
Context (template_of : string → option (list (string * option string))).
Context (pkg_exists writable : string → bool).

(** A file as provisioning may write it. *)
Definition rendered_from (files : list (string * option string)) (slug : string) (params : smap Value)
  (rel body : string) : Prop :=
  ∃ src, (rel, Some src) ∈ files ∧ render_template src slug params = Ok body ∧
    (ends_with rel ".vjs" = true → ∃ prog, parse body = Ok prog).

Lemma render_all_from files slug params : ∀ l, render_all files slug params = Ok l →
  Forall (λ rb, rendered_from files slug params (fst rb) (snd rb)) l.
Proof.
  induction files as [|[rel [src|]] files IH]; intros l H; cbn [render_all] in H; try done.
  - by injection H as <-.
  - apply bind_Ok in H as (body & Hb & H). apply bind_Ok in H as ([] & Hok & H).
    apply bind_Ok in H as (rest & Hr & H). injection H as <-. constructor.
    + exists src. split; [by left|]. split; [done|]. intros Hv. cbn [fst snd] in *. rewrite Hv in Hok.
      destruct (parse body) as [p|e| |]; try done. by exists p.
    + eapply Forall_impl; [by apply IH|]. intros [r b] (s & Hin & H1 & H2). exists s.
      split; [by right|done].
Qed.

Lemma write_all_changes slug l : ∀ fs path,
  snd (write_all writable slug l fs) !! path ≠ fs !! path →
  ∃ rel body, (rel, body) ∈ l ∧ path = package_file slug rel ∧
    snd (write_all writable slug l fs) !! path = Some body.
Proof.
  induction l as [|[rel body] l IH]; intros fs path; cbn [write_all]; [by intros []|].
  set (target := package_file slug rel).
  unfold mbind, sr_bind. destruct (writable target);
    cbn -[write_all lookup insert package_file]; [|intros Hn; by destruct Hn].
  specialize (IH (<[target := body]> fs) path).
  destruct (write_all writable slug l (<[target := body]> fs)) as [r fs'].
  match goal with |- snd ?x !! path ≠ _ → _ => assert (snd x = fs') as -> by (by destruct r) end.
  intros H. cbn [snd] in IH. destruct (decide (fs' !! path = <[target := body]> fs !! path)) as [Heq|Hne].
  - destruct (decide (path = target)) as [->|Hp].
    + exists rel, body. split; [by left|]. split; [done|]. by rewrite Heq, lookup_insert_eq.
    + by rewrite Heq, lookup_insert_ne in H.
  - destruct (IH Hne) as (r0 & b0 & Hin & Hpath & Hb). exists r0, b0. split; [by right|done].
Qed.

(** What provisioning writes is sound, however far it gets: every file it
    changes lies in the tenant's package and holds a template's file rendered
    with checked parameters, and a flow among them parses; a request that is
    refused, or one file that does not render, changes nothing. *)
Theorem provision_sound template slug params force fs r fs' path :
  provision template_of pkg_exists writable template slug params force fs = (r, fs') →
  fs' !! path ≠ fs !! path →
  valid_slug slug = true ∧ check_params params = Ok () ∧
  ∃ files rel body, template_of template = Some files ∧
    path = package_file slug rel ∧ fs' !! path = Some body ∧
    rendered_from files slug params rel body ∧ (pkg_exists slug = false ∨ force = true).
Proof.
  unfold provision, mbind, sr_bind, sr_lift. intros H Hne.
  destruct (prepare template_of pkg_exists template slug params force) as [l|e| |] eqn:Hp;
    try (by injection H as _ <-).
  unfold prepare in Hp. destruct (valid_template_name template); cbn [negb] in Hp; [|done].
  destruct (valid_slug slug); cbn [negb] in Hp; [|done].
  apply bind_Ok in Hp as ([] & Hc & Hp). apply bind_Ok in Hp as (files & Ht & Hp).
  destruct (pkg_exists slug && negb force) eqn:Hf; [done|].
  assert (render_all files slug params = Ok l) as Hr by (by destruct files).
  apply render_all_from in Hr. split; [done|]. split; [done|].
  pose proof (write_all_changes slug l fs path) as Hw. rewrite H in Hw.
  destruct (Hw Hne) as (rel & body & Hin & Hpath & Hb). exists files, rel, body.
  rewrite Forall_forall in Hr. unfold ok_or in Ht. destruct (template_of template); [|done].
  injection Ht as ->. do 3 (split; [done|]). split; [by apply (Hr (rel, body))|].
  destruct (pkg_exists slug), force; auto.
Qed.
End Written.

(** ** Witnesses *)

Section Witnesses.
Definition flow_template : string :=
  script "source 'vx.${tenant_slug}.in'|emit 'vx.${tenant_slug}.out', {to: '${mail}'}|".
Definition templates (t : string) : option (list (string * option string)) :=
  if String.eqb t "mailer" then Some [("flows/mail.vjs", Some flow_template)] else None.
Definition acme : smap Value := [("mail", VString "ops@acme.com")].
Definition no_pkg (_ : string) : bool := false.
Definition any_file (_ : string) : bool := true.
Definition acme_flow : string :=
  script "source 'vx.acme.in'|emit 'vx.acme.out', {to: 'ops@acme.com'}|".

Lemma acme_renders : render_template flow_template "acme" acme = Ok acme_flow.
Proof. vm_compute. reflexivity. Qed.

Lemma params_cannot_escape_witness :
  render_template flow_template "acme" acme = Ok acme_flow ∧
  only active acme_flow = only active flow_template.
Proof.
  split; [exact acme_renders|].
  apply (params_cannot_escape flow_template "acme" acme); [reflexivity|reflexivity|exact acme_renders].
Defined.

Definition provisioned := provision templates no_pkg any_file "mailer" "acme" acme false ∅.

Lemma provisioned_file : snd provisioned !! "packages/acme/flows/mail.vjs" = Some acme_flow.
Proof. vm_compute. reflexivity. Qed.

Lemma provisioned_eq :
  provision templates no_pkg any_file "mailer" "acme" acme false ∅ = (fst provisioned, snd provisioned).
Proof. unfold provisioned. by destruct (provision _ _ _ _ _ _ _ _). Qed.

Lemma provision_sound_witness :
  valid_slug "acme" = true ∧ check_params acme = Ok () ∧
  ∃ files rel body, templates "mailer" = Some files ∧
    "packages/acme/flows/mail.vjs" = package_file "acme" rel ∧
    snd provisioned !! "packages/acme/flows/mail.vjs" = Some body ∧
    rendered_from files "acme" acme rel body ∧ (no_pkg "acme" = false ∨ false = true).
Proof.
  apply (provision_sound templates no_pkg any_file "mailer" "acme" acme false ∅ (fst provisioned)
    (snd provisioned) "packages/acme/flows/mail.vjs" provisioned_eq).
  rewrite provisioned_file, lookup_empty. discriminate.
Defined.
End Witnesses.
