(* ===== verification/Boot.v ===== *)
(** * The command line and the start of the runtime

    What [main] does with its arguments (core/src/main.rs): the one-shot
    helpers, the runner of golden tests, and the start of a runtime up to its
    end.  The golden test that is curated from an event (Actions) passes in the
    runner. *)

From stdpp Require Import base gmap sets list strings.
From Stdlib Require Import ZArith Lia Ascii.
From S2P Require Import Prelude Text F64 Json Syntax Lexer Parser Secrets Eval Paths Gates Traces Connect Project Registry Metrics Ops Actions Concrete.
Open Scope string_scope.
Open Scope Z_scope.

(** core/src/secrets.rs:42-43 [SECRET_KEY_PATTERN] *)
Definition SECRET_KEY_PATTERN : string :=
  "pass(wd|word)|secret|(^|[_-])token$|api[_-]?key|^auth$|[_-]auth$|^auth[_-]|authorization|webhook_url".

(** How the process ends, or that it goes on as a runtime; a panic of the main
    thread is [Dies]. *)
Inductive End := Exits (code : Z) | Dies | Goes.

(** What it printed, to the output and to the error output. *)
Record Said : Type := { out : list string; err : list string }.
Definition silent : Said := {| out := []; err := [] |}.
Definition said (l : string) : Said := {| out := [l]; err := [] |}.
Definition complained (l : string) : Said := {| out := []; err := [l] |}.

(** The steps of the start of a runtime. *)
Inductive Step :=
| OtlpInit | HandleSignals | ReloadUnits | ControlStart | WatchVersions | ServePanel (addr : string)
| AwaitStop | StopUnits.

Section Boot.
Context {SD : Serde} {CT : CaseTables} {FL : FloatLib}.
Context (env : string → option string) (fs : FS) (store : SecretStore).
(** The crate's version; the engine's verdict on a program; errors in words:
    of the files, of the parser, of a run, as [Debug] prints a text. *)
Context (version : string) (check_vpl : string → res string ()).
Context (unreadable : string → string) (why : view_err + verr → string) (debug : string → string).

Definition read_to_string (path : string) : res string string := ok_or (reads fs path) (unreadable path).
Definition parsed_text (src : string) : res string Program := worded (λ e, why (inl (VParse e))) (parse src).
Definition vejas_root : string := default "." (env "VEJAS_ROOT").

(** ** Golden tests *)

(** A flow on the input of a case, as [vjs-test] runs it. *)
(** core/src/main.rs:4579-4588 [main] *)
Definition run_case (flow : string) (input : Value) : res string (list emit) :=
  src ← read_to_string flow;
  prog ← parsed_text src;
  c ← worded (λ e, why (inr e)) (fst (run (reads fs) prog input (shadow store vejas_root (pkg_of_path flow))));
  Ok (emits c).

(** core/src/main.rs:4589-4617 [main] *)
Definition verdict (ran : res string (list emit)) (case : Value) : res string () :=
  match ran, as_str (vindex case "expect_error") with
  | Err e, Some want =>
    if str_contains e want then Ok ()
    else Err ("error mismatch: got " ++ debug e ++ ", want substring " ++ debug want)
  | Err e, None => Err ("unexpected error: " ++ e)
  | Ok _, Some want => Err ("expected error " ++ debug want ++ ", flow succeeded")
  | Ok emits, None =>
    let got := emits_value emits in
    let want := vindex case "expect_emits" in
    if value_eqb got want then Ok ()
    else Err ("emits mismatch" ++ newline ++ "     got:  " ++ to_json got ++ newline ++ "     want: " ++ to_json want)
  | Panic, _ => Panic
  | NoFuel, _ => NoFuel
  end.

(** The verdict on the text of a case; what [unwrap] and [expect] meet is a
    panic. *)
(** core/src/main.rs:4568-4617 [main] *)
Definition case_verdict (text : string) : res string () :=
  match from_json text with
  | None => Panic
  | Some case =>
    match as_str (vindex case "flow") with
    | None => Panic
    | Some flow =>
      match match as_str (vindex case "input_file") with
            | Some f => t ← reads fs f; from_json t
            | None => Some (vindex case "input")
            end with
      | None => Panic
      | Some input => verdict (run_case flow input) case
      end
    end
  end.

(** One line for each case, and how many passed and failed; [None] when a case
    is the end of the process. *)
(** core/src/main.rs:4566-4630 [main] *)
Fixpoint run_cases (cases : list string) (lines : list string) (pass fail : Z) : option (list string * Z * Z) :=
  match cases with
  | [] => Some (lines, pass, fail)
  | path :: cases =>
    let name := default "" (option_map from_utf8_lossy (file_stem path)) in
    match (match reads fs path with Some t => case_verdict t | None => Panic end) with
    | Ok _ => run_cases cases (lines ++ [("  ✓ " ++ name)%string])%list (pass + 1) fail
    | Err e => run_cases cases (lines ++ [("  ✗ " ++ name ++ ": " ++ e)%string])%list pass (fail + 1)
    | _ => None
    end
  end.

Definition path_leb (p q : string) : bool := match path_cmp p q with Gt => false | _ => true end.
(** The cases of a directory, in the order of their paths. *)
(** core/src/main.rs:4558-4565 [main] *)
Definition case_files (dir : string) : option (list string) :=
  names ← ls fs dir;
  Some (stable_sort path_leb
          (List.filter (λ p, bool_decide (extension p = Some "json")) (map (path_join dir) names))).

(** core/src/main.rs:4555-4634 [main] *)
Definition vjs_test (dir : string) : Said * End :=
  match case_files dir with
  | None => (silent, Dies)
  | Some files =>
    match run_cases files [] 0 0 with
    | Some (lines, pass, fail) =>
      ({| out := (lines ++ [(dec_of_Z pass ++ " passed, " ++ dec_of_Z fail ++ " failed")%string])%list; err := [] |},
       Exits (if 0 <? fail then 1 else 0))
    | None => (silent, Dies)
    end
  end.

(** ** One-shot helpers *)

Definition ok_or_complain (r : res string ()) : Said * End :=
  match r with Ok _ => (said "ok", Exits 0) | Err e => (complained e, Exits 1) | _ => (silent, Dies) end.

(** core/src/main.rs:4498-4508 [main] *)
Definition vjs_check (file : string) : Said * End :=
  ok_or_complain (s ← read_to_string file; _ ← parsed_text s; Ok ()).

(** core/src/main.rs:4510-4526 [main] *)
Definition vpl_check (file : string) : Said * End :=
  ok_or_complain (s ← read_to_string file; check_vpl s).

(** core/src/main.rs:4528-4549 [main] *)
Definition vjs_run (file fixture : string) : Said * End :=
  match (s ← reads fs file; t ← reads fs fixture; e ← from_json t; Some (s, e)) : option (string * Value) with
  | None => (silent, Dies)
  | Some (src, event) =>
    match parse src with
    | Ok prog =>
      match fst (run (reads fs) prog event (live store vejas_root (pkg_of_path file))) with
      | Ok c => ({| out := map (λ sp, "emit " ++ fst sp ++ " " ++ to_json (snd sp)) (emits c); err := [] |}, Exits 0)
      | Err e => (complained (why (inr e)), Exits 1)
      | _ => (silent, Dies)
      end
    | _ => (silent, Dies)
    end
  end.

(** ** The runtime *)

(** A governed runtime does not start without the credential of the human. *)
(** core/src/main.rs:4636-4695 [main] *)
Definition boot : list Step * End :=
  let addr := default "0.0.0.0:8686" (env "VEJAS_HTTP_ADDR") in
  if require_approval env && negb (bool_decide (is_Some (approval_token env))) then ([], Exits 1)
  else ([OtlpInit; HandleSignals; ReloadUnits; ControlStart; WatchVersions; ServePanel addr; AwaitStop; StopUnits], Exits 0).

(** The end: every registered unit is told to stop. *)
(** core/src/main.rs:4690-4693 [main] *)
Definition stop_units (u : Units) : Units := fold_left (λ u n, stop_unit n u) (map fst (map_to_list (registry u))) u.

(** core/src/main.rs [main] *)
Definition main (args : list string) : Said * (list Step * End) :=
  let one r := let '(s, e) := (r : Said * End) in (s, ([], e)) in
  match args with
  | [_; "--version"] | [_; "-V"] => one (said ("vejas-runtime " ++ version), Exits 0)
  | _ :: "secret-pattern" :: _ => one (said SECRET_KEY_PATTERN, Exits 0)
  | _ :: "vjs-check" :: file :: _ => one (vjs_check file)
  | _ :: "vpl-check" :: file :: _ => one (vpl_check file)
  | _ :: "vjs-run" :: file :: fixture :: _ => one (vjs_run file fixture)
  | _ :: "vjs-test" :: dir :: _ => one (vjs_test dir)
  | _ => (silent, boot)
  end.

(** ** What the runner says *)

(** The exit code of the runner is 0 exactly when every case passed. *)
Lemma run_cases_spec cases lines pass fail lines' pass' fail' :
  0 <= fail → run_cases cases lines pass fail = Some (lines', pass', fail') →
  fail <= fail' ∧ pass' - pass + (fail' - fail) = Z.of_nat (length cases) ∧
  length lines' = (length lines + length cases)%nat ∧
  (fail' = fail ↔ Forall (λ p, ∃ t, reads fs p = Some t ∧ case_verdict t = Ok ()) cases).
Proof.
  revert lines pass fail. induction cases as [|p cases IH]; intros lines pass fail Hf; cbn [run_cases].
  { intros [= <- <- <-]. split; [lia|]. split; [cbn; lia|]. split; [cbn; lia|done]. }
  destruct (reads fs p) as [t|] eqn:Er; [|done]. destruct (case_verdict t) as [[]|e| |] eqn:Ev; try done; intros H;
    (apply IH in H as (H1 & H2 & H3 & H4); [|lia]); rewrite length_app in H3; cbn [length] in *; do 3 (split; [lia|]).
  - rewrite H4, Forall_cons. split; [intros Ha; split; [by exists t|done]|by intros []].
  - split; [lia|]. rewrite Forall_cons. intros [(t' & Ht & Hv) _]. congruence.
Qed.

Theorem goldens_exit dir s code :
  vjs_test dir = (s, Exits code) →
  ∃ files, case_files dir = Some files ∧ length (out s) = S (length files) ∧
    (code = 0 ↔ Forall (λ p, ∃ t, reads fs p = Some t ∧ case_verdict t = Ok ()) files).
Proof.
  unfold vjs_test. destruct (case_files dir) as [files|]; [|done].
  destruct (run_cases files [] 0 0) as [[[lines pass] fail]|] eqn:E; [|done]. intros [= <- <-].
  apply run_cases_spec in E as (H1 & H2 & H3 & H4); [|lia]. exists files. split; [done|]. split; [cbn in *; rewrite length_app; cbn; lia|].
  rewrite <- H4. destruct (Z.ltb_spec 0 fail); lia.
Qed.

Lemma ct_eq_refl a : ct_eq a a = true.
Proof.
  unfold ct_eq. rewrite Z.lxor_nilpotent. apply Z.eqb_eq, fold_lor_zero; [done| |].
  - intros i. pose proof (byte_at_range a i). apply Z.lxor_nonneg. lia.
  - split; [done|]. apply Forall_forall. intros i _. apply Z.lxor_nilpotent.
Qed.

(** A governed runtime that serves has a credential for the human, and a
    request that carries it is the human's. *)
Lemma boot_governed steps e :
  boot = (steps, e) → require_approval env = true →
  (steps = [] ∧ e = Exits 1) ∨
  ∃ tok, approval_token env = Some tok ∧
    ∀ m path, approval_authorized env {| rq_method := m; rq_path := path; rq_headers := [("X-Approval-Token", tok)] |} = true.
Proof.
  unfold boot. intros H Hr. rewrite Hr in H. destruct (approval_token env) as [tok|] eqn:Et; cbn in H.
  - right. exists tok. split; [done|]. intros m path. unfold approval_authorized. rewrite Et. cbn. by rewrite ct_eq_refl.
  - left. by injection H as <- <-.
Qed.
End Boot.

(** ** Curated tests pass *)

Lemma value_eqb_refl n v : value_ok_at n v = true → value_eqb v v = true.
Proof.
  revert n. induction v as [|x|z|x|l IH|m IH] using value_ind'; intros n; cbn; try done.
  - intros _. by destruct x.
  - destruct z; [intros _; apply Z.eqb_refl|done].
  - intros _. apply String.eqb_refl.
  - destruct n as [|n]; [done|]. induction IH as [|x l Hx _ IHl]; [done|]. cbn. intros [H1 H2]%andb_true_iff.
    rewrite (Hx n) by done. by apply IHl.
  - destruct n as [|n]; [done|]. intros [_ H]%andb_true_iff. induction IH as [|[k x] l Hx _ IHl]; [done|].
    cbn in H. apply andb_true_iff in H as [[_ H1]%andb_true_iff H2]. cbn in Hx. rewrite String.eqb_refl, (Hx n) by done. by apply IHl.
Qed.

Lemma worded_Ok {E A} (text : E → string) (r : res E A) a : worded text r = Ok a → r = Ok a.
Proof. by destruct r; intros [= ->]. Qed.

(** A document whose text the parser reads as it, fractions and all, and that
    holds no number that is none. *)
Definition reads_back {SD : Serde} (v : Value) : Prop :=
  from_json (to_json_pretty v) = Some v ∧ value_eqb v v = true.
Lemma ok_reads_back {SD : Serde} {SO : SerdeOk} v : value_ok v = true → reads_back v.
Proof. intros H. split; [by apply serde_roundtrip_pretty|by eapply value_eqb_refl]. Qed.

Section Curated.
Context {SD : Serde} {CT : CaseTables} {FL : FloatLib}.
Context (env : string → option string) (fs : FS) (st : SecretStore) (canonicalize : string → option string).
Context (unreadable : string → string) (why : view_err + verr → string) (debug : string → string).
Notation root := (vejas_root env).
Notation passes := (case_verdict env fs st unreadable why debug).

(** The name of a flow's file as the project writes it, and what it takes for
    the runner to find that file under it: it is started at the root. *)
Definition rel_name (path : string) : string := from_utf8_lossy (default path (path_strip_prefix path root)).
Definition runs_at_root : Prop := ∀ file, file ∈ map fst (vjs_files fs root) →
  ∀ path, guard_path canonicalize root (rel_name file) = Some path →
  reads fs (rel_name file) = reads fs path ∧ pkg_of_path (rel_name file) = pkg_of_path path.

Definition curated_case (rel : string) (event : Value) (expect : list Value) : Value :=
  obj [("flow", VString rel); ("input", event); ("expect_emits", VArray expect)].

Lemma curated_fields rel event expect :
  let case := curated_case rel event expect in
  vindex case "flow" = VString rel ∧ vindex case "input" = event ∧ vindex case "expect_emits" = VArray expect ∧
  vindex case "input_file" = VNull ∧ vindex case "expect_error" = VNull.
Proof. done. Qed.
Lemma curated_itself rel event expect :
  value_eqb (curated_case rel event expect) (curated_case rel event expect) = true →
  value_eqb (VArray expect) (VArray expect) = true.
Proof.
  change (value_eqb (VArray expect) (VArray expect) && (value_eqb (VString rel) (VString rel) && (value_eqb event event && true)) = true →
          value_eqb (VArray expect) (VArray expect) = true).
  by intros [? _]%andb_true_iff.
Qed.

Lemma curated_passes rel event expect :
  (∀ path, guard_path canonicalize root rel = Some path →
    reads fs rel = reads fs path ∧ pkg_of_path rel = pkg_of_path path) →
  run_flow_on_input fs root canonicalize st rel event = Ok expect →
  reads_back (curated_case rel event expect) →
  passes (to_json_pretty (curated_case rel event expect)) = Ok ().
Proof.
  intros Hat Hrun [Hback Hself]. unfold case_verdict. rewrite Hback.
  destruct (curated_fields rel event expect) as (Hf & Hi & Hx & Hif & Hee). rewrite Hf, Hi, Hif. cbn [as_str].
  unfold run_flow_on_input, open_script in Hrun.
  destruct (guard_path canonicalize root rel) as [path|] eqn:Eg; [|done]. cbn [ok_or mbind res_mbind res_bind] in Hrun.
  destruct (Hat _ eq_refl) as [Hr Hp].
  destruct (reads fs path) as [src|] eqn:Es; [|done]. cbn [ok_or mbind res_mbind res_bind] in Hrun.
  destruct (parse src) as [prog|e| |] eqn:Ep; cbn [ok_or mbind res_mbind res_bind] in Hrun; try done.
  unfold run_case, read_to_string, parsed_text. rewrite Hr. cbn [ok_or mbind res_mbind res_bind]. rewrite Ep.
  cbn [worded mbind res_mbind res_bind]. rewrite Hp.
  destruct (fst (run _ _ _ _)) as [c|e| |]; cbn [ok_or mbind res_mbind res_bind] in Hrun; try done. injection Hrun as <-. unfold verdict. cbn [worded mbind res_mbind res_bind].
  rewrite Hee, Hx. cbn [as_str]. unfold emits_value. by rewrite (curated_itself _ _ _ Hself).
Qed.

(** C36: A golden test that is curated from an event a flow has handled passes
    in the test runner, as long as the project's files and secrets are the
    ones it was curated with, and the runner is started at the root of the
    project: whatever the event, a case that [golden_from_event] writes has the
    verdict that it passed when its text reads back as it, fractions included
    ([ok_reads_back]: by the laws of the printer and the parser this is so of
    any document of UTF-8 texts and integers in range that is nested at most
    127 deep); a case whose text does not parse is the end of the runner.  An event may be
    nested so deep that its case is such a one: that is a finding. *)
Theorem curated_golden_passes flow_unit seq :
  runs_at_root →
  wp (@settled_at fs st)
     (λ R (o : Op R), match o with
                      | WriteFile _ text => ∃ case, text = to_json_pretty case ∧
                          (reads_back case → passes text = Ok ()) ∧ (from_json text = None → passes text = Panic)
                      | _ => True
                      end)
     (λ _, True) (golden_from_event root canonicalize why flow_unit seq).
Proof.
  intros Hat. unfold golden_from_event. repeat walk_step. cbn [settled_at] in *. subst.
  eexists. split; [done|]. split; [|intros Hn; unfold case_verdict; by rewrite Hn].
  intros Hok. apply curated_passes; [|by eapply worded_Ok|done].
  apply Hat. destruct (List.find _ _) as [f|] eqn:Ef; [|done]. injection E0 as ->.
  apply List.find_some in Ef as [Hin _]. by apply list_elem_of_In.
Qed.
End Curated.

(** ** A project with one flow *)

Module Demo.
Definition env (k : string) : option string := if String.eqb k "VEJAS_ROOT" then Some "." else None.
Definition source : string := script "source 'vx.in'|emit 'vx.out', {n: event.n}|".
Definition fs : FS := {|
  ls p := if String.eqb p "./flows" then Some ["a.vjs"] else None;
  is_dir p := String.eqb p "./flows";
  file_exists p := String.eqb p "./flows/a.vjs";
  reads p := if String.eqb p "./flows/a.vjs" || String.eqb p "flows/a.vjs" then Some source else None;
  mtime _ := 0
|}.
Definition canonicalize (p : string) : option string := Some p.
Definition why (e : view_err + verr) : string := "it failed".
Definition debug (s : string) : string := quoted "~" ++ s ++ quoted "~".
Definition no_store : SecretStore := env_store (λ _, None).

Lemma curated_golden_passes_witness :
  runs_at_root env fs canonicalize ∧
  wp (@settled_at fs no_store)
     (λ R (o : Op R), match o with
                      | WriteFile _ text =>
                        ∃ case, text = to_json_pretty case ∧
                          (reads_back case → case_verdict env fs no_store id why debug text = Ok ()) ∧
                          (from_json text = None → case_verdict env fs no_store id why debug text = Panic)
                      | _ => True
                      end)
     (λ _, True) (golden_from_event "." canonicalize why "flow:a" 3).
Proof.
  assert (runs_at_root env fs canonicalize) as H.
  { intros file Hin path Hg. assert (map_files : map fst (vjs_files fs ".") = ["./flows/a.vjs"]) by (vm_compute; reflexivity).
    change (vejas_root env) with "." in *. rewrite map_files in Hin. apply list_elem_of_singleton in Hin as ->.
    vm_compute in Hg. injection Hg as <-. split; vm_compute; reflexivity. }
  split; [exact H|]. exact (curated_golden_passes env fs no_store canonicalize id why debug "flow:a" 3 H).
Defined.

(** The case of an event, and the same with another number expected. *)
Definition case (n m : Value) : Value :=
  curated_case "flows/a.vjs" (obj [("n", n)]) [obj [("subject", VString "vx.out"); ("payload", obj [("n", m)])]].
Definition half : Value := VNumber (NFloat (f64_of_dec false 125 (-1))).
Definition on_text (v : Value) : res string () := case_verdict env fs no_store id why debug (to_json_pretty v).
Example demo_passes : on_text (case (vint 5) (vint 5)) = Ok ().
Proof. vm_compute. reflexivity. Qed.
Example demo_fails : on_text (case (vint 5) (vint 6)) ≠ Ok ().
Proof. vm_compute. done. Qed.
Example demo_fraction : reads_back (case half half) ∧ on_text (case half half) = Ok ().
Proof. split; [split|]; vm_compute; reflexivity. Qed.

(** A deep event, within what the parser takes, is in a case that is not. *)
Fixpoint nested (n : nat) : Value := match n with O => vint 1 | S n => VArray [nested n] end.
Example too_deep : value_ok (nested 127) = true ∧ value_ok (curated_case "flows/a.vjs" (nested 127) []) = false.
Proof. split; vm_compute; reflexivity. Qed.

(** A governed runtime starts with the agent's own credential as the human's. *)
Definition one_token (k : string) : option string :=
  if String.eqb k "VEJAS_REQUIRE_APPROVAL" then Some "1"
  else if String.eqb k "VEJAS_TOKEN" || String.eqb k "VEJAS_APPROVAL_TOKEN" then Some "t" else None.
Example one_token_boots : snd (boot one_token) = Exits 0.
Proof. reflexivity. Qed.
End Demo.
