(* ===== verification/Dial.v ===== *)
(** * Connections to the bus

    The one connection of a process to each deployment (core/src/bus.rs): the
    parsing of its address, its opening with the credentials of the address,
    and the registry that shares it, which remembers for a second that an
    address did not answer.  The client library is the class [Dialer]; a
    connection that is open is a [Link] of Bus. *)

From stdpp Require Import base gmap list strings.
From Stdlib Require Import ZArith Lia Ascii Sorted.
From S2P Require Import Prelude Text F64 Json Bus.
Open Scope string_scope.
Open Scope Z_scope.

(** Credentials as the library takes them. *)
Inductive Credentials := NoCredentials | UserPassword (user pass : string) | Token (token : string).

Class Dialer (N : Type) := {
  ServerAddr : Type;
  parse_addr : string → res string ServerAddr;
  username : ServerAddr → option string;
  password : ServerAddr → option string;
  dial : Credentials → list ServerAddr → res string N;
  new_inbox : N → string * N;
  subscribe : string → N → res string () * N
}.

(** core/src/bus.rs [CONNECT_MEMO] *)
Definition CONNECT_MEMO : Z := 1000.

Section Dial.
Context {N : Type} {NET : Net N} {DI : Dialer N}.

(** core/src/bus.rs [with_url_credentials] *)
Fixpoint with_url_credentials (servers : list ServerAddr) : Credentials :=
  match servers with
  | [] => NoCredentials
  | server :: servers =>
    match username server, password server with
    | Some user, Some pass => UserPassword user pass
    | Some token, None => Token token
    | None, _ => with_url_credentials servers
    end
  end.

Fixpoint collect {E A} (l : list (res E A)) : res E (list A) :=
  match l with [] => Ok [] | r :: l => a ← r; rest ← collect l; Ok (a :: rest) end.
(** core/src/bus.rs [servers_of] *)
Definition servers_of (url : string) : res string (list ServerAddr) :=
  collect (map (λ server, parse_addr (trim server)) (str_split url ",")).

(** The connection, and the subject on which it hears itself. *)
(** core/src/bus.rs:103-140 [Link::open] *)
Definition link_open (servers : list ServerAddr) : res string (Link N) :=
  client ← dial (with_url_credentials servers) servers;
  let '(echo, client) := new_inbox client in
  let '(r, client) := subscribe echo client in
  _ ← r;
  Ok {| client := client; echo := echo; next_id := 0; waiting := [] |}.

(** core/src/bus.rs:267-274 [open] *)
Definition open (url : string) : res string (Link N) := servers ← servers_of url; link_open servers.

(** ** The registry *)

(** core/src/bus.rs:~198 [Registry] *)
Record Registry : Type := { links : gmap string (Link N); failed : gmap string (Z * string) }.
Definition no_links : Registry := {| links := ∅; failed := ∅ |}.

(** [now] is when it is asked, [after] when an attempt to open it has failed,
    in milliseconds; whether it dialled is the last part of the result. *)
(** core/src/bus.rs [connect] *)
Definition connect (url : string) (opened : res string (Link N)) (now after : Z) (r : Registry)
  : res string (Link N) * Registry * bool :=
  match links r !! url with
  | Some link => (if up link then Ok link else Err "the connection to NATS is down", r, false)
  | None =>
    match (match failed r !! url with
           | Some (at_, error) => if now - at_ <? CONNECT_MEMO then Some error else None
           | None => None
           end) with
    | Some error => (Err error, r, false)
    | None =>
      match opened with
      | Ok link => (Ok link, {| links := <[url := link]> (links r); failed := failed r |}, true)
      | Err error => (Err error, {| links := links r; failed := <[url := (after, error)]> (failed r) |}, true)
      | r' => (r', r, true)
      end
    end
  end.

(** ** How often an address is dialled *)

(** A call, with the outcome an attempt would have: the address, when it is
    made, what opening gives and when that is known. *)
Record Call : Type := { c_url : string; c_now : Z; c_opened : res string (Link N); c_after : Z }.

(** The times at which each address is dialled, the last first; the calls take
    turns on the registry's lock. *)
Fixpoint dialled (calls : list Call) (r : Registry) (log : list (string * Z)) : Registry * list (string * Z) :=
  match calls with
  | [] => (r, log)
  | c :: calls =>
    let '(_, r, d) := connect (c_url c) (c_opened c) (c_now c) (c_after c) r in
    dialled calls r (if (d : bool) then (c_url c, c_now c) :: log else log)
  end.

(** Calls in turn from a time on: each is answered before the next is made, and
    opening returns. *)
Fixpoint in_turn (t : Z) (calls : list Call) : Prop :=
  match calls with
  | [] => True
  | c :: calls => t <= c_now c <= c_after c ∧ (∀ r, c_opened c = r → r ≠ Panic ∧ r ≠ NoFuel) ∧ in_turn (c_after c) calls
  end.

Definition dials_of (url : string) (log : list (string * Z)) : list Z :=
  map snd (List.filter (λ x, String.eqb (fst x) url) log).

(** Times, the last first, each a second or more after the one before it. *)
Fixpoint paced (ts : list Z) : Prop :=
  match ts with
  | [] => True
  | t :: ts => match ts with [] => True | u :: _ => u + CONNECT_MEMO <= t end ∧ paced ts
  end.

(** What the registry knows of the log, at a time. *)
Definition knows (t : Z) (r : Registry) (log : list (string * Z)) : Prop :=
  ∀ url, paced (dials_of url log) ∧
    match dials_of url log with
    | [] => True
    | last :: _ => is_Some (links r !! url) ∨ ∃ at_ e, failed r !! url = Some (at_, e) ∧ last <= at_ <= t
    end.

Lemma dials_of_cons url u t log :
  dials_of url ((u, t) :: log) = if String.eqb u url then t :: dials_of url log else dials_of url log.
Proof. unfold dials_of. cbn. by destruct (String.eqb u url). Qed.

Lemma connect_knows c r log t :
  knows t r log → t <= c_now c <= c_after c → c_opened c ≠ Panic → c_opened c ≠ NoFuel →
  let '(_, r', d) := connect (c_url c) (c_opened c) (c_now c) (c_after c) r in
  knows (c_after c) r' (if (d : bool) then (c_url c, c_now c) :: log else log).
Proof.
  intros Hk Ht Hp Hf. unfold connect.
  assert (knows (c_after c) r log) as Hlater.
  { intros url. destruct (Hk url) as [Hpc Hl]. split; [done|]. destruct (dials_of url log); [done|].
    destruct Hl as [|(a & e & ? & ?)]; [by left|]. right. exists a, e. split; [done|lia]. }
  destruct (links r !! c_url c) as [l|] eqn:El; [exact Hlater|].
  assert (∀ at_ e, failed r !! c_url c = Some (at_, e) → c_now c - at_ <? CONNECT_MEMO = false →
    at_ + CONNECT_MEMO <= c_now c) as Hge by (intros at_ e _ ?%Z.ltb_ge; lia).
  set (memo := match failed r !! c_url c with Some _ => _ | None => _ end).
  destruct memo as [error|] eqn:Em; [exact Hlater|].
  assert (paced (c_now c :: dials_of (c_url c) log)) as Hpaced.
  { destruct (Hk (c_url c)) as [Hpc Hl]. cbn. split; [|done].
    destruct (dials_of (c_url c) log) as [|u us]; [done|]. destruct Hl as [[? Hl]|(a & e & Hfa & Hb)]; [congruence|].
    subst memo. rewrite Hfa in Em. destruct (c_now c - a <? CONNECT_MEMO) eqn:E; [done|]. specialize (Hge _ _ Hfa E). lia. }
  destruct (c_opened c) as [link|error| |] eqn:Eo; try done; intros url; rewrite dials_of_cons;
    (destruct (String.eqb_spec (c_url c) url) as [<-|Hne]; [split; [exact Hpaced|]|split; [apply Hk|]]).
  - left. exists link. apply lookup_insert_eq.
  - destruct (Hlater url) as [_ Hl]. destruct (dials_of url log); [done|]. cbn. by rewrite lookup_insert_ne.
  - right. exists (c_after c), error. split; [apply lookup_insert_eq|lia].
  - destruct (Hlater url) as [_ Hl]. destruct (dials_of url log); [done|]. cbn. by rewrite lookup_insert_ne.
Qed.

(** C26: A dead address is dialled at most once a second, however many threads
    ask for it: between two attempts at the same address at least
    [CONNECT_MEMO] passes, and an address that answered is never dialled again
    by the registry, so that all who ask for it share one connection. *)
Theorem dials_paced calls t :
  in_turn t calls →
  let '(r, log) := dialled calls no_links [] in
  ∀ url, paced (dials_of url log) ∧
    (∀ link, links r !! url = Some link → ∀ opened now after, connect url opened now after r =
      (if up link then Ok link else Err "the connection to NATS is down", r, false)).
Proof.
  assert (∀ calls t r log, knows t r log → in_turn t calls →
    ∃ t', let '(r', log') := dialled calls r log in knows t' r' log') as H.
  { clear. induction calls as [|c calls IH]; intros t r log Hk Hin; cbn; [by exists t|].
    destruct Hin as (Ht & Ho & Hin). destruct (Ho _ eq_refl) as [Hp Hf].
    pose proof (connect_knows c r log t Hk Ht Hp Hf) as Hk'.
    destruct (connect _ _ _ _ r) as [[o r'] d]. by eapply IH. }
  intros Hin. destruct (H calls t no_links []) as [t' Hk]; [by intros url|done|].
  destruct (dialled calls no_links []) as [r log]. intros url. split; [apply Hk|].
  intros link Hl opened now after. unfold connect. by rewrite Hl.
Qed.
End Dial.
Arguments Registry N : clear implicits.
Arguments Call N : clear implicits.

(** ** Over the small network *)

Definition is_comma (s : string) : bool := String.eqb s "".
#[local] Instance sim_dialer : Dialer SimNet := {|
  ServerAddr := string;
  parse_addr s := if is_comma s then Err "empty host" else Ok s;
  username s := option_map fst (split_once s "@");
  password _ := None;
  dial _ _ := Ok sim_start;
  new_inbox n := ("_INBOX.e", n);
  subscribe _ n := (Ok (), n)
|}.

Example a_list_of_servers : servers_of "nats://a:4222, nats://b:4222" = Ok ["nats://a:4222"; "nats://b:4222"].
Proof. vm_compute. reflexivity. Qed.
Example an_empty_server : servers_of "nats://a:4222," = Err "empty host".
Proof. vm_compute. reflexivity. Qed.
Example opened_link : open "nats://a:4222" = Ok sim_link.
Proof. vm_compute. reflexivity. Qed.

(** Two attempts that fail, the second after the memo, a caller in between who
    gets the answer of the first, then one that succeeds and is shared. *)
Definition four_calls : list (Call SimNet) :=
  [ {| c_url := "u"; c_now := 0; c_opened := Err "refused"; c_after := 5 |};
    {| c_url := "u"; c_now := 500; c_opened := Ok sim_link; c_after := 500 |};
    {| c_url := "u"; c_now := 1005; c_opened := Err "refused"; c_after := 1010 |};
    {| c_url := "u"; c_now := 2010; c_opened := Ok sim_link; c_after := 2011 |};
    {| c_url := "u"; c_now := 2012; c_opened := Ok sim_link; c_after := 2012 |} ].

Example four_dials : dials_of "u" (snd (dialled four_calls no_links [])) = [2010; 1005; 0].
Proof. vm_compute. reflexivity. Qed.

Lemma dials_paced_witness :
  in_turn 0 four_calls ∧
  let '(r, log) := dialled four_calls no_links [] in
  ∀ url, paced (dials_of url log) ∧
    (∀ link, links r !! url = Some link → ∀ opened now after, connect url opened now after r =
      (if up link then Ok link else Err "the connection to NATS is down", r, false)).
Proof.
  assert (in_turn 0 four_calls) as H by (cbn; repeat (split; [lia|split; [by intros r <-|]]); done).
  split; [exact H|]. exact (dials_paced four_calls 0 H).
Defined.
