(* ===== verification/Admin.v ===== *)
(** * Administration of JetStream

    The JetStream API as the runtime speaks it (core/src/bus.rs): requests with
    JSON replies that make and ask about streams and consumers, the handles of
    pull consumers, the buckets the components open.  The client library under
    it is the class [JsClient].  With what JetStream documents of those requests
    ([JsLaws]) the dead-letter stream has the operations that Letters relies
    on. *)

From stdpp Require Import base gmap list strings.
From Stdlib Require Import ZArith Lia Ascii Sorted.
From S2P Require Import Prelude Triples Text F64 Json Bus Dlq Letters Shadow Cluster Versions Concrete.
Open Scope string_scope.
Open Scope Z_scope.

Class JsClient (C : Type) := {
  js_up : C → bool;
  js_request : string → string → C → res string string * C;   (** the payload of the reply *)
  js_store : string → string → C → res string Z * C;          (** a publish and its acknowledgement *)
  js_get_raw : string → Z → C → res string StoredMessage;
  js_inbox : C → string * C;
  js_subscribe : string → C → res string () * C;
  js_publish_with_reply : string → string → string → C → res string () * C;
  js_bucket : string → C → res string () * C;                  (** the library opens a key-value bucket *)
  js_objects : string → C → res string () * C                  (** the library opens an object bucket *)
}.

(** core/src/bus.rs [Discard] *)
Inductive Discard := DiscardOld | DiscardNew.
(** core/src/bus.rs [StreamConfig] *)
Record StreamConfig : Type := {
  sc_name : string; sc_subjects : list string; sc_max_msgs : Z; sc_max_msgs_per_subject : Z; sc_max_age : Z;
  sc_discard : Discard; sc_allow_rollup : bool; sc_deny_delete : bool
}.
(** core/src/bus.rs [KvConfig] *)
Record KvConfig : Type := { kc_bucket : string; kc_history : Z; kc_max_age : Z }.
(** core/src/bus.rs [EphemeralConfig] *)
Record EphemeralConfig : Type := { ec_filter : string; ec_start_seq : option Z; ec_inactive : Z }.

(** A configuration with the server's defaults; ages in nanoseconds. *)
Definition stream_config (name : string) (subjects : list string) : StreamConfig :=
  {| sc_name := name; sc_subjects := subjects; sc_max_msgs := 0; sc_max_msgs_per_subject := 0; sc_max_age := 0;
     sc_discard := DiscardOld; sc_allow_rollup := false; sc_deny_delete := false |}.

(** core/src/bus.rs:542-556 [Puller] *)
Record PullHandle : Type := {
  ph_next : string; ph_inbox : string; ph_fault : option string; ph_owned : option (string * string)
}.
Definition PULL_REQUEST : string := quoted "{~batch~:64,~expires~:500000000,~no_wait~:true}".

Definition strings (l : list string) : Value := VArray (map VString l).

(** core/src/bus.rs [filters_of] *)
Definition filters_of (config : Value) : list string :=
  match vget "filter_subjects" config ≫= as_array with
  | Some all => omap as_str all
  | None => match vget "filter_subject" config ≫= as_str with Some one => [one] | None => [] end
  end.

Section Admin.
Context {SD : Serde} {C : Type} {JC : JsClient C}.
(** Lists of texts as [Debug] prints them. *)
Context (debug_list : list string → string).
Notation R := (sr C string).

Definition js_call {A} (f : C → res string A * C) : R A := f.
Definition sr_map_err {S E F A} (f : E → F) (m : sr S E A) : sr S F A := λ s,
  let '(r, s) := m s in (match r with Ok a => Ok a | Err e => Err (f e) | Panic => Panic | NoFuel => NoFuel end, s).

(** The text of a reply, as a document or the error it tells of. *)
Definition api_answer (payload : string) : res string Value :=
  match from_json payload with
  | None => Err "unreadable reply"
  | Some answer =>
    match vget "error" answer with
    | None => Ok answer
    | Some error => Err (default "error" (vget "description" error ≫= as_str))
    end
  end.

(** core/src/bus.rs [api] *)
Definition api (verb body : string) : R Value :=
  payload ← js_call (js_request ("$JS.API." ++ verb) body); sr_lift (api_answer payload).

(** core/src/bus.rs:740-747 [publish] *)
Definition js_publish (subject payload : string) : R Z := js_call (js_store subject payload).

(** ** Streams *)

Definition stream_body (c : StreamConfig) : Value :=
  obj ([("name", VString (sc_name c)); ("subjects", strings (sc_subjects c)); ("max_msgs", vint (sc_max_msgs c));
        ("max_msgs_per_subject", vint (sc_max_msgs_per_subject c)); ("max_age", vint (sc_max_age c));
        ("discard", VString (match sc_discard c with DiscardOld => "old" | DiscardNew => "new" end));
        ("retention", VString "limits"); ("storage", VString "file")] ++
       (if sc_allow_rollup c then [("allow_rollup_hdrs", VBool true)] else []) ++
       (if sc_deny_delete c then [("deny_delete", VBool true)] else []))%list.

(** core/src/bus.rs [add_stream] *)
Definition add_stream (c : StreamConfig) : R () :=
  _ ← api ("STREAM.CREATE." ++ sc_name c) (to_json (stream_body c)); mret ().

Definition u64_field (k : string) (v : Value) : Z := default 0 (as_u64 (vindex v k)).

(** core/src/bus.rs [stream_state] *)
Definition js_stream_state (stream : string) : R StreamState :=
  info ← api ("STREAM.INFO." ++ stream) "";
  let st := vindex info "state" in
  mret {| Letters.first_seq := u64_field "first_seq" st; Letters.last_seq := u64_field "last_seq" st; messages := u64_field "messages" st |}.

(** core/src/bus.rs [get_message] *)
Definition js_get_message (stream : string) (sequence : Z) (c : C) : res string StoredMessage := js_get_raw stream sequence c.

(** core/src/bus.rs [delete_message] *)
Definition js_delete_message (stream : string) (sequence : Z) : R () :=
  _ ← api ("STREAM.MSG.DELETE." ++ stream) (to_json (obj [("seq", vint sequence)])); mret ().

(** core/src/bus.rs [purge_stream] *)
Definition js_purge_stream (stream : string) : R Z :=
  reply ← api ("STREAM.PURGE." ++ stream) ""; mret (u64_field "purged" reply).

(** ** Consumers *)

Definition by_sequence (start_seq : option Z) (policy : string) : list (string * Value) :=
  match start_seq with
  | Some s => [("deliver_policy", VString "by_start_sequence"); ("opt_start_seq", vint s)]
  | None => [("deliver_policy", VString policy)]
  end.

(** core/src/bus.rs:841-859 [create_pull_consumer] *)
Definition consumer_config (durable : string) (filters : list string) (ack_wait : Z) (start_seq : option Z) : Value :=
  obj ([("durable_name", VString durable); ("ack_policy", VString "explicit"); ("ack_wait", vint ack_wait);
        ("replay_policy", VString "instant")] ++ by_sequence start_seq "all" ++
       match filters with [one] => [("filter_subject", VString one)] | many => [("filter_subjects", strings many)] end)%list.

Definition str_leb (a b : string) : bool := match String.compare a b with Gt => false | _ => true end.
Definition same_filters (kept asked : list string) : bool :=
  bool_decide (stable_sort str_leb kept = stable_sort str_leb asked).

(** core/src/bus.rs [create_pull_consumer] *)
Definition create_pull_consumer (stream durable : string) (filters : list string) (ack_wait : Z) (start_seq : option Z)
  : R () :=
  let body := obj [("stream_name", VString stream); ("config", consumer_config durable filters ack_wait start_seq)] in
  reply ← sr_map_err (λ e, "consumer " ++ durable ++ ": " ++ e)
            (api ("CONSUMER.DURABLE.CREATE." ++ stream ++ "." ++ durable) (to_json body));
  let kept := filters_of (vindex reply "config") in
  if same_filters kept filters then mret ()
  else sr_fail ("consumer " ++ durable ++ ": the server kept the filters " ++ debug_list (stable_sort str_leb kept) ++
                ", not " ++ debug_list (stable_sort str_leb filters) ++
                " (several `.from()` subjects need NATS 2.10 or newer)").

(** core/src/bus.rs [delete_consumer] *)
Definition delete_consumer (stream consumer : string) : R () :=
  _ ← api ("CONSUMER.DELETE." ++ stream ++ "." ++ consumer) ""; mret ().

(** core/src/bus.rs [ack_floor] *)
Definition ack_floor (stream consumer : string) : R Z :=
  info ← api ("CONSUMER.INFO." ++ stream ++ "." ++ consumer) "";
  mret (u64_field "stream_seq" (vindex info "ack_floor")).

(** core/src/bus.rs [puller] *)
Definition puller (stream consumer : string) (owned : option (string * string)) : R PullHandle :=
  inbox ← (λ c, let '(i, c) := js_inbox c in (Ok i, c));
  _ ← js_call (js_subscribe inbox);
  mret {| ph_next := "$JS.API.CONSUMER.MSG.NEXT." ++ stream ++ "." ++ consumer; ph_inbox := inbox; ph_fault := None;
          ph_owned := owned |}.

(** core/src/bus.rs [pull_durable] *)
Definition pull_durable (stream durable : string) (filter_ : option string) : R PullHandle :=
  info ← sr_map_err (λ e, "provided durable consumer doesn't exist: " ++ e)
           (api ("CONSUMER.INFO." ++ stream ++ "." ++ durable) "");
  match filter_ with
  | Some f =>
    let filters := filters_of (vindex info "config") in
    if negb (bool_decide (filters = [])) && negb (bool_decide (filters = [f])) then sr_fail "subjects do not match"
    else puller stream durable None
  | None => puller stream durable None
  end.

(** core/src/bus.rs [pull_ephemeral] *)
Definition pull_ephemeral (stream : string) (config : EphemeralConfig) : R PullHandle :=
  let consumer := obj ([("ack_policy", VString "explicit"); ("filter_subject", VString (ec_filter config));
                        ("replay_policy", VString "instant"); ("inactive_threshold", vint (ec_inactive config))] ++
                       by_sequence (ec_start_seq config) "new")%list in
  info ← api ("CONSUMER.CREATE." ++ stream) (to_json (obj [("stream_name", VString stream); ("config", consumer)]));
  match as_str (vindex info "name") with
  | None => sr_fail "the server named no consumer"
  | Some name => puller stream name (Some (stream, name))
  end.

(** What goes with the handle. *)
(** core/src/bus.rs:589-597 [Puller::drop] *)
Definition puller_drop (p : PullHandle) : R () := λ c,
  match ph_owned p with
  | Some (stream, consumer) => if js_up c then (Ok (), snd (delete_consumer stream consumer c)) else (Ok (), c)
  | None => (Ok (), c)
  end.

(** The request of a round; the fault the last one met is its error, once. *)
(** core/src/bus.rs [round] *)
Definition pull_round (p : PullHandle) : R () * PullHandle :=
  let cleared := {| ph_next := ph_next p; ph_inbox := ph_inbox p; ph_fault := None; ph_owned := ph_owned p |} in
  match ph_fault p with
  | Some fault => (sr_fail fault, cleared)
  | None =>
    (λ c, if js_up c then js_publish_with_reply (ph_next p) (ph_inbox p) PULL_REQUEST c else (Ok (), c), p)
  end.

(** ** Buckets *)

Definition tried {A} (m : R A) : R () := λ c, (Ok (), snd (m c)).
Definition opened {A} (m : R A) : R bool := λ c, let '(r, c) := m c in (Ok (is_ok r), c).

(** Whether the bucket could be opened. *)
(** core/src/bus.rs [key_value] *)
Definition key_value (config : KvConfig) : R bool :=
  _ ← tried (add_stream
    {| sc_name := "KV_" ++ kc_bucket config; sc_subjects := ["$KV." ++ kc_bucket config ++ ".>"]; sc_max_msgs := 0;
       sc_max_msgs_per_subject := Z.max (kc_history config) 1; sc_max_age := kc_max_age config;
       sc_discard := DiscardNew; sc_allow_rollup := true; sc_deny_delete := true |});
  opened (js_call (js_bucket (kc_bucket config))).

(** core/src/bus.rs [object_store] *)
Definition object_store (bucket : string) : R bool :=
  _ ← tried (add_stream
    {| sc_name := "OBJ_" ++ bucket; sc_subjects := ["$O." ++ bucket ++ ".C.>"; "$O." ++ bucket ++ ".M.>"]; sc_max_msgs := 0;
       sc_max_msgs_per_subject := 0; sc_max_age := 0; sc_discard := DiscardNew; sc_allow_rollup := true;
       sc_deny_delete := false |});
  opened (js_call (js_objects bucket)).

(** ** What the components open *)

(** core/src/cluster.rs [open_lease_store] *)
Definition open_lease_store (env : string → option string) : R bool :=
  key_value {| kc_bucket := "VEJAS_LEASES"; kc_history := 1; kc_max_age := lease_ttl env * 1000000000 |}.
(** core/src/versions.rs [open_store] *)
Definition open_version_store : R bool :=
  key_value {| kc_bucket := "VEJAS_VERSIONS"; kc_history := 64; kc_max_age := 0 |}.
(** core/src/proposals.rs [open_store] *)
Definition open_proposal_store : R bool :=
  key_value {| kc_bucket := "VEJAS_PROPOSALS"; kc_history := 64; kc_max_age := 0 |}.
(** core/src/connectors.rs [open_offset_store] *)
Definition open_offset_store : R bool :=
  key_value {| kc_bucket := "VEJAS_OFFSETS"; kc_history := 1; kc_max_age := 0 |}.
(** core/src/connectors.rs [open_state_store] *)
Definition open_state_store : R bool := object_store "VEJAS_DETECT_STATE".

Definition capped (name root : string) (max : Z) : StreamConfig :=
  {| sc_name := name; sc_subjects := [root ++ ".>"]; sc_max_msgs := max; sc_max_msgs_per_subject := 0; sc_max_age := 0;
     sc_discard := DiscardOld; sc_allow_rollup := false; sc_deny_delete := false |}.
Definition DLQ_STREAM : string := "VEJAS_DLQ".
Definition AUDIT_STREAM : string := "VEJAS_AUDIT".
(** core/src/connectors.rs [AUDIT_ROOT] *)
Definition AUDIT_ROOT : string := "vxaudit".
(** core/src/connectors.rs [ensure_dlq_stream] *)
Definition ensure_dlq_stream : R () := tried (add_stream (capped DLQ_STREAM DLQ_ROOT 100000)).
(** core/src/connectors.rs [ensure_audit_stream] *)
Definition ensure_audit_stream : R () := tried (add_stream (capped AUDIT_STREAM AUDIT_ROOT 1000000)).
(** The stream of the events themselves. *)
(** core/src/connectors.rs:95-103 [jetstream] *)
Definition ensure_stream (stream subj_root : string) : R () := tried (add_stream (stream_config stream [subj_root ++ ".>"])).

(** core/src/connectors.rs [to_audit] *)
Definition to_audit (unit : string) (record : Value) : R () :=
  _ ← ensure_audit_stream;
  _ ← js_publish (AUDIT_ROOT ++ "." ++ dlq_unit_token unit) (to_json record);
  mret ().

(** [feed] is the audit stream as a reader sees it. *)
(** core/src/connectors.rs [audit_recent] *)
Definition audit_recent (feed : Feed) (unit : string) (n : Z) : res string (list Value) :=
  rows ← hydrate_recent feed (AUDIT_ROOT ++ "." ++ dlq_unit_token unit) n;
  Ok (map snd rows).
End Admin.

(** ** What JetStream documents *)

(** The messages of each stream, what was published, and the subjects that a
    durable consumer delivers. *)
Class JsLaws (C : Type) `{Serde} {JC : JsClient C} := {
  js_letter : C → string → Z → option string;
  js_published : C → list pub;
  js_delivers : C → string → string → list string;
  js_get_raw_law st s c m : js_get_raw st s c = Ok m → sequence m = s ∧ js_letter c st s = Some (s_data m);
  js_store_law s p c : let '(r, c') := js_store s p c in
    (∀ st s', js_letter c' st s' = js_letter c st s') ∧ (∀ x, x ∈ js_published c → x ∈ js_published c') ∧
    (is_ok r = true → (s, p) ∈ js_published c');
  js_delete_law st s c :
    let '(r, c') := js_request ("$JS.API.STREAM.MSG.DELETE." ++ st) (to_json (obj [("seq", vint s)])) c in
    js_published c' = js_published c ∧ ∀ s', js_letter c' st s' = js_letter c st s' ∨ s' = s ∧ js_letter c' st s' = None;
  (** the reply to the creation of a consumer shows the consumer's configuration *)
  js_consumer_law st durable body c payload c' reply :
    js_request ("$JS.API.CONSUMER.DURABLE.CREATE." ++ st ++ "." ++ durable) body c = (Ok payload, c') →
    api_answer payload = Ok reply → js_delivers c' st durable = filters_of (vindex reply "config")
}.

Section Facts.
Context {SD : Serde} {C : Type} {JC : JsClient C} {JL : JsLaws C} (debug_list : list string → string).

(** The dead-letter stream over this client: a read leaves the stream as it is. *)
#[export] Instance js_dlq : DlqOps C := {|
  stream_state c := fst (js_stream_state DLQ_STREAM c);
  get_message s c := js_get_message DLQ_STREAM s c;
  delete_message s c := js_delete_message DLQ_STREAM s c;
  purge_stream c := js_purge_stream DLQ_STREAM c;
  Letters.js_publish s p c := js_publish s p c
|}.

Lemma api_state verb body c : snd (api verb body c) = snd (js_request ("$JS.API." ++ verb) body c).
Proof.
  unfold api, js_call, sr_lift, mbind, sr_bind.
  destruct (js_request _ body c) as [[payload|e| |] c']; try done.
Qed.

(** What Letters relies on of the dead-letter stream. *)
#[export] Instance js_dlq_laws : DlqLaws C.
Proof.
  refine {| letter c s := js_letter c DLQ_STREAM s; published := js_published |}.
  - intros s c m. apply js_get_raw_law.
  - intros s c. cbn [delete_message js_dlq]. unfold js_delete_message.
    pose proof (api_state ("STREAM.MSG.DELETE." ++ DLQ_STREAM) (to_json (obj [("seq", vint s)])) c) as Hs.
    pose proof (js_delete_law DLQ_STREAM s c) as Hl. unfold mbind, sr_bind.
    destruct (api _ _ c) as [r c'].
    cbn [snd] in Hs. subst c'. destruct (js_request _ _ c) as [r2 c2]. cbn [snd].
    by destruct r.
  - intros s p c. cbn [Letters.js_publish js_dlq]. unfold js_publish, js_call. pose proof (js_store_law s p c) as Hl.
    destruct (js_store s p c) as [r c']. destruct Hl as (? & ? & ?). by split.
Defined.

Lemma same_filters_perm kept asked : same_filters kept asked = true → kept ≡ₚ asked.
Proof.
  unfold same_filters. intros H%bool_decide_eq_true.
  rewrite <- (stable_sort_perm str_leb kept), <- (stable_sort_perm str_leb asked). by rewrite H.
Qed.

(** A consumer that was created delivers the subjects it was asked for and
    no others: when [create_pull_consumer] succeeds, the filters of the durable
    consumer on the server are the ones given, in some order; a server that
    does not know several filters, and would deliver the whole stream, makes it
    fail. *)
Theorem consumer_filters_exact stream durable filters ack_wait start_seq c c' :
  create_pull_consumer debug_list stream durable filters ack_wait start_seq c = (Ok (), c') →
  js_delivers c' stream durable ≡ₚ filters.
Proof.
  unfold create_pull_consumer, sr_map_err, mbind at 1, sr_bind at 1.
  destruct (api _ _ c) as [[reply|e| |] c1] eqn:Ea; try done.
  apply sr_bind_Ok in Ea as (payload & c2 & Hr & Ha). injection Ha as Ha <-. unfold js_call in Hr.
  destruct (same_filters _ _) eqn:Ef; [|done]. intros [= <-].
  rewrite (js_consumer_law stream durable _ c payload _ reply Hr Ha). by apply same_filters_perm.
Qed.

(** A consumer that is made for one reader goes with its handle, when the
    connection stands. *)
Lemma ephemeral_deleted stream config c p c' :
  pull_ephemeral stream config c = (Ok p, c') →
  ∃ name, ph_owned p = Some (stream, name) ∧
    ∀ c2, js_up c2 = true →
      snd (puller_drop p c2) = snd (js_request ("$JS.API." ++ "CONSUMER.DELETE." ++ stream ++ "." ++ name) "" c2).
Proof.
  unfold pull_ephemeral. intros H. apply sr_bind_Ok in H as (info & c1 & _ & H).
  destruct (as_str _) as [name|]; [|done]. unfold puller in H.
  apply sr_bind_Ok in H as (inbox & c3 & _ & H). apply sr_bind_Ok in H as ([] & c4 & _ & H). injection H as <- _.
  exists name. split; [done|]. intros c2 Hup. unfold puller_drop. cbn [ph_owned]. rewrite Hup. cbn [snd].
  rewrite <- api_state. unfold delete_consumer, mbind, sr_bind. by destruct (api _ _ c2) as [[] ?].
Qed.

(** A fault that a round met fails the next one, once. *)
Lemma fault_told_once p p1 m1 m2 p2 fault :
  ph_fault p = Some fault → pull_round p = (m1, p1) → pull_round p1 = (m2, p2) →
  (∀ c : C, m1 c = (Err fault, c)) ∧ p2 = p1 ∧ ∀ c : C, js_up c = false → m2 c = (Ok (), c).
Proof.
  intros Hf. unfold pull_round at 1. rewrite Hf. intros [= <- <-]. unfold pull_round. cbn. intros [= <- <-].
  split; [done|]. split; [done|]. intros c Hup. by rewrite Hup.
Qed.
End Facts.

(** ** A small server *)

Module FakeJs.
(** The consumers with the subjects they deliver; an old server does not know
    several filters and forgets them. *)
Record Server : Type := { consumers : gmap string (list string); told : list pub; old : bool }.

Definition fresh (old : bool) : Server := {| consumers := ∅; told := []; old := old |}.
Definition two : list string := ["vx.b"; "vx.a"].
Definition join_list (l : list string) : string := str_join ", " l.
Notation created old := (create_pull_consumer join_list "VEJAS" "detect_x" two 30000000000 None (fresh old)).

Section Server.
Context {SD : Serde} {SO : SerdeOk}.
Definition create_prefix : string := "$JS.API.CONSUMER.DURABLE.CREATE.".
Definition kept_config (old : bool) (body : string) : Value :=
  match from_json body ≫= vget "config" with
  | Some (VObject m) => VObject (if old then map_remove "filter_subjects" m else m)
  | _ => VNull
  end.
Definition request (subject body : string) (c : Server) : res string string * Server :=
  match strip_prefix subject create_prefix with
  | Some key =>
    let payload := to_json (obj [("config", kept_config (old c) body)]) in
    let kept := match api_answer payload with Ok reply => filters_of (vindex reply "config") | _ => [] end in
    (Ok payload, {| consumers := <[key := kept]> (consumers c); told := told c; old := old c |})
  | None => (Ok (to_json (obj [])), c)
  end.

#[export] Instance fake_js : JsClient Server := {|
  js_up _ := true;
  js_request := request;
  js_store s p c := (Ok 1, {| consumers := consumers c; told := (told c ++ [(s, p)])%list; old := old c |});
  js_get_raw _ _ _ := Err "no message found";
  js_inbox c := ("_INBOX.p", c);
  js_subscribe _ c := (Ok (), c);
  js_publish_with_reply _ _ _ c := (Ok (), c);
  js_bucket _ c := (Ok (), c);
  js_objects _ c := (Ok (), c)
|}.

Lemma strip_prefix_app p s : strip_prefix (p ++ s) p = Some s.
Proof. induction p as [|a p IH]; [by destruct s|]. cbn. by rewrite Ascii.eqb_refl. Qed.
Lemma request_told s b c : told (snd (request s b c)) = told c.
Proof. unfold request. by destruct (strip_prefix _ _). Qed.

#[export] Instance fake_js_laws : JsLaws Server.
Proof.
  refine {| js_letter _ _ _ := None; js_published := told;
            js_delivers c st durable := default [] (consumers c !! (st ++ "." ++ durable)) |}.
  - done.
  - intros s p c. cbn. split; [done|]. split; [intros x Hx; apply elem_of_app; by left|].
    intros _. apply elem_of_app. right. by apply list_elem_of_singleton.
  - intros st s c. pose proof (request_told ("$JS.API.STREAM.MSG.DELETE." ++ st) (to_json (obj [("seq", vint s)])) c) as H.
    cbn [js_request fake_js]. destruct (request _ _ c) as [r c']. split; [done|]. by left.
  - intros st durable body c payload c' reply Hr Ha. unfold js_request, fake_js, request in Hr.
    change ("$JS.API.CONSUMER.DURABLE.CREATE." ++ st ++ "." ++ durable) with (create_prefix ++ (st ++ "." ++ durable)) in Hr.
    rewrite strip_prefix_app in Hr. injection Hr as <- <-. cbn [consumers]. rewrite lookup_insert_eq.
    by rewrite Ha.
Defined.

Lemma request_create key m (old : bool) :
  value_ok_at 126 (VObject m) = true → value_ok (VObject (if old then map_remove "filter_subjects" m else m)) = true →
  let body := obj [("stream_name", VString "VEJAS"); ("config", VObject m)] in
  ∃ c', request (create_prefix ++ key) (to_json body) (fresh old) =
    (Ok (to_json (obj [("config", VObject (if old then map_remove "filter_subjects" m else m))])), c').
Proof.
  intros Hm Hk body. unfold request. rewrite strip_prefix_app. unfold kept_config.
  rewrite serde_roundtrip by (change (value_ok_at 126 (VObject m) && true = true); by rewrite Hm). by eexists.
Qed.

Definition kept_fields (old : bool) : smap Value :=
  match consumer_config "detect_x" two 30000000000 None with
  | VObject m => if old then map_remove "filter_subjects" m else m
  | _ => []
  end.

Lemma created_outcome old : is_ok (fst (created old)) = same_filters (filters_of (VObject (kept_fields old))) two.
Proof.
  unfold create_pull_consumer, sr_map_err, api, js_call, mbind, sr_bind. cbn [js_request fake_js].
  destruct (consumer_config "detect_x" two 30000000000 None) as [| | | | |m] eqn:Ec; try (vm_compute in Ec; congruence).
  assert (m = kept_fields false) as Hm by (unfold kept_fields; by rewrite Ec).
  destruct (request_create "VEJAS.detect_x" m old) as [c' Hr];
    [subst m; vm_compute; reflexivity|subst m; by destruct old; vm_compute|].
  change ("$JS.API." ++ "CONSUMER.DURABLE.CREATE." ++ "VEJAS" ++ "." ++ "detect_x") with (create_prefix ++ "VEJAS.detect_x").
  rewrite Hr. cbn [sr_lift]. unfold api_answer.
  rewrite serde_roundtrip by (subst m; by destruct old; vm_compute).
  replace (VObject (if old then map_remove "filter_subjects" m else m)) with (VObject (kept_fields old))
    by (unfold kept_fields; rewrite Ec; by destruct old).
  destruct old; vm_compute; reflexivity.
Qed.

Lemma created_ok old : same_filters (filters_of (VObject (kept_fields old))) two = true → ∃ c', created old = (Ok (), c').
Proof.
  rewrite <- created_outcome. intros H. destruct (created old) as [[[]|e| |] c']; cbn in H; try congruence. by exists c'.
Qed.
End Server.

Lemma kept_two : same_filters (filters_of (VObject (kept_fields false))) two = true.
Proof. vm_compute. reflexivity. Qed.

Lemma consumer_filters_exact_witness :
  ∃ c', created false = (Ok (), c') ∧ js_delivers c' "VEJAS" "detect_x" ≡ₚ two.
Proof.
  destruct (created_ok false kept_two) as [c' E]. exists c'. split; [exact E|].
  exact (consumer_filters_exact join_list "VEJAS" "detect_x" two 30000000000 None (fresh false) c' E).
Defined.

Lemma old_server_refused : is_ok (fst (created true)) = false.
Proof. rewrite created_outcome. vm_compute. reflexivity. Qed.
End FakeJs.
