(* ===== verification/BridgeMain.v ===== *)
(** * The bridges as processes

    What the MQ and AMQP bridges do from their configuration to their loop
    (connectors/mq/src/main.rs, connectors/amqp/src/main.rs): the lease that a
    source takes before it reads, the consumer that a sink declares, the exit
    code.  The bus is the client of Admin, the queue the client of IbmMq, Mqi
    and Amqp; what is opened is an argument where it is the library's. *)

From stdpp Require Import base gmap list strings.
From Stdlib Require Import ZArith Lia Ascii.
From S2P Require Import Prelude Triples Text F64 Json Store Bus Cluster Admin IbmMq Amqp BridgeLease Concrete.
Open Scope string_scope.
Open Scope Z_scope.

(** How a process goes on: it ends with a code, or it is in its loop, which a
    source leaves when the flag it asks is down. *)
Inductive Plan : Type :=
| Quits (code : Z)
| Reads (held : option Lease) (alive : nat → bool)
| Writes (consumer : PullHandle).

(** The code of a process whose loop has ended. *)
(** connectors/mq/src/main.rs:254-261 [main] *)
Definition loop_code (r : res string ()) : Z := match r with Ok _ => 0 | _ => 1 end.

Section Bridges.
Context {SD : Serde} {C : Type} {JC : JsClient C} {K : Type} {KO : KvOps K}.
Context (env : string → option string) (debug_list : list string → string).
(** The signal flag at each asking; whether the guard was found lost at it. *)
Context (alive : nat → bool) (lost : Lease → nat → bool).
(** The store behind the lease bucket when it opens, and the process id. *)
Context (bucket : K) (pid : Z).

(** What a source holds: no lease, asked for or for want of a bucket; a lease;
    or nothing, because it was told to stop while it waited. *)
Inductive Hold := Unleased | Leased (l : Lease) | StoppedWaiting.

(** [waits] bounds how often the lease is tried. *)
(** connectors/mq/src/main.rs:217-235 [main] *)
Definition take_lease (competing : bool) (key : string) (waits : nat) (c : C) : res Empty_set (Hold * K) * C :=
  if competing then (Ok (Unleased, bucket), c)
  else
    match key_value {| kc_bucket := "VEJAS_LEASES"; kc_history := 1; kc_max_age := bridge_lease_ttl env |} c with
    | (Ok true, c) =>
      match bridge_acquire alive key (bridge_instance_id env pid) waits 0 bucket with
      | (Ok (Some l), store) => (Ok (Leased l, store), c)
      | (Ok None, store) => (Ok (StoppedWaiting, store), c)
      | (r, _) => (match r with Err e => Err e | Panic => Panic | _ => NoFuel end, c)
      end
    | (_, c) => (Ok (Unleased, bucket), c)
    end.

(** connectors/mq/src/main.rs:237-238 [main] *)
Definition source_alive (held : option Lease) (n : nat) : bool :=
  alive n && match held with Some l => negb (lost l n) | None => true end.

Definition reads_with (h : Hold) : Plan :=
  match h with
  | Unleased => Reads None (source_alive None)
  | Leased l => Reads (Some l) (source_alive (Some l))
  | StoppedWaiting => Quits 0
  end.

(** A sink declares its consumer, whatever comes of it, and binds to it. *)
(** connectors/amqp/src/main.rs:300-306 [run_sink_amqp] *)
Definition bind_consumer (stream durable subject : string) : sr C string PullHandle :=
  _ ← tried (create_pull_consumer debug_list stream durable [subject] 0 None);
  pull_durable stream durable (Some subject).

(** [connect] opens the bus. *)
(** connectors/mq/src/main.rs [main] *)
Definition mq_main (connect : string → res string C) (open_queue : MqConfig → bool → res string ()) (waits : nat)
  : res Empty_set Plan :=
  match load_config env with
  | Ok cfg =>
    match connect (mc_nats_url cfg) with
    | Ok c =>
      if String.eqb (mc_mode cfg) "source" then
        h ← fst (take_lease (mc_competing cfg) (source_key "mq_source_" (mc_queue cfg)) waits c);
        match fst h, open_queue cfg false with
        | StoppedWaiting, _ => Ok (Quits 0)
        | h, Ok _ => Ok (reads_with h)
        | _, _ => Ok (Quits 1)
        end
      else
        let '(sub, _) := bind_consumer (env_set_or env "VEJAS_STREAM" "VEJAS") (mc_durable cfg) (mc_subject cfg) c in
        match open_queue cfg true, sub with
        | Ok _, Ok sub => Ok (Writes sub)
        | _, _ => Ok (Quits 1)
        end
    | _ => Ok (Quits 1)
    end
  | _ => Ok (Quits 2)
  end.

(** The steps on the channel of an AMQP broker. *)
Context (queue_declare basic_consume enable_confirms listen_confirms : res string ()).

(** connectors/amqp/src/main.rs [run_source_amqp] *)
Definition open_source_amqp : res string () := _ ← queue_declare; basic_consume.
(** connectors/amqp/src/main.rs [run_sink_amqp] *)
Definition open_sink_amqp (stream subject durable : string) (c : C) : res string PullHandle :=
  _ ← enable_confirms; _ ← listen_confirms; fst (bind_consumer stream durable subject c).

(** connectors/amqp/src/main.rs [main] *)
Definition amqp_main (connect : string → res string C) (open_tls insecure_open : string → res string ())
    (open_channel : res string ()) (waits : nat) : res Empty_set Plan :=
  match amqp_config env with
  | Ok cfg =>
    match connect (aq_nats_url cfg),
          (if starts_with (aq_url cfg) "amqps://" then open_tls (aq_url cfg) else insecure_open (aq_url cfg)),
          open_channel with
    | Ok c, Ok _, Ok _ =>
      if String.eqb (aq_mode cfg) "source" then
        h ← fst (take_lease (aq_competing cfg) (source_key "amqp_source_" (aq_queue cfg)) waits c);
        match fst h, open_source_amqp with
        | StoppedWaiting, _ => Ok (Quits 0)
        | h, Ok _ => Ok (reads_with h)
        | _, _ => Ok (Quits 1)
        end
      else
        match open_sink_amqp (aq_stream cfg) (aq_subject cfg) (aq_durable cfg) c with
        | Ok sub => Ok (Writes sub)
        | _ => Ok (Quits 1)
        end
    | _, _, _ => Ok (Quits 1)
    end
  | _ => Ok (Quits 2)
  end.

(** ** A source reads under its lease *)

Lemma bridge_acquire_holds key id n asked (store : K) l store' :
  bridge_acquire alive key id n asked store = (Ok (Some l), store') →
  ∃ before rev, kv_create key id before = (Ok rev, store') ∧
    l = {| le_key := key; le_rev := rev; le_stop_renew := false; le_lost := false |}.
Proof.
  revert asked store. induction n as [|n IH]; intros asked store; cbn; [done|].
  destruct (alive asked); [|done]. cbn. unfold bridge_try.
  destruct (kv_create key id store) as [[rev|e| |] s1] eqn:E; try (by apply IH).
  intros [= <- <-]. by exists store, rev.
Qed.

(** How the key of the lease was taken, or why the source reads without. *)
Definition reads_rightly (competing : bool) (key : string) (held : option Lease) : Prop :=
  match held with
  | Some l => ∃ before rev after, kv_create key (bridge_instance_id env pid) before = (Ok rev, after) ∧ le_key l = key ∧ le_rev l = rev
  | None => competing = true ∨
      ∃ c : C, fst (key_value {| kc_bucket := "VEJAS_LEASES"; kc_history := 1; kc_max_age := bridge_lease_ttl env |} c) ≠ Ok true
  end.

Lemma take_lease_rightly competing key waits c h store :
  fst (take_lease competing key waits c) = Ok (h, store) →
  match h with
  | Unleased => reads_rightly competing key None
  | Leased l => reads_rightly competing key (Some l)
  | StoppedWaiting => True
  end.
Proof.
  unfold take_lease. destruct competing; [intros [= <- <-]; by left|].
  destruct (key_value _ c) as [r c1] eqn:Ek.
  destruct r as [[|]|e| |]; cbn;
    try (intros [= <- <-]; right; exists c; by rewrite Ek).
  destruct (bridge_acquire _ _ _ _ _ _) as [[[l|]|e| |] s1] eqn:Ea; cbn; try done; intros [= <- <-]; [|done].
  apply bridge_acquire_holds in Ea as (before & rev & E & ->). by exists before, rev, s1.
Qed.

(** A source of either bridge reads its queue only after it created the
    key of its lease in the shared bucket, unless it was configured to compete
    or the bucket could not be opened; and the flag its loop asks goes down
    with the signal and with the loss of the lease. *)
Theorem bridge_reads_leased connect open_queue open_tls insecure_open open_channel waits held flag :
  mq_main connect open_queue waits = Ok (Reads held flag) ∨
  amqp_main connect open_tls insecure_open open_channel waits = Ok (Reads held flag) →
  ((∃ cfg, load_config env = Ok cfg ∧ reads_rightly (mc_competing cfg) (source_key "mq_source_" (mc_queue cfg)) held) ∨
   (∃ cfg, amqp_config env = Ok cfg ∧ reads_rightly (aq_competing cfg) (source_key "amqp_source_" (aq_queue cfg)) held)) ∧
  ∀ n, flag n = true → alive n = true ∧ ∀ l, held = Some l → lost l n = false.
Proof.
  assert (∀ h, reads_with h = Reads held flag → h ≠ StoppedWaiting ∧ flag = source_alive held ∧
    (h = Unleased ∧ held = None ∨ ∃ l, h = Leased l ∧ held = Some l)) as Hplan.
  { intros [|l|]; cbn; intros [= <- <-]; split; try done; split; try done; [by left|right; by exists l]. }
  assert (∀ n, source_alive held n = true → alive n = true ∧ ∀ l, held = Some l → lost l n = false) as Halive.
  { intros n [Ha Hl]%andb_true_iff. split; [done|]. intros l ->. by apply negb_true_iff. }
  assert (∀ competing key c h store, fst (take_lease competing key waits c) = Ok (h, store) →
    reads_with h = Reads held flag → reads_rightly competing key held ∧
    ∀ n, flag n = true → alive n = true ∧ ∀ l, held = Some l → lost l n = false) as Hmain.
  { intros competing key c h store Ht Hr. destruct (Hplan _ Hr) as (_ & -> & Hh). split; [|exact Halive].
    apply take_lease_rightly in Ht. destruct Hh as [[-> ->]|(l & -> & ->)]; exact Ht. }
  intros [H|H].
  - unfold mq_main in H. destruct (load_config env) as [cfg|e| |]; try done.
    destruct (connect _) as [c|e| |]; try done. destruct (String.eqb _ _).
    + apply bind_Ok in H as ([h store] & Ht & H). cbn [fst] in H.
      assert (reads_with h = Reads held flag) as Hr.
      { destruct h, (open_queue cfg false); congruence. }
      destruct (Hmain _ _ _ _ _ Ht Hr) as [Hok Hflag]. split; [|done]. left. by exists cfg.
    + destruct (bind_consumer _ _ _ c) as [sub c2]. by destruct (open_queue cfg true), sub.
  - unfold amqp_main in H. destruct (amqp_config env) as [cfg|e| |]; try done.
    destruct (connect _) as [c|e| |]; try done. destruct (if starts_with _ _ then _ else _); try done.
    destruct open_channel; try done. destruct (String.eqb _ _).
    + apply bind_Ok in H as ([h store] & Ht & H). cbn [fst] in H.
      assert (reads_with h = Reads held flag) as Hr.
      { destruct h, open_source_amqp; congruence. }
      destruct (Hmain _ _ _ _ _ Ht Hr) as [Hok Hflag]. split; [|done]. right. by exists cfg.
    + by destruct (open_sink_amqp _ _ _ c).
Qed.
End Bridges.

(** ** A bridge to a queue manager *)

Import FakeJs.
Definition demo_env (k : string) : option string :=
  match k with
  | "VEJAS_MQ_MODE" => Some "source"
  | "VEJAS_MQ_QUEUE" => Some "DEV.QUEUE.1"
  | "VEJAS_MQ_SUBJECT" => Some "vx.q"
  | _ => None
  end.
Definition demo_main : res Empty_set Plan :=
  mq_main demo_env (str_join ", ") (λ n, (n <? 5)%nat) (λ _ n, (3 <=? n)%nat) empty_kv 7
    (λ _, Ok (FakeJs.fresh false)) (λ _ _, Ok ()) 10.
Definition demo_lease : Lease := {| le_key := "mq_source_DEV_QUEUE_1"; le_rev := 1; le_stop_renew := false; le_lost := false |}.

Lemma demo_reads : ∃ flag, demo_main = Ok (Reads (Some demo_lease) flag) ∧ map flag (seq 0 6) = [true; true; true; false; false; false].
Proof. eexists. split; [vm_compute; reflexivity|vm_compute; reflexivity]. Qed.

Lemma bridge_reads_leased_witness :
  ∃ flag, demo_main = Ok (Reads (Some demo_lease) flag) ∧
  ((∃ cfg, load_config demo_env = Ok cfg ∧
      reads_rightly (C := FakeJs.Server) (K := MapKv) demo_env 7 (mc_competing cfg)
        (source_key "mq_source_" (mc_queue cfg)) (Some demo_lease)) ∨
   (∃ cfg, amqp_config demo_env = Ok cfg ∧
      reads_rightly (C := FakeJs.Server) (K := MapKv) demo_env 7 (aq_competing cfg)
        (source_key "amqp_source_" (aq_queue cfg)) (Some demo_lease))) ∧
  ∀ n, flag n = true → (n <? 5)%nat = true ∧ ∀ l, Some demo_lease = Some l → (3 <=? n)%nat = false.
Proof.
  destruct demo_reads as (flag & E & _). exists flag. split; [exact E|].
  exact (bridge_reads_leased demo_env (str_join ", ") (λ n, (n <? 5)%nat) (λ _ n, (3 <=? n)%nat) empty_kv 7
    (Ok ()) (Ok ()) (Ok ()) (Ok ()) (λ _, Ok (FakeJs.fresh false)) (λ _ _, Ok ()) (λ _, Ok ()) (λ _, Ok ()) (Ok ())
    10 (Some demo_lease) flag (or_introl E)).
Defined.
