(* ===== verification/Reloads.v ===== *)
(** * Reloads that interleave

    A reload (core/src/main.rs) takes the registry's lock for each of its parts
    and not for the whole, and every thread that serves a request may reload.
    Here a reload is the sequence of those parts: it scans, it stops what is
    gone and looks at what is left, and for each unit it decides, with a stop,
    and starts.  Threads take turns part by part. *)

From stdpp Require Import base gmap sets list strings relations.
From Stdlib Require Import ZArith Lia Ascii.
From S2P Require Import Prelude Text F64 Json Secrets Versions Traces Project Registry.
Open Scope string_scope.
Open Scope Z_scope.

(** Where a thread is in its reload; a reload that is done has its counts. *)
Inductive At : Type :=
| Scanned (wanted : gmap string Spec)
| Deciding (current : gmap string (bool * Z)) (todo : list (string * Spec)) (started stopped : Z)
| Starting (spec : Spec) (current : gmap string (bool * Z)) (todo : list (string * Spec)) (started stopped : Z)
| Reloaded (started stopped : Z).

Section Reloads.
Context (spawns : string → bool) (no_thread : string).
Notation start_proc := (start_proc spawns no_thread).

(** One part of a reload, on the registry as it is at that time. *)
(** core/src/main.rs [reload] *)
Definition part (a : At) (u : Units) : option (At * Units) :=
  match a with
  | Scanned wanted =>
    let '(current, stopped, u) := reload_stop wanted u in
    Some (Deciding current (map_to_list wanted) 0 stopped, u)
  | Deciding current [] started stopped => Some (Reloaded started stopped, u)
  | Deciding current ((name, spec) :: todo) started stopped =>
    let '(start, stop) := reload_verdict (current !! name) spec in
    let u := if (stop : bool) then stop_unit name u else u in
    let stopped := if (stop : bool) then stopped + 1 else stopped in
    Some (if (start : bool) then Starting spec current todo started stopped else Deciding current todo started stopped, u)
  | Starting spec current todo started stopped => Some (Deciding current todo (started + 1) stopped, start_proc spec u)
  | Reloaded _ _ => None
  end.

(** The registry and the reloads under way. *)
Record World : Type := { w_units : Units; w_threads : gmap nat At }.

(** A turn: a thread begins a reload with what it scanned, goes on by a part, or
    ends. *)
Inductive turn (w : World) : World → Prop :=
| t_begin i specs : w_threads w !! i = None →
    turn w {| w_units := w_units w; w_threads := <[i := Scanned (wanted_of specs)]> (w_threads w) |}
| t_part i a a' u' : w_threads w !! i = Some a → part a (w_units w) = Some (a', u') →
    turn w {| w_units := u'; w_threads := <[i := a']> (w_threads w) |}
| t_end i started stopped : w_threads w !! i = Some (Reloaded started stopped) →
    turn w {| w_units := w_units w; w_threads := delete i (w_threads w) |}.

(** ** A reload of its own *)

(** The parts of one reload with none of another between. *)
Inductive parts : At * Units → At * Units → Prop :=
| parts_done s : parts s s
| parts_next a u a1 u1 s : part a u = Some (a1, u1) → parts (a1, u1) s → parts (a, u) s.

Lemma parts_trans s1 s2 s3 : parts s1 s2 → parts s2 s3 → parts s1 s3.
Proof. induction 1 as [s|a u a1 u1 s H _ IH]; [done|]. intros H3. eapply parts_next; [exact H|auto]. Qed.

Lemma parts_start current todo : ∀ started stopped u,
  let '(started', stopped', u') := reload_start spawns no_thread current todo started stopped u in
  parts (Deciding current todo started stopped, u) (Reloaded started' stopped', u').
Proof.
  induction todo as [|[name spec] todo IH]; intros started stopped u; cbn [reload_start].
  { eapply parts_next; [done|apply parts_done]. }
  destruct (reload_verdict (current !! name) spec) as [start stop] eqn:Ev.
  specialize (IH (if start then started + 1 else started) (if stop then stopped + 1 else stopped)
    (if start then start_proc spec (if stop then stop_unit name u else u) else if stop then stop_unit name u else u)).
  destruct (reload_start _ _ _ todo _ _ _) as [[r1 r2] u'].
  eapply parts_next; [cbn; by rewrite Ev|]. destruct start; [|exact IH].
  eapply parts_next; [done|exact IH].
Qed.

Lemma parts_reload specs u :
  let wanted := wanted_of specs in
  let '(current, stopped, u1) := reload_stop wanted u in
  let '(started, stopped, u') := reload_start spawns no_thread current (map_to_list wanted) 0 stopped u1 in
  parts (Scanned wanted, u) (Reloaded started stopped, u').
Proof.
  cbn zeta. destruct (reload_stop (wanted_of specs) u) as [[current stopped] u1] eqn:Es.
  pose proof (parts_start current (map_to_list (wanted_of specs)) 0 stopped u1) as H.
  destruct (reload_start _ _ _ _ _ _ _) as [[r1 r2] u']. eapply parts_next; [|exact H]. cbn [part]. by rewrite Es.
Qed.

(** ** What no interleaving breaks *)

Lemma stop_unit_safe n u : registry_ok u → registry_ok (stop_unit n u).
Proof. intros Hr. apply (stop_unit_ok (orphan u)). by apply ok_but_orphans. Qed.

Lemma stop_all_safe ns u : registry_ok u → registry_ok (fold_left (λ u n, stop_unit n u) ns u).
Proof. intros Hr. apply (stop_all_of "" spawns (orphan u) ns "" u). by apply ok_but_orphans. Qed.

Lemma start_proc_safe spec u : registry_ok u → registry_ok (start_proc spec u).
Proof.
  intros Hr n i. cbn. intros [[<- <-]|[_ H]]%lookup_insert_Some.
  - eexists. rewrite lookup_app_r, Nat.sub_diag by lia. by cbn.
  - destruct (Hr n i H) as (h & Hi & Hn). exists h. split; [|done]. by apply lookup_app_l_Some.
Qed.

Lemma part_safe a u a' u' : part a u = Some (a', u') → registry_ok u → registry_ok u'.
Proof.
  intros H Hu. destruct a as [wanted|current [|[name spec] todo] started stopped|spec current todo started stopped|x y];
    cbn in H; try done.
  - destruct (reload_stop wanted u) as [[current stopped] u1] eqn:Es. injection H as _ <-.
    unfold reload_stop in Es. injection Es as _ _ <-. by apply stop_all_safe.
  - by injection H as _ <-.
  - destruct (reload_verdict _ _) as [start stop]. injection H as _ <-. destruct stop; [|done].
    by apply stop_unit_safe.
  - injection H as _ <-. by apply start_proc_safe.
Qed.

Lemma turns_safe w w' : rtc turn w w' → registry_ok (w_units w) → registry_ok (w_units w').
Proof.
  induction 1 as [w|w w1 w2 Ht _ IH]; [done|]. intros Hok. apply IH.
  destruct Ht as [i specs _|i a a' u' _ Hp|i started stopped _]; [done| |done]. by eapply part_safe.
Qed.


(** ** Schedules *)

(** Whose turn it is, and for what. *)
Inductive Move := Begin (i : nat) (specs : list Spec) | Go (i : nat) | Finish (i : nat).
Definition take (m : Move) (w : World) : option World :=
  match m with
  | Begin i specs =>
    match w_threads w !! i with
    | None => Some {| w_units := w_units w; w_threads := <[i := Scanned (wanted_of specs)]> (w_threads w) |}
    | Some _ => None
    end
  | Go i =>
    a ← w_threads w !! i; '(a', u') ← part a (w_units w);
    Some {| w_units := u'; w_threads := <[i := a']> (w_threads w) |}
  | Finish i =>
    match w_threads w !! i with
    | Some (Reloaded _ _) => Some {| w_units := w_units w; w_threads := delete i (w_threads w) |}
    | _ => None
    end
  end.
Fixpoint schedule (ms : list Move) (w : World) : option World :=
  match ms with [] => Some w | m :: ms => w ← take m w; schedule ms w end.

Lemma take_turn m w w' : take m w = Some w' → turn w w'.
Proof.
  destruct m as [i specs|i|i]; cbn.
  - destruct (w_threads w !! i) eqn:E; [done|]. intros [= <-]. by constructor.
  - destruct (w_threads w !! i) as [a|] eqn:E; [|done]. cbn. destruct (part a (w_units w)) as [[a' u']|] eqn:Ep; [|done].
    cbn. intros [= <-]. by eapply t_part.
  - destruct (w_threads w !! i) as [[]|] eqn:E; try done. intros [= <-]. by eapply t_end.
Qed.
Lemma schedule_turns ms w w' : schedule ms w = Some w' → rtc turn w w'.
Proof.
  revert w. induction ms as [|m ms IH]; intros w; cbn; [by intros [= <-]|].
  destruct (take m w) as [w1|] eqn:E; [|done]. cbn. intros H. eapply rtc_l; [by eapply take_turn|by apply IH].
Qed.

End Reloads.

(** ** Two reloads at once *)

(** Two threads that reload a project with one unit, each looking before either
    starts it: the unit runs twice, once out of reach. *)
Definition no_world : World := {| w_units := no_units; w_threads := ∅ |}.
Definition race : list Move :=
  [Begin 1 [flow_a]; Begin 2 [flow_a]; Go 1; Go 2; Go 1; Go 1; Go 1; Go 2; Go 2; Go 2; Finish 1; Finish 2].
Definition raced : World := default no_world (schedule up "" race no_world).

Lemma raced_run : schedule up "" race no_world = Some raced.
Proof.
  assert (match schedule up "" race no_world with Some _ => true | None => false end = true) as H
    by (vm_compute; reflexivity). unfold raced.
  by destruct (schedule up "" race no_world).
Qed.
Lemma orphan_intro u i :
  option_map h_stop (handles u !! i) = Some false →
  forallb (λ p, negb (Nat.eqb p.2 i)) (map_to_list (registry u)) = true → orphan u i.
Proof.
  unfold orphan. destruct (handles u !! i) as [h|] eqn:E; [|done]. intros [= H] Hr. exists h. split; [done|]. split; [done|].
  intros n Hn%elem_of_map_to_list%list_elem_of_In. rewrite forallb_forall in Hr.
  specialize (Hr _ Hn). cbn in Hr. by rewrite Nat.eqb_refl in Hr.
Qed.
Lemma two_reloads_orphan : rtc (turn up "") no_world raced ∧ orphan (w_units raced) 0.
Proof.
  split; [apply (schedule_turns _ _ race), raced_run|]. apply orphan_intro; vm_compute; reflexivity.
Qed.

