(* ===== verification/Uplink.v ===== *)
(** * The loop of the control channel

    One connection of the channel (core/src/control.rs): the state pushed at its
    cadence, the commands served in between, and the delays between
    connections. *)

From stdpp Require Import base gmap list strings.
From Stdlib Require Import ZArith Lia Ascii.
From S2P Require Import Prelude Text F64 Json Syntax Analysis Secrets Eval EvalFacts Concrete RunProps Traces Connect Project Registry Ops Actions Supervise Control.
Open Scope string_scope.
Open Scope Z_scope.

(** A turn: the clock in milliseconds when it asks whether a status is due and
    after it pushed one, what the subscription gave within half a second, and
    the time of day. *)
Record Turn : Type := { tn_clock : Z; tn_pushed : Z; tn_got : option string; tn_now : Z }.

Inductive Sent : Type :=
| Status (at_ : Z) (payload : string)
| Echo (subject payload : string)
| Reply (payload : string).

Section Uplink.
Context {SD : Serde} {CT : CaseTables} {FL : FloatLib}.
Context (env : string → option string) (root : string) (canonicalize : string → option string).
Context (why : view_err + verr → string) (version : string).
Notation serve := (serve_command env root canonicalize why version).

(** The tenant, when the runtime names one; without one there is no channel. *)
(** core/src/control.rs [start] *)
Definition tenant_of : option string :=
  match env "VEJAS_TENANT" with Some t => if String.eqb t "" then None else Some t | None => None end.

(** In seconds. *)
(** core/src/control.rs:44-46 [supervise] *)
Definition status_every : Z := Z.max (default 60 (env "VEJAS_STATUS_SECS" ≫= parse_u64)) 5.

(** core/src/control.rs:65-71 [supervise] *)
Definition push_status (tenant : string) : Prog string :=
  u ← call UnitTable;
  now ← call Now;
  Ret (to_json (VObject (status_payload env version u tenant now))).

(** The turns of a connection while the runtime runs; [last] is when a status
    left last. *)
(** core/src/control.rs:60-97 [supervise] *)
Fixpoint session (tenant : string) (turns : list Turn) (last : Z) (t : Traces) : Prog (list Sent * Traces) :=
  match turns with
  | [] => Ret ([], t)
  | turn :: turns =>
    '(pushed, last) ← (if status_every * 1000 <=? tn_clock turn - last
                       then payload ← push_status tenant; Ret ([Status (tn_pushed turn) payload], tn_pushed turn)
                       else Ret ([], last));
    '(served, t) ← match tn_got turn with
                   | Some data =>
                     s ← serve tenant data (tn_now turn) t;
                     Ret ([Echo (fst (echo s)) (snd (echo s)); Reply (reply s)], local_trace s)
                   | None => Ret ([], t)
                   end;
    '(rest, t) ← session tenant turns last t;
    Ret ((pushed ++ served ++ rest)%list, t)
  end.

(** A connection that was opened at [clock]: the first status leaves at once. *)
(** core/src/control.rs:53-60 [supervise] *)
Definition connection (tenant : string) (clock : Z) (turns : list Turn) (t : Traces) : Prog (list Sent * Traces) :=
  session tenant turns (clock - status_every * 1000) t.

(** The seconds slept after each connection that ended with an error; one that
    ended without was told to stop. *)
(** core/src/control.rs:50-55,98-104 [supervise] *)
Fixpoint control_delays (attempts : list (res string ())) (delay : Z) : list Z :=
  match attempts with
  | Err _ :: attempts => delay :: control_delays attempts (next_delay delay)
  | _ => []
  end.

(** ** In step and in time *)

(** The clock of the turns only goes forward. *)
Fixpoint forward (clock : Z) (turns : list Turn) : Prop :=
  match turns with
  | [] => True
  | turn :: turns => clock <= tn_clock turn <= tn_pushed turn ∧ forward (tn_pushed turn) turns
  end.

Definition status_times (l : list Sent) : list Z :=
  omap (λ s, match s with Status at_ _ => Some at_ | _ => None end) l.
Definition replies (l : list Sent) : list string :=
  omap (λ s, match s with Reply p => Some p | _ => None end) l.
Definition requests (turns : list Turn) : list string := omap tn_got turns.

Fixpoint paced (last : Z) (times : list Z) : Prop :=
  match times with
  | [] => True
  | at_ :: times => last + status_every * 1000 <= at_ ∧ paced at_ times
  end.

Definition request_of (data : string) : Value := default VNull (if valid_utf8 data then from_json data else None).
(** A reply is to the request with its id. *)
Definition answers (data rep : string) : Prop :=
  ∃ v, rep = to_json v ∧ vindex v "id" = VString (vstr_or "" (request_of data) "id").

Lemma serve_answers tenant data now t :
  wp (@anything) (λ _ o, operable o = true) (λ s, answers data (reply s)) (serve tenant data now t).
Proof.
  unfold serve_command. cbv zeta. change (@mbind Prog _ ?A ?B ?f ?m) with (prog_bind f m). apply wp_bind.
  eapply wp_mono; [|exact (proj1 (channel_closed env root canonicalize why version _))].
  intros [rep summary] Hid. cbn [wp fst] in *. by exists rep.
Qed.

Lemma push_operable tenant : wp (@anything) (λ _ o, operable o = true) (λ _, True) (push_status tenant).
Proof. by repeat split. Qed.

Lemma session_ok tenant turns : ∀ last clock t, forward clock turns → last <= clock →
  wp (@anything) (λ _ o, operable o = true)
    (λ r, Forall2 answers (requests turns) (replies (fst r)) ∧ paced last (status_times (fst r)) ∧
          ∀ turn rest, turns = turn :: rest → last + status_every * 1000 <= tn_clock turn →
            ∃ payload later, fst r = Status (tn_pushed turn) payload :: later)
    (session tenant turns last t).
Proof.
  induction turns as [|turn turns IH]; intros last clock t Hf Hl; cbn [session]; [by repeat split|].
  destruct Hf as (Hc & Hf). change (@mbind Prog _ ?A ?B ?f ?m) with (prog_bind f m). apply wp_bind.
  apply (wp_mono _ _ (λ pl : list Sent * Z, snd pl <= tn_pushed turn ∧ replies (fst pl) = [] ∧
    (∀ times, paced (snd pl) times → paced last (status_times (fst pl) ++ times)%list) ∧
    (last + status_every * 1000 <= tn_clock turn → ∃ payload, fst pl = [Status (tn_pushed turn) payload]))).
  2:{ destruct (Z.leb_spec (status_every * 1000) (tn_clock turn - last)) as [Hd|Hd].
      - apply wp_bind. eapply wp_mono; [|apply push_operable]. intros payload _. cbn. split; [lia|]. split; [done|]. split.
        + intros times Ht. split; [lia|exact Ht].
        + intros _. by exists payload.
      - cbn. split; [lia|]. split; [done|]. split; [done|]. lia. }
  intros [pushed last'] (Hl' & Hr & Hp & Hfirst). cbn [fst snd] in *. apply wp_bind.
  apply (wp_mono _ _ (λ sv : list Sent * Traces, status_times (fst sv) = [] ∧
    ∀ reqs reps, Forall2 answers reqs reps →
      Forall2 answers (from_option (λ d, d :: reqs) reqs (tn_got turn)) (replies (fst sv) ++ reps)%list)).
  2:{ destruct (tn_got turn) as [data|]; [|by split]. apply wp_bind. eapply wp_mono; [|apply serve_answers].
      intros s Ha. cbn. split; [done|]. intros reqs reps H. by constructor. }
  intros [served t'] [Hs Ha]. cbn [fst snd] in *. apply wp_bind.
  eapply wp_mono; [|exact (IH last' (tn_pushed turn) t' Hf Hl')]. intros [rest t2] (H1 & H2 & _). cbn [wp fst] in *. split; [|split].
  - unfold replies in *. rewrite !omap_app, Hr. cbn [requests omap list_omap]. specialize (Ha _ _ H1).
    unfold requests. cbn. by destruct (tn_got turn).
  - unfold status_times in *. rewrite !omap_app, Hs. by apply Hp.
  - intros ? ? [= <- <-] Hd. destruct (Hfirst Hd) as [payload ->]. by eexists _, _.
Qed.

End Uplink.

(** ** What leaves and the store *)

Section Hidden.
Context {SD : Serde} {CT : CaseTables} {FL : FloatLib}.
Context (env : string → option string) (root : string) (canonicalize : string → option string).
Context (why : view_err + verr → string) (version : string).
Context (oracle : ∀ R, Op R → R) (s1 s2 : SecretStore).
Notation session := (session env root canonicalize why version).

Definition no_probe (turns : list Turn) : Prop :=
  Forall (λ data, vstr_or "" (request_of data) "cmd" ≠ "probe") (requests turns).

Lemma no_probe_cons turn turns : no_probe (turn :: turns) →
  (∀ data, tn_got turn = Some data → vstr_or "" (request_of data) "cmd" ≠ "probe") ∧ no_probe turns.
Proof.
  unfold no_probe, requests. change (omap tn_got (turn :: turns)) with
    (match tn_got turn with Some d => d :: omap tn_got turns | None => omap tn_got turns end).
  destruct (tn_got turn) as [d|]; [|by split]. intros [H1 H2]%Forall_cons. split; [|done]. by intros ? [= <-].
Qed.

(** The control channel itself reads no value of a secret: with the same
    records of the units, what leaves on a whole connection, statuses, echoes,
    replies and traces, is the same for any two stores of a kind that resolve
    the same references, unless it is asked for a probe, which runs with the
    values.  What a unit recorded, the text of its last error above all, is an
    answer of the operations here and taken as it is; that such a text can hold
    a value is a finding. *)
Theorem uplink_hides_values tenant clock turns t :
  same_domain s1 s2 → ss_kind s1 = ss_kind s2 → no_probe turns →
  exec (with_store oracle s1) (connection env root canonicalize why version tenant clock turns t) =
  exec (with_store oracle s2) (connection env root canonicalize why version tenant clock turns t).
Proof.
  intros Hd Hk Hp. unfold connection. generalize (clock - status_every env * 1000). intros last. revert last t.
  induction turns as [|turn turns IH]; intros last t; [done|]. cbn [Uplink.session].
  change (@mbind Prog _ ?A ?B ?f ?m) with (prog_bind f m). rewrite !exec_bind.
  assert (∀ s, exec (with_store oracle s) (if status_every env * 1000 <=? tn_clock turn - last
      then prog_bind (λ payload, Ret ([Status (tn_pushed turn) payload], tn_pushed turn)) (push_status env version tenant)
      else Ret ([], last)) = exec oracle (if status_every env * 1000 <=? tn_clock turn - last
      then prog_bind (λ payload, Ret ([Status (tn_pushed turn) payload], tn_pushed turn)) (push_status env version tenant)
      else Ret ([], last))) as Hpush by (intros s; by destruct (_ <=? _)).
  change (@mbind Prog _ ?A ?B ?f ?m) with (prog_bind f m). rewrite !Hpush.
  destruct (exec oracle _) as [[pushed last']|]; [|done]. cbn [mbind option_bind]. rewrite !exec_bind.
  apply no_probe_cons in Hp as [Hd' Hp'].
  destruct (tn_got turn) as [data|] eqn:Eg.
  - rewrite !exec_bind, (control_hides_values env root canonicalize why version oracle s1 s2 tenant data (tn_now turn) t Hd Hk).
    2:{ by apply Hd'. }
    destruct (exec (with_store oracle s2) (serve_command _ _ _ _ _ _ _ _ _)) as [s|]; [|done].
    cbn [mbind option_bind exec]. rewrite !exec_bind, (IH Hp'). by destruct (exec _ _) as [[]|].
  - cbn [exec mbind option_bind]. rewrite !exec_bind, (IH Hp'). by destruct (exec _ _) as [[]|].
Qed.
End Hidden.

(** ** A connection *)

(** A status is asked for, and nothing for five minutes. *)
Definition asked_turns : list Turn :=
  [{| tn_clock := 0; tn_pushed := 1; tn_got := Some ask_status; tn_now := 0 |};
   {| tn_clock := 500; tn_pushed := 500; tn_got := None; tn_now := 1 |};
   {| tn_clock := 300000; tn_pushed := 300001; tn_got := Some "no request"; tn_now := 300 |}].
Definition fresh_traces : Traces := {| rings := ∅; trace_seq := 0 |}.
Notation ask := (connection (λ _, None) "/srv" Some no_words "1" "acme" 0 asked_turns fresh_traces).


Lemma uplink_hides_values_witness :
  no_probe asked_turns ∧
  exec (with_store (quiet demo_fs Demo.store) Demo.store) ask =
  exec (with_store (quiet demo_fs Demo.store) Demo.other_store) ask.
Proof.
  assert (no_probe asked_turns) as H by (repeat constructor; vm_compute; discriminate). split; [exact H|].
  exact (uplink_hides_values (λ _, None) "/srv" Some no_words "1" (quiet demo_fs Demo.store)
           Demo.store Demo.other_store "acme" 0 asked_turns fresh_traces Demo.stores_same eq_refl H).
Defined.
