(* ===== verification/Onboard.v ===== *)
(** * A tenant from end to end

    Provisioning (core/src/main.rs) around the rendering of [Provision]: the
    files of a template found in its directory, and after they were written the
    reload, the units that were started and the secrets that are asked for. *)

From stdpp Require Import base gmap sets list strings.
From Stdlib Require Import ZArith Lia Ascii.
From S2P Require Import Prelude Text F64 Json Syntax Lexer Parser Secrets Eval Concrete RunProps Versions Traces Project Registry Provision.
Open Scope string_scope.
Open Scope Z_scope.

Section Onboard.
Context {SD : Serde} {CT : CaseTables}.
Context (fs : FS) (root : string) (writable : string → bool).
(** The project once these files are written. *)
Context (after : gmap string string → FS).
Context (spawns : string → bool) (no_thread : string) (store : SecretStore).

Definition under (rel name : string) : string := if String.eqb rel "" then name else rel ++ "/" ++ name.

(** The files below a directory, by their paths from the template's; a directory
    that cannot be listed has none.  The fuel bounds the depth. *)
(** core/src/main.rs [template_files] *)
Fixpoint template_files {E} (fuel : nat) (dir rel : string) : res E (list string) :=
  match fuel with
  | O => NoFuel
  | S fuel =>
    (fix entries (names : list string) : res E (list string) :=
       match names with
       | [] => Ok []
       | name :: names =>
         let p := path_join dir name in
         here ← (if is_dir fs p then template_files fuel p (under rel name) else Ok [under rel name]);
         rest ← entries names;
         Ok (here ++ rest)%list
       end) (default [] (ls fs dir))
  end.

(** core/src/main.rs:2833-2833 [provision] *)
Definition template_dir (template : string) : string := path_join (path_join root "templates") template.
(** core/src/main.rs:2837-2838 [provision] *)
Definition package_there (slug : string) : bool := file_exists fs (path_join (path_join root "packages") slug).
(** core/src/main.rs:2834-2851 [provision] *)
Definition load_template (rels : list string) (template : string) : option (list (string * option string)) :=
  if is_dir fs (template_dir template)
  then Some (map (λ rel, (rel, reads fs (path_join (template_dir template) rel))) rels)
  else None.

(** core/src/main.rs:2872-2877 [provision] *)
Definition started_units {E} (fs : FS) (slug : string) : res E (list string) :=
  specs ← scan_all fs root;
  Ok (List.filter (λ n, starts_with n ("flow:" ++ slug ++ ":") || starts_with n ("connector:" ++ slug ++ ":"))
        (map sp_name specs)).

(** core/src/main.rs:2884-2892 [provision] *)
Definition note_refs (refs : list (string * string)) (seen : list (string * string)) : list (string * string) :=
  fold_left (λ seen nr,
    if existsb (λ e, String.eqb (fst e) (snd nr)) seen then seen
    else (seen ++ [(snd nr, match ss_get store (snd nr) with Ok _ => "ok" | _ => "missing" end)])%list) refs seen.

(** core/src/main.rs:2878-2897 [provision] *)
Fixpoint asked_secrets {E} (rendered : list (string * string)) (seen : list (string * string))
  : res E (list (string * string)) :=
  match rendered with
  | [] => Ok seen
  | (rel, body) :: rendered =>
    if ends_with rel ".vjs" then
      p ← parsed_opt (Some body);
      asked_secrets rendered (match p with Some prog => note_refs (p_secret_refs prog) seen | None => seen end)
    else asked_secrets rendered seen
  end.

(** What provisioning gives back. *)
Record Tenant : Type := {
  tn_created : list string;
  tn_started : list string;
  tn_secrets : list (string * string)
}.

(** core/src/main.rs:2898-2901 [provision] *)
Definition tenant_value (slug template : string) (t : Tenant) : Value :=
  obj [("ok", VBool true); ("tenant", VString slug); ("template", VString template);
       ("created", VArray (map VString (tn_created t))); ("started", VArray (map VString (tn_started t)));
       ("secret_refs", VArray (map (λ rs, obj [("ref", VString (fst rs)); ("status", VString (snd rs))]) (tn_secrets t)))].

(** core/src/main.rs [provision] *)
Definition provision_tenant (depth : nat) (template slug : string) (params : smap Value) (force : bool)
  (written : gmap string string) (u : Units) : res prov_err (Tenant * Units) * gmap string string :=
  match template_files (E := ()) depth (template_dir template) "" with
  | Ok rels =>
    let template_of := load_template rels in
    match provision template_of package_there writable template slug params force written with
    | (Ok created, written) =>
      (rendered ← prepare template_of package_there template slug params force;
       '(_, _, _, u) ← reload (after written) root spawns no_thread u;
       started ← started_units (after written) slug;
       secrets ← asked_secrets rendered [];
       Ok ({| tn_created := created; tn_started := started; tn_secrets := secrets |}, u), written)
    | (Err e, written) => (Err e, written)
    | (Panic, written) => (Panic, written)
    | (NoFuel, written) => (NoFuel, written)
    end
  | Panic => (Panic, written)
  | _ => (NoFuel, written)
  end.

(** ** What is reported *)

(** A depth that is enough stays enough. *)
Lemma template_files_mono {E} fuel : ∀ dir rel (l : list string),
  template_files (E := E) fuel dir rel = Ok l → template_files (E := E) (S fuel) dir rel = Ok l.
Proof.
  induction fuel as [|fuel IH]; intros dir rel l H; [done|]. cbn [template_files] in H |- *.
  revert l H. induction (default [] (ls fs dir)) as [|name names IHn]; intros l H; [done|].
  apply bind_Ok in H as (here & Hh & H). apply bind_Ok in H as (rest & Hr & [= <-]).
  assert ((if is_dir fs (path_join dir name) then template_files (E := E) (S fuel) (path_join dir name) (under rel name)
           else Ok [under rel name]) = Ok here) as Hh' by (destruct (is_dir fs _); [by apply IH|done]).
  cbn [template_files] in Hh'. rewrite Hh'. cbn [mbind res_mbind res_bind]. by rewrite (IHn rest Hr).
Qed.

(** The reference is that of a script among the rendered files. *)
Definition asks (rendered : list (string * string)) (r : string) : Prop :=
  ∃ rel body prog, (rel, body) ∈ rendered ∧ ends_with rel ".vjs" = true ∧ parse body = Ok prog ∧
    ∃ name, (name, r) ∈ p_secret_refs prog.
Definition status_of (r : string) : string := match ss_get store r with Ok _ => "ok" | _ => "missing" end.

Lemma note_refs_spec refs : ∀ seen, NoDup (map fst seen) → Forall (λ rs, snd rs = status_of (fst rs)) seen →
  NoDup (map fst (note_refs refs seen)) ∧ Forall (λ rs, snd rs = status_of (fst rs)) (note_refs refs seen) ∧
  ∀ r, r ∈ map fst (note_refs refs seen) ↔ r ∈ map fst seen ∨ ∃ name, (name, r) ∈ refs.
Proof.
  induction refs as [|[name r] refs IH]; intros seen Hn Hs; cbn [note_refs fold_left].
  { split; [done|]. split; [done|]. intros r. set_solver. }
  fold (note_refs refs). cbn [fst snd]. destruct (existsb _ seen) eqn:E.
  - destruct (IH seen Hn Hs) as (H1 & H2 & H3). split; [done|]. split; [done|]. intros r'.
    apply existsb_exists in E as ([r0 st] & Hin%list_elem_of_In & He%String.eqb_eq). cbn in He. subst r0.
    unfold note_refs in H3. rewrite H3. split; [set_solver|]. intros [H|[n [[= -> ->]|H]%elem_of_cons]]; [by left| |set_solver].
    left. apply list_elem_of_fmap. by exists (r, st).
  - assert (r ∉ map fst seen) as Hr.
    { intros ([r0 st] & -> & Hin)%list_elem_of_fmap. apply list_elem_of_In in Hin. cbn in E.
      assert (existsb (λ e : string * string, String.eqb e.1 r0) seen = true) as E'; [|congruence].
      apply existsb_exists. exists (r0, st). split; [done|]. apply String.eqb_refl. }
    destruct (IH (seen ++ [(r, status_of r)])%list) as (H1 & H2 & H3).
    { rewrite map_app. cbn. apply NoDup_app. split; [done|]. split; [set_solver|]. apply NoDup_singleton. }
    { apply Forall_app. split; [done|]. by constructor. }
    split; [done|]. split; [done|]. intros r'. unfold note_refs, status_of in H3. rewrite H3, map_app. cbn. set_solver.
Qed.

Lemma asked_spec {E} rendered : ∀ seen l, asked_secrets (E := E) rendered seen = Ok l →
  NoDup (map fst seen) → Forall (λ rs, snd rs = status_of (fst rs)) seen →
  NoDup (map fst l) ∧ Forall (λ rs, snd rs = status_of (fst rs)) l ∧
  ∀ r, r ∈ map fst l ↔ r ∈ map fst seen ∨ asks rendered r.
Proof.
  induction rendered as [|[rel body] rendered IH]; intros seen l H Hn Hs; cbn [asked_secrets] in H.
  { injection H as <-. split; [done|]. split; [done|]. intros r. split; [by left|].
    intros [?|(? & ? & ? & Hin & _)]; [done|]. by apply not_elem_of_nil in Hin. }
  assert (∀ seen' : list (string * string), (∀ r, r ∈ map fst seen' ↔ r ∈ map fst seen ∨
      ∃ prog, ends_with rel ".vjs" = true ∧ parse body = Ok prog ∧ ∃ name, (name, r) ∈ p_secret_refs prog) →
    ∀ r, r ∈ map fst seen' ∨ asks rendered r ↔ r ∈ map fst seen ∨ asks ((rel, body) :: rendered) r) as Hstep.
  { intros seen' Hs' r. rewrite Hs'. split.
    - intros [[H1|(prog & H1 & H2 & H3)]|(rel' & body' & prog & H1 & H2)]; [by left| |]; right.
      + exists rel, body, prog. split; [by left|done].
      + exists rel', body', prog. split; [by right|done].
    - intros [H1|(rel' & body' & prog & [[= -> ->]|H1]%elem_of_cons & H2 & H3)]; [by left; left| |].
      + left. right. by exists prog.
      + right. by exists rel', body', prog. }
  destruct (ends_with rel ".vjs") eqn:Er.
  - apply bind_Ok in H as (p & Hp & H). unfold parsed_opt in Hp.
    set (seen' := match p with Some prog => note_refs (p_secret_refs prog) seen | None => seen end) in *.
    assert (NoDup (map fst seen') ∧ Forall (λ rs, snd rs = status_of (fst rs)) seen' ∧
      ∀ r, r ∈ map fst seen' ↔ r ∈ map fst seen ∨ ∃ prog, p = Some prog ∧ ∃ name, (name, r) ∈ p_secret_refs prog)
      as (Hn' & Hs' & Hr').
    { subst seen'. destruct p as [prog|]; [|split; [done|]; split; [done|]; naive_solver].
      destruct (note_refs_spec (p_secret_refs prog) seen Hn Hs) as (H1 & H2 & H3).
      split; [done|]. split; [done|]. intros r. rewrite H3. naive_solver. }
    destruct (IH seen' l H Hn' Hs') as (H1 & H2 & H3). split; [done|]. split; [done|]. intros r. rewrite H3.
    apply Hstep. intros r'. rewrite Hr'.
    assert (∀ prog, p = Some prog ↔ parse body = Ok prog) as He by (destruct (parse body); naive_solver).
    setoid_rewrite He. naive_solver.
  - destruct (IH seen l H Hn Hs) as (H1 & H2 & H3). split; [done|]. split; [done|]. intros r. rewrite H3.
    apply Hstep. naive_solver.
Qed.

(** When a tenant was provisioned, the provisioner is told exactly what it
    needs: every secret that a script of the package refers to once, as missing
    just when the store does not give it; and every flow and connector of the
    project under the tenant's name, which the reload has seen. *)
Theorem provision_reports depth template slug params force written u t u' written' :
  provision_tenant depth template slug params force written u = (Ok (t, u'), written') →
  ∃ rels rendered specs,
    prepare (load_template rels) package_there template slug params force = Ok rendered ∧
    NoDup (map fst (tn_secrets t)) ∧
    (∀ r, r ∈ map fst (tn_secrets t) ↔ asks rendered r) ∧
    (∀ r st, (r, st) ∈ tn_secrets t → (st = "missing" ↔ ∀ v, ss_get store r ≠ Ok v)) ∧
    scan_all (E := prov_err) (after written') root = Ok specs ∧
    (∀ n, n ∈ tn_started t ↔ n ∈ map sp_name specs ∧
      (starts_with n ("flow:" ++ slug ++ ":") = true ∨ starts_with n ("connector:" ++ slug ++ ":") = true)) ∧
    ∃ total started stopped, reload (E := prov_err) (after written') root spawns no_thread u = Ok (total, started, stopped, u').
Proof.
  unfold provision_tenant. destruct (template_files _ _ _) as [rels|e| |]; try done.
  destruct (provision _ _ _ _ _ _ _ _) as [[created|e| |] w]; try done. intros [= H <-].
  apply bind_Ok in H as (rendered & Hp & H). apply bind_Ok in H as ([[[total started] stopped] u1] & Hr & H).
  apply bind_Ok in H as (names & Hs & H). apply bind_Ok in H as (secrets & Ha & [= <- <-]).
  apply bind_Ok in Hs as (specs & Hsc & [= <-]).
  destruct (asked_spec rendered [] secrets Ha) as (H1 & H2 & H3); [constructor|constructor|].
  exists rels, rendered, specs. split; [done|]. split; [done|]. split; [|split; [|split; [done|split]]].
  - intros r. rewrite H3. cbn. set_solver.
  - intros r st Hin. rewrite Forall_forall in H2. specialize (H2 _ Hin). cbn in H2. subst st. unfold status_of.
    destruct (ss_get store r); split; try done; intros H; by destruct (H a).
  - intros n. cbn [tn_started]. rewrite !list_elem_of_In, List.filter_In, orb_true_iff. done.
  - by eexists _, _, _.
Qed.
End Onboard.

(** ** A tenant *)

Section Witness.
Notation tdir := "/srv/templates/mailer".
Definition secret_template : string :=
  script "source 'vx.${tenant_slug}.in'|k = secret('a/b')|j = secret('c/d')|emit 'vx.out', {to: '${mail}'}|".
Definition mailer_fs : FS := {|
  ls d := if String.eqb d tdir then Some ["flows"; "detects"]
          else if String.eqb d (tdir ++ "/flows") then Some ["mail.vjs"; "copy.vjs"]
          else if String.eqb d (tdir ++ "/detects") then Some ["burst.vpl"]
          else None;
  is_dir d := existsb (String.eqb d) [tdir; tdir ++ "/flows"; tdir ++ "/detects"];
  file_exists _ := false;
  reads p := if String.eqb p (tdir ++ "/detects/burst.vpl") then Some "stream X" else Some secret_template;
  mtime _ := 1
|}.
Definition mailer_after (w : gmap string string) : FS := {|
  ls d := if String.eqb d "/srv/packages" then Some ["acme"]
          else if String.eqb d "/srv/packages/acme/flows" then Some ["mail.vjs"; "copy.vjs"]
          else if String.eqb d "/srv/packages/acme/detects" then Some ["burst.vpl"]
          else None;
  is_dir d := true;
  file_exists _ := true;
  reads p := w !! sdrop 5 p;
  mtime _ := 2
|}.
Notation onboard := (provision_tenant mailer_fs "/srv" any_file mailer_after up "" Demo.store 4 "mailer" "acme" acme false ∅ no_units).

Example mailer_files : template_files (E := ()) mailer_fs 4 tdir "" = Ok ["flows/mail.vjs"; "flows/copy.vjs"; "detects/burst.vpl"].
Proof. vm_compute. reflexivity. Qed.

(** The reload starts the detection too; it is not in the list. *)
Example detects_unreported :
  match onboard with
  | (Ok (t, u), _) => (tn_started t, map fst (map_to_list (registry u)))
  | _ => ([], [])
  end = (["flow:acme:copy"; "flow:acme:mail"], ["flow:acme:copy"; "flow:acme:mail"; "detect:acme:burst"]).
Proof. vm_compute. reflexivity. Qed.

Lemma onboarded : ∃ t u' written', onboard = (Ok (t, u'), written').
Proof.
  assert (is_ok (fst onboard) = true) as H by (vm_compute; reflexivity). revert H. generalize onboard.
  intros [[[t u']|e| |] w] H; try discriminate H. by exists t, u', w.
Qed.

Lemma provision_reports_witness : ∃ t u' written',
  onboard = (Ok (t, u'), written') ∧
  ∃ rels rendered specs,
    prepare (load_template mailer_fs "/srv" rels) (package_there mailer_fs "/srv") "mailer" "acme" acme false = Ok rendered ∧
    NoDup (map fst (tn_secrets t)) ∧
    (∀ r, r ∈ map fst (tn_secrets t) ↔ asks rendered r) ∧
    (∀ r st, (r, st) ∈ tn_secrets t → (st = "missing" ↔ ∀ v, ss_get Demo.store r ≠ Ok v)) ∧
    scan_all (E := prov_err) (mailer_after written') "/srv" = Ok specs ∧
    (∀ n, n ∈ tn_started t ↔ n ∈ map sp_name specs ∧
      (starts_with n ("flow:" ++ "acme" ++ ":") = true ∨ starts_with n ("connector:" ++ "acme" ++ ":") = true)) ∧
    ∃ total started stopped,
      reload (E := prov_err) (mailer_after written') "/srv" up "" no_units = Ok (total, started, stopped, u').
Proof.
  destruct onboarded as (t & u' & w & H). exists t, u', w. split; [exact H|].
  exact (provision_reports mailer_fs "/srv" any_file mailer_after up "" Demo.store 4 "mailer" "acme" acme false
    ∅ no_units t u' w H).
Defined.
End Witness.
