(* ===== verification/Pipeline.v ===== *)
(** * Units in a row

    What the runtime promises of a whole project: units that feed each other
    over the stream.  A consumer is what the server sees of a unit, and its
    contract is that it acknowledges only what it settled; flows and sinks
    meet it.  The server keeps a history, hands each consumer the messages it has
    not acknowledged, and reads acknowledgements when it likes; units crash,
    lose their connection and come back between any two turns, and within one as a
    connection that takes nothing more.  The consumer of a detection is deleted
    and created again where its snapshot stands (core/src/main.rs
    [supervise_detect]), and that may be past messages it had yet to
    acknowledge. *)

From stdpp Require Import base gmap sets list strings relations.
From Stdlib Require Import ZArith Lia.
From S2P Require Import Prelude Triples Text F64 Json Syntax Analysis Lexer Parser Secrets Eval Bus Dlq Traces Flow FlowProps Metrics Sinks Detect Concrete.
Open Scope string_scope.
Open Scope Z_scope.

(** What can come of a message: a publish that the server read, a dead letter
    that it stored, a request that another server answered. *)
Inductive Effect : Type :=
| Published (p : pub)
| Parked (p : pub)
| Requested (x : Exchange).

(** A turn of a unit as the server sees it: what it was handed, what was brought
    about by its end, and the acknowledgements that it sent. *)
Record Turn : Type := { tn_messages : list Message; tn_effects : list Effect; tn_acks : list string }.

(** A unit that consumes: its durable name, the subjects of its consumer,
    whether a start may delete the consumer and create it again at another
    place, the turns it can take, and when a message is settled, given what
    came about. *)
Record Consumer : Type := {
  durable : string;
  listens : string → bool;
  resumes : bool;
  does : Turn → Prop;
  settles : (Effect → Prop) → pub → Prop
}.

(** The contract. *)
Class Contract (c : Consumer) : Prop := {
  settles_mono (P Q : Effect → Prop) p : (∀ e, P e → Q e) → settles c P p → settles c Q p;
  acks_earned t rp : does c t → rp ∈ tn_acks t →
    ∃ m, m ∈ tn_messages t ∧ reply m = Some rp ∧ settles c (.∈ tn_effects t) (subject m, data m)
}.

(** What an acknowledgement acknowledges: the consumer and the sequence that its
    subject names. *)
Definition ack_target (rp : string) : option (string * Z) :=
  rest ← strip_prefix rp "$JS.ACK.";
  let tokens := str_split rest "." in
  consumer ← (match length tokens with
              | 7%nat => tokens !! 1%nat
              | n => if Nat.leb 9 n then tokens !! 3%nat else None
              end);
  d ← parse_ack_subject rp;
  Some (consumer, stream_seq d).

(** The acknowledgements among what a connection took. *)
Definition acks_of (t : list (Z * pub)) : list string :=
  omap (λ x, if String.eqb (snd (snd x)) "" then Some (fst (snd x)) else None) t.

Lemma acks_of_elem t rp : rp ∈ acks_of t ↔ ∃ e, (e, (rp, "")) ∈ t.
Proof.
  unfold acks_of. rewrite list_elem_of_omap. split.
  - intros ([e [r p]] & Hin & H). cbn in H. destruct (String.eqb_spec p ""); [|done]. injection H as ->. subst p. by exists e.
  - intros (e & Hin). by exists (e, (rp, "")).
Qed.

(** ** The server *)

Section Server.
(** The consumers, and the subjects of the stream. *)
Context (consumers : list Consumer) (binds : string → bool).

(** The history, the acknowledgements that were sent and those that were
    read, and where the consumers begin that were created again. *)
Record World : Type := {
  history : list Effect; sent : list string; acked : list (string * Z); begins : gmap string Z
}.

(** The first sequence that a consumer is handed. *)
Definition start_of (w : World) (c : Consumer) : Z :=
  if resumes c then default 1 (begins w !! durable c) else 1.

Definition event_of (e : Effect) : option pub :=
  match e with Published p => if binds (fst p) then Some p else None | _ => None end.
(** The stream: a message has its place in it, from one, as its sequence. *)
Definition events (h : list Effect) : list pub := omap event_of h.

(** A message that the server hands to a consumer: one of the stream at or
    after the place where the consumer begins, on its subjects, with an
    acknowledgement subject for it. *)
Definition handed (h : list Effect) (start : Z) (c : Consumer) (m : Message) : Prop :=
  ∃ k rp, events h !! k = Some (subject m, data m) ∧ listens c (subject m) = true ∧ reply m = Some rp ∧
    ack_target rp = Some (durable c, Z.of_nat k + 1) ∧ start <= Z.of_nat k + 1.

Inductive step (w : World) : World → Prop :=
| st_others l :                       (* others publish, and are answered *)
    step w {| history := (history w ++ l)%list; sent := sent w; acked := acked w; begins := begins w |}
| st_turn c t l : c ∈ consumers → does c t →
    (∀ e, e ∈ tn_effects t → e ∈ (history w ++ l)%list) →
    (∀ m, m ∈ tn_messages t → handed (history w ++ l)%list (start_of w c) c m) →
    step w {| history := (history w ++ l)%list; sent := (sent w ++ tn_acks t)%list; acked := acked w; begins := begins w |}
| st_ack rp a : rp ∈ sent w → ack_target rp = Some a →
    step w {| history := history w; sent := sent w; acked := a :: acked w; begins := begins w |}
| st_recreate c q : c ∈ consumers → resumes c = true →  (* what the old one acknowledged is forgotten *)
    step w {| history := history w; sent := sent w; acked := filter (λ a, fst a ≠ durable c) (acked w);
              begins := <[durable c := q]> (begins w) |}.

Definition nothing : World := {| history := []; sent := []; acked := []; begins := ∅ |}.

(** A message that its consumer is still handed: at or after its beginning, and
    not acknowledged. *)
Definition unsettled (w : World) (c : Consumer) (k : nat) : Prop :=
  start_of w c <= Z.of_nat k + 1 ∧ (durable c, Z.of_nat k + 1) ∉ acked w.

(** ** Nothing is lost *)

(** The message at a place is settled. *)
Definition settled_at (h : list Effect) (a : string * Z) : Prop :=
  ∃ c k p, c ∈ consumers ∧ a = (durable c, Z.of_nat k + 1) ∧ events h !! k = Some p ∧ settles c (.∈ h) p.

Definition accounted (w : World) : Prop :=
  (∀ rp a, rp ∈ sent w → ack_target rp = Some a → settled_at (history w) a) ∧
  (∀ a, a ∈ acked w → settled_at (history w) a).

Section Contracts.
Context {HC : ∀ c, c ∈ consumers → Contract c}.

Lemma settled_later h l a : settled_at h a → settled_at (h ++ l)%list a.
Proof.
  intros (c & k & p & Hc & -> & Hk & Hs). exists c, k, p. split; [done|]. split; [done|]. split.
  - unfold events. rewrite omap_app. by apply lookup_app_l_Some.
  - pose proof (HC c Hc). eapply settles_mono; [|exact Hs]. intros e He. apply elem_of_app. by left.
Qed.

Lemma step_accounted w w' : step w w' → accounted w → accounted w'.
Proof.
  intros H [Hs Ha]. destruct H as [l|c t l Hc Hd He Hm|rp a Hr Ht|c q Hc Hq]; cbn.
  - split; cbn; intros; apply settled_later; eauto.
  - split; cbn; [|intros; apply settled_later; eauto]. intros rp a Hin Ht. apply elem_of_app in Hin as [Hin|Hin].
    { apply settled_later. by eapply Hs. }
    pose proof (HC c Hc). destruct (acks_earned t rp Hd Hin) as (m & Hmt & Hr & Hset).
    destruct (Hm m Hmt) as (k & rp' & Hk & _ & Hr' & Ht' & _). rewrite Hr in Hr'. injection Hr' as <-.
    rewrite Ht in Ht'. injection Ht' as ->. exists c, k, (subject m, data m). split; [done|]. split; [done|].
    split; [done|]. eapply settles_mono; [|exact Hset]. done.
  - split; cbn; [done|]. intros a' [->|Hin]%elem_of_cons; [by eapply Hs|by apply Ha].
  - split; cbn; [done|]. intros a [_ Hin]%list_elem_of_filter. by apply Ha.
Qed.

Lemma reachable_accounted w : rtc step nothing w → accounted w.
Proof.
  intros H. assert (∀ w1, rtc step w1 w → accounted w1 → accounted w) as Hr.
  { clear H. intros w1 H. induction H as [|w1 w2 w3 Hs _ IH]; [done|]. intros Ha. by eapply IH, step_accounted. }
  apply (Hr _ H). split; cbn; [by intros rp a ?%elem_of_nil|by intros a ?%elem_of_nil].
Qed.

(** Every consumer has acknowledged all that is on its subjects. *)
Definition drained (w : World) : Prop :=
  ∀ c k p, c ∈ consumers → events (history w) !! k = Some p → listens c (fst p) = true →
    (durable c, Z.of_nat k + 1) ∈ acked w.

(** What became of a message, [n] units on: each unit that listens to it
    settled it, and so did the units after it with what it published. *)
Fixpoint followed (h : list Effect) (n : nat) (p : pub) : Prop :=
  match n with
  | O => True
  | S n => ∀ c, c ∈ consumers → listens c (fst p) = true →
      settles c (λ e, e ∈ h ∧ match event_of e with Some q => followed h n q | None => True end) p
  end.

(** No two units share a consumer. *)
Hypothesis durables_differ : ∀ c c', c ∈ consumers → c' ∈ consumers → durable c = durable c' → c = c'.

(** A message of the stream that a unit listens to is one that it is still
    handed, or one it settled, or it stands before the place where the unit's
    consumer was created again; and once all is acknowledged, every message is
    followed to any depth. *)
Lemma contracts_lose_none w :
  rtc step nothing w →
  (∀ c k p, c ∈ consumers → events (history w) !! k = Some p → listens c (fst p) = true →
     unsettled w c k ∨ settles c (.∈ history w) p ∨ resumes c = true ∧ Z.of_nat k + 1 < start_of w c) ∧
  (drained w → ∀ n p, p ∈ events (history w) → followed (history w) n p).
Proof.
  intros [_ Ha]%reachable_accounted.
  assert (∀ c k p, c ∈ consumers → events (history w) !! k = Some p →
    (durable c, Z.of_nat k + 1) ∈ acked w → settles c (.∈ history w) p) as Hset.
  { intros c k p Hc Hk Hin. destruct (Ha _ Hin) as (c' & k' & p' & Hc' & [= Hd Hkk] & Hk' & Hs).
    rewrite (durables_differ c c' Hc Hc' Hd). assert (k' = k) as -> by lia. congruence. }
  split.
  - intros c k p Hc Hk Hl. destruct (decide ((durable c, Z.of_nat k + 1) ∈ acked w)) as [Hin|Hno];
      [right; left; by eapply Hset|].
    destruct (Z.le_gt_cases (start_of w c) (Z.of_nat k + 1)) as [Hle|Hlt]; [by left|]. right. right. split; [|done].
    unfold start_of in Hlt. destruct (resumes c); [done|lia].
  - intros Hdr n. induction n as [|n IH]; intros p Hp; [done|]. cbn. intros c Hc Hl.
    apply list_elem_of_lookup in Hp as [k Hk]. pose proof (HC c Hc).
    eapply settles_mono; [|exact (Hset c k p Hc Hk (Hdr c k p Hc Hk Hl))].
    intros e He. split; [done|]. destruct (event_of e) as [q|] eqn:Eq; [|done]. apply IH.
    apply list_elem_of_omap. by exists e.
Qed.
End Contracts.
End Server.

(** ** Flows and sinks meet the contract *)

Section Flows.
Context {SD : Serde} {SO : SerdeOk} {CT : CaseTables} {FL : FloatLib} {N : Type} {NET : Net N} {NL : NetLaws N}.
Context (files env : string → option string) (text : failure → string → string).

(** A flow: its consumer, its subjects, its unit and program. *)
Record FlowUnit : Type := { fu_durable : string; fu_listens : string → bool; fu_unit : string; fu_prog : Program }.

(** A round of the flow's loop, on a connection of its own with nothing held. *)
Definition flow_does (f : FlowUnit) (t : Turn) : Prop :=
  ∃ version now spawns alive (s s' : Round N) r delta,
    link_ok (link s) ∧ next_id (link s) < 2 ^ 64 - 2 ∧ held (batch s) = [] ∧
    (∀ m, m ∈ tn_messages t → reply m ≠ Some (echo (link s))) ∧
    (∀ ev eng c eng' em, run files (fu_prog f) ev eng = (Ok c, eng') → em ∈ emits c → fst em ≠ echo (link s)) ∧
    round files env text (fu_unit f) (fu_prog f) version now spawns alive (tn_messages t) s = (r, s') ∧
    taken (client (link s')) = (taken (client (link s)) ++ delta)%list ∧ tn_acks t = acks_of delta ∧
    tn_effects t = (map Published (read (client (link s'))) ++ map Parked (stored (client (link s'))))%list.

(** A message is settled by its dead letter, or by a run of it that ended well and
    whose every emit was published. *)
Definition flow_settles (f : FlowUnit) (P : Effect → Prop) (p : pub) : Prop :=
  (∃ version now tries err, P (Parked (DLQ_ROOT ++ "." ++ dlq_unit_token (fu_unit f),
     to_json (envelope (fu_unit f) (fst p) tries err (snd p) version now)))) ∨
  ∃ ev c eng eng', from_json (snd p) = Some ev ∧ run files (fu_prog f) ev eng = (Ok c, eng') ∧
    ∀ em, em ∈ emits c → P (Published (fst em, to_json (snd em))).

Definition flow_consumer (f : FlowUnit) : Consumer :=
  {| durable := fu_durable f; listens := fu_listens f; resumes := false; does := flow_does f; settles := flow_settles f |}.

#[export] Instance flow_contract f : Contract (flow_consumer f).
Proof.
  split; cbn.
  - intros P Q p HPQ [(v & now & n & err & H)|(ev & c & e & e' & ? & ? & H)]; [left; eauto 10|right].
    exists ev, c, e, e'. eauto.
  - intros t rp (version & now & spawns & alive & s & s' & r & delta & Hok & Hid & Hb & Hre & Hem & Hr & Hd & Hacks & Heff) Hin.
    rewrite Hacks in Hin. apply acks_of_elem in Hin as [e Hin].
    destruct (round_earned files env text (fu_unit f) (fu_prog f) version now spawns alive _ s r s' Hok Hid Hb Hre Hem Hr)
      as (t' & Ht & Hf). rewrite Hd in Ht. apply app_inv_head in Ht as <-.
    rewrite Forall_forall in Hf. destruct (Hf _ Hin eq_refl) as (m & Hm & Hrp & Hdone).
    exists m. split; [done|]. split; [done|]. rewrite Heff.
    destruct Hdone as [[err Hs]|(ev & c & eng & eng' & Hev & Hrun & Hall)]; [left|right].
    + exists version, now, (attempts m), err. apply elem_of_app. right. by apply list_elem_of_fmap_2.
    + exists ev, c, eng, eng'. split; [done|]. split; [done|]. intros em Hin'. apply elem_of_app. left.
      apply list_elem_of_fmap_2. by apply Hall.
Qed.

(** ** http-out *)

Context (answers : list Exchange → string → string → list (string * string) → option string → Reply).

Record SinkUnit : Type := {
  su_name : string; su_subject : string; su_listens : string → bool; su_url : string; su_headers : list (string * string)
}.

(** A run of the connector, over the rounds of its consumer; the requests of
    all its runs are in one ledger. *)
Definition sink_does (k : SinkUnit) (t : Turn) : Prop :=
  ∃ now took clock spawns alive rounds (s : Sink N (list Exchange)) delta,
    let s' := snd (run_sink env (su_name k) (su_subject k)
                (http_out_handler (UR := ledger answers) (su_url k) (su_headers k)) now took clock spawns alive
                (λ _, Ok rounds) s) in
    (∀ ms m, Ok ms ∈ rounds → m ∈ ms → m ∈ tn_messages t) ∧
    taken (client (sk_link s')) = (taken (client (sk_link s)) ++ delta)%list ∧ tn_acks t = acks_of delta ∧
    tn_effects t = (map Requested (sk_down s') ++ map Parked (stored (client (sk_link s'))))%list.

(** A message is settled by its dead letter, or by a request with its body that
    was answered with a 2xx status. *)
Definition sink_settles (k : SinkUnit) (P : Effect → Prop) (p : pub) : Prop :=
  (∃ now tries err, P (Parked (DLQ_ROOT ++ "." ++ dlq_unit_token (su_name k),
     to_json (envelope (su_name k) (su_subject k) tries err (snd p) "" now)))) ∨
  ∃ x, P (Requested x) ∧ ex_method x = "POST" ∧ ex_url x = su_url k ∧ ex_headers x = su_headers k ∧
    ex_body x = Some (snd p) ∧ accepted (ex_reply x) = true.

Definition sink_consumer (k : SinkUnit) : Consumer :=
  {| durable := durable_name (su_name k); listens := su_listens k; resumes := false; does := sink_does k; settles := sink_settles k |}.

#[export] Instance sink_contract k : Contract (sink_consumer k).
Proof.
  split; cbn.
  - intros P Q p HPQ [(now & n & err & H)|(x & H & H')]; [left; eauto 10|right]. eauto.
  - intros t rp (now & took & clock & spawns & alive & rounds & s & delta & Hms & Hd & Hacks & Heff) Hin.
    rewrite Hacks in Hin. apply acks_of_elem in Hin as [e Hin].
    assert (Sinks.Inv (su_name k) (su_subject k) now (posted (su_url k) (su_headers k)) (.∈ tn_messages t) s
      (snd (sink_loop env (su_name k) (su_subject k) (http_out_handler (UR := ledger answers) (su_url k) (su_headers k))
              now took clock spawns alive rounds s))) as (t' & Ht & Hf).
    { apply (Sinks.loop_triple env (su_name k) (su_subject k)
        (http_out_handler (UR := ledger answers) (su_url k) (su_headers k)) now took clock spawns alive
        (posted (su_url k) (su_headers k))).
      - intros d w a w'. apply http_out_effect.
      - intros d d' w. apply http_out_stays.
      - intros ms m. apply Hms.
      - exists []. split; [by rewrite app_nil_r|done]. }
    unfold run_sink, sr_lift, mbind, sr_bind in Hd, Heff. rewrite Hd in Ht. apply app_inv_head in Ht as <-.
    rewrite Forall_forall in Hf. destruct (Hf _ Hin eq_refl) as (m & Hm & Hrp & Hdone).
    exists m. split; [done|]. split; [done|]. rewrite Heff.
    destruct Hdone as [(x & Hx & Hposted)|[err Hs]]; [right|left].
    + exists x. split; [|exact Hposted]. apply elem_of_app. left. by apply list_elem_of_fmap_2.
    + exists now, (attempts m), err. apply elem_of_app. right. by apply list_elem_of_fmap_2.
Qed.
(** ** Detections *)

Context {E : Type} {EN : Detect.Engine E} {O : Type} {OB : Objects O} (subj_root : string).

Record DetectUnit : Type := { du_durable : string; du_listens : string → bool; du_name : string; du_stem : string }.

(** A turn of the unit's loop; what it works on is what the channel held and
    what arrived. *)
Definition detect_does (d : DetectUnit) (t : Turn) : Prop :=
  ∃ now took round_secs snapshot_secs spawns alive version bindings grace every (turn : Detect.Turn)
    (s : Detect.Detect N E O) delta,
    let s' := snd (detect_turn env (du_name d) subj_root now took round_secs snapshot_secs spawns alive version
                     (du_stem d) bindings grace every turn s) in
    link_ok (de_link s) ∧ next_id (de_link s) < 2 ^ 64 - 2 ∧ held (de_outbox s) = [] ∧
    tn_messages t = (de_channel s ++ tn_arrived turn)%list ∧
    (∀ m, m ∈ tn_messages t → reply m ≠ Some (echo (de_link s))) ∧
    (∀ ty x p l p' e, feed_json ty x p = (Emits l, p') → e ∈ l →
       emit_subject e subj_root (du_stem d) ≠ echo (de_link s) ∧ em_payload e ≠ "") ∧
    (∀ p l p' e, tick p = (Ok l, p') → e ∈ l → em_payload e ≠ "") ∧
    taken (client (de_link s')) = (taken (client (de_link s)) ++ delta)%list ∧ tn_acks t = acks_of delta ∧
    tn_effects t = (map Published (read (client (de_link s'))) ++ map Parked (stored (client (de_link s'))))%list.

(** A message is settled by its dead letter, or by its feeding to the engine with
    every emit published. *)
Definition detect_settles (d : DetectUnit) (P : Effect → Prop) (p : pub) : Prop :=
  (∃ version now tries err, P (Parked (DLQ_ROOT ++ "." ++ dlq_unit_token (du_name d),
     to_json (envelope (du_name d) (fst p) tries err (snd p) version now)))) ∨
  ∃ ty q l q', feed_json ty (snd p) q = (Emits l, q') ∧
    ∀ e, e ∈ l → P (Published (emit_subject e subj_root (du_stem d), em_payload e)).

Definition detect_consumer (d : DetectUnit) : Consumer :=
  {| durable := du_durable d; listens := du_listens d; resumes := true; does := detect_does d; settles := detect_settles d |}.

#[export] Instance detect_contract d : Contract (detect_consumer d).
Proof.
  split; cbn.
  - intros P Q p HPQ [(v & now & n & err & H)|(ty & q & l & q' & Hf & H)]; [left; eauto 10|right].
    exists ty, q, l, q'. eauto.
  - intros t rp (now & took & rs & ss & spawns & alive & version & bindings & grace & every & turn & s & delta & H) Hin.
    cbv zeta in H. destruct H as (Hok & Hid & Hb & Hms & Hre & Hfed & Htick & Hd & Hacks & Heff).
    rewrite Hacks in Hin. apply acks_of_elem in Hin as [e Hin]. rewrite Hms in Hre.
    destruct (turn_earned env (du_name d) subj_root now took rs ss spawns alive version (du_stem d) bindings grace every
      turn s Hok Hid Hb Hre Hfed Htick) as (t' & Ht & Hf).
    rewrite Hd in Ht. apply app_inv_head in Ht as <-. destruct (Hf _ _ Hin) as (m & Hm & Hrp & Hdone).
    exists m. rewrite Hms. split; [done|]. split; [done|]. rewrite Heff.
    destruct Hdone as [[err Hs]|(ty & q & l & q' & Hfeed & Hall)]; [left|right].
    + exists version, now, (attempts m), err. apply elem_of_app. right. by apply list_elem_of_fmap_2.
    + exists ty, q, l, q'. split; [done|]. intros e' He'. apply elem_of_app. left. apply list_elem_of_fmap_2.
      by apply Hall.
Qed.

(** ** A project *)

Definition project (flows : list FlowUnit) (detects : list DetectUnit) (sinks : list SinkUnit) : list Consumer :=
  (map flow_consumer flows ++ map detect_consumer detects ++ map sink_consumer sinks)%list.

Lemma project_contracts flows detects sinks c : c ∈ project flows detects sinks → Contract c.
Proof.
  intros [(f & -> & _)%list_elem_of_fmap|[(d & -> & _)%list_elem_of_fmap|(k & -> & _)%list_elem_of_fmap]%elem_of_app]%elem_of_app;
    exact _.
Qed.

Lemma NoDup_map_inj {A B} (f : A → B) l x y : NoDup (map f l) → x ∈ l → y ∈ l → f x = f y → x = y.
Proof.
  induction l as [|z l IH]; cbn; [by intros _ ?%elem_of_nil|]. intros [Hz Hn]%NoDup_cons.
  intros [->|Hx]%elem_of_cons [->|Hy]%elem_of_cons He; [done| | |by apply IH]; destruct Hz.
  - rewrite He. by apply list_elem_of_fmap_2.
  - rewrite <- He. by apply list_elem_of_fmap_2.
Qed.

Lemma resumes_detect flows detects sinks c : c ∈ project flows detects sinks → resumes c = true →
  ∃ d, d ∈ detects ∧ c = detect_consumer d.
Proof.
  intros [(f & -> & _)%list_elem_of_fmap|[(d & -> & Hd)%list_elem_of_fmap|(k & -> & _)%list_elem_of_fmap]%elem_of_app]%elem_of_app Hr;
    [done| |done]. by exists d.
Qed.

(** C3: No message is lost between the units of a project, but one that a
    detection's restart stands past.  Whatever its flows, detections and
    http-out sinks do, however the server, the connections and the servers
    posted to answer, and wherever units crash and come back, a message of the
    stream that a unit listens to is one that its consumer is still handed, for
    it has not acknowledged it; or one that was dead-lettered, or was run or
    detected on with its every emit read by the server, or was posted and taken
    with a 2xx status; or the unit is a detection whose consumer was created
    again, on the snapshot it resumes from, at a later place of the stream.
    That a snapshot can stand past a message that was never acknowledged is a
    finding; no flow and no sink passes a message over so.  Once all is
    acknowledged, every message was settled, and so was all that came of it,
    however many units on. *)
Theorem project_loses_none flows detects sinks binds w :
  let units := project flows detects sinks in
  NoDup (map durable units) → rtc (step units binds) nothing w →
  (∀ c k p, c ∈ units → events binds (history w) !! k = Some p → listens c (fst p) = true →
     unsettled w c k ∨ settles c (.∈ history w) p ∨
     (∃ d, d ∈ detects ∧ c = detect_consumer d) ∧ Z.of_nat k + 1 < start_of w c) ∧
  (drained units binds w → ∀ n p, p ∈ events binds (history w) → followed units binds (history w) n p).
Proof.
  cbv zeta. intros Hn Hrun.
  destruct (contracts_lose_none (project flows detects sinks) binds (HC := project_contracts flows detects sinks)
    (λ c c', NoDup_map_inj durable _ c c' Hn) w Hrun) as [H1 H2].
  split; [|done]. intros c k p Hc Hk Hl. destruct (H1 c k p Hc Hk Hl) as [H|[H|[Hr H]]]; [by left|by right; left|].
  right. right. split; [by eapply resumes_detect|done].
Qed.
End Flows.

(** ** A flow and a sink behind it *)

Section Chain.
Definition flow_f : FlowUnit :=
  {| fu_durable := "f"; fu_listens := String.eqb "vx.in"; fu_unit := "flow:f"; fu_prog := out_prog |}.
Definition sink_o : SinkUnit :=
  {| su_name := "http-out:o"; su_subject := "vx.out"; su_listens := String.eqb "vx.out"; su_url := "http://x/";
     su_headers := [] |}.
Definition detect_d : DetectUnit :=
  {| du_durable := "detect_d"; du_listens := String.eqb "vx.d"; du_name := "detect:d"; du_stem := "d" |}.
Notation units_of := (project (N := SimNet) no_files no_env some_text fussy (EN := toy_engine) (OB := map_objects) "vx").
Definition chain : list Consumer := units_of [flow_f] [detect_d] [sink_o].
Definition in_stream (s : string) : bool := starts_with s "vx.".

(** The round in which the flow runs its message, and what the server makes of
    it. *)
Definition flow_end : Round SimNet :=
  snd (round no_files no_env some_text "flow:f" out_prog "v1" 7 true go [good_message] flow_start).
Definition flow_turn : Turn :=
  {| tn_messages := [good_message];
     tn_effects := (map Published (read (client (link flow_end))) ++ map Parked (stored (client (link flow_end))))%list;
     tn_acks := acks_of (taken (client (link flow_end))) |}.

(** The message that came of it, as the sink is handed it; the sink's run. *)
Definition out_message : Message :=
  {| subject := "vx.out"; data := to_json (obj [("n", vint 1)]); reply := Some "$JS.ACK.V.http_out_o.1.2.1.1.0" |}.
Definition sink_end : Sink SimNet (list Exchange) :=
  snd (run_sink no_env "http-out:o" "vx.out" (http_out_handler (UR := ledger fussy) "http://x/" []) 7
    (λ _, f64_zero) (λ _, (0, 0)) false (λ _, true) (λ _, Ok [Ok [out_message]]) sink_start).
Definition sink_turn : Turn :=
  {| tn_messages := [out_message];
     tn_effects := (map Requested (sk_down sink_end) ++ map Parked (stored (client (sk_link sink_end))))%list;
     tn_acks := acks_of (taken (client (sk_link sink_end))) |}.

Definition arrived : list Effect := [Published ("vx.in", data good_message)].
Definition chained : World :=
  {| history := ((arrived ++ tn_effects flow_turn) ++ tn_effects sink_turn)%list;
     sent := (tn_acks flow_turn ++ tn_acks sink_turn)%list;
     acked := [("http_out_o", 2); ("f", 1)]; begins := ∅ |}.

Lemma flow_turn_does : flow_does (N := SimNet) no_files no_env some_text flow_f flow_turn.
Proof.
  exists "v1", 7, true, go, flow_start, flow_end.
  exists (fst (round no_files no_env some_text "flow:f" out_prog "v1" 7 true go [good_message] flow_start)).
  exists (taken (client (link flow_end))). split; [exact sim_link_ok|]. split; [by vm_compute|]. split; [done|].
  split; [by intros m ->%list_elem_of_singleton|]. split; [|split; [|split; [|split]]]; try done.
  intros ev eng c eng' em Hr Hin. pose proof (out_runs ev eng) as H. cbn [fu_prog flow_f] in Hr. rewrite Hr in H. rewrite H in Hin.
  by apply list_elem_of_singleton in Hin as ->.
Qed.

Lemma sink_turn_does : sink_does (N := SimNet) no_env fussy sink_o sink_turn.
Proof.
  exists 7, (λ _, f64_zero), (λ _, (0, 0)), false, (λ _, true), [Ok [out_message]], sink_start.
  exists (taken (client (sk_link sink_end))). split; [|done].
  intros ms m [= ->]%list_elem_of_singleton Hm. exact Hm.
Qed.

Lemma chain_events : events in_stream (history chained) = [("vx.in", data good_message); ("vx.out", data out_message)].
Proof. vm_compute. reflexivity. Qed.
Lemma flow_events : events in_stream (arrived ++ tn_effects flow_turn) = [("vx.in", data good_message); ("vx.out", data out_message)].
Proof. vm_compute. reflexivity. Qed.
Lemma chain_acks : tn_acks flow_turn = ["$JS.ACK.V.f.1.1.1.1.0"] ∧ tn_acks sink_turn = ["$JS.ACK.V.http_out_o.1.2.1.1.0"].
Proof. split; vm_compute; reflexivity. Qed.

Lemma chain_runs : rtc (step chain in_stream) nothing chained.
Proof.
  destruct chain_acks as [Hf Hs].
  eapply rtc_l; [exact (st_others chain in_stream nothing arrived)|].
  eapply rtc_l.
  { eapply (st_turn chain in_stream _ _ flow_turn (tn_effects flow_turn)); [by left|exact flow_turn_does| |].
    - intros e He. apply elem_of_app. by right.
    - intros m ->%list_elem_of_singleton. exists 0%nat, "$JS.ACK.V.f.1.1.1.1.0".
      split; [exact (f_equal (λ l : list pub, l !! 0%nat) flow_events)|]. split; [done|]. split; [done|]. split; [vm_compute; reflexivity|done]. }
  eapply rtc_l; [eapply (st_ack chain in_stream _ "$JS.ACK.V.f.1.1.1.1.0" ("f", 1)); [|vm_compute; reflexivity]|].
  { cbn [sent]. rewrite Hf. cbn. by left. }
  eapply rtc_l.
  { eapply (st_turn chain in_stream _ _ sink_turn (tn_effects sink_turn)); [by right; right; left|exact sink_turn_does| |].
    - intros e He. apply elem_of_app. by right.
    - intros m ->%list_elem_of_singleton. exists 1%nat, "$JS.ACK.V.http_out_o.1.2.1.1.0".
      split; [exact (f_equal (λ l : list pub, l !! 1%nat) chain_events)|]. split; [done|]. split; [done|]. split; [vm_compute; reflexivity|done]. }
  eapply rtc_l; [eapply (st_ack chain in_stream _ "$JS.ACK.V.http_out_o.1.2.1.1.0" ("http_out_o", 2)); [|vm_compute; reflexivity]|].
  { cbn [sent]. rewrite Hs. apply elem_of_app. right. by left. }
  cbn [history sent acked begins nothing app]. apply rtc_refl.
Qed.

Lemma chain_differ : NoDup (map durable chain).
Proof. apply (bool_decide_unpack _). vm_compute. exact I. Qed.
Lemma chain_drained : drained chain in_stream chained.
Proof.
  intros c k p Hc Hk Hl. rewrite chain_events in Hk.
  destruct k as [|[|k]]; [injection Hk as <-|injection Hk as <-|by destruct k];
    apply elem_of_cons in Hc as [->|[->|[->|[]%elem_of_nil]%elem_of_cons]%elem_of_cons]; try discriminate Hl.
  - right. by left.
  - by left.
Qed.

(** A detection whose consumer is created again past a message is not handed it
    any more. *)
Example passed_over : let w := {| history := [Published ("vx.d", "")]; sent := []; acked := []; begins := {["detect_d" := 2]} |} in
  rtc (step chain in_stream) nothing w ∧ ∀ c, c ∈ chain → listens c "vx.d" = true → ¬ unsettled w c 0.
Proof.
  split.
  - eapply rtc_l; [exact (st_others chain in_stream nothing [Published ("vx.d", "")])|].
    eapply rtc_l; [|apply rtc_refl]. exact (st_recreate chain in_stream _ _ 2 ltac:(right; by left) eq_refl).
  - intros c [->|[->|[->|[]%elem_of_nil]%elem_of_cons]%elem_of_cons]%elem_of_cons Hl; try discriminate Hl.
    intros [H _]. vm_compute in H. by apply H.
Qed.

Lemma project_loses_none_witness :
  NoDup (map durable chain) ∧ rtc (step chain in_stream) nothing chained ∧ drained chain in_stream chained ∧
  (∀ c k p, c ∈ chain → events in_stream (history chained) !! k = Some p → listens c (fst p) = true →
     unsettled chained c k ∨ settles c (.∈ history chained) p ∨
     (∃ d, d ∈ [detect_d] ∧ c = detect_consumer (N := SimNet) no_env (EN := toy_engine) (OB := map_objects) "vx" d) ∧
     Z.of_nat k + 1 < start_of chained c) ∧
  (∀ n p, p ∈ events in_stream (history chained) → followed chain in_stream (history chained) n p).
Proof.
  pose proof (project_loses_none (N := SimNet) no_files no_env some_text fussy (EN := toy_engine) (OB := map_objects) "vx"
    [flow_f] [detect_d] [sink_o] in_stream chained
    chain_differ chain_runs) as [H1 H2].
  split; [exact chain_differ|]. split; [exact chain_runs|]. split; [exact chain_drained|].
  split; [exact H1|exact (H2 chain_drained)].
Defined.
End Chain.
