(* ===== verification/SecretFile.v ===== *)
(** * The secrets file

    [FileStore::set] (core/src/secrets.rs): the new text goes to a file next to
    the secrets file, which is then renamed over it; where it cannot be renamed
    over, a file that is a mount of its own, it is written in place. *)

From stdpp Require Import base list strings countable.
From Stdlib Require Import ZArith Lia Ascii.
From S2P Require Import Prelude Text F64 Json Eval Secrets Concrete.
Open Scope string_scope.
Open Scope Z_scope.

(** The two files: what reading the first gives, and the second if it is
    there. *)
Record Disk : Type := { d_file : file_read; d_tmp : option string }.

(** How an attempt to open a file, truncate and write it ends: it is written, it
    could not be opened, or the write failed after some bytes. *)
Inductive Written : Type := Wrote | NotOpened (e : string) | Torn (bytes : nat) (e : string).
Inductive Renamed : Type := Moved | Busy | NotMoved (e : string).

Section File.
Context {SD : Serde}.

(** What is in a file after, given what was. *)
Definition left_in {A} (w : Written) (text : string) (now : string → A) (before : A) : A :=
  match w with Wrote => now text | NotOpened _ => before | Torn n _ => now (stake n text) end.
Definition io_result (w : Written) : res serr () :=
  match w with Wrote => Ok () | NotOpened e | Torn _ e => Err (SIo e) end.

(** The text of the file with one secret set. *)
Definition file_text (m : smap Value) (reference value : string) : string :=
  to_json_pretty (VObject (map_insert reference (VString value) m)).

(** [tmp], [move] and [direct] are how writing the temporary file, the rename
    and writing in place end. *)
(** core/src/secrets.rs:136-174 [FileStore::set] *)
Definition file_set (tmp : Written) (move : Renamed) (direct : Written) (reference value : string) (d : Disk)
  : res serr () * Disk :=
  match file_load (d_file d) with
  | Ok m =>
    let text := file_text m reference value in
    let d := {| d_file := d_file d; d_tmp := left_in tmp text Some (d_tmp d) |} in
    match io_result tmp with
    | Ok _ =>
      match move with
      | Moved => (Ok (), {| d_file := FText text; d_tmp := None |})
      | Busy => (io_result direct, {| d_file := left_in direct text FText (d_file d); d_tmp := None |})
      | NotMoved e => (Err (SIo e), {| d_file := d_file d; d_tmp := None |})
      end
    | r => (r, d)
    end
  | Err e => (Err e, d)
  | Panic => (Panic, d)
  | NoFuel => (NoFuel, d)
  end.
End File.

(** The pretty text of a document is not blank, which is how an empty file is told
    from one. *)
Class PrettySolid {SD : Serde} : Prop := pretty_solid : ∀ v, trim (to_json_pretty v) ≠ "".

Section Props.
Context {SD : Serde} {SO : SerdeOk} {PS : PrettySolid}.

(** A secrets file as the store writes it. *)
Definition secrets_ok (m : smap Value) : Prop := value_ok (VObject m) = true.

Lemma load_written m reference value :
  secrets_ok m → valid_utf8 reference = true → valid_utf8 value = true →
  file_load (FText (file_text m reference value)) = Ok (map_insert reference (VString value) m).
Proof.
  intros Hm Hr Hv. unfold file_load, file_text. destruct (String.eqb_spec (trim (to_json_pretty
    (VObject (map_insert reference (VString value) m)))) ""); [by destruct (pretty_solid (VObject (map_insert reference (VString value) m)))|].
  rewrite serde_roundtrip_pretty; [done|]. by apply value_ok_insert.
Qed.

(** A secret that was set is what a get gives, and every other reference
    gives what it gave; a set that fails leaves the secrets as they were, unless
    the file had to be written in place and that write broke off. *)
Theorem secret_set_get tmp move direct reference value d m :
  file_load (d_file d) = Ok m → secrets_ok m → valid_utf8 reference = true → valid_utf8 value = true → value ≠ "" →
  let '(r, d') := file_set tmp move direct reference value d in
  (r = Ok () → ss_get (file_store (d_file d')) reference = Ok value ∧
     ∀ other, other ≠ reference → ss_get (file_store (d_file d')) other = ss_get (file_store (d_file d)) other) ∧
  (r ≠ Ok () → (∀ n e, move = Busy → direct ≠ Torn n e) → d_file d' = d_file d).
Proof.
  intros Hl Hm Hr Hv Hne. unfold file_set. rewrite Hl. set (text := file_text m reference value).
  assert (ss_get (file_store (FText text)) reference = Ok value ∧
    ∀ other, other ≠ reference → ss_get (file_store (FText text)) other = ss_get (file_store (d_file d)) other) as Hset.
  { cbn [file_store ss_get]. rewrite Hl. unfold text. rewrite load_written by done. cbn [mbind res_mbind res_bind].
    rewrite map_get_insert_eq. cbn. destruct (String.eqb_spec value ""); [done|]. split; [done|]. intros other Ho.
    by rewrite map_get_insert_ne. }
  destruct tmp; cbn [io_result]; [|by split..]. destruct move.
  - by split.
  - destruct direct; cbn; (split; [done|]); try done. intros _ Ht. by destruct (Ht bytes e).
  - by split.
Qed.
End Props.

(** ** A file that is a mount *)

Lemma drop_while_none {A} (f : A → bool) l : (∀ x, x ∈ l → f x = false) → drop_while f l = l.
Proof. destruct l as [|x l]; [done|]. cbn. intros H. by rewrite H by left. Qed.

Lemma trim_solid s : all_chars (λ c, negb (is_whitespace c)) s = true → trim s = s.
Proof.
  intros H. assert (∀ x, x ∈ chunks s → chunk_ws x = false) as Hc.
  { intros [[c|] bs] Hin; [|done]. unfold all_chars in H. rewrite forallb_forall in H. cbn.
    apply negb_true_iff, H, list_elem_of_In. unfold chars. apply list_elem_of_omap. by exists (Some c, bs). }
  unfold trim, trim_end, trim_start. rewrite (drop_while_none chunk_ws (chunks s) Hc), unchunk_chunks.
  rewrite drop_while_none by (intros x Hx; apply Hc; by rewrite elem_of_reverse in Hx || (apply list_elem_of_In, in_rev, list_elem_of_In; exact Hx)).
  by rewrite rev_involutive, unchunk_chunks.
Qed.

#[export] Instance printer_solid : PrettySolid (SD := printer).
Proof.
  intros v. change (trim (print v) ≠ ""). unfold print. destruct (dec_of_N_spec (Npos (encode (enc v)))) as (_ & Hne & H).
  rewrite trim_solid; [done|]. unfold all_chars in *. rewrite forallb_forall in *. intros c Hc. specialize (H c Hc).
  unfold is_ascii_digit in H. bool_prop. apply negb_true_iff, not_true_iff_false. unfold is_whitespace. intros Hw.
  repeat (apply orb_true_iff in Hw as [Hw|Hw]); bool_prop; lia.
Qed.

Definition mounted : Disk := {| d_file := FText (to_json_pretty (obj [("db/user", VString "u")])); d_tmp := None |}.
Lemma mounted_loads : file_load (d_file mounted) = Ok [("db/user", VString "u")].
Proof. vm_compute. reflexivity. Qed.

Lemma secret_set_get_witness :
  let '(r, d') := file_set Wrote Busy Wrote "db/password" "p" mounted in
  (r = Ok () → ss_get (file_store (d_file d')) "db/password" = Ok "p" ∧
     ∀ other, other ≠ "db/password" → ss_get (file_store (d_file d')) other = ss_get (file_store (d_file mounted)) other) ∧
  (r ≠ Ok () → (∀ n e, Busy = Busy → Wrote ≠ Torn n e) → d_file d' = d_file mounted).
Proof.
  apply (secret_set_get Wrote Busy Wrote "db/password" "p" mounted [("db/user", VString "u")] mounted_loads);
    [vm_compute; reflexivity|vm_compute; reflexivity|vm_compute; reflexivity|discriminate].
Defined.

(** A write in place that breaks off takes every secret with it. *)
Example torn_in_place :
  let d := snd (file_set Wrote Busy (Torn 0 "no space left on device") "db/password" "p" mounted) in
  ss_get (file_store (d_file d)) "db/user" = Err (SNotSet "db/user").
Proof. vm_compute. reflexivity. Qed.

(** ** Vault *)

(** A Vault that cannot be read for a moment and then written to: what was at the
    path is replaced by the one key. *)
Definition flaky_vault (posted : string) (method url : string) (headers : list (string * string)) (body : option string)
  : res string (Z * string) :=
  if String.eqb method "GET" then Ok (503, "") else if bool_decide (body = Some posted) then Ok (204, "") else Ok (400, "").
Example vault_set_drops_keys :
  vault_set (flaky_vault (to_json (obj [("data", obj [("password", VString "p")])])))
    {| v_addr := "http://vault"; v_token := "t"; v_mount := "secret" |} "db/password" "p" = Ok ().
Proof. vm_compute. reflexivity. Qed.
