(* ===== verification/DetectUnit.v ===== *)
(** * The life of a detect unit

    [supervise_detect] (core/src/main.rs) whole: its settings, an attempt from
    the source to the end of its loop, the attempts one after the other; and
    what its snapshots are for, that a crash at any moment leaves the engine
    where it would have been without. *)

From stdpp Require Import base gmap list strings relations.
From Stdlib Require Import ZArith Lia.
From S2P Require Import Prelude Triples Text F64 Json Eval Bus Dlq Traces Flow FlowProps Versions Connect Metrics Sinks Registry Supervise Detect Pipeline Progress Concrete.
Open Scope string_scope.
Open Scope Z_scope.

(** ** Settings *)

(** Times in seconds. *)
Record DetectSettings : Type := {
  ds_url : string;
  ds_stream : string;
  ds_subj_root : string;
  ds_snapshot_every : Z;
  ds_snapshot_every_acks : Z;
  ds_idle_grace : option Z
}.

(** core/src/main.rs:1412-1432 [supervise_detect] *)
Definition detect_settings (env : string → option string) : DetectSettings := {|
  ds_url := default "nats://127.0.0.1:4222" (env "NATS_URL");
  ds_stream := default "VEJAS" (env "VEJAS_STREAM");
  ds_subj_root := default "vx" (env "VEJAS_SUBJECT_ROOT");
  ds_snapshot_every := Z.max 1 (default 5 (env "VEJAS_SNAPSHOT_SECS" ≫= parse_u64));
  ds_snapshot_every_acks := Z.max 1 (default 10000 (env "VEJAS_SNAPSHOT_ACKS" ≫= parse_u64));
  ds_idle_grace :=
    let secs := default 60 (env "VEJAS_IDLE_CLOSE_SECS" ≫= parse_u64) in
    if secs =? 0 then None else Some secs
|}.

(** ** An attempt *)

Section Attempt.
Context {SD : Serde} {N : Type} {NET : Net N} {P : Type} {EN : Engine P} {O : Type} {OB : Objects O}.
Context (env : string → option string) (name : string) (why : snapshot_err → string).
Context (now : Z) (took : Message → f64) (round_secs : f64 * f64) (snapshot_secs : f64) (spawns : bool)
  (alive : nat → bool).

(** What the loop starts from. *)
(** core/src/main.rs:1583-1597 [supervise_detect] *)
Definition fresh_detect (link : Link N) (dlq : Dlq) (traces : Traces) (units : UNITS) (asked : nat)
  (program : P) (store : option O) : Detect N P O := {|
  de_link := link; de_dlq := dlq; de_traces := traces; de_units := units; de_program := program; de_store := store;
  de_outbox := {| held := [] |}; de_to_ack := []; de_channel := []; de_acked_max := 0; de_retrying := ∅; de_acks := 0;
  de_last_error := None; de_asked := asked
|}.

(** What an attempt finds: the source, the connection, the snapshots' bucket
    if it opens, the creation of the consumer at a place, its ack floor, and
    the turns of the loop that are followed. *)
Record Try : Type := {
  ty_src : res string string;
  ty_link : res string (Link N);
  ty_opens : bool;
  ty_create : option Z → res string ();
  ty_floor : res string Z;
  ty_turns : list Detect.Turn
}.

(** What lasts from one attempt to the next: the attempts made, the bucket, and
    what the process keeps. *)
Record Lasting : Type := {
  la_tries : nat; la_store : O; la_dlq : Dlq; la_traces : Traces; la_units : UNITS
}.
Notation R := (sr (Sup Lasting) string).

(** The thread is still in the loop when the turns that are followed are
    over. *)
(** core/src/main.rs:1440-1783 [supervise_detect] *)
Definition detect_attempt (tries : nat → Try) : R () := λ s,
  let w := su_world s in
  let t := tries (la_tries w) in
  let cfg := detect_settings env in
  let again w := {| la_tries := S (la_tries w); la_store := la_store w; la_dlq := la_dlq w; la_traces := la_traces w;
                    la_units := la_units w |} in
  let put (w : Lasting) (s : Sup Lasting) := {| su_state := su_state s; su_asked := su_asked s; su_slept := su_slept s; su_world := w |} in
  let start :=
    src ← ty_src t;
    _ ← load_program (ds_subj_root cfg) src;
    link ← ty_link t;
    detect_start name (ds_subj_root cfg) why now snapshot_secs (Ok src)
      (if ty_opens t then Some (la_store w) else None) (ds_idle_grace cfg) (ty_create t) (ty_floor t)
      (fresh_detect link (la_dlq w) (la_traces w) (la_units w) (su_asked s)) in
  match start with
  | Ok (d, version, bindings) =>
    let '(r, d) := detect_turns env name (ds_subj_root cfg) now took round_secs snapshot_secs spawns alive version
                     (unit_stem name) bindings (ds_idle_grace cfg) (ds_snapshot_every_acks cfg) (ty_turns t) d in
    let st := started "running" now (su_state s) in
    let st := {| st_status := st_status st; st_restarts := st_restarts st; st_started_at := st_started_at st;
                 st_last_error := de_last_error d |} in
    let w := {| la_tries := S (la_tries w); la_store := default (la_store w) (de_store d); la_dlq := de_dlq d;
                la_traces := de_traces d; la_units := de_units d |} in
    let s := {| su_state := st; su_asked := de_asked d; su_slept := su_slept s; su_world := w |} in
    (more ← r; if (more : bool) then NoFuel else Ok (), s)
  | Err e => (Err e, put (again w) s)
  | Panic => (Panic, put (again w) s)
  | NoFuel => (NoFuel, put (again w) s)
  end.

(** core/src/main.rs:1411-1801 [supervise_detect] *)
Definition supervise_detect (panic_text : string) (tries : nat → Try) (n : nat) : R () :=
  supervise alive panic_text (detect_attempt tries) n.
End Attempt.

(** ** A crash leaves the engine where it was *)

(** What a program becomes by being fed. *)
Definition fed {P} {EN : Engine P} (p p' : P) : Prop := ∃ ty d, p' = snd (feed_json ty d p).

(** An engine whose snapshots resume, while it is judged in event time alone: what
    is not an event leaves it as it was, and the program that a snapshot is
    restored to goes on as the one it was taken of. *)
Class Resumable (P : Type) {EN : Engine P} := {
  not_event_inert ty d (p : P) e p' : feed_json ty d p = (NotEvent e, p') → p' = p;
  resumes src (p0 p : P) state :
    compile src = Ok p0 → rtc fed (set_idle_grace None p0) p → take_snapshot p = Ok state →
    ∃ p1, restore state p0 = (Ok (), p1) ∧ set_idle_grace None p1 = p
}.

(** A bucket whose put leaves what was there when it fails, or is done all the
    same. *)
Class ObjectsKeep (O : Type) {OB : Objects O} : Prop :=
  obj_put_keeps k v (o o' : O) r : obj_put k v o = (r, o') →
    (r ≠ Ok () ∧ obj_get k o' = obj_get k o) ∨ obj_get k o' = Ok (Some v).

Section Crash.
Context {SD : Serde} {SO : SerdeOk} {N : Type} {NET : Net N} {NL : NetLaws N} {LV : NetLive N}.
Context {P : Type} {EN : Engine P} {RE : Resumable P} {O : Type} {OB : Objects O} {OK : ObjectsKeep O}.
Context (env : string → option string) (name subj_root : string) (why : snapshot_err → string).
Context (took : Message → f64) (round_secs : f64 * f64) (snapshot_secs : f64) (spawns : bool).
Context (src : string) (pc : P) (bindings : list (string * string)).
(** All that the stream has for the unit, in the order of their sequences, each
    delivered once. *)
Context (stream : list Message).
Notation version := (hash_content src).
Notation seq := seq_of_message.

Hypothesis loads : load_program subj_root src = Ok (pc, version, bindings).
Hypothesis stateful : program_is_stateful pc = true.
Hypothesis states_fit : ∀ (p : P) state, take_snapshot p = Ok state → Z.of_nat (slen state) <= u64_max.
Hypothesis in_order : Sorted.StronglySorted (λ m m', seq m < seq m') stream.
Hypothesis seqs : ∀ m, m ∈ stream → 0 < seq m < u64_max ∧ attempts m < MAX_DELIVERIES.
(** No emit is refused for its subject or its size. *)
Hypothesis accepted : ∀ ty d (p p' : P) l e b (lk : Link N),
  feed_json ty d p = (Emits l, p') → e ∈ l → fine (client lk) →
  batch_publish (emit_subject e subj_root (unit_stem name)) (em_payload e) b lk =
    Ok {| held := (held b ++ [(emit_subject e subj_root (unit_stem name), em_payload e)])%list |}.

Definition feed_one (p : P) (m : Message) : P :=
  match find (λ b, subject_matches (fst b) (subject m)) bindings with
  | Some (_, ty) => snd (feed_json ty (data m) p)
  | None => p
  end.
(** The program after some messages, of a unit that was never stopped. *)
Definition after (l : list Message) : P := fold_left feed_one l (set_idle_grace None pc).

(** The messages up to a sequence and those after it. *)
Definition split_at (q : Z) (D R : list Message) : Prop := (∀ m, m ∈ D → seq m <= q) ∧ ∀ m, m ∈ R → q < seq m.

(** The bucket has a snapshot of this program, of the state it had at the
    sequence the snapshot names. *)
Definition covers (o : O) : Prop := ∃ snap D R,
  snapshot_get why name o = Ok (Some snap) ∧ sn_version snap = version ∧ 0 <= sn_seq snap < u64_max ∧
  stream = (D ++ R)%list ∧ split_at (sn_seq snap) D R ∧ take_snapshot (after D) = Ok (sn_state snap).

(** A life of the unit: it starts on the bucket and works on what the stream has
    after the place where it resumes, turn after turn, over a connection that
    works, and is killed. *)
Definition lives (o : O) (s' : Detect N P O) : Prop :=
  ∃ now link dlq traces units asked create floor s p q ts alive every,
    fine (client link) ∧ 0 <= next_id link < 2 ^ 64 ∧ 0 <= now <= u64_max ∧
    detect_start name subj_root why now snapshot_secs (Ok src) (Some o) None create floor
      (fresh_detect link dlq traces units asked) = Ok (s, version, bindings) ∧
    resume_point name why version pc (Some o) = Ok (p, Some q) ∧
    concat (map tn_arrived ts) `prefix_of` filter (λ m, q <= seq m) stream ∧
    s' = snd (detect_turns env name subj_root now took round_secs snapshot_secs spawns alive version
                (unit_stem name) bindings None every ts s).
Definition crash (o o' : O) : Prop := ∃ s, lives o s ∧ de_store s = Some o'.

(** ** The proof *)

(** The highest sequence done once the batch is confirmed. *)
Definition top (s : Detect N P O) : Z := fold_left Z.max (map snd (de_to_ack s)) (de_acked_max s).
(** The messages that a snapshot at the top stands for are those that were fed,
    but for some that are not events. *)
Definition stands_for (L : list Message) (q : Z) : Prop :=
  ∃ D R, L = (D ++ R)%list ∧ split_at q D R ∧ after D = after L.

(** After [L] of the stream, before [rest], within a batch. *)
Record Inv (L rest C : list Message) (s : Detect N P O) : Prop := {
  i_split : stream = (L ++ rest)%list;
  i_prog : de_program s = after L;
  i_fine : fine (client (de_link s));
  i_id : 0 <= next_id (de_link s) < 2 ^ 64;
  i_channel : de_channel s = C;
  i_store : ∃ o, de_store s = Some o ∧ covers o;
  i_top : 0 <= top s < u64_max ∧ ∀ m, m ∈ rest → top s < seq m;
  i_retry : ∀ r, r ∈ de_retrying s → (∀ m, m ∈ rest → r < seq m) ∧ r ∉ map snd (de_to_ack s);
  i_acks : 0 <= de_acks s;
  i_cov : de_retrying s = ∅ → 0 < de_acks s ∨ de_to_ack s ≠ [] → stands_for L (top s)
}.
(** What holds wherever the unit is killed. *)
Definition on_track (s : Detect N P O) : Prop :=
  (∃ k, de_program s = after (take k stream)) ∧ ∃ o, de_store s = Some o ∧ covers o.

Lemma inv_on_track L rest C s : Inv L rest C s → on_track s.
Proof. intros H. split; [|by destruct H]. exists (length L). by rewrite (i_split _ _ _ _ H), take_app_length, (i_prog _ _ _ _ H). Qed.

(** A step that leaves alone what the invariant is about, but for the link and
    the books of retries. *)
Definition aside (s s' : Detect N P O) : Prop :=
  de_program s' = de_program s ∧ de_store s' = de_store s ∧ de_channel s' = de_channel s ∧
  de_acked_max s' = de_acked_max s ∧ de_to_ack s' = de_to_ack s ∧ de_acks s' = de_acks s ∧
  next_id (de_link s') = next_id (de_link s) ∧ fine (client (de_link s')).

Lemma answer_client p m (l : Link N) : fine (client l) →
  fine (client (snd (answer p m l))) ∧ next_id (snd (answer p m l)) = next_id l.
Proof.
  intros Hn. unfold answer. destruct (reply m) as [r|]; [|done].
  by destruct (fine_publish r p (client l) Hn) as (n & -> & Hn' & _).
Qed.
Lemma ack_all_client ms : ∀ l : Link N, fine (client l) →
  fine (client (snd (ack_all ms l))) ∧ next_id (snd (ack_all ms l)) = next_id l.
Proof.
  induction ms as [|m ms IH]; intros l Hn; [done|]. cbn [ack_all]. unfold ack.
  pose proof (answer_client "" m l Hn) as [H1 H2]. destruct (answer "" m l) as [[[]|e| |] l1]; try done.
  destruct (IH l1 H1) as [? ?]. split; [done|]. cbn in H2. congruence.
Qed.

Lemma dead_letter_aside at_ m err s : fine (client (de_link s)) →
  ∃ s', dead_letter env name at_ spawns version m err s = (Ok (), s') ∧ aside s s' ∧
    de_retrying s' = de_retrying s ∖ {[seq m]}.
Proof.
  intros Hn. unfold dead_letter, mbind, sr_bind, de_park, to_dlq. cbv zeta.
  destruct (fine_store (DLQ_ROOT ++ "." ++ dlq_unit_token name)
    (to_json (envelope name (subject m) (attempts m) err (data m) version at_)) _ Hn) as (z & n & -> & Hn').
  destruct (announce_dead_letter _ _ _ _ _ _ _ _) as [d due].
  pose proof (answer_client "" m (set_client (publish_all env due n) (de_link s)) (publish_all_fine env due n Hn')) as [H1 H2].
  eexists. split; [reflexivity|]. split; [|done]. repeat split; try done; cbn.
Qed.

Lemma feed_after L m : after (L ++ [m]) = feed_one (after L) m.
Proof. unfold after. by rewrite fold_left_app. Qed.

Lemma top_snoc (s : Detect N P O) x : top (de_set_to_ack (de_to_ack s ++ [x])%list s) = Z.max (top s) (snd x).
Proof. unfold top. cbn. by rewrite map_app, fold_left_app. Qed.
Lemma aside_top s s' : aside s s' → top s' = top s.
Proof. intros (_ & _ & _ & Ha & Ht & _). unfold top. by rewrite Ha, Ht. Qed.

Lemma sorted_after L m rest : stream = (L ++ m :: rest)%list → ∀ m', m' ∈ rest → seq m < seq m'.
Proof.
  intros E. pose proof in_order as H. rewrite E in H. clear E. induction L as [|x L IH]; cbn in H; inversion H as [|? ? Hs Hf]; subst.
  - intros m' Hin. rewrite Forall_forall in Hf. by apply Hf.
  - by apply IH.
Qed.
Lemma le_top (s : Detect N P O) x : x ∈ map snd (de_to_ack s) → x <= top s.
Proof.
  unfold top. generalize (de_acked_max s). induction (map snd (de_to_ack s)) as [|y l IH]; intros a Hin; [by apply elem_of_nil in Hin|].
  cbn. apply elem_of_cons in Hin as [->|Hin]; [|by apply IH].
  assert (∀ l b, b <= fold_left Z.max l b) as Hle; [|specialize (Hle l (Z.max a y)); lia].
  clear. induction l as [|z l IH]; intros b; cbn; [lia|]. specialize (IH (Z.max b z)). lia.
Qed.

(** A message that is left for later, or of which there is nothing to wait
    for. *)
Lemma inv_aside L m rest C s s' :
  Inv L (m :: rest) C s → aside (de_set_program (feed_one (after L) m) s) s' →
  (∀ r, r ∈ de_retrying s' → r ∈ de_retrying s ∨ r = seq m) →
  (de_retrying s' = ∅ → de_retrying s = ∅ ∧ feed_one (after L) m = after L) →
  Inv (L ++ [m]) rest C s'.
Proof.
  intros [H1 H2 H3 H4 H5 H6 [H7 Ht] H8 H9 H10] Ha Hr Hc. pose proof (aside_top _ _ Ha) as Etop.
  destruct Ha as (A1 & A2 & A3 & A4 & A5 & A6 & A7 & A8). cbn in A1, A2, A3, A4, A5, A6, A7.
  change (top (de_set_program _ s)) with (top s) in Etop.
  assert (top s < seq m) as Hm by (apply Ht; by left). split; rewrite ?A1, ?A2, ?A3, ?A6, ?A7; try done.
  - by rewrite <- app_assoc.
  - by rewrite feed_after.
  - rewrite Etop. split; [done|]. intros m' Hin. apply Ht. by right.
  - intros r Hin. rewrite A5. destruct (Hr r Hin) as [Hin'| -> ].
    + destruct (H8 r Hin') as [Hl ?]. split; [|done]. intros m' ?. apply Hl. by right.
    + split; [by eapply sorted_after|]. intros Hx. apply le_top in Hx. lia.
  - intros He Hor. destruct (Hc He) as [He' Hf]. rewrite A5 in Hor. destruct (H10 He' Hor) as (D & R & -> & [Hd Hd'] & Hq).
    rewrite Etop. exists D, (R ++ [m])%list. split; [by rewrite app_assoc|]. split; [split; [done|]|].
    + intros m' [Hin|Hin%list_elem_of_singleton]%elem_of_app; [by apply Hd'|by subst].
    + rewrite feed_after, Hf. exact Hq.
Qed.

(** A message of which the emits are held. *)
Lemma inv_held L m rest C s s' :
  Inv L (m :: rest) C s →
  aside (de_set_to_ack (de_to_ack s ++ [(m, seq m)])%list (de_set_program (feed_one (after L) m) s)) s' →
  de_retrying s' = de_retrying s → Inv (L ++ [m]) rest C s'.
Proof.
  intros [H1 H2 H3 H4 H5 H6 [H7 Ht] H8 H9 H10] Ha Hr. pose proof (aside_top _ _ Ha) as Etop.
  destruct Ha as (A1 & A2 & A3 & A4 & A5 & A6 & A7 & A8). cbn in A1, A2, A3, A4, A5, A6, A7.
  assert (top s < seq m) as Hm by (apply Ht; by left).
  assert (top s' = seq m) as Em.
  { rewrite Etop. pose proof (top_snoc s (m, seq m)) as E. cbn in E. unfold top in *. cbn in *. rewrite E. lia. }
  assert (m ∈ stream) as Hin by (rewrite H1; apply elem_of_app; right; by left).
  split; rewrite ?A1, ?A2, ?A3, ?A6, ?A7; try done.
  - by rewrite <- app_assoc.
  - by rewrite feed_after.
  - rewrite Em. destruct (seqs m Hin) as [? _]. split; [lia|]. by eapply sorted_after.
  - intros r Hin'. rewrite Hr in Hin'. destruct (H8 r Hin') as [Hl Hn]. split; [intros m' ?; apply Hl; by right|].
    rewrite A5, map_app. intros [?|Hx%list_elem_of_singleton]%elem_of_app; [done|]. cbn in Hx. subst r.
    specialize (Hl m). assert (seq m < seq m) by (apply Hl; by left). lia.
  - intros _ _. rewrite Em. exists (L ++ [m])%list, []. rewrite app_nil_r. split; [done|]. split; [|done]. split; [|by intros ? ?%elem_of_nil].
    intros m' [Hl|Hl%list_elem_of_singleton]%elem_of_app; [|subst; lia].
    apply list_elem_of_split in Hl as (L1 & L2 & ->). rewrite <- app_assoc in H1. cbn in H1.
    assert (seq m' < seq m); [|lia]. eapply sorted_after; [exact H1|]. apply elem_of_app. right. by left.
Qed.

Lemma hold_accepted l : ∀ b (lk : Link N), fine (client lk) →
  (∀ e, e ∈ l → ∃ ty d p p' l0, feed_json ty d p = (Emits l0, p') ∧ e ∈ l0) →
  ∃ b' subjects, hold_emits subj_root (unit_stem name) l b lk = (Ok (true, subjects), b').
Proof.
  induction l as [|e l IH]; intros b lk Hn Hl; cbn [hold_emits]; [by eexists _, _|].
  destruct (Hl e) as (ty & d & p & p' & l0 & Hf & He); [by left|]. rewrite (accepted _ _ _ _ _ _ b lk Hf He Hn).
  destruct (IH {| held := (held b ++ [(emit_subject e subj_root (unit_stem name), em_payload e)])%list |} lk Hn) as (b' & su & ->).
  { intros e' H. apply Hl. by right. }
  by eexists _, _.
Qed.

Lemma confirm_id b (l : Link N) : 0 <= next_id l < 2 ^ 64 → 0 <= next_id (snd (confirm b l)) < 2 ^ 64.
Proof.
  intros Hid. unfold confirm. destruct (held b); [done|]. destruct (negb _); [done|]. cbv zeta.
  destruct (send_all _ _) as [[[]|e| |] n]; try done. unfold barrier_since, barrier. cbn [next_id set_client].
  pose proof (Z.mod_pos_bound (next_id l + 1) (2 ^ 64)) as Hb. fold (wrap 64 (next_id l + 1)) in Hb.
  destruct (net_publish _ _ _) as [[[]|e| |] n1]; cbn; try lia.
  destruct (net_echoes _ _) as [ps n2]. cbn. destruct (bool_decide _); cbn; lia.
Qed.

(** A snapshot that stands for what was fed is one that covers. *)
Lemma snapshot_covers at_ q L rest (s : Detect N P O) o : 0 <= at_ <= u64_max →
  stream = (L ++ rest)%list → de_program s = after L → (∀ m, m ∈ rest → q < seq m) → 0 <= q < u64_max →
  stands_for L q → de_store s = Some o → covers o →
  ∃ o' u, snd (snapshot_unit name at_ snapshot_secs version q s) = de_set_units u (de_set_store (Some o') s) ∧ covers o'.
Proof.
  intros Hat Hs Hp Hr Hq (D & R & -> & [Hd Hd'] & Ha) Ho Hc. unfold snapshot_unit. rewrite Ho.
  assert (s = de_set_units (de_units s) (de_set_store (Some o) s)) as Hsame by (destruct s; cbn in *; by subst).
  destruct (take_snapshot (de_program s)) as [state|e| |] eqn:Et; [|by exists o, (de_units s)..].
  unfold snapshot_put. set (snap := {| sn_version := version; sn_seq := q; sn_taken_at := at_; sn_state := state |}).
  destruct (obj_put name (snapshot_bytes snap) o) as [r o'] eqn:Ep.
  assert (covers o') as Hc'.
  { destruct (obj_put_keeps _ _ _ _ _ Ep) as [[_ Hg]|Hg].
    - destruct Hc as (sn & D' & R' & Hsn & Hrest). exists sn, D', R'. split; [|done]. unfold snapshot_get in *. by rewrite Hg.
    - exists snap, D, (R ++ rest)%list. split; [|split; [done|split; [done|]]].
      + unfold snapshot_get. rewrite Hg, snapshot_roundtrip; [done|apply hash_content_utf8|cbn; lia|done|]. cbn. by eapply states_fit.
      + split; [by rewrite Hs, app_assoc|]. split; [|by rewrite Ha, <- Hp]. split; [done|].
        intros m [Hin|Hin]%elem_of_app; [by apply Hd'|by apply Hr]. }
  destruct r as [u|e| |]; eexists _, _; (split; [|exact Hc']); cbn; reflexivity.
Qed.

Section Turns.
Context (at_ : Z) (alive : nat → bool) (every : Z).
Hypothesis at_ok : 0 <= at_ <= u64_max.
Notation T := (triple on_track).

Lemma ok_step {A} (m : sr (Detect N P O) string A) s s' a (Q : A → Detect N P O → Prop) :
  m s = (Ok a, s') → Q a s' → (Q a s' → on_track s') → on_track (snd (m s)) ∧ match m s with (Ok a, s') => Q a s' | _ => True end.
Proof. intros -> HQ H. split; [by apply H|done]. Qed.

Lemma message_step m L rest C :
  T (Inv L (m :: rest) C) (detect_message env name subj_root at_ took spawns version (unit_stem name) bindings m)
    (λ _, Inv (L ++ [m]) rest C).
Proof.
  intros s Hs. unfold detect_message. destruct (find _ _) as [[pat ty]|] eqn:Ef; [|split; [by eapply inv_on_track|done]].
  unfold mbind at 1 3, sr_bind at 1 3. destruct (feed_json ty (data m) (de_program s)) as [f p] eqn:E.
  assert (p = feed_one (after L) m) as ->.
  { unfold feed_one. rewrite Ef, <- (i_prog _ _ _ _ Hs), E. done. }
  assert (fine (client (de_link s))) as Hn by apply Hs.
  destruct f as [l|e|e].
  - unfold emitted. cbn [de_link de_outbox de_set_program].
    destruct (hold_accepted l (de_outbox s) (de_link s) Hn) as (b' & su & Hh); [intros e He; by eexists _, _, _, _, _|].
    rewrite Hh. eapply ok_step; [reflexivity| |apply inv_on_track].
    eapply inv_held; [exact Hs| |done]. repeat split; done.
  - assert (feed_one (after L) m = after L) as Hp.
    { rewrite (i_prog _ _ _ _ Hs) in E. by eapply not_event_inert. }
    unfold mbind, sr_bind, de_measure, sr_mod. cbn beta iota.
    match goal with |- context [dead_letter _ _ _ _ _ _ _ ?x] => set (s1 := x) end.
    destruct (dead_letter_aside at_ m ("bad payload: " ++ e) s1 Hn) as (s2 & Hd & Ha & Hr). rewrite Hd.
    assert (Inv (L ++ [m]) rest C s2) as Hi; [|by split; [eapply inv_on_track|]].
    eapply inv_aside; [exact Hs|exact Ha| |]; rewrite Hr; cbn [s1 de_retrying de_set_units de_set_program].
    + set_solver.
    + intros He. split; [|done]. assert (seq m ∉ de_retrying s); [|set_solver]. intros Hin.
      destruct (i_retry _ _ _ _ Hs _ Hin) as [Hl _]. specialize (Hl m). assert (seq m < seq m); [apply Hl; by left|lia].
  - unfold feed_failed. destruct (Z.leb_spec MAX_DELIVERIES (attempts m)) as [Hle|_].
    { destruct (seqs m); [rewrite (i_split _ _ _ _ Hs); apply elem_of_app; right; by left|lia]. }
    eapply ok_step; [reflexivity| |apply inv_on_track].
    eapply inv_aside; [exact Hs|by repeat split| |]; cbn; [set_solver|]. intros He. exfalso. set_solver.
Qed.

Lemma messages_step l : ∀ L rest C,
  T (Inv L (l ++ rest) C) (detect_messages env name subj_root at_ took spawns alive version (unit_stem name) bindings l)
    (λ more s, if more then Inv (L ++ l) rest C s else on_track s).
Proof.
  induction l as [|m l IH]; intros L rest C; cbn [detect_messages].
  { apply triple_ret. intros s Hs. rewrite app_nil_r. split; [by eapply inv_on_track|done]. }
  eapply triple_bind with (Q := λ _, Inv L (m :: l ++ rest) C).
  { intros s Hs. assert (Inv L (m :: l ++ rest) C (snd (de_alive alive s))) as H by (by destruct Hs; split).
    split; [by eapply inv_on_track|exact H]. }
  intros [|]; [|apply triple_ret; intros s Hs; split; by eapply inv_on_track].
  eapply triple_bind; [apply message_step|]. intros []. specialize (IH (L ++ [m])%list rest C).
  by rewrite <- app_assoc in IH.
Qed.

(** Between two batches. *)
Definition Rest (L rest C : list Message) (s : Detect N P O) : Prop := Inv L rest C (de_set_to_ack [] s).
Lemma rest_on_track L rest C s : Rest L rest C s → on_track s.
Proof. apply inv_on_track. Qed.
Ltac still := match goal with H : Rest _ _ _ _ |- _ => exact (rest_on_track _ _ _ _ H) end.
Lemma rest_both L rest C s : Rest L rest C s → on_track s ∧ Rest L rest C s.
Proof. intros H. split; [still|done]. Qed.

Lemma confirm_step L rest C : T (Inv L rest C) confirm_round (λ _, Rest L rest C).
Proof.
  intros s [H1 H2 H3 H4 H5 H6 H7 H8 H9 H10]. unfold confirm_round.
  pose proof (confirm_id (de_outbox s) (de_link s) H4) as Hid.
  destruct (confirm_fine (de_outbox s) (de_link s) H3 H4) as (b & l & Hc & Hn). rewrite Hc in Hid |- *. cbn [snd] in Hid.
  destruct (ack_all_client (map fst (de_to_ack s)) l Hn) as [Hn2 Hid2]. cbn [de_to_ack de_link de_set_link de_set_outbox].
  assert (de_retrying s ∖ list_to_set (map snd (de_to_ack s)) = ∅ → de_retrying s = ∅) as He.
  { intros He. apply set_eq. intros r. split; [|set_solver]. intros Hr. destruct (H8 r Hr) as [_ Hnt].
    assert (r ∈ de_retrying s ∖ list_to_set (map snd (de_to_ack s))); [|set_solver].
    apply elem_of_difference. split; [done|]. by rewrite elem_of_list_to_set. }
  apply rest_both. split; cbn; try done.
  - by rewrite Hid2.
  - intros r [Hr _]%elem_of_difference. destruct (H8 r Hr) as [? _]. split; [done|apply not_elem_of_nil].
  - lia.
  - intros Hr [Ha|]; [|done]. apply H10; [by apply He|]. destruct (de_to_ack s); [left; cbn in Ha; lia|by right].
Qed.

Lemma snapshot_step L rest C s : Rest L rest C s → may_snapshot s = true →
  ∃ o' u, snd (snapshot_unit name at_ snapshot_secs version (de_acked_max s) s) =
      de_set_units u (de_set_store (Some o') s) ∧ covers o'.
Proof.
  intros [H1 H2 H3 H4 H5 (o & Ho & Hc) [Htop Hl] H8 H9 H10] Hm. unfold may_snapshot in Hm. cbn in Ho. rewrite Ho in Hm.
  apply andb_true_iff in Hm as [Ha He]. apply bool_decide_eq_true in He. apply Z.ltb_lt in Ha.
  eapply snapshot_covers; try done. apply H10; [done|by left].
Qed.

Lemma if_due_step L rest C due : T (Rest L rest C)
  (snapshot_if_due name at_ snapshot_secs version every due) (λ _, Rest L rest C).
Proof.
  intros s Hs. unfold snapshot_if_due. destruct (may_snapshot s && _) eqn:Em.
  2: { split; [still|done]. }
  apply andb_true_iff in Em as [Hm _]. destruct (snapshot_step L rest C s Hs Hm) as (o' & u & He & Hc).
  destruct Hs as [H1 H2 H3 H4 H5 H6 H7 H8 H9 H10].
  destruct (snapshot_unit _ _ _ _ _ s) as [r s']. cbn [snd] in He. subst s'.
  assert (Rest L rest C (de_set_units u (de_set_store (Some o') s))) as Hr.
  { split; try done. by exists o'. }
  assert (Rest L rest C (de_set_books (de_acked_max s) (de_retrying s) 0 (de_set_units u (de_set_store (Some o') s)))) as Hz.
  { split; try done; [by exists o'|]. intros _ [Hlt|]; [cbn in Hlt; lia|done]. }
  destruct r; (split; [|done || exact Hr || exact Hz]); still.
Qed.

Lemma stop_step L rest C : T (Rest L rest C) (stop_detect name at_ snapshot_secs version) (λ more s, more = false ∧ on_track s).
Proof.
  intros s Hs. unfold stop_detect. destruct (may_snapshot s) eqn:Em; [|split; [still|split; [done|still]]].
  destruct (snapshot_step L rest C s Hs Em) as (o' & u & He & Hc).
  assert (on_track (de_set_units u (de_set_store (Some o') s))) as Hk.
  { destruct (rest_on_track _ _ _ _ Hs) as [? _]. split; [done|]. by exists o'. }
  destruct (snapshot_unit _ _ _ _ _ s) as [r s']. cbn [snd] in He. subst s'. destruct r; by split.
Qed.

(** The batch of a turn. *)
Lemma taken_step L queue F due : T (Rest L (queue ++ F) queue)
  (_ ← sr_mod (λ s, de_set_to_ack [] (de_set_channel (drop 256 queue) s));
   more ← detect_messages env name subj_root at_ took spawns alive version (unit_stem name) bindings (take 256 queue);
   if negb (more : bool) then mret false
   else
     _ ← confirm_round;
     _ ← sr_mod (λ s, de_set_units (observe_round name f64_zero (fst round_secs) (snd round_secs) (de_units s)) s);
     _ ← snapshot_if_due name at_ snapshot_secs version every due;
     mret true)
  (λ more s, if more then ∃ b C', queue = (b ++ C')%list ∧ Rest (L ++ b) (C' ++ F) C' s else on_track s).
Proof.
  set (b := take 256 queue). set (C' := drop 256 queue).
  assert (queue = b ++ C')%list as Hq by (symmetry; apply take_drop).
  eapply triple_bind with (Q := λ _, Inv L (b ++ C' ++ F) C').
  { apply triple_mod. intros s Hs. rewrite Hq, <- app_assoc in Hs. split; [still|]. by destruct Hs. }
  intros []. eapply triple_bind; [apply messages_step|]. intros [|]; cbn [negb].
  2: { apply triple_ret. by intros s Hs. }
  eapply triple_bind; [apply confirm_step|]. intros [].
  eapply triple_bind with (Q := λ _, Rest (L ++ b) (C' ++ F) C').
  { apply triple_mod. intros s Hs. apply rest_both. by destruct Hs. }
  intros []. eapply triple_bind; [apply if_due_step|]. intros [].
  apply triple_ret. intros s Hs. split; [still|]. by exists b, C'.
Qed.

(** A turn takes the next messages of what has arrived. *)
Lemma turn_step t L C F : T (Rest L (C ++ tn_arrived t ++ F) C)
  (detect_turn env name subj_root at_ took round_secs snapshot_secs spawns alive version (unit_stem name) bindings None every t)
  (λ more s, if more then ∃ b C', (C ++ tn_arrived t)%list = (b ++ C')%list ∧ Rest (L ++ b) (C' ++ F) C' s else on_track s).
Proof.
  unfold detect_turn. eapply triple_bind with (Q := λ _, Rest L (C ++ tn_arrived t ++ F) C).
  { intros s Hs. assert (Rest L (C ++ tn_arrived t ++ F) C (snd (de_alive alive s))) as H by (by destruct Hs; split).
    split; [still|exact H]. }
  intros [|]; cbn [negb].
  2: { eapply triple_weaken; [apply stop_step|done|]. by intros more s [-> ?]. }
  eapply triple_bind with (Q := λ _, Rest L (C ++ tn_arrived t ++ F) (C ++ tn_arrived t)).
  { apply triple_mod. intros s Hs. apply rest_both. pose proof (i_channel _ _ _ _ Hs) as Hc. cbn in Hc.
    destruct Hs. split; try done. cbn. by rewrite Hc. }
  intros []. eapply triple_bind with (Q := λ x s, x = s ∧ Rest L (C ++ tn_arrived t ++ F) (C ++ tn_arrived t) s).
  { intros s Hs. split; [still|done]. }
  intros x s [-> Hs]. assert (de_channel s = C ++ tn_arrived t)%list as Hq by apply (i_channel _ _ _ _ Hs). rewrite Hq.
  rewrite app_assoc in Hs. destruct (C ++ tn_arrived t)%list as [|m queue] eqn:Eq.
  - destruct (tn_gone t); [split; [still|done]|].
    split; [still|]. exists [], []. split; [done|]. rewrite app_nil_r. exact Hs.
  - revert s Hs Hq. rewrite <- Eq. generalize (C ++ tn_arrived t)%list. clear Eq m queue. intros queue s Hs Hq.
    apply (taken_step L queue F (tn_due t) s Hs).
Qed.

Lemma turns_step ts : ∀ L C F, T (Rest L (C ++ concat (map tn_arrived ts) ++ F) C)
  (detect_turns env name subj_root at_ took round_secs snapshot_secs spawns alive version (unit_stem name) bindings None every ts)
  (λ _, on_track).
Proof.
  induction ts as [|t ts IH]; intros L C F; cbn [detect_turns].
  { apply triple_ret. intros s Hs. split; still. }
  cbn [map concat]. rewrite <- app_assoc. eapply triple_bind; [apply turn_step|]. intros [|].
  - intros s (b & C' & _ & Hs). by apply (IH (L ++ b)%list C' F).
  - apply triple_ret. by intros s Hs.
Qed.
End Turns.

Lemma split_filter q D R : split_at q D R → filter (λ m, q + 1 <= seq m) (D ++ R)%list = R.
Proof.
  intros [Hd Hr]. induction D as [|m D IH].
  - clear Hd. rewrite app_nil_l. induction R as [|m R IH]; [done|]. assert (q < seq m) by (apply Hr; by left).
    rewrite filter_cons_True by lia. f_equal. apply IH. intros m' ?. apply Hr. by right.
  - assert (seq m <= q) by (apply Hd; by left). rewrite <- app_comm_cons, filter_cons_False by lia. apply IH. intros m' ?. apply Hd. by right.
Qed.

Lemma fed_after l : rtc fed (set_idle_grace None pc) (after l).
Proof.
  induction l as [|m l IH] using rev_ind; [done|]. rewrite feed_after. etrans; [exact IH|].
  unfold feed_one. destruct (find _ _) as [[pat ty]|]; [|done]. apply rtc_once. by exists ty, (data m).
Qed.

Lemma start_step o at_ link dlq traces units asked create floor s p q :
  covers o → fine (client link) → 0 <= next_id link < 2 ^ 64 →
  detect_start name subj_root why at_ snapshot_secs (Ok src) (Some o) None create floor
    (fresh_detect link dlq traces units asked) = Ok (s, version, bindings) →
  resume_point name why version pc (Some o) = Ok (p, Some q) →
  ∃ D, Rest D (filter (λ m, q <= seq m) stream) [] s.
Proof.
  intros (snap & D & R & Hsn & Hv & Hq & Hs & Hsp & Ht) Hn Hid. unfold detect_start. cbn [mbind res_mbind res_bind].
  assert (compile src = Ok pc) as Hc.
  { revert loads. unfold load_program, mbind, res_mbind, res_bind. destruct (compile src) as [p0|e| |]; try done.
    destruct (source_bindings _ _) as [[|b bs]|e| |]; try done. by intros [= -> _]. }
  destruct (resumes src pc (after D) (sn_state snap) Hc (fed_after D) Ht) as (p1 & Hr & Hg).
  assert (resume_point name why version pc (Some o) = Ok (p1, Some (sn_seq snap + 1))) as Hrp.
  { unfold resume_point. rewrite Hsn. cbn. rewrite Hv, String.eqb_refl, Hr, wrap_small; [done|]. unfold u64_max in Hq. lia. }
  rewrite loads. cbn [mbind res_mbind res_bind]. rewrite stateful, Hrp. cbn [mbind res_mbind res_bind].
  destruct (create _) as [[]|e| |]; try done. cbn. intros [= <-] [= <- <-]. exists D.
  rewrite Hs, (split_filter _ _ _ Hsp). assert (∀ m, m ∈ R → m ∈ stream) as Hin by (intros m Hm; rewrite Hs; apply elem_of_app; by right).
  split; cbn; try done.
  - exists o. split; [done|]. by exists snap, D, R.
  - split; [unfold u64_max; cbn; lia|]. intros m Hm. by destruct (seqs m (Hin m Hm)) as [[? _] _].
  - intros _ [H|H]; [cbn in H; lia|done].
Qed.

Lemma lives_on_track o s : covers o → lives o s → on_track s.
Proof.
  intros Hc (at_ & link & dlq & traces & units & asked & create & floor & s0 & p & q & ts & alive & every & Hn & Hid & Hat & Hst & Hrp & [F Hf] & ->).
  destruct (start_step _ _ _ _ _ _ _ _ _ _ _ _ Hc Hn Hid Hst Hrp) as [D Hr]. rewrite Hf in Hr.
  by apply (turns_step at_ alive every Hat ts D [] F s0 Hr).
Qed.

End Crash.

(** ** A sequence across a crash *)

Section Witness.
(** An engine that looks for a [b] after an [a]. *)
#[local] Instance pair_engine : Engine bool := {|
  compile src := Ok false;
  sources _ := [{| connector_name := "nats"; event_type := "E"; topic_override := Some "vx.in" |}];
  feed_json ty d p :=
    if String.eqb d "bad" then (NotEvent "not an event", p)
    else if String.eqb d "a" then (Emits [], true)
    else if String.eqb d "b" then
      (Emits (if p then [{| em_stream := "pair"; em_topic := None; em_payload := "a then b" |}] else []), false)
    else (FeedFailed "unknown", p);
  tick p := (Ok [], p);
  take_snapshot p := Ok (if p : bool then "armed" else "idle");
  restore bytes p := (Ok (), String.eqb bytes "armed");
  set_idle_grace g p := p
|}.
#[local] Instance pair_resumes : Resumable bool.
Proof.
  split.
  - intros ty d p e p'. cbn. destruct (String.eqb d "bad"); [by intros [= _ <-]|].
    destruct (String.eqb d "a"); [done|]. by destruct (String.eqb d "b").
  - intros src p0 p state _ _ [= <-]. exists p. by destruct p.
Qed.
#[local] Instance shelf : Objects (gmap string string) := {|
  obj_get k o := Ok (o !! k);
  obj_put k v o := (Ok (), <[k := v]> o)
|}.
#[local] Instance shelf_keeps : ObjectsKeep (gmap string string).
Proof. intros k v o o' r [= <- <-]. right. cbn. by rewrite lookup_insert_eq. Qed.
(** A connection that takes payloads of 64 bytes. *)
#[local] Instance roomy : NetLive SimNet.
Proof.
  refine {| fine := λ n, 64 <= sim_limit n |}.
  - done.
  - intros s p n Hn. by eexists.
  - intros s p n Hn. by eexists _, _.
  - intros s p n n1 Hn [= <-]. eexists _, _. split; [done|]. split; [|done].
    apply list_elem_of_fmap. exists (1, (s, p)). split; [done|]. apply list_elem_of_filter. split; [done|].
    cbn. apply elem_of_app. right. by apply list_elem_of_singleton.
Defined.

Definition sent_as (d : string) (n : Z) : Message :=
  {| subject := "vx.in"; data := d; reply := Some ("$JS.ACK.V.p.1." ++ dec_of_Z n ++ "." ++ dec_of_Z n ++ ".1.0") |}.
Definition pair_stream : list Message := [sent_as "a" 1; sent_as "bad" 2; sent_as "b" 3].
Definition pair_src : string := "stream pair = a -> b".
Definition pair_shelf : gmap string string :=
  {["detect:p" := snapshot_bytes {| sn_version := hash_content pair_src; sn_seq := 0; sn_taken_at := 7; sn_state := "idle" |} ]}.
Notation pair_binds := [("vx.in", "E")].
Notation no_time := (λ _ : Message, f64_zero).
Notation start_on o := (detect_start "detect:p" "vx" (λ _, "") 7 f64_zero (Ok pair_src) (Some o) None (λ _, Ok ()) (Ok 0)
  (fresh_detect (P := bool) sim_link {| pending := ∅; flusher := false |} no_traces ∅ 0)).
Notation turns_of ts s := (snd (detect_turns (λ _, None) "detect:p" "vx" 7 no_time (f64_zero, f64_zero) f64_zero false
  (λ _, true) (hash_content pair_src) (unit_stem "detect:p") pair_binds None 10000 ts s)).
Definition one_turn (ms : list Message) : list Detect.Turn := [{| tn_arrived := ms; tn_gone := false; tn_due := true |}].
Definition life (o : gmap string string) (ms : list Message) : Detect SimNet bool (gmap string string) :=
  match start_on o with
  | Ok (s, _, _) => turns_of (one_turn ms) s
  | _ => fresh_detect sim_link {| pending := ∅; flusher := false |} no_traces ∅ 0 false (Some o)
  end.
Definition first_life : Detect SimNet bool (gmap string string) := life pair_shelf (take 2 pair_stream).
Definition left_on_shelf : gmap string string := default ∅ (de_store first_life).
Definition second_life : Detect SimNet bool (gmap string string) := life left_on_shelf (drop 1 pair_stream).

(** The pair is found, though its halves were seen by two processes. *)
Example pair_across_crash :
  existsb (λ x, String.eqb (snd (snd x)) "a then b") (sim_taken (client (de_link first_life))) = false ∧
  existsb (λ x, String.eqb (snd (snd x)) "a then b") (sim_taken (client (de_link second_life))) = true.
Proof. vm_compute. split; reflexivity. Qed.

Notation covered := (covers "detect:p" (λ _, "") pair_src false pair_binds pair_stream).
Notation living := (lives (λ _, None) "detect:p" "vx" (λ _, "") no_time (f64_zero, f64_zero) f64_zero false pair_src false
  pair_binds pair_stream).
Lemma life_lives o ms q p :
  match start_on o with
  | Ok (_, v, b) => v = hash_content pair_src ∧ b = pair_binds
  | _ => False
  end →
  resume_point "detect:p" (λ _, "") (hash_content pair_src) false (Some o) = Ok (p, Some q) →
  ms `prefix_of` filter (λ m, q <= seq_of_message m) pair_stream → living o (life o ms).
Proof.
  unfold life. intros Hs Hr Hp. destruct (start_on o) as [[[s v] b]|e| |] eqn:E; try done. destruct Hs as [-> ->].
  exists 7, sim_link, {| pending := ∅; flusher := false |}, no_traces, ∅, 0%nat, (λ _, Ok ()), (Ok 0), s, p, q, (one_turn ms),
    (λ _, true), 10000.
  split; [by vm_compute|]. split; [by vm_compute|]. split; [by vm_compute|]. split; [exact E|]. split; [exact Hr|].
  split; [|done]. cbn [map one_turn concat tn_arrived]. by rewrite app_nil_r.
Qed.
Lemma shelf_left : de_store first_life = Some left_on_shelf.
Proof.
  unfold left_on_shelf. assert (match de_store first_life with Some _ => true | None => false end = true) as H by (vm_compute; reflexivity).
  by destruct (de_store first_life).
Qed.
Lemma shelf_covers : covered pair_shelf.
Proof.
  exists {| sn_version := hash_content pair_src; sn_seq := 0; sn_taken_at := 7; sn_state := "idle" |}, [], pair_stream.
  split; [vm_compute; reflexivity|]. split; [done|]. split; [by vm_compute|]. split; [done|]. split; [|done].
  split; [by intros m ?%elem_of_nil|]. intros m. unfold pair_stream. rewrite !elem_of_cons, elem_of_nil.
  by intros [-> |[-> |[-> |[]]]].
Qed.


(** A unit whose source cannot be read at first: a second later it runs, until it
    is told to stop. *)
Definition pair_tries (n : nat) : Try (N := SimNet) := {|
  ty_src := if Nat.eqb n 0 then Err "no such file" else Ok pair_src; ty_link := Ok sim_link; ty_opens := true;
  ty_create _ := Ok (); ty_floor := Ok 0; ty_turns := one_turn pair_stream ++ one_turn []
|}%list.
Definition supervised : res string () * Sup (Lasting (O := gmap string string)) :=
  supervise_detect (λ _, None) "detect:p" (λ _, "") 7 no_time (f64_zero, f64_zero) f64_zero false (λ n, Nat.ltb n 6)
    "" pair_tries 3
    {| su_state := {| st_status := "starting"; st_restarts := 0; st_started_at := None; st_last_error := None |};
       su_asked := 0; su_slept := [];
       su_world := {| la_tries := 0; la_store := ∅; la_dlq := {| pending := ∅; flusher := false |};
                      la_traces := no_traces; la_units := ∅ |} |}.
Example supervised_stops :
  fst supervised = Ok () ∧
  su_state (snd supervised) = {| st_status := "stopped"; st_restarts := 1; st_started_at := Some 7; st_last_error := None |} ∧
  su_slept (snd supervised) = [1000] ∧
  from_option (λ b, str_contains b "idle") false (la_store (su_world (snd supervised)) !! "detect:p") = true.
Proof. vm_compute. repeat split; reflexivity. Qed.
End Witness.

(** ** An outage *)

Section Outage.
#[local] Existing Instance pair_engine.
#[local] Existing Instance shelf.
(** A connection that is up or down. *)
#[local] Instance outage : Net (bool * SimNet) := {|
  net_up := fst;
  net_epoch n := net_epoch (snd n);
  net_max_payload n := net_max_payload (snd n);
  net_publish s p n := let '(r, m) := net_publish s p (snd n) in (r, (fst n, m));
  net_echoes s n := let '(r, m) := net_echoes s (snd n) in (r, (fst n, m));
  net_store s p n := let '(r, m) := net_store s p (snd n) in (r, (fst n, m));
  net_receive n := let '(r, m) := net_receive (snd n) in (r, (fst n, m))
|}.
Notation Unit := (Detect (bool * SimNet) bool (gmap string string)).
Definition down_link : Link (bool * SimNet) :=
  {| client := (false, sim_start); echo := "_INBOX.e"; next_id := 0; waiting := [] |}.
Definition comes_up (s : Unit) : Unit := de_set_link (set_client (true, snd (client (de_link s))) (de_link s)) s.
Definition unit_turn (ms : list Message) (s : Unit) : Unit :=
  snd (detect_turns (λ _, None) "detect:p" "vx" 7 (λ _, f64_zero) (f64_zero, f64_zero) f64_zero false
    (λ _, true) (hash_content pair_src) (unit_stem "detect:p") [("vx.in", "E")] None 10000 (one_turn ms) s).
Definition after_outage : Unit :=
  unit_turn [sent_as "a" 3]
    (comes_up (unit_turn [sent_as "a" 1; sent_as "b" 2]
       (fresh_detect down_link {| pending := ∅; flusher := false |} no_traces ∅ 0 false (Some pair_shelf)))).

(** The pair that was found while the connection was down was not published,
    and its messages are not acknowledged; yet the next snapshot stands past
    them, and a start resumes after them. *)
Example outage_loses_detection :
  existsb (λ x, String.eqb (snd (snd x)) "a then b") (sim_taken (snd (client (de_link after_outage)))) = false ∧
  map (λ x, fst (snd x)) (filter (λ x, snd (snd x) = "") (sim_taken (snd (client (de_link after_outage))))) =
    ["$JS.ACK.V.p.1.3.3.1.0"] ∧
  resume_point "detect:p" (λ _, "") (hash_content pair_src) false (de_store after_outage) = Ok (true, Some 4).
Proof. vm_compute. repeat split; reflexivity. Qed.
End Outage.
