(* ===== verification/Semantics.v ===== *)
(** * VejasScript: a natural semantics

    What a script means, without an engine: no caches, no count of the depth,
    no state that filters change and put back.  An expression has a value and
    the emits of the services it invokes, in an environment that it cannot
    change; a statement leads from an environment to another.  The interpreter
    of [Eval] returns exactly what this semantics derives. *)

From stdpp Require Import base gmap list strings.
From Stdlib Require Import ZArith Lia.
From S2P Require Import Prelude Text F64 Json Syntax Analysis Lexer Parser Secrets Eval EvalRel EvalFacts RunProps Concrete.
Open Scope string_scope.
Open Scope nat_scope.

Section Semantics.
Context {SD : Serde} {CT : CaseTables} {FL : FloatLib}.
Context (files : string → option string) (root : string) (store : SecretStore).

Notation env := (smap Value).
Notation answer := (option (Value * Value)).
(** The answer of two steps: the last one given. *)
Definition later (r1 r2 : answer) : answer := match r2 with Some _ => r2 | None => r1 end.

Definition un_op (op : UnOp) (v : Value) : Value :=
  match op with
  | Not => VBool (negb (truthy v))
  | Neg => match as_f64 v with Some f => num (f64_neg f) | None => VNull end
  end.
(** The operators that look at both sides. *)
Definition strict (op : BinOp) : bool := match op with And | Or | Coalesce => false | _ => true end.
(** Whether the left side of another decides, in which case it is the value. *)
Definition decides (op : BinOp) (v : Value) : bool :=
  match op with And => negb (truthy v) | Or => truthy v | _ => negb (is_null v) end.

(** In a script of package [p] that may nest [k] more invokes. *)
Inductive ev : nat → string → env → Expr → Value → list emit → Prop :=
| ev_lit k p ρ v : ev k p ρ (ELit v) v []
| ev_var k p ρ x : ev k p ρ (EVar x) (default VNull (map_get x ρ)) []
| ev_fstring k p ρ ps l em : ev_parts k p ρ ps l em → ev k p ρ (EFString ps) (VString (concat_strs l)) em
| ev_doc k p ρ fs m em : ev_fields k p ρ [] fs m em → ev k p ρ (EDoc fs) (VObject m) em
| ev_array k p ρ l vs em : ev_list k p ρ l vs em → ev k p ρ (EArray l) (VArray vs) em
| ev_field k p ρ b v f safe w em : ev k p ρ b v em → field v f safe = Ok w → ev k p ρ (EField b f safe) w em
| ev_index k p ρ a b v w em1 em2 : ev k p ρ a v em1 → ev k p ρ b w em2 → ev k p ρ (EIndex a b) (index v w) (em1 ++ em2)
| ev_proj k p ρ b v em : ev k p ρ b v em → ev k p ρ (EProjection b) v em
| ev_filter k p ρ b c l kept em1 em2 : ev k p ρ b (VArray l) em1 → ev_where k p ρ c l kept em2 →
    ev k p ρ (EFilter b c) (VArray kept) (em1 ++ em2)
| ev_filter_none k p ρ b c v em : ev k p ρ b v em → as_array v = None → ev k p ρ (EFilter b c) (VArray []) em
| ev_call k p ρ f l vs v em : ev_list k p ρ l vs em → f ≠ "secret" → builtin f vs = Ok v → ev k p ρ (ECall f l) v em
| ev_secret k p ρ l vs r s em : ev_list k p ρ l vs em → nth_error vs 0 = Some (VString r) → ss_get store r = Ok s →
    ev k p ρ (ECall "secret" l) (VString s) em
| ev_invoke k p ρ f fs m v em1 em2 : ev_fields k p ρ [] fs m em1 → serves k p f m v em2 →
    ev k p ρ (EInvoke f fs) v (em1 ++ em2)
| ev_unary k p ρ op e v em : ev k p ρ e v em → ev k p ρ (EUnary op e) (un_op op v) em
| ev_strict k p ρ op a b v w u em1 em2 : strict op = true → ev k p ρ a v em1 → ev k p ρ b w em2 → bin_op op v w = Ok u →
    ev k p ρ (EBin op a b) u (em1 ++ em2)
| ev_left k p ρ op a b v em : strict op = false → ev k p ρ a v em → decides op v = true → ev k p ρ (EBin op a b) v em
| ev_right k p ρ op a b v w em1 em2 : strict op = false → ev k p ρ a v em1 → decides op v = false → ev k p ρ b w em2 →
    ev k p ρ (EBin op a b) w (em1 ++ em2)
with ev_list : nat → string → env → list Expr → list Value → list emit → Prop :=
| el_nil k p ρ : ev_list k p ρ [] [] []
| el_cons k p ρ e l v vs em1 em2 : ev k p ρ e v em1 → ev_list k p ρ l vs em2 → ev_list k p ρ (e :: l) (v :: vs) (em1 ++ em2)
with ev_parts : nat → string → env → list FStringPart → list string → list emit → Prop :=
| ep_nil k p ρ : ev_parts k p ρ [] [] []
| ep_lit k p ρ s ps l em : ev_parts k p ρ ps l em → ev_parts k p ρ (PLit s :: ps) (s :: l) em
| ep_expr k p ρ e ps v l em1 em2 : ev k p ρ e v em1 → ev_parts k p ρ ps l em2 →
    ev_parts k p ρ (PExpr e :: ps) (to_display v :: l) (em1 ++ em2)
(** A later field of the same name replaces. *)
with ev_fields : nat → string → env → smap Value → list (string * Expr) → smap Value → list emit → Prop :=
| ef_nil k p ρ m : ev_fields k p ρ m [] m []
| ef_cons k p ρ m x e fs v m' em1 em2 : ev k p ρ e v em1 → ev_fields k p ρ (map_insert x v m) fs m' em2 →
    ev_fields k p ρ m ((x, e) :: fs) m' (em1 ++ em2)
(** The items of which the condition holds with their fields in sight. *)
with ev_where : nat → string → env → Expr → list Value → list Value → list emit → Prop :=
| ew_nil k p ρ c : ev_where k p ρ c [] [] []
| ew_cons k p ρ c i l v kept em1 em2 : ev k p (fst (hide i ρ)) c v em1 → ev_where k p ρ c l kept em2 →
    ev_where k p ρ c (i :: l) (if truthy v then i :: kept else kept) (em1 ++ em2)
(** A service runs in the package it is of, on its arguments alone. *)
with serves : nat → string → string → smap Value → Value → list emit → Prop :=
| serves_in k p f m pkg svc stmts ρ' em r : resolve_spec files root p f = Ok (pkg, svc) →
    service_spec files root pkg svc = Ok stmts →
    ex_block k pkg (map_insert "event" (VObject m) m) stmts ρ' em r →
    serves (S k) p f m (VObject (map_remove "event" ρ')) em
with ex : nat → string → env → Stmt → env → list emit → answer → Prop :=
| ex_assign k p ρ path e v em ρ' : ev k p ρ e v em → assign path v ρ = Ok ρ' → ex k p ρ (SAssign path e) ρ' em None
| ex_merge k p ρ f fs m v em1 em2 : ev_fields k p ρ [] fs m em1 → serves k p f m v em2 →
    ex k p ρ (SInvokeMerge f fs) (match v with VObject o => map_extend ρ o | _ => ρ end) (em1 ++ em2) None
| ex_if k p ρ arms o ρ' em r : ex_arms k p ρ arms (default [] o) ρ' em r → ex k p ρ (SIf arms o) ρ' em r
| ex_for k p ρ x e b l ρ' em1 em2 r : ev k p ρ e (VArray l) em1 → ex_each k p ρ x b l ρ' em2 r →
    ex k p ρ (SFor x e b) ρ' (em1 ++ em2) r
| ex_for_none k p ρ x e b v em : ev k p ρ e v em → as_array v = None → ex k p ρ (SFor x e b) ρ em None
| ex_emit k p ρ a b s v em1 em2 : ev k p ρ a (VString s) em1 → valid_subject s = true → ev k p ρ b v em2 →
    ex k p ρ (SEmit a b) ρ (em1 ++ em2 ++ [(s, v)]) None
| ex_respond k p ρ a b v w em1 em2 : ev k p ρ a v em1 → ev k p ρ b w em2 → ex k p ρ (SRespond a b) ρ (em1 ++ em2) (Some (v, w))
with ex_block : nat → string → env → list Stmt → env → list emit → answer → Prop :=
| eb_nil k p ρ : ex_block k p ρ [] ρ [] None
| eb_cons k p ρ s l ρ1 ρ2 em1 em2 r1 r2 : ex k p ρ s ρ1 em1 r1 → ex_block k p ρ1 l ρ2 em2 r2 →
    ex_block k p ρ (s :: l) ρ2 (em1 ++ em2) (later r1 r2)
with ex_arms : nat → string → env → list (Expr * (nat * nat) * list Stmt) → list Stmt → env → list emit → answer → Prop :=
| ea_else k p ρ o ρ' em r : ex_block k p ρ o ρ' em r → ex_arms k p ρ [] o ρ' em r
| ea_here k p ρ c sp b arms o v ρ' em1 em2 r : ev k p ρ c v em1 → truthy v = true → ex_block k p ρ b ρ' em2 r →
    ex_arms k p ρ ((c, sp, b) :: arms) o ρ' (em1 ++ em2) r
| ea_next k p ρ c sp b arms o v ρ' em1 em2 r : ev k p ρ c v em1 → truthy v = false → ex_arms k p ρ arms o ρ' em2 r →
    ex_arms k p ρ ((c, sp, b) :: arms) o ρ' (em1 ++ em2) r
with ex_each : nat → string → env → string → list Stmt → list Value → env → list emit → answer → Prop :=
| ee_nil k p ρ x b : ex_each k p ρ x b [] ρ [] None
| ee_cons k p ρ x b i l ρ1 ρ2 em1 em2 r1 r2 : ex_block k p (map_insert x i ρ) b ρ1 em1 r1 → ex_each k p ρ1 x b l ρ2 em2 r2 →
    ex_each k p ρ x b (i :: l) ρ2 (em1 ++ em2) (later r1 r2).

(** A run of a program of package [p] on an event: the environment it ends in,
    its emits and its answer. *)
Definition means (p : string) (prog : Program) (event : Value) (ρ : env) (em : list emit) (r : answer) : Prop :=
  ex_block max_depth p (vars (event_ctx event)) (p_stmts prog) ρ em r.

(** ** Computations and judgements *)

Section Agree.
Context (d : nat) (p : string).
Notation good := (at_depth files root store d p).

(** A computation that changes no variable gives exactly what a judgement says
    of the environment it runs in. *)
Definition agrees {A} (ρ : env) (m : M A) (J : A → list emit → Prop) : Prop :=
  ∀ c eng, vars c = ρ → good eng →
    (∀ a c' eng', m (c, eng) = (Ok a, (c', eng')) → ∃ em, c' = add_emits c em ∧ good eng' ∧ J a em) ∧
    ∀ a em, J a em → ∃ eng', m (c, eng) = (Ok a, (add_emits c em, eng')) ∧ good eng'.

Lemma add_emits_nil c : add_emits c [] = c.
Proof. unfold add_emits. rewrite app_nil_r. by destruct c. Qed.
Lemma add_emits_app c l1 l2 : add_emits (add_emits c l1) l2 = add_emits c (l1 ++ l2).
Proof. unfold add_emits. cbn. by rewrite app_assoc. Qed.

Lemma agrees_iff {A} ρ (m : M A) (J J' : A → list emit → Prop) :
  agrees ρ m J → (∀ a em, J a em ↔ J' a em) → agrees ρ m J'.
Proof.
  intros H E c eng Hc Hg. destruct (H c eng Hc Hg) as [H1 H2]. split.
  - intros a c' eng' Hm. destruct (H1 _ _ _ Hm) as (em & ? & ? & ?%E). eauto.
  - intros a em Hj%E. eauto.
Qed.
Lemma agrees_lift {A} ρ (r : res verr A) : agrees ρ (lift r) (λ a em, r = Ok a ∧ em = []).
Proof.
  intros c eng Hc Hg. split.
  - intros a c' eng' [= -> <- <-]. exists []. by rewrite add_emits_nil.
  - intros a em [-> ->]. exists eng. by rewrite add_emits_nil.
Qed.
Lemma agrees_ret {A} ρ (a : A) : agrees ρ (mret a) (λ b em, b = a ∧ em = []).
Proof. eapply agrees_iff; [apply (agrees_lift ρ (Ok a))|]. intros b em. split; intros [H ->]; (split; [|done]); congruence. Qed.
Lemma agrees_bind {A B} ρ (m : M A) (f : A → M B) J (K : A → B → list emit → Prop) :
  agrees ρ m J → (∀ a em, J a em → agrees ρ (f a) (K a)) →
  agrees ρ (m ≫= f) (λ b em, ∃ a em1 em2, em = (em1 ++ em2)%list ∧ J a em1 ∧ K a b em2).
Proof.
  intros Hm Hf c eng Hc Hg. destruct (Hm c eng Hc Hg) as [H1 H2]. unfold mbind, m_bind. split.
  - intros b c' eng' E. destruct (m (c, eng)) as [[a|e| |] [c1 eng1]]; try done.
    destruct (H1 _ _ _ eq_refl) as (em1 & -> & Hg1 & Hj).
    destruct (Hf a em1 Hj (add_emits c em1) eng1 Hc Hg1) as [H3 _]. destruct (H3 _ _ _ E) as (em2 & -> & Hg2 & Hk).
    exists (em1 ++ em2)%list. rewrite add_emits_app. eauto 10.
  - intros b em (a & em1 & em2 & -> & Hj & Hk). destruct (H2 _ _ Hj) as (eng1 & -> & Hg1).
    destruct (Hf a em1 Hj (add_emits c em1) eng1 Hc Hg1) as [_ H4]. destruct (H4 _ _ Hk) as (eng2 & E & Hg2).
    exists eng2. by rewrite E, add_emits_app.
Qed.
(** A last step that only computes. *)
Lemma agrees_map {A B} ρ (m : M A) (g : A → B) J :
  agrees ρ m J → agrees ρ (a ← m; mret (g a)) (λ b em, ∃ a, J a em ∧ b = g a).
Proof.
  intros Hm. eapply agrees_iff; [apply agrees_bind; [exact Hm|intros a em _; apply agrees_ret]|]. intros b em. split.
  - intros (a & em1 & em2 & -> & Hj & -> & ->). exists a. by rewrite app_nil_r.
  - intros (a & Hj & ->). exists a, em, []. by rewrite app_nil_r.
Qed.
Lemma agrees_map_lift {A B} ρ (m : M A) (g : A → res verr B) J :
  agrees ρ m J → agrees ρ (a ← m; lift (g a)) (λ b em, ∃ a, J a em ∧ g a = Ok b).
Proof.
  intros Hm. eapply agrees_iff; [apply agrees_bind; [exact Hm|intros a em _; apply agrees_lift]|]. intros b em. split.
  - intros (a & em1 & em2 & -> & Hj & Hr & ->). exists a. by rewrite app_nil_r.
  - intros (a & Hj & Hr). exists a, em, []. by rewrite app_nil_r.
Qed.
Lemma agrees_vars ρ : agrees ρ get_vars (λ m em, m = ρ ∧ em = []).
Proof.
  intros c eng Hc Hg. split.
  - intros a c' eng' [= <- <- <-]. exists []. by rewrite add_emits_nil.
  - intros a em [-> ->]. exists eng. by rewrite add_emits_nil, <- Hc.
Qed.

(** A computation that leads to another environment. *)
Definition out (c : Ctx) (ρ : env) (em : list emit) (r : answer) : Ctx :=
  {| vars := ρ; emits := (emits c ++ em)%list; response := later (response c) r |}.
Definition leads (ρ : env) (m : M ()) (J : env → list emit → answer → Prop) : Prop :=
  ∀ c eng, vars c = ρ → map_ok ρ → good eng →
    (∀ c' eng', m (c, eng) = (Ok (), (c', eng')) →
       ∃ ρ' em r, c' = out c ρ' em r ∧ map_ok ρ' ∧ good eng' ∧ J ρ' em r) ∧
    ∀ ρ' em r, J ρ' em r → map_ok ρ' ∧ ∃ eng', m (c, eng) = (Ok (), (out c ρ' em r, eng')) ∧ good eng'.

Lemma leads_iff ρ (m : M ()) (J J' : env → list emit → answer → Prop) :
  leads ρ m J → (∀ ρ' em r, J ρ' em r ↔ J' ρ' em r) → leads ρ m J'.
Proof.
  intros H E c eng Hc Hk Hg. destruct (H c eng Hc Hk Hg) as [H1 H2]. split.
  - intros c' eng' Hm. destruct (H1 _ _ Hm) as (ρ' & em & r & ? & ? & ? & ?%E). eauto 10.
  - intros ρ' em r Hj%E. eauto.
Qed.
Lemma later_assoc r1 r2 r3 : later (later r1 r2) r3 = later r1 (later r2 r3).
Proof. by destruct r3. Qed.
Lemma out_out c ρ1 ρ2 em1 em2 r1 r2 : out (out c ρ1 em1 r1) ρ2 em2 r2 = out c ρ2 (em1 ++ em2) (later r1 r2).
Proof. unfold out. cbn. by rewrite app_assoc, later_assoc. Qed.
Lemma out_same c em : add_emits c em = out c (vars c) em None.
Proof. done. Qed.

Lemma leads_skip ρ : leads ρ (mret ()) (λ ρ' em r, ρ' = ρ ∧ em = [] ∧ r = None).
Proof.
  intros c eng Hc Hk Hg. split.
  - intros c' eng' [= <- <-]. exists ρ, [], None. rewrite <- Hc, <- out_same, add_emits_nil. by rewrite Hc.
  - intros ρ' em r (-> & -> & ->). split; [done|]. exists eng. by rewrite <- Hc, <- out_same, add_emits_nil.
Qed.
Lemma leads_seq ρ (m1 m2 : M ()) J1 (J2 : env → env → list emit → answer → Prop) :
  leads ρ m1 J1 → (∀ ρ', leads ρ' m2 (J2 ρ')) →
  leads ρ (_ ← m1; m2) (λ ρ2 em r, ∃ ρ1 em1 em2 r1 r2, em = (em1 ++ em2)%list ∧ r = later r1 r2 ∧
    J1 ρ1 em1 r1 ∧ J2 ρ1 ρ2 em2 r2).
Proof.
  intros Hm Hf c eng Hc Hk Hg. destruct (Hm c eng Hc Hk Hg) as [H1 H2]. unfold mbind, m_bind. split.
  - intros c' eng' E. destruct (m1 (c, eng)) as [[[]|e| |] [c1 eng1]]; try done.
    destruct (H1 _ _ eq_refl) as (ρ1 & em1 & r1 & -> & Hk1 & Hg1 & Hj).
    destruct (Hf ρ1 (out c ρ1 em1 r1) eng1 eq_refl Hk1 Hg1) as [H3 _].
    destruct (H3 _ _ E) as (ρ2 & em2 & r2 & -> & Hk2 & Hg2 & Hj2). rewrite out_out. eauto 20.
  - intros ρ2 em r (ρ1 & em1 & em2 & r1 & r2 & -> & -> & Hj & Hj2). destruct (H2 _ _ _ Hj) as (Hk1 & eng1 & -> & Hg1).
    destruct (Hf ρ1 (out c ρ1 em1 r1) eng1 eq_refl Hk1 Hg1) as [_ H4]. destruct (H4 _ _ _ Hj2) as (Hk2 & eng2 & E & Hg2).
    split; [done|]. exists eng2. by rewrite E, out_out.
Qed.
Lemma leads_expr {A} ρ (m : M A) (f : A → M ()) J (K : A → env → list emit → answer → Prop) :
  agrees ρ m J → (∀ a em, J a em → leads ρ (f a) (K a)) →
  leads ρ (m ≫= f) (λ ρ' em r, ∃ a em1 em2, em = (em1 ++ em2)%list ∧ J a em1 ∧ K a ρ' em2 r).
Proof.
  intros Hm Hf c eng Hc Hk Hg. destruct (Hm c eng Hc Hg) as [H1 H2]. unfold mbind, m_bind.
  assert (∀ em1 ρ' em2 r, out (add_emits c em1) ρ' em2 r = out c ρ' (em1 ++ em2) r) as Ho.
  { intros. rewrite out_same, out_out. unfold later. by destruct r. }
  split.
  - intros c' eng' E. destruct (m (c, eng)) as [[a|e| |] [c1 eng1]]; try done.
    destruct (H1 _ _ _ eq_refl) as (em1 & -> & Hg1 & Hj).
    destruct (Hf a em1 Hj (add_emits c em1) eng1 Hc Hk Hg1) as [H3 _]. destruct (H3 _ _ E) as (ρ' & em2 & r & -> & Hk2 & Hg2 & Hj2).
    rewrite Ho. eauto 20.
  - intros ρ' em r (a & em1 & em2 & -> & Hj & Hj2). destruct (H2 _ _ Hj) as (eng1 & -> & Hg1).
    destruct (Hf a em1 Hj (add_emits c em1) eng1 Hc Hk Hg1) as [_ H4]. destruct (H4 _ _ _ Hj2) as (Hk2 & eng2 & E & Hg2).
    split; [done|]. exists eng2. by rewrite E, Ho.
Qed.
(** A step that updates the context. *)
Lemma leads_upd ρ f ρ' em r :
  (∀ c, vars c = ρ → f c = out c ρ' em r) → (map_ok ρ → map_ok ρ') →
  leads ρ (upd_ctx f) (λ ρ2 em2 r2, ρ2 = ρ' ∧ em2 = em ∧ r2 = r).
Proof.
  intros Hf Hk c eng Hc Hk0 Hg. split.
  - intros c' eng' [= <- <-]. rewrite Hf by done. eauto 10.
  - intros ρ2 em2 r2 (-> & -> & ->). split; [auto|]. exists eng. split; [|done]. unfold upd_ctx. cbn. by rewrite Hf.
Qed.

(** ** Expressions *)

Context (k : nat) (svc : string → smap Value → Engine → res verr (Value * list emit) * Engine).
Hypothesis services : ∀ f m eng, map_ok m → good eng →
  (∀ v em eng', svc f m eng = (Ok (v, em), eng') → good eng' ∧ serves k p f m v em) ∧
  ∀ v em, serves k p f m v em → ∃ eng', svc f m eng = (Ok (v, em), eng') ∧ good eng'.
Notation ok_ev ρ e := (agrees ρ (eval svc e) (ev k p ρ e)).

Ltac parts := repeat match goal with
  | H : ∃ _, _ |- _ => destruct H
  | H : _ ∧ _ |- _ => destruct H
  end; subst.
(** From what a computation gives to the rule that says so, and back. *)
Ltac by_rule := intros; split;
  [intros; parts; rewrite ?app_nil_r, ?app_nil_l; eauto using ev, ev_list, ev_parts, ev_fields, ev_where, ex, ex_block, ex_arms, ex_each
  |inversion 1; subst; eauto 20].

Lemma list_agrees ρ l : Forall (λ e, ok_ev ρ e) l → agrees ρ (m_map (eval svc) l) (ev_list k p ρ l).
Proof.
  induction 1 as [|e l He _ IH]; cbn.
  - eapply agrees_iff; [apply agrees_ret|]. by_rule.
  - eapply agrees_iff; [apply agrees_bind; [exact He|intros v em _; apply agrees_map; exact IH]|]. by_rule.
Qed.
Lemma fields_agree ρ fs : Forall (λ kv, ok_ev ρ (snd kv)) fs → ∀ m,
  agrees ρ (m_fields (eval svc) m fs) (ev_fields k p ρ m fs).
Proof.
  induction 1 as [|[x e] fs He _ IH]; intros m; cbn.
  - eapply agrees_iff; [apply agrees_ret|]. by_rule.
  - eapply agrees_iff; [apply agrees_bind; [exact He|intros v em _; apply IH]|]. by_rule.
Qed.
Lemma fields_ok ρ fs : ∀ m m' em, ev_fields k p ρ m fs m' em → map_ok m → map_ok m'.
Proof.
  induction fs as [|[x e] fs IH]; intros m m' em; inversion 1; subst; [done|]. intros Hm.
  eapply IH; [eassumption|]. by apply map_insert_ok.
Qed.
Lemma parts_agree ρ ps : Forall (on_part (λ e, ok_ev ρ e)) ps →
  agrees ρ (m_map (λ q, match q with PLit l => mret l | PExpr e => v ← eval svc e; mret (to_display v) end) ps)
    (ev_parts k p ρ ps).
Proof.
  induction 1 as [|[s|e] ps He _ IH]; cbn.
  - eapply agrees_iff; [apply agrees_ret|]. by_rule.
  - eapply agrees_iff; [apply agrees_bind; [apply agrees_ret|intros v em _; apply agrees_map; exact IH]|]. by_rule.
    exists s, [], em. split; [done|]. split; [done|]. by exists l.
  - eapply agrees_iff; [apply agrees_bind; [apply agrees_map; exact He|intros v em _; apply agrees_map; exact IH]|]. by_rule.
Qed.

(** A filter puts back what the fields of the item hid. *)
Lemma item_agrees ρ cond i : map_ok ρ → (∀ ρ', map_ok ρ' → ok_ev ρ' cond) →
  agrees ρ (filter_item (eval svc cond) i) (λ b em, ∃ v, ev k p (fst (hide i ρ)) cond v em ∧ b = truthy v).
Proof.
  intros Hk Hc c eng Hv Hg. destruct (hide_restore svc i ρ Hk) as [Hh Hr].
  destruct (Hc _ Hh (with_vars c (fst (hide i ρ))) eng eq_refl Hg) as [H1 H2].
  assert (∀ em, with_vars (add_emits (with_vars c (fst (hide i ρ))) em)
    (restore (fst (hide i ρ)) (snd (hide i ρ))) = add_emits c em) as Hback.
  { intros em. rewrite Hr. unfold with_vars, add_emits. cbn. by rewrite <- Hv. }
  unfold filter_item, mbind, m_bind, get_vars, upd_ctx. cbn [fst snd]. rewrite Hv.
  destruct (hide i ρ) as [m' saved] eqn:Eh. cbn [fst snd] in *. split.
  - intros b c' eng' E. destruct (eval svc cond (with_vars c m', eng)) as [[v|e| |] [c1 eng1]]; try done.
    destruct (H1 _ _ _ eq_refl) as (em & -> & Hg1 & Hj). cbn in E. injection E as <- <- <-.
    exists em. split; [apply Hback|]. split; [done|]. by exists v.
  - intros b em (v & Hj & ->). destruct (H2 _ _ Hj) as (eng1 & -> & Hg1). exists eng1. split; [|done].
    cbn. by rewrite <- Hback.
Qed.
Lemma where_agrees ρ cond l : map_ok ρ → (∀ ρ', map_ok ρ' → ok_ev ρ' cond) →
  agrees ρ (m_filter (filter_item (eval svc cond)) l) (ev_where k p ρ cond l).
Proof.
  intros Hk Hc. induction l as [|i l IH]; cbn.
  - eapply agrees_iff; [apply agrees_ret|]. by_rule.
  - eapply agrees_iff; [apply agrees_bind; [by apply item_agrees|intros b em _; apply agrees_map; exact IH]|]. by_rule.
Qed.

Definition call_gives (f : string) (vs : list Value) (v : Value) : Prop :=
  if String.eqb f "secret"
  then ∃ r s, nth_error vs 0 = Some (VString r) ∧ ss_get store r = Ok s ∧ v = VString s
  else builtin f vs = Ok v.
Lemma call_agrees ρ f vs : agrees ρ (call f vs) (λ v em, em = [] ∧ call_gives f vs v).
Proof.
  unfold call, call_gives. destruct (String.eqb f "secret").
  2: { eapply agrees_iff; [apply agrees_lift|]. intros v em. tauto. }
  destruct (nth_error vs 0 ≫= as_str) as [r|] eqn:E.
  - assert (nth_error vs 0 = Some (VString r)) as En.
    { destruct (nth_error vs 0) as [[]|]; try done. cbn in E. congruence. }
    intros c eng Hc Hg. unfold mbind, m_bind, get_engine. cbn [snd]. rewrite (ad_secrets _ _ _ _ _ _ Hg).
    unfold lift, secret_value. split.
    + intros v c' eng' H. destruct (ss_get store r) as [s|e| |] eqn:Es; try done. cbn in H. injection H as <- <- <-.
      exists []. rewrite add_emits_nil. eauto 10.
    + intros v em (-> & r' & s & H1 & H2 & ->). assert (r' = r) as -> by congruence. rewrite H2.
      exists eng. by rewrite add_emits_nil.
  - eapply agrees_iff; [apply (agrees_lift ρ (Err SecretNeedsReference))|]. intros v em. split; [by intros []|].
    intros (_ & r & s & H & _). rewrite H in E. done.
Qed.
Lemma invoke_agrees ρ f m : map_ok m → agrees ρ (invoke svc f m) (serves k p f m).
Proof.
  intros Hm c eng Hc Hg. destruct (services f m eng Hm Hg) as [H1 H2]. unfold invoke. split.
  - intros v c' eng' E. destruct (svc f m eng) as [[[v1 em]|e| |] eng1]; try done. injection E as <- <- <-.
    destruct (H1 _ _ _ eq_refl) as [? ?]. eauto.
  - intros v em Hs. destruct (H2 _ _ Hs) as (eng1 & -> & Hg1). eauto.
Qed.

Lemma filter_agrees ρ b cond : map_ok ρ → ok_ev ρ b → (∀ ρ', map_ok ρ' → ok_ev ρ' cond) → ok_ev ρ (EFilter b cond).
Proof.
  intros Hk Hb Hc. cbn. eapply agrees_iff.
  { apply agrees_bind with (K := λ v w em, match v with
      | VArray l => ∃ kept, ev_where k p ρ cond l kept em ∧ w = VArray kept
      | _ => w = VArray [] ∧ em = [] end); [exact Hb|].
    intros v em _. destruct v; try apply agrees_ret. apply agrees_map. by apply where_agrees. }
  intros w em. split.
  - intros (v & em1 & em2 & -> & Hv & H). destruct v; parts; rewrite ?app_nil_r; eauto using ev.
  - inversion 1; subst; [by exists (VArray l), em1, em2; eauto|]. exists v, em, []. rewrite app_nil_r.
    split; [done|]. split; [done|]. by destruct v.
Qed.
Lemma bin_agrees ρ op a b : ok_ev ρ a → ok_ev ρ b → ok_ev ρ (EBin op a b).
Proof.
  intros Ha Hb.
  assert (strict op = true → agrees ρ (lv ← eval svc a; rv ← eval svc b; lift (bin_op op lv rv)) (ev k p ρ (EBin op a b))) as Hs.
  { intros Hs. eapply agrees_iff; [apply agrees_bind; [exact Ha|intros v em _; apply agrees_map_lift; exact Hb]|].
    intros u em. split; [intros; parts; by eapply ev_strict|]. inversion 1; subst; try congruence. eauto 20. }
  assert (strict op = false → agrees ρ (lv ← eval svc a; if decides op lv then mret lv else eval svc b) (ev k p ρ (EBin op a b))) as Hl.
  { intros Hl. eapply agrees_iff.
    { apply agrees_bind with (K := λ v w em, if decides op v then w = v ∧ em = [] else ev k p ρ b w em); [exact Ha|].
      intros v em _. destruct (decides op v); [apply agrees_ret|exact Hb]. }
    intros u em. split.
    - intros (v & em1 & em2 & -> & Hv & H). destruct (decides op v) eqn:Ed; parts; rewrite ?app_nil_r; eauto using ev.
    - inversion 1; subst; try congruence.
      + exists u, em, []. rewrite app_nil_r. by destruct (decides op u).
      + exists v, em1, em2. by destruct (decides op v). }
  destruct op; try (by apply Hs); specialize (Hl eq_refl); intros c eng Hc Hg; specialize (Hl c eng Hc Hg);
    cbn [eval]; unfold mbind, m_bind in *; destruct (eval svc a (c, eng)) as [[v|e| |] s1]; try exact Hl;
    revert Hl; cbn [decides]; destruct (truthy v), (is_null v); exact id.
Qed.

Lemma eval_agrees e : ∀ ρ, map_ok ρ → ok_ev ρ e.
Proof.
  induction e as [v|ps IH|n|fs IH|l IH|b f s IH|a b IHa IHb|b IH|a b IHa IHb|n l IH|n fs IH|o e IH|o a b IHa IHb]
    using expr_ind'; intros ρ Hk.
  all: try (assert (Forall (λ e, ok_ev ρ e) l) as Hl by (eapply Forall_impl; [exact IH|]; cbn; eauto)).
  all: try (assert (Forall (λ kv, ok_ev ρ (snd kv)) fs) as Hf by (eapply Forall_impl; [exact IH|]; cbn; eauto)).
  - eapply agrees_iff; [apply agrees_ret|]. by_rule.
  - assert (Forall (on_part (λ e, ok_ev ρ e)) ps) as Hp.
    { eapply Forall_impl; [exact IH|]. intros [s|e]; cbn; eauto. }
    eapply agrees_iff; [apply agrees_map, parts_agree, Hp|]. by_rule.
  - eapply agrees_iff; [apply agrees_map, agrees_vars|]. by_rule.
  - eapply agrees_iff; [apply agrees_map, fields_agree, Hf|]. by_rule.
  - eapply agrees_iff; [apply agrees_map, list_agrees, Hl|]. by_rule.
  - eapply agrees_iff; [apply agrees_map_lift, IH, Hk|]. by_rule.
  - eapply agrees_iff; [apply agrees_bind; [apply IHa, Hk|intros v em _; apply agrees_map, IHb, Hk]|]. by_rule.
  - eapply agrees_iff; [apply IH, Hk|]. by_rule.
  - apply filter_agrees; auto.
  - eapply agrees_iff; [apply agrees_bind; [apply list_agrees, Hl|intros vs em _; apply call_agrees]|].
    intros v em. unfold call_gives. split.
    + intros (vs & em1 & em2 & -> & Hv & -> & H). rewrite app_nil_r. destruct (String.eqb_spec n "secret"); parts; eauto using ev.
    + inversion 1; subst; (eexists _, em, []; rewrite app_nil_r; split; [done|]; split; [eassumption|]; split; [done|]).
      * by destruct (String.eqb_spec n "secret").
      * cbn. eauto.
  - eapply agrees_iff; [apply agrees_bind; [apply fields_agree, Hf|]|].
    { intros m em Hm. apply invoke_agrees. by eapply fields_ok. }
    by_rule.
  - eapply agrees_iff; [apply agrees_map, IH, Hk|]. by_rule.
  - apply bin_agrees; auto.
Qed.

(** ** Statements *)

Notation ok_block ρ b := (leads ρ (m_each (exec svc) b) (ex_block k p ρ b)).

Lemma block_leads b : Forall (λ s, ∀ ρ, leads ρ (exec svc s) (ex k p ρ s)) b → ∀ ρ, ok_block ρ b.
Proof.
  induction 1 as [|s b Hs _ IH]; intros ρ; cbn.
  - eapply leads_iff; [apply leads_skip|]. by_rule.
  - eapply leads_iff; [apply leads_seq; [apply Hs|exact IH]|]. by_rule.
Qed.
Lemma arms_lead arms o : Forall (λ a, ∀ ρ, ok_block ρ (snd a)) arms → (∀ ρ, ok_block ρ o) → ∀ ρ, map_ok ρ →
  leads ρ (m_arms (eval svc) (m_each (exec svc)) (m_each (exec svc) o) arms) (ex_arms k p ρ arms o).
Proof.
  intros Ha Ho. induction Ha as [|[[c sp] b] arms Hb _ IH]; intros ρ Hk; cbn.
  - eapply leads_iff; [apply Ho|]. by_rule.
  - eapply leads_iff.
    { apply leads_expr with (K := λ v ρ' em r, if truthy v then ex_block k p ρ b ρ' em r else ex_arms k p ρ arms o ρ' em r);
        [by apply eval_agrees|]. intros v em _. destruct (truthy v); [apply Hb|by apply IH]. }
    intros ρ' em r. split.
    + intros (v & em1 & em2 & -> & Hv & H). destruct (truthy v) eqn:Et; eauto using ex_arms.
    + inversion 1; subst; exists v, em1, em2; destruct (truthy v); done.
Qed.
Lemma each_leads x b l : (∀ ρ, ok_block ρ b) → ∀ ρ,
  leads ρ (m_each (λ i, _ ← upd_ctx (λ c, set_var c x i); m_each (exec svc) b) l) (ex_each k p ρ x b l).
Proof.
  intros Hb. induction l as [|i l IH]; intros ρ; cbn.
  - eapply leads_iff; [apply leads_skip|]. by_rule.
  - eapply leads_iff.
    { apply leads_seq; [|exact IH]. apply leads_seq; [|exact Hb].
      apply leads_upd with (ρ' := map_insert x i ρ) (em := []) (r := None); [|apply map_insert_ok].
      intros c <-. unfold set_var, with_vars, out. by rewrite app_nil_r. }
    intros ρ' em r. split.
    + intros (ρ1 & em1 & em2 & r1 & r2 & -> & -> & (ρ0 & e0 & em3 & r0 & r3 & -> & -> & (-> & -> & ->) & H1) & H2).
      cbn [app]. replace (later (later None r3) r2) with (later r3 r2) by (by destruct r2, r3). by eapply ee_cons.
    + inversion 1; subst. exists ρ1, em1, em2, r1, r2. split; [done|]. split; [done|]. split; [|done].
      exists (map_insert x i ρ), [], em1, None, r1. split; [done|]. split; [by destruct r1|]. done.
Qed.

Lemma assign_ok path v (ρ ρ' : env) : assign path v ρ = Ok ρ' → map_ok ρ → map_ok ρ'.
Proof.
  destruct path as [|x [|y rest]]; cbn; [done|intros [= <-]; apply map_insert_ok|intros [= <-]; apply map_insert_ok].
Qed.

Lemma leads_when ρ m J : (map_ok ρ → leads ρ m J) → leads ρ m J.
Proof. intros H c eng Hc Hk Hg. by apply H. Qed.
Lemma leads_assign ρ path v :
  leads ρ (m ← get_vars; m' ← lift (assign path v m); upd_ctx (λ c, with_vars c m'))
    (λ ρ' em r, assign path v ρ = Ok ρ' ∧ em = [] ∧ r = None).
Proof.
  intros c eng Hc Hk Hg. unfold mbind, m_bind, get_vars, lift, upd_ctx. cbn [fst snd]. rewrite Hc.
  assert (∀ ρ', with_vars c ρ' = out c ρ' [] None) as Ho by (intros; unfold with_vars, out; by rewrite app_nil_r).
  pose proof (assign_ok path v ρ) as Hok. split.
  - intros c' eng' E. destruct (assign path v ρ) as [ρ'|e| |]; try done. injection E as <- <-. rewrite Ho. eauto 10.
  - intros ρ' em r (Ha & -> & ->). rewrite Ha in *. split; [by apply Hok|]. exists eng. by rewrite <- Ho.
Qed.
Lemma leads_merge ρ v : leads ρ
  match v with VObject o => upd_ctx (λ c, with_vars c (map_extend (vars c) o)) | _ => mret () end
  (λ ρ' em r, ρ' = match v with VObject o => map_extend ρ o | _ => ρ end ∧ em = [] ∧ r = None).
Proof.
  destruct v; try apply leads_skip. apply leads_upd; [|by apply map_extend_ok].
  intros c <-. unfold with_vars, out. by rewrite app_nil_r.
Qed.
Lemma leads_emit ρ v b : map_ok ρ → leads ρ (emit_to v (eval svc b))
  (λ ρ' em r, ∃ s w em2, v = VString s ∧ valid_subject s = true ∧ ev k p ρ b w em2 ∧
     ρ' = ρ ∧ em = (em2 ++ [(s, w)])%list ∧ r = None).
Proof.
  intros Hk. unfold emit_to.
  assert (∀ e, leads ρ (fail e) (λ _ _ _, False)) as Hfail by (by intros e c eng Hc _ Hg).
  destruct v as [| | |s| |]; try (eapply leads_iff; [apply Hfail|]; intros; split; [done|]; intros; by parts).
  destruct (valid_subject s) eqn:Ev.
  2: { eapply leads_iff; [apply Hfail|]. intros. split; [done|]. intros. parts. congruence. }
  eapply leads_iff.
  { apply leads_expr; [by apply eval_agrees|]. intros w em _. apply (leads_upd ρ _ ρ [(s, w)] None); [|done].
    by intros c <-. }
  intros ρ' em r. split; [intros; parts; eauto 10|]. intros (s' & w & em2 & [= <-] & _ & Hw & -> & -> & ->). eauto 10.
Qed.

Lemma exec_leads s : ∀ ρ, leads ρ (exec svc s) (ex k p ρ s).
Proof.
  induction s as [path e|arms o Ha Ho|x e b Hb|a b|a b|f fs] using stmt_ind'; intros ρ; apply leads_when; intros Hk; cbn.
  - eapply leads_iff; [apply leads_expr; [by apply eval_agrees|intros v em _; apply leads_assign]|].
    by_rule. exists v, em, []. by rewrite app_nil_r.
  - assert (match o with Some b => m_each (exec svc) b | None => mret () end = m_each (exec svc) (default [] o)) as ->
      by (by destruct o).
    eapply leads_iff; [apply arms_lead; [|apply block_leads|done]|].
    + eapply Forall_impl; [exact Ha|]. intros [? b] Hb. by apply block_leads.
    + by destruct o.
    + by_rule.
  - eapply leads_iff.
    { apply leads_expr with (K := λ v ρ' em r, match v with
        | VArray l => ex_each k p ρ x b l ρ' em r
        | _ => ρ' = ρ ∧ em = [] ∧ r = None end); [by apply eval_agrees|].
      intros v em _. destruct v; try apply leads_skip. apply each_leads. by apply block_leads. }
    intros ρ' em r. split.
    + intros (v & em1 & em2 & -> & Hv & H). destruct v; parts; rewrite ?app_nil_r; eauto using ex.
    + inversion 1; subst; [by exists (VArray l), em1, em2; eauto|]. exists v, em, []. rewrite app_nil_r.
      split; [done|]. split; [done|]. by destruct v.
  - eapply leads_iff; [apply leads_expr; [by apply eval_agrees|intros v em _; by apply leads_emit]|].
    by_rule.
  - eapply leads_iff.
    { apply leads_expr; [by apply eval_agrees|]. intros v em _. apply leads_expr; [by apply eval_agrees|]. intros w em' _.
      apply (leads_upd ρ _ ρ [] (Some (v, w))); [|done]. intros c <-. unfold set_response, out. by rewrite app_nil_r. }
    by_rule. exists v, em1, em2. split; [done|]. split; [done|]. exists w, em2, []. by rewrite app_nil_r.
  - assert (Forall (λ kv, ∀ ρ, map_ok ρ → agrees ρ (eval svc (snd kv)) (ev k p ρ (snd kv))) fs) as Hf.
    { apply Forall_forall. intros. by apply eval_agrees. }
    eapply leads_iff.
    { apply leads_expr; [apply fields_agree; eapply Forall_impl; [exact Hf|]; cbn; eauto|]. intros m em Hm.
      apply leads_expr; [apply invoke_agrees; by eapply fields_ok|]. intros v em' _. apply leads_merge. }
    by_rule. exists m, em1, em2. split; [done|]. split; [done|]. exists v, em2, []. by rewrite app_nil_r.
Qed.
End Agree.

(** ** Services and runs *)

(** What a service is asked and what it may give. *)
Definition serves_as (d : nat) (p : string) (k : nat)
  (svc : string → smap Value → Engine → res verr (Value * list emit) * Engine) : Prop :=
  ∀ f m eng, map_ok m → at_depth files root store d p eng →
  (∀ v em eng', svc f m eng = (Ok (v, em), eng') → at_depth files root store d p eng' ∧ serves k p f m v em) ∧
  ∀ v em, serves k p f m v em → ∃ eng', svc f m eng = (Ok (v, em), eng') ∧ at_depth files root store d p eng'.

Lemma all_block d p k svc b ρ : serves_as d p k svc → leads d p ρ (exec_block svc b) (ex_block k p ρ b).
Proof.
  intros Hs. unfold exec_block. apply (block_leads d p k svc). apply Forall_forall. intros s _. by apply exec_leads.
Qed.

(** The statements of a service, from its arguments, and back to the package
    that asked. *)
Lemma body_agrees d p k n pkg stmts m eng : serves_as (S d) pkg k (run_service files n) → map_ok m →
  at_depth files root store (S d) p eng →
  let '(r, (c, eng1)) := exec_block (run_service files n) stmts (service_ctx m, with_pkg eng pkg) in
  let back := with_depth (with_pkg eng1 (caller_pkg eng)) (pred (depth eng1)) in
  let body ρ' em r := ex_block k pkg (map_insert "event" (VObject m) m) stmts ρ' em r in
  (r = Ok () → at_depth files root store d p back ∧ ∃ a, body (vars c) (emits c) a) ∧
  ∀ ρ' em a, body ρ' em a → r = Ok () ∧ vars c = ρ' ∧ emits c = em.
Proof.
  intros Hs Hm [G1 G2 G3 G4 G5].
  assert (at_depth files root store (S d) pkg (with_pkg eng pkg)) as Hg by (constructor; try done; by apply coherent_pkg).
  destruct (all_block _ _ _ _ stmts _ Hs (service_ctx m) (with_pkg eng pkg) eq_refl (map_insert_ok _ _ _ Hm) Hg) as [H1 H2].
  destruct (exec_block _ _ _) as [r [c eng1]]. split.
  - intros ->. destruct (H1 _ _ eq_refl) as (ρ' & em & a & -> & _ & [F1 F2 F3 F4 F5] & Hj). cbn [vars emits out].
    split; [|by exists a]. constructor; cbn; try done; [by rewrite F2|]. by apply coherent_depth, coherent_pkg.
  - intros ρ' em a Hj. destruct (H2 _ _ _ Hj) as (_ & eng2 & [= -> -> ->] & _). done.
Qed.

Lemma services_agree k : ∀ d p n, k + d = max_depth → S max_depth <= n + d → serves_as d p k (run_service files n).
Proof.
  induction k as [|k IH]; intros d p [|n] Hk Hn f m eng Hm Hg; [cbn in Hn; lia| |lia|]; cbn [run_service];
    rewrite (ad_depth _ _ _ _ _ _ Hg).
  { rewrite (proj2 (Nat.leb_le max_depth d)) by lia. split; [done|]. intros v em H. inversion H. }
  destruct (Nat.leb_spec max_depth d); [lia|].
  destruct (resolve_step files eng f (ad_coherent _ _ _ _ _ _ Hg)) as (Hr & Hc & Hf).
  pose proof (λ pkg s e', resolve_names files eng f pkg s e') as Hnames.
  rewrite (ad_root _ _ _ _ _ _ Hg), (ad_pkg _ _ _ _ _ _ Hg) in Hr.
  destruct (resolve files f eng) as [r eng1]. cbn [fst snd] in Hr, Hc, Hf. subst r.
  pose proof (at_depth_frame _ _ _ _ _ _ _ Hg Hf Hc) as Hg1.
  destruct (resolve_spec files root p f) as [[pkg s]|e| |] eqn:Es;
    try (split; [done|]; intros v em Hs; inversion Hs; subst; congruence).
  destruct (Hnames _ _ _ eq_refl) as [Hv1 Hv2]. rewrite (ad_depth _ _ _ _ _ _ Hg1).
  assert (at_depth files root store (S d) p (with_depth eng1 (S d))) as Hg2.
  { destruct Hg1. constructor; try done. by apply coherent_depth. }
  destruct (service_stmts_step files (with_depth eng1 (S d)) pkg s (ad_coherent _ _ _ _ _ _ Hg2) Hv1 Hv2) as (Hr2 & Hc2 & Hf2).
  destruct (service_stmts files pkg s (with_depth eng1 (S d))) as [r2 eng2]. cbn [fst snd] in Hr2, Hc2, Hf2. subst r2.
  pose proof (at_depth_frame _ _ _ _ _ _ _ Hg2 Hf2 Hc2) as Hg3. rewrite (ad_root _ _ _ _ _ _ Hg2).
  destruct (service_spec files root pkg s) as [stmts|e| |] eqn:Ess;
    try (split; [done|]; intros v em Hs; inversion Hs; subst; congruence).
  pose proof (body_agrees d p k n pkg stmts m eng2 (IH (S d) pkg n ltac:(lia) ltac:(lia)) Hm Hg3) as Hb.
  destruct (exec_block _ _ _) as [r [c eng3]]. destruct Hb as [H1 H2]. split.
  - intros v em eng' E. destruct r as [[]|e| |]; try done. injection E as <- <- <-.
    destruct (H1 eq_refl) as (Hback & a & Hj). split; [exact Hback|]. by eapply serves_in.
  - intros v em Hs. inversion Hs; subst. assert (pkg0 = pkg ∧ svc = s) as [-> ->] by (split; congruence).
    assert (stmts0 = stmts) as -> by congruence. 
    match goal with Hx : ex_block _ _ _ stmts _ _ _ |- _ => destruct (H2 _ _ _ Hx) as (-> & <- & <-) end.
    eexists. split; [reflexivity|]. by destruct (H1 eq_refl).
Qed.

Lemma run_derives pkg prog event c :
  (∃ eng', run files prog event (with_secrets root pkg store) = (Ok c, eng')) ↔
  means pkg prog event (vars c) (emits c) (response c).
Proof.
  assert (at_depth files root store 0 pkg (with_secrets root pkg store)) as Hg.
  { constructor; done || apply coherent_empty. }
  assert (map_ok (vars (event_ctx event))) as Hm.
  { cbn. apply map_insert_ok. destruct event; try done. by apply map_extend_ok. }
  destruct (all_block 0 pkg max_depth (run_service files (S max_depth)) (p_stmts prog) _
    (services_agree max_depth 0 pkg (S max_depth) eq_refl ltac:(lia)) (event_ctx event) _ eq_refl Hm Hg) as [H1 H2].
  assert (∀ ρ em r, out (event_ctx event) ρ em r = {| vars := ρ; emits := em; response := r |}) as Ho.
  { intros. unfold out, later. cbn. by destruct r. }
  unfold means, run. split.
  - intros [eng' E]. destruct (exec_block _ _ _) as [r [c1 eng1]]. destruct r as [[]|e| |]; try done.
    injection E as <- _. destruct (H1 _ _ eq_refl) as (ρ & em & r & -> & _ & _ & Hj). by rewrite Ho.
  - intros Hj. destruct (H2 _ _ _ Hj) as (_ & eng1 & E & _). rewrite E, Ho. exists eng1. by destruct c.
Qed.

(** C6: The interpreter is the semantics: on a new engine, a run returns a
    context exactly when the semantics derives its variables, its emits and its
    answer, and it derives no others; so neither the caches, nor the count of
    the depth, nor the variables that filters hide and restore show. *)
Theorem run_means pkg prog event :
  (∀ c, (∃ eng', run files prog event (with_secrets root pkg store) = (Ok c, eng')) ↔
        means pkg prog event (vars c) (emits c) (response c)) ∧
  ∀ ρ1 em1 r1 ρ2 em2 r2, means pkg prog event ρ1 em1 r1 → means pkg prog event ρ2 em2 r2 →
    ρ1 = ρ2 ∧ em1 = em2 ∧ r1 = r2.
Proof.
  split; [apply run_derives|]. intros ρ1 em1 r1 ρ2 em2 r2 H1 H2.
  apply (run_derives pkg prog event {| vars := ρ1; emits := em1; response := r1 |}) in H1 as [e1 H1].
  apply (run_derives pkg prog event {| vars := ρ2; emits := em2; response := r2 |}) in H2 as [e2 H2].
  rewrite H1 in H2. by injection H2 as -> -> ->.
Qed.
End Semantics.

(** ** A script of the project of [RunProps] *)

Module Demo.
Import RunProps.Demo.

Definition demo_run : res verr Ctx * Engine :=
  run files (program_of source) event (with_secrets "root" "default" store).
Definition ended : Ctx := match fst demo_run with Ok c => c | _ => event_ctx event end.

Lemma ran {E A} (r : res E A * Engine) a0 : is_ok (fst r) = true →
  r = (Ok (match fst r with Ok a => a | _ => a0 end), snd r).
Proof. by destruct r as [[] ?]. Qed.

Lemma run_means_witness :
  emits ended = [("x.y", obj [("v", VString "BOB")]);
    ("o.p", obj [("g", VString "hi"); ("a", VString "BOB"); ("n", vint 1); ("k", VString "s3cr3t")])] ∧
  means files "root" store "default" (program_of source) event (vars ended) (emits ended) (response ended).
Proof.
  split; [vm_compute; reflexivity|].
  apply (proj1 (run_means files "root" store "default" (program_of source) event)).
  exists (snd demo_run). apply ran. vm_compute. reflexivity.
Defined.
End Demo.
