(* ===== verification/PrintParse.v ===== *)
(** * VejasScript: expressions read as they are written

    A printer of expressions with no more parentheses than their operators
    need, and the theorem that the parser gives back the expression that was
    printed: the levels of the operators, their association to the left, the
    reach of a unary operator and of what follows a value are those of the
    printer. *)

From stdpp Require Import base list strings.
From Stdlib Require Import ZArith Lia Ascii SpecFloat.
From S2P Require Import Prelude Text F64 Json Syntax Analysis Lexer Parser.
Open Scope string_scope.
Open Scope nat_scope.

(** ** More fuel changes nothing *)

(** The same outcome, or one that fuel kept from being known. *)
Definition known_as {E A} (r r' : res E A) : Prop := r = NoFuel ∨ r = r'.
Infix "⊑" := known_as (at level 70).

Lemma known_refl {E A} (r : res E A) : r ⊑ r.
Proof. by right. Qed.
Lemma known_bind {E A B} (r r' : res E A) (f f' : A → res E B) :
  r ⊑ r' → (∀ a, f a ⊑ f' a) → (r ≫= f) ⊑ (r' ≫= f').
Proof. intros [->| ->] Hf; [by left|]. destruct r'; [apply Hf|by right..]. Qed.

Record more_fuel (n k : nat) : Prop := {
  mf_expr env bp ts : expr_fuel n env bp ts ⊑ expr_fuel k env bp ts;
  mf_primary env ts : primary_fuel n env ts ⊑ primary_fuel k env ts;
  mf_fparts env ps : fparts_fuel n env ps ⊑ fparts_fuel k env ps;
  mf_items env ts : items_fuel n env ts ⊑ items_fuel k env ts;
  mf_fields env ts : fields_fuel n env ts ⊑ fields_fuel k env ts;
  mf_call env ts : call_args_fuel n env ts ⊑ call_args_fuel k env ts;
  mf_invoke env ts : invoke_args_fuel n env ts ⊑ invoke_args_fuel k env ts;
  mf_named env ts : named_args_fuel n env ts ⊑ named_args_fuel k env ts;
  mf_postfix env lhs ts : postfix_fuel n env lhs ts ⊑ postfix_fuel k env lhs ts;
  mf_binary env bp lhs ts : binary_fuel n env bp lhs ts ⊑ binary_fuel k env bp lhs ts
}.

Lemma more_fuel_step n k : more_fuel n k → more_fuel (S n) (S k).
Proof.
  intros [H1 H2 H3 H4 H5 H6 H7 H8 H9 H10]. split; intros; cbn.
  all: repeat first
    [ apply known_refl | apply H1 | apply H2 | apply H3 | apply H4 | apply H5 | apply H6 | apply H7 | apply H8 | apply H9
    | apply H10 | apply known_bind; [|intros ?] | case_match ].
Qed.
Lemma more_fuel_all n : ∀ k, n ≤ k → more_fuel n k.
Proof.
  induction n as [|n IH]; intros k Hk; [split; intros; by left|]. destruct k as [|k]; [lia|]. apply more_fuel_step, IH. lia.
Qed.

(** ** What the functions of the parser give *)

(** With fuel enough. *)
Definition gives {A} (f : nat → res perr A) (a : A) : Prop := ∃ n, ∀ k, n <= k → f k = Ok a.
Notation p_expr env mb ts r := (gives (λ n, expr_fuel n env mb ts) r).
Notation p_primary env ts r := (gives (λ n, primary_fuel n env ts) r).
Notation p_fparts env ps r := (gives (λ n, fparts_fuel n env ps) r).
Notation p_items env ts r := (gives (λ n, items_fuel n env ts) r).
Notation p_fields env ts r := (gives (λ n, fields_fuel n env ts) r).
Notation p_call env ts r := (gives (λ n, call_args_fuel n env ts) r).
Notation p_named env ts r := (gives (λ n, named_args_fuel n env ts) r).
Notation p_postfix env lhs ts r := (gives (λ n, postfix_fuel n env lhs ts) r).
Notation p_binary env mb lhs ts r := (gives (λ n, binary_fuel n env mb lhs ts) r).

Lemma gives_now {A} (f : nat → res perr A) a : (∀ n, f (S n) = Ok a) → gives f a.
Proof. intros H. exists 1. intros [|k] Hk; [lia|apply H]. Qed.
Lemma gives_step {A B} (f : nat → res perr A) (g : nat → res perr B) (h : B → A) b :
  (∀ n, f (S n) = x ← g n; Ok (h x)) → gives g b → gives f (h b).
Proof. intros H [n Hn]. exists (S n). intros [|k] Hk; [lia|]. rewrite H, Hn by lia. done. Qed.
Lemma gives_tail {A} (f g : nat → res perr A) a : (∀ n, f (S n) = g n) → gives g a → gives f a.
Proof. intros H [n Hn]. exists (S n). intros [|k] Hk; [lia|]. rewrite H. apply Hn. lia. Qed.
Lemma gives_then {A B} (f : nat → res perr A) (g : nat → res perr B) (h : B → nat → res perr A) b a :
  (∀ n, f (S n) = x ← g n; h x n) → gives g b → gives (h b) a → gives f a.
Proof.
  intros H [n1 H1] [n2 H2]. exists (S (n1 `max` n2)). intros [|k] Hk; [lia|]. rewrite H, H1 by lia. cbn. apply H2. lia.
Qed.

(** What a function gives is its result, when it has fuel enough and more
    changes nothing. *)
Lemma gives_total {A} (f : nat → res perr A) k a : (∀ n, k <= n → f k ⊑ f n) → f k ≠ NoFuel → gives f a → f k = Ok a.
Proof.
  intros Hm Hk [n Hn]. destruct (Hm (k `max` n) ltac:(lia)) as [H|H]; [done|]. rewrite H. apply Hn. lia.
Qed.
Lemma expr_gives env mb ts r : p_expr env mb ts r → expr env mb ts = Ok r.
Proof.
  apply (gives_total (λ n, expr_fuel n env mb ts)); [|exact (yields_fuel _ _ (expr_yields env mb ts))].
  intros n Hn. by apply mf_expr, more_fuel_all.
Qed.

(** ** The printer *)

(** Tokens without their places. *)
Definition placed (l : list Tok) : toks := map (λ t, (t, 0)) l.
Fixpoint commas (l : list (list Tok)) : list Tok :=
  match l with [] => [] | [x] => x | x :: l => x ++ TComma :: commas l end.
Definition op_tok (op : BinOp) : Tok :=
  match op with
  | Or => TOr | And => TAnd | Coalesce => TQQ | OEq => TEqEq | ONe => TNe | OLt => TLt | OLe => TLe | OGt => TGt
  | OGe => TGe | In => TIn | Add => TPlus | Sub => TMinus | Mul => TStar | Div => TSlash
  end.
Definition op_level (op : BinOp) : nat :=
  match op with Or => 1 | And => 2 | Coalesce => 3 | OEq | ONe | OLt | OLe | OGt | OGe | In => 4 | Add | Sub => 5 | Mul | Div => 6 end.
Definition level (e : Expr) : nat := match e with EBin op _ _ => op_level op | EUnary _ _ => 10 | _ => 11 end.
Definition number (n : Number) : f64 := match n with NFloat f => f | NInt z => f64_of_Z z end.
(** The key of a document or the name of an argument: a word, or a string. *)
Definition key_tok (k : string) : Tok :=
  match k with
  | "" => TStr k
  | String c r => if is_word_start c && forallb is_word_byte (String.list_ascii_of_string r) then keyword k else TStr k
  end.
(** The name of a service, which may say its package. *)
Definition name_toks (f : string) : list Tok :=
  match split_once f ":" with Some (p, s) => [TIdent p; TColon; TIdent s] | None => [TIdent f] end.
Definition lit_toks (v : Value) : list Tok :=
  match v with
  | VNull => [TNull]
  | VBool b => [if b : bool then TTrue else TFalse]
  | VNumber n => [TNum (number n)]
  | VString s => [TStr s]
  | _ => []
  end.

(** An expression where those of a level up to [m] need parentheses. *)
Definition wrapped (m : nat) (e : Expr) (body : list Tok) : list Tok :=
  if level e <=? m then TLParen :: body ++ [TRParen] else body.

Fixpoint body (e : Expr) : list Tok :=
  let at_ m e := wrapped m e (body e) in
  let named (fs : list (string * Expr)) :=
    commas (map (λ kv, match kv with (x, e) => key_tok x :: TColon :: at_ 0 e end) fs) in
  match e with
  | ELit v => lit_toks v
  | EFString ps =>
    [TFStr (map (λ p, match p with PLit s => PLit s | PExpr e => PExpr (placed (at_ 0 e ++ [TNewline])) end) ps)]
  | EVar x => [keyword x]
  | EDoc fs => TLBrace :: named fs ++ [TRBrace]
  | EArray l => TLBrack :: commas (map (at_ 0) l) ++ [TRBrack]
  | EField b f safe => at_ 10 b ++ [if safe : bool then TQDot else TDot; keyword f]
  | EIndex a b | EFilter a b => at_ 10 a ++ TLBrack :: at_ 0 b ++ [TRBrack]
  | EProjection b => at_ 10 b ++ [TLBrack; TRBrack]
  | ECall f l => TIdent f :: TLParen :: commas (map (at_ 0) l) ++ [TRParen]
  | EInvoke f fs => TInvoke :: name_toks f ++ TLParen :: named fs ++ [TRParen]
  | EUnary op e => (match op with Not => TNot | Neg => TMinus end) :: at_ 9 e
  | EBin op l r => at_ (pred (op_level op)) l ++ op_tok op :: at_ (op_level op) r
  end.
Definition print_at (m : nat) (e : Expr) : list Tok := wrapped m e (body e).
Definition print_expr (e : Expr) : list Tok := print_at 0 e.

(** The parser makes this number of its token. *)
Definition number_ok (n : Number) : bool :=
  match n, num (number n) with
  | NFloat _, VNumber (NFloat _) => true
  | NInt z, VNumber (NInt z') => Z.eqb z' z
  | _, _ => false
  end.
Definition signed (n : Number) : bool :=
  match number n with S754_zero s | S754_infinity s | S754_finite s _ _ => s | S754_nan => false end.

(** The values a literal of an expression can have. *)
Definition literal_ok (v : Value) : bool :=
  match v with
  | VNull | VBool _ | VString _ => true
  | VNumber n => negb (signed n) && number_ok n
  | _ => false
  end.

(** The words that an expression takes for a variable. *)
Definition is_var (t : Tok) : bool := match t with TIdent _ | TSource | TTool | TDriver | TApi => true | _ => false end.

(** The expressions that have a text: their literals are those of the language,
    and a bracket holds a condition exactly when it filters. *)
Fixpoint printable (e : Expr) : bool :=
  match e with
  | ELit v => literal_ok v
  | EFString ps => forallb (λ p, match p with PLit _ => true | PExpr e => printable e end) ps
  | EVar x => is_var (keyword x)
  | EDoc fs | EInvoke _ fs => forallb (λ kv, match kv with (_, e) => printable e end) fs
  | EArray l | ECall _ l => forallb printable l
  | EField b _ _ | EProjection b => printable b
  | EIndex a b => negb (is_filter b) && printable a && printable b
  | EFilter a b => is_filter b && printable a && printable b
  | EUnary _ e => printable e
  | EBin _ a b => printable a && printable b
  end.

(** What may follow an expression of which operators up to level [m] are not
    part. *)
Definition ends_at (m : nat) (t : Tok) : bool :=
  match t with
  | TDot | TQDot | TLBrack | TLParen => false
  | t => match binop_of t with Some (_, bp) => bp <=? m | None => true end
  end.

Example printed :
  print_expr (EBin Sub (EBin Sub (EVar "a") (EVar "b"))
    (EBin Sub (EVar "c") (EUnary Not (EBin OEq (EVar "d") (EVar "e"))))) =
  [TIdent "a"; TMinus; TIdent "b"; TMinus; TLParen; TIdent "c"; TMinus; TNot; TLParen; TIdent "d"; TEqEq; TIdent "e"; TRParen; TRParen].
Proof. reflexivity. Qed.

(** ** Reading back *)

Section Read.
Context (env : penv).
#[local] Arguments Nat.leb : simpl never.

Lemma binop_tok op : binop_of (op_tok op) = Some (op, op_level op).
Proof. by destruct op. Qed.
Lemma level_pos e : 0 < level e.
Proof. destruct e; cbn; try lia. destruct op; cbn; lia. Qed.

Lemma binary_stop mb lhs ts : match binop_of (peek ts) with Some (_, bp) => bp <= mb | None => True end →
  p_binary env mb lhs ts (lhs, ts).
Proof.
  intros H. apply gives_now. intros n. cbn. destruct (binop_of (peek ts)) as [[op bp]|]; [|done].
  by rewrite (proj2 (Nat.leb_le bp mb)).
Qed.
Lemma ends_binary m mb lhs ts : ends_at m (peek ts) = true → m <= mb → p_binary env mb lhs ts (lhs, ts).
Proof.
  intros H Hm. apply binary_stop. destruct (peek ts); try done; cbn in *; try lia; by apply Nat.leb_le in H; lia.
Qed.
Lemma ends_postfix m lhs ts : ends_at m (peek ts) = true → p_postfix env lhs ts (lhs, ts).
Proof. intros H. apply gives_now. intros n. cbn. by destruct (peek ts). Qed.
Lemma ends_mono m m' t : ends_at m t = true → m <= m' → ends_at m' t = true.
Proof. destruct t; cbn; try done; intros H%Nat.leb_le ?; apply Nat.leb_le; lia. Qed.

(** A value and what follows it. *)
Definition p_value (ts : toks) (r : Expr * toks) : Prop :=
  ∃ a ts1, p_primary env ts (a, ts1) ∧ p_postfix env a ts1 r.
Lemma value_expr mb ts b ts2 r : p_value ts (b, ts2) → p_binary env mb b ts2 r → p_expr env mb ts r.
Proof.
  intros (a & ts1 & Hp & Hq) Hb.
  eapply (gives_then _ _ (λ x n, let '(lhs, ts) := x in '(lhs, ts) ← postfix_fuel n env lhs ts; binary_fuel n env mb lhs ts));
    [intros n; reflexivity|exact Hp|].
  destruct Hq as [n1 H1], Hb as [n2 H2]. exists (n1 `max` n2). intros k Hk. rewrite H1 by lia. cbn. apply H2. lia.
Qed.
End Read.

(** ** Words *)

Lemma keyword_word w : word_of (keyword w) = Some w.
Proof. unfold keyword. repeat (case_match; try reflexivity). Qed.
Lemma key_word k : word_of (key_tok k) = Some k.
Proof. destruct k as [|c r]; [done|]. unfold key_tok. destruct (_ && _); [apply keyword_word|done]. Qed.
Lemma word_reads env what t w p ts : word_of t = Some w → word env what ((t, p) :: ts) = Ok (w, ts).
Proof. unfold word. cbn. by intros ->. Qed.

(** The first token of an expression. *)
Definition starts (t : Tok) : bool :=
  match t with TNewline | TComma | TRBrack | TRBrace | TRParen => false | _ => true end.
Definition starts_with (l : list Tok) : bool := match l with t :: _ => starts t | [] => false end.
Lemma word_starts t w : word_of t = Some w → starts t = true.
Proof. by destruct t. Qed.
Lemma wrapped_starts m e l : starts_with l = true → starts_with (wrapped m e l) = true.
Proof. unfold wrapped. by destruct (level e <=? m). Qed.
Lemma app_starts l r : starts_with l = true → starts_with (l ++ r) = true.
Proof. by destruct l. Qed.
Lemma body_starts e : printable e = true → starts_with (body e) = true.
Proof.
  induction e using expr_ind'; cbn; intros Hp; bool_prop; try done; try (apply app_starts, wrapped_starts; by auto).
  - destruct v as [|[]|[]| | |]; done.
  - eapply word_starts, keyword_word.
  - by destruct o.
Qed.
Lemma print_starts m e : printable e = true → starts_with (print_at m e) = true.
Proof. intros H. by apply wrapped_starts, body_starts. Qed.

(** ** Lists *)

Definition closer (t : Tok) : bool := match t with TRBrack | TRBrace | TRParen => true | _ => false end.
Definition tail_of (close : Tok) (xs : list (list Tok)) (rest : toks) : toks :=
  match xs with [] => (close, 0) :: rest | _ => (TComma, 0) :: placed (commas xs) ++ (close, 0) :: rest end.

Lemma placed_app a b : placed (a ++ b) = (placed a ++ placed b)%list.
Proof. apply map_app. Qed.
Lemma placed_cons t l rest : (placed (t :: l) ++ rest)%list = (t, 0) :: (placed l ++ rest)%list.
Proof. done. Qed.
Lemma placed_closed l c rest : (placed (l ++ [c]) ++ rest)%list = (placed l ++ (c, 0) :: rest)%list.
Proof. by rewrite placed_app, <- app_assoc. Qed.
Lemma commas_cons close x xs rest : (placed (commas (x :: xs)) ++ (close, 0) :: rest)%list = (placed x ++ tail_of close xs rest)%list.
Proof.
  destruct xs as [|y xs]; [done|]. cbn [commas tail_of]. rewrite placed_app, <- app_assoc. done.
Qed.
Lemma starts_peek l r : starts_with l = true → starts (peek (placed l ++ r)) = true.
Proof. by destruct l. Qed.
Lemma commas_start xs : Forall (λ x, starts_with x = true) xs → xs = [] ∨ starts_with (commas xs) = true.
Proof. intros [|x ys Hx _]; [by left|]. right. destruct ys; [done|]. by apply app_starts. Qed.
Lemma skip_newlines_starts ts : starts (peek ts) = true → skip_newlines ts = ts.
Proof. destruct ts as [|[[] ?] ?]; done. Qed.
Lemma opened_list close xs rest : closer close = true → Forall (λ x, starts_with x = true) xs →
  skip_newlines (placed (commas xs) ++ (close, 0) :: rest) = (placed (commas xs) ++ (close, 0) :: rest)%list.
Proof.
  intros Hc Hx. destruct (commas_start xs Hx) as [->|Hs]; [by destruct close|]. by apply skip_newlines_starts, starts_peek.
Qed.
Lemma tail_skips close xs rest : closer close = true → Forall (λ x, starts_with x = true) xs →
  skip_sep (tail_of close xs rest) = (placed (commas xs) ++ (close, 0) :: rest)%list ∧
  skip_comma (tail_of close xs rest) = (placed (commas xs) ++ (close, 0) :: rest)%list.
Proof.
  intros Hc Hx. destruct xs as [|x xs]; [by destruct close|].
  destruct (commas_start (x :: xs) Hx) as [|Hs]; [done|]. unfold skip_sep, skip_comma.
  cbn [tail_of skip_newlines peek next snd]. change (tok_is TComma TComma) with true. cbv iota. split; [|done].
  apply skip_newlines_starts. by apply starts_peek.
Qed.
Lemma tail_ends close xs rest m : closer close = true → ends_at m (peek (tail_of close xs rest)) = true.
Proof. intros Hc. destruct xs; [by destruct close|done]. Qed.

(** ** The claim, expression by expression *)

Definition reads (e : Expr) : Prop := ∀ env,
  (∀ m mb rest res, mb <= m → m < level e → ends_at (S m) (peek rest) = true →
     p_binary env mb e rest res → p_expr env mb (placed (body e) ++ rest) res) ∧
  (level e = 11 → ∀ rest res, tok_is (peek rest) TLParen = false →
     p_postfix env e rest res → p_value env (placed (body e) ++ rest) res).

Lemma reads_paren env e rest : reads e → p_primary env ((TLParen, 0) :: placed (body e ++ [TRParen]) ++ rest) (e, rest).
Proof.
  intros He. rewrite placed_app, <- app_assoc.
  eapply (gives_then _ _ (λ x n, let '(e, ts) := x in ts ← eat env TRParen ")" ts; Ok (e, ts))); [intros n; reflexivity| |].
  - apply (proj1 (He env) 0 0); [done|apply level_pos|done|]. by apply binary_stop.
  - by apply gives_now.
Qed.
Lemma reads_at env e m mb rest res : reads e → mb <= m → ends_at (S m) (peek rest) = true →
  p_binary env mb e rest res → p_expr env mb (placed (print_at m e) ++ rest) res.
Proof.
  intros He Hm Hr Hb. unfold print_at, wrapped. destruct (Nat.leb_spec (level e) m) as [Hl|Hl].
  - eapply value_expr; [|exact Hb]. exists e, rest. split; [by apply reads_paren|]. by eapply ends_postfix.
  - by eapply (proj1 (He env)).
Qed.
Lemma reads_value env e rest res : reads e → tok_is (peek rest) TLParen = false →
  p_postfix env e rest res → p_value env (placed (print_at 10 e) ++ rest) res.
Proof.
  intros He Hr Hp. unfold print_at, wrapped. destruct (Nat.leb_spec (level e) 10) as [Hl|Hl].
  - exists e, rest. split; [by apply reads_paren|done].
  - apply (proj2 (He env)); [|done|done]. destruct e as [| | | | | | | | | | |?|op]; cbn in *; try done; try lia.
    destruct op; cbn in Hl; lia.
Qed.
Lemma reads_whole env e rest : reads e → ends_at 0 (peek rest) = true →
  p_expr env 0 (placed (print_at 0 e) ++ rest) (e, rest).
Proof.
  intros He Hr. apply reads_at; [done|done|by eapply ends_mono; [|apply Nat.le_0_l]|]. by eapply ends_binary.
Qed.

(** The items of a list, the arguments of a call, the fields of a document and
    the named arguments of an invoke. *)
Definition named_toks (kv : string * Expr) : list Tok := key_tok (fst kv) :: TColon :: print_at 0 (snd kv).

Section Lists.
Context (env : penv) (rest : toks).

Lemma prints_start l : forallb printable l = true → Forall (λ x, starts_with x = true) (map (print_at 0) l).
Proof.
  intros H. apply Forall_forall. intros x (e & -> & He)%list_elem_of_fmap. apply print_starts.
  rewrite forallb_forall in H. by apply H, list_elem_of_In.
Qed.
Lemma names_start fs : Forall (λ x, starts_with x = true) (map named_toks fs).
Proof. apply Forall_forall. intros x (e & -> & He)%list_elem_of_fmap. eapply word_starts, key_word. Qed.
Lemma starts_not_closer t c : starts t = true → closer c = true → tok_is t c = false.
Proof. by destruct t, c. Qed.

Lemma items_read l : Forall reads l → forallb printable l = true →
  p_items env (placed (commas (map (print_at 0) l)) ++ (TRBrack, 0) :: rest) (l, rest).
Proof.
  induction 1 as [|e l He _ IH]; intros Hp; [by apply gives_now|]. cbn [forallb] in Hp. apply andb_true_iff in Hp as [Hpe Hp].
  cbn [map]. rewrite commas_cons. destruct (tail_skips TRBrack (map (print_at 0) l) rest eq_refl (prints_start l Hp)) as [Hs _].
  eapply (gives_then _ _ (λ x n, let '(e, ts) := x in '(es, ts) ← items_fuel n env (skip_sep ts); Ok (e :: es, ts))).
  - intros n. cbn. rewrite starts_not_closer; [reflexivity|by apply starts_peek, print_starts|done].
  - apply reads_whole; [done|by apply tail_ends].
  - cbn beta iota. rewrite Hs. destruct (IH Hp) as [n Hn]. exists n. intros k Hk. by rewrite Hn.
Qed.
Lemma call_reads l : Forall reads l → forallb printable l = true →
  p_call env (placed (commas (map (print_at 0) l)) ++ (TRParen, 0) :: rest) (l, rest).
Proof.
  induction 1 as [|e l He _ IH]; intros Hp; [by apply gives_now|]. cbn [forallb] in Hp. apply andb_true_iff in Hp as [Hpe Hp].
  cbn [map]. rewrite commas_cons. destruct (tail_skips TRParen (map (print_at 0) l) rest eq_refl (prints_start l Hp)) as [_ Hs].
  eapply (gives_then _ _ (λ x n, let '(e, ts) := x in '(es, ts) ← call_args_fuel n env (skip_comma ts); Ok (e :: es, ts))).
  - intros n. cbn. rewrite starts_not_closer; [reflexivity|by apply starts_peek, print_starts|done].
  - apply reads_whole; [done|by apply tail_ends].
  - cbn beta iota. rewrite Hs. destruct (IH Hp) as [n Hn]. exists n. intros k Hk. by rewrite Hn.
Qed.
Lemma fields_read fs : Forall (λ kv, reads (snd kv)) fs →
  p_fields env (placed (commas (map named_toks fs)) ++ (TRBrace, 0) :: rest) (fs, rest).
Proof.
  induction 1 as [|[x e] fs He _ IH]; [by apply gives_now|].
  cbn [map]. rewrite commas_cons. destruct (tail_skips TRBrace (map named_toks fs) rest eq_refl (names_start fs)) as [Hs _].
  eapply (gives_then _ _ (λ y n, let '(e, ts) := y in '(fs, ts) ← fields_fuel n env (skip_sep ts); Ok ((x, e) :: fs, ts))).
  - intros n. change (named_toks (x, e)) with (key_tok x :: TColon :: print_at 0 e). rewrite !placed_cons.
    cbn [fields_fuel peek]. rewrite starts_not_closer by (done || by eapply word_starts, key_word).
    rewrite (word_reads _ _ _ x) by apply key_word. reflexivity.
  - apply (reads_whole env e (tail_of TRBrace (map named_toks fs) rest)); [done|by apply tail_ends].
  - cbn beta iota. rewrite Hs. destruct IH as [n Hn]. exists n. intros k Hk. by rewrite Hn.
Qed.
Lemma named_read fs : Forall (λ kv, reads (snd kv)) fs →
  p_named env (placed (commas (map named_toks fs)) ++ (TRParen, 0) :: rest) (fs, rest).
Proof.
  induction 1 as [|[x e] fs He _ IH]; [by apply gives_now|].
  cbn [map]. rewrite commas_cons. destruct (tail_skips TRParen (map named_toks fs) rest eq_refl (names_start fs)) as [_ Hs].
  eapply (gives_then _ _ (λ y n, let '(e, ts) := y in '(fs, ts) ← named_args_fuel n env (skip_comma ts); Ok ((x, e) :: fs, ts))).
  - intros n. change (named_toks (x, e)) with (key_tok x :: TColon :: print_at 0 e). rewrite !placed_cons.
    cbn [named_args_fuel peek]. rewrite starts_not_closer by (done || by eapply word_starts, key_word).
    rewrite (word_reads _ _ _ x) by apply key_word. reflexivity.
  - apply (reads_whole env e (tail_of TRParen (map named_toks fs) rest)); [done|by apply tail_ends].
  - cbn beta iota. rewrite Hs. destruct IH as [n Hn]. exists n. intros k Hk. by rewrite Hn.
Qed.
End Lists.

Definition part_toks (p : FStringPart) : FPart :=
  match p with PLit s => PLit s | PExpr e => PExpr (placed (print_at 0 e ++ [TNewline])) end.
Lemma fparts_read env ps : Forall (on_part reads) ps → p_fparts env (map part_toks ps) ps.
Proof.
  induction 1 as [|[s|e] ps He _ IH]; [by apply gives_now| |].
  - by apply (gives_step _ (λ n, fparts_fuel n env (map part_toks ps)) (cons (PLit s))).
  - pose proof (reads_whole {| pe_src := pe_src env; pe_end := last_pos (placed (print_at 0 e ++ [TNewline])) |} e
      [(TNewline, 0)] He eq_refl) as Hr.
    change [(TNewline, 0)] with (placed [TNewline]) in Hr. rewrite <- placed_app in Hr.
    eapply (gives_then _ _ (λ x n, let '(e, _) := x in out ← fparts_fuel n env (map part_toks ps); Ok (PExpr e :: out)));
      [intros n; reflexivity|exact Hr|].
    cbn beta iota. destruct IH as [n Hn]. exists n. intros k Hk. by rewrite Hn.
Qed.

(** An expression that no operator is the top of. *)
Lemma value_reads e : level e = 11 →
  (∀ env rest res, tok_is (peek rest) TLParen = false → p_postfix env e rest res → p_value env (placed (body e) ++ rest) res) →
  reads e.
Proof.
  intros Hl H env. split; [|intros _; apply H]. intros m mb rest res Hm _ Hr Hb.
  eapply value_expr; [|exact Hb]. apply H; [by destruct (peek rest)|]. by eapply ends_postfix.
Qed.
(** A primary. *)
Lemma primary_reads e : level e = 11 →
  (∀ env rest, tok_is (peek rest) TLParen = false → p_primary env (placed (body e) ++ rest) (e, rest)) → reads e.
Proof. intros Hl H. apply value_reads; [done|]. intros env rest res Hr Hp. exists e, rest. auto. Qed.

Lemma body_doc fs : body (EDoc fs) = TLBrace :: commas (map named_toks fs) ++ [TRBrace].
Proof. cbn. do 3 f_equal. apply List.map_ext. by intros []. Qed.
(** What follows [invoke]. *)
Definition invoke_toks (f : string) (fs : list (string * Expr)) : list Tok :=
  name_toks f ++ TLParen :: commas (map named_toks fs) ++ [TRParen].
Lemma body_invoke f fs : body (EInvoke f fs) = TInvoke :: invoke_toks f fs.
Proof. cbn. unfold invoke_toks. do 5 f_equal. apply List.map_ext. by intros []. Qed.
Lemma body_fstring ps : body (EFString ps) = [TFStr (map part_toks ps)].
Proof. reflexivity. Qed.

Lemma forallb_reads {A} (f : A → bool) (Q : A → Prop) l :
  Forall (λ x, f x = true → Q x) l → forallb f l = true → Forall Q l.
Proof. induction 1 as [|x l Hx _ IH]; cbn; [done|]. intros [? ?]%andb_true_iff. constructor; auto. Qed.

Lemma bracket_reads a b e : level e = 11 → reads a → reads b →
  body e = (print_at 10 a ++ TLBrack :: print_at 0 b ++ [TRBrack])%list →
  starts_with (print_at 0 b) = true → (if is_filter b then EFilter a b else EIndex a b) = e → reads e.
Proof.
  intros Hl Ha Hb Hbody Hs He. apply value_reads; [done|]. intros env rest res Hr Hp. rewrite Hbody, placed_app, <- app_assoc.
  apply reads_value; [done|done|]. rewrite placed_cons, placed_closed.
  eapply (gives_then _ _ (λ x n, let '(inner, ts) := x in ts ← eat env TRBrack "]" ts;
    postfix_fuel n env (if is_filter inner then EFilter a inner else EIndex a inner) ts)).
  - intros n. cbn. rewrite starts_not_closer; [reflexivity|by apply starts_peek|done].
  - by apply (reads_whole env b ((TRBrack, 0) :: rest)).
  - cbn beta iota. rewrite He. exact Hp.
Qed.

Lemma unary_reads op e : reads e → reads (EUnary op e).
Proof.
  intros He env. split; [|done]. intros m mb rest res Hm Hl Hr Hb. eapply value_expr; [|exact Hb].
  exists (EUnary op e), rest. split; [|by eapply ends_postfix].
  apply (gives_step _ (λ n, expr_fuel n env 9 (placed (print_at 9 e) ++ rest)) (λ '(e, ts), (EUnary op e, ts)) (e, rest)).
  { intros n. change (body (EUnary op e)) with ((match op with Not => TNot | Neg => TMinus end) :: print_at 9 e).
    rewrite placed_cons. destruct op; cbn [primary_fuel next]; unfold mbind, res_mbind, res_bind;
      by destruct (expr_fuel n env 9 _) as [[]|?| |]. }
  assert (ends_at 10 (peek rest) = true) as Hr'.
  { eapply ends_mono; [exact Hr|]. cbn in Hl. lia. }
  apply reads_at; [done|done|done|]. apply binary_stop. destruct (peek rest); cbn; lia || done.
Qed.
Lemma bin_reads op l r : reads l → reads r → reads (EBin op l r).
Proof.
  intros Hlr Hrr env. assert (0 < op_level op) as Hpos by apply (level_pos (EBin op l r)).
  split; [|intros Hl; destruct op; done]. intros m mb rest res Hm Hl Hr Hb. cbn [level] in Hl.
  change (body (EBin op l r)) with (print_at (pred (op_level op)) l ++ op_tok op :: print_at (op_level op) r)%list.
  rewrite placed_app, <- app_assoc. apply reads_at; [done|lia| |].
  - cbn. destruct op; cbn; done.
  - eapply (gives_then _ _ (λ x n, let '(rhs, ts) := x in binary_fuel n env mb (EBin op l rhs) ts)).
    + intros n. cbn [placed map app binary_fuel peek]. rewrite binop_tok.
      destruct (Nat.leb_spec (op_level op) mb); [lia|]. reflexivity.
    + cbn [next snd]. apply (reads_at env r (op_level op) (op_level op) rest (r, rest)); [done|done| |].
      * eapply ends_mono; [exact Hr|lia].
      * eapply ends_binary; [exact Hr|lia].
    + exact Hb.
Qed.

Lemma number_reads n : number_ok n = true → num (number n) = VNumber n.
Proof.
  destruct n as [z|f]; unfold number_ok; cbn [number].
  - destruct (num (f64_of_Z z)) as [| |[z'|]| | |]; try done. by intros ->%Z.eqb_eq.
  - unfold num, num_from_f64. destruct (_ && _); [done|]. by destruct (f64_is_finite f).
Qed.
Lemma literal_reads v : literal_ok v = true → reads (ELit v).
Proof.
  intros Hp. apply primary_reads; [done|]. intros env rest _. apply gives_now. intros n.
  destruct v as [|[]|m| | |]; try done. cbn in *. bool_prop. by rewrite number_reads.
Qed.
Lemma array_reads l : Forall reads l → forallb printable l = true → reads (EArray l).
Proof.
  intros Hl Hp. apply primary_reads; [done|]. intros env rest _.
  change (body (EArray l)) with (TLBrack :: commas (map (print_at 0) l) ++ [TRBrack])%list. rewrite placed_cons, placed_closed.
  eapply (gives_step _ (λ n, items_fuel n env (placed (commas (map (print_at 0) l)) ++ (TRBrack, 0) :: rest))
    (λ '(es, ts), (EArray es, ts)) (l, rest)); [|by apply items_read].
  intros n. cbn [primary_fuel next]. rewrite opened_list by (done || by apply prints_start).
  unfold mbind, res_mbind, res_bind. by destruct (items_fuel _ _ _) as [[]|?| |].
Qed.
Lemma call_expr_reads f l : Forall reads l → forallb printable l = true → reads (ECall f l).
Proof.
  intros Hl Hp. apply primary_reads; [done|]. intros env rest _.
  change (body (ECall f l)) with (TIdent f :: TLParen :: commas (map (print_at 0) l) ++ [TRParen])%list.
  rewrite !placed_cons, placed_closed.
  eapply (gives_step _ (λ n, call_args_fuel n env (placed (commas (map (print_at 0) l)) ++ (TRParen, 0) :: rest))
    (λ '(es, ts), (ECall f es, ts)) (l, rest)); [|by apply call_reads].
  intros n. cbn. unfold mbind, res_mbind, res_bind. by destruct (call_args_fuel _ _ _) as [[]|?| |].
Qed.
Lemma doc_reads fs : Forall (λ kv, reads (snd kv)) fs → reads (EDoc fs).
Proof.
  intros Hf. apply primary_reads; [done|]. intros env rest _. rewrite body_doc, placed_cons, placed_closed.
  eapply (gives_step _ (λ n, fields_fuel n env (placed (commas (map named_toks fs)) ++ (TRBrace, 0) :: rest))
    (λ '(fs, ts), (EDoc fs, ts)) (fs, rest)); [|by apply fields_read].
  intros n. cbn [primary_fuel next]. rewrite opened_list by (done || apply names_start).
  unfold mbind, res_mbind, res_bind. by destruct (fields_fuel _ _ _) as [[]|?| |].
Qed.
Lemma invoke_args_read env f fs rest : Forall (λ kv, reads (snd kv)) fs →
  gives (λ n, invoke_args_fuel n env (placed (invoke_toks f fs) ++ rest)) (f, fs, rest).
Proof.
  intros Hf. unfold invoke_toks. rewrite placed_app, <- app_assoc, placed_cons, placed_closed.
  destruct (named_read env rest fs Hf) as [n Hn]. exists (S n). intros [|k] Hk; [lia|]. cbn [invoke_args_fuel].
  unfold name_toks. destruct (split_once f ":") as [[p s]|] eqn:E; cbn; rewrite Hn by lia; [|done].
  by apply split_once_app in E as ->.
Qed.
Lemma invoke_reads f fs : Forall (λ kv, reads (snd kv)) fs → reads (EInvoke f fs).
Proof.
  intros Hf. apply primary_reads; [done|]. intros env rest _. rewrite body_invoke, placed_cons.
  eapply (gives_step _ (λ n, invoke_args_fuel n env (placed (invoke_toks f fs) ++ rest))
    (λ '(f, fs, ts), (EInvoke f fs, ts)) (f, fs, rest)); [|by apply invoke_args_read].
  intros n. cbn [primary_fuel next]. unfold mbind, res_mbind, res_bind.
  by destruct (invoke_args_fuel _ _ _) as [[[]]|?| |].
Qed.
Lemma fstring_reads ps : Forall (on_part reads) ps → reads (EFString ps).
Proof.
  intros Hf. apply primary_reads; [done|]. intros env rest _. rewrite body_fstring.
  apply (gives_step _ (λ n, fparts_fuel n env (map part_toks ps)) (λ out, (EFString out, rest))); [done|].
  by apply fparts_read.
Qed.
Lemma field_reads b f safe : reads b → reads (EField b f safe).
Proof.
  intros Hb. apply value_reads; [done|]. intros env rest res Hr Hp.
  change (body (EField b f safe)) with (print_at 10 b ++ [if safe then TQDot else TDot; keyword f])%list.
  rewrite placed_app, <- app_assoc. apply reads_value; [done|by destruct safe|].
  apply (gives_tail _ (λ n, postfix_fuel n env (EField b f safe) rest)); [|done].
  intros n. destruct safe; cbn; by rewrite (word_reads _ _ _ f) by apply keyword_word.
Qed.
Lemma projection_reads b : reads b → reads (EProjection b).
Proof.
  intros Hb. apply value_reads; [done|]. intros env rest res Hr Hp.
  change (body (EProjection b)) with (print_at 10 b ++ [TLBrack; TRBrack])%list.
  rewrite placed_app, <- app_assoc. apply reads_value; [done|done|].
  by apply (gives_tail _ (λ n, postfix_fuel n env (EProjection b) rest)).
Qed.

Lemma printable_reads e : printable e = true → reads e.
Proof.
  induction e as [v|ps IH|x|fs IH|l IH|b f safe IH|a b IHa IHb|b IH|a b IHa IHb|f l IH|f fs IH|op e IH|op a b IHa IHb]
    using expr_ind'; cbn [printable]; intros Hp; bool_prop.
  - by apply literal_reads.
  - apply fstring_reads. eapply forallb_reads; [|exact Hp]. eapply Forall_impl; [exact IH|]. intros [s|e]; cbn; auto.
  - apply primary_reads; [done|]. intros env rest Hr. apply gives_now. intros n. cbn. pose proof (keyword_word x) as Hx.
    destruct (keyword x); try done; injection Hx as <-; by rewrite ?Hr.
  - apply doc_reads. eapply forallb_reads; [|exact Hp]. eapply Forall_impl; [exact IH|]. intros []; cbn; auto.
  - apply array_reads; [|done]. by eapply forallb_reads.
  - apply field_reads; auto.
  - eapply (bracket_reads a b); auto; [by apply print_starts|]. by destruct (is_filter b).
  - apply projection_reads; auto.
  - eapply (bracket_reads a b); auto; [by apply print_starts|]. by destruct (is_filter b).
  - apply call_expr_reads; [|done]. by eapply forallb_reads.
  - apply invoke_reads. eapply forallb_reads; [|exact Hp]. eapply Forall_impl; [exact IH|]. intros []; cbn; auto.
  - apply unary_reads; auto.
  - apply bin_reads; auto.
Qed.

(** An expression, followed by what cannot continue it, is read back and what
    follows is left. *)
Lemma expr_read env e rest : printable e = true → ends_at 0 (peek rest) = true →
  expr env 0 (placed (print_expr e) ++ rest) = Ok (e, rest).
Proof. intros Hp Hr. apply expr_gives, reads_whole; [by apply printable_reads|done]. Qed.
