(* ===== verification/PrintScript.v ===== *)
(** * VejasScript: scripts read as they are written

    The printer of [PrintParse] carried on to literals, statements, blocks and
    whole scripts; the parser reads a literal and a statement back. *)

From stdpp Require Import base list strings.
From Stdlib Require Import ZArith Lia SpecFloat.
From S2P Require Import Prelude Text F64 Json Syntax Analysis Lexer Parser PrintParse.
Open Scope string_scope.
Open Scope nat_scope.

(** ** The printer *)

(** The literal of a constant. *)
Fixpoint const_toks (v : Value) : list Tok :=
  match v with
  | VNumber n => if signed n then [TMinus; TNum (f64_neg (number n))] else [TNum (number n)]
  | VArray l => TLBrack :: commas (map const_toks l) ++ [TRBrack]
  | VObject m =>
    TLBrace :: commas (map (λ kv, match kv with (k, v) => key_tok k :: TColon :: const_toks v end) m) ++ [TRBrace]
  | v => lit_toks v
  end.
Fixpoint const_ok (v : Value) : bool :=
  match v with
  | VNumber n => number_ok n
  | VArray l => forallb const_ok l
  | VObject m => map_sorted m && forallb (λ kv, match kv with (_, v) => const_ok v end) m
  | _ => true
  end.

(** The right side of an assignment: after [=], an [invoke] is read on its own,
    so an expression that begins with one is put in parentheses. *)
Definition opens_invoke (l : list Tok) : bool := match l with TInvoke :: _ => true | _ => false end.
Definition rhs_toks (e : Expr) : list Tok :=
  match e with
  | EInvoke f fs => TInvoke :: invoke_toks f fs
  | _ => if opens_invoke (print_expr e) then TLParen :: print_expr e ++ [TRParen] else print_expr e
  end.
Definition path_toks (path : list string) : list Tok :=
  match path with [] => [] | x :: rest => TIdent x :: flat_map (λ y, [TDot; keyword y]) rest end.

Fixpoint print_stmt (s : Stmt) : list Tok :=
  let lines b := flat_map (λ s, print_stmt s ++ [TNewline])%list b in
  let arm (a : Expr * span * list Stmt) :=
    match a with (c, _, b) => print_expr c ++ TColon :: TNewline :: lines b end%list in
  match s with
  | SAssign path e => path_toks path ++ TEq :: rhs_toks e
  | SIf arms o =>
    match arms with
    | [] => []
    | a :: arms =>
      TIf :: arm a ++ flat_map (λ a, TElif :: arm a) arms ++
      match o with Some b => TElse :: TColon :: TNewline :: lines b | None => [] end ++ [TEnd]
    end
  | SFor x e b => TFor :: TIdent x :: TIn :: print_expr e ++ TColon :: TNewline :: lines b ++ [TEnd]
  | SEmit a b => TEmit :: print_expr a ++ TComma :: print_expr b
  | SRespond a b => TRespond :: print_expr a ++ TComma :: print_expr b
  | SInvokeMerge f fs => TInvoke :: invoke_toks f fs
  end.
Definition lines (b : list Stmt) : list Tok := flat_map (λ s, print_stmt s ++ [TNewline])%list b.
Definition arm_toks (a : Expr * span * list Stmt) : list Tok :=
  match a with (c, _, b) => print_expr c ++ TColon :: TNewline :: lines b end.
Definition rest_toks (arms : list (Expr * span * list Stmt)) (o : option (list Stmt)) : list Tok :=
  flat_map (λ a, TElif :: arm_toks a) arms ++
  match o with Some b => TElse :: TColon :: TNewline :: lines b | None => [] end ++ [TEnd].

(** The statements that have a text. *)
Fixpoint printable_stmt (s : Stmt) : bool :=
  match s with
  | SAssign path e => match path with [] => false | _ => printable e end
  | SIf arms o =>
    match arms with [] => false | _ => true end
    && forallb (λ a, match a with (c, _, b) => printable c && forallb printable_stmt b end) arms
    && match o with Some b => forallb printable_stmt b | None => true end
  | SFor _ e b => printable e && forallb printable_stmt b
  | SEmit a b | SRespond a b => printable a && printable b
  | SInvokeMerge _ fs => forallb (λ kv, match kv with (_, e) => printable e end) fs
  end.

(** A statement without the places of its conditions, which a tree does not
    have before it is a text. *)
Fixpoint unplaced (s : Stmt) : Stmt :=
  match s with
  | SIf arms o =>
    SIf (map (λ a, match a with (c, _, b) => (c, (0, 0), map unplaced b) end) arms)
      (match o with Some b => Some (map unplaced b) | None => None end)
  | SFor x e b => SFor x e (map unplaced b)
  | s => s
  end.
Definition unplaced_arm (a : Expr * span * list Stmt) : Expr * span * list Stmt :=
  match a with (c, _, b) => (c, (0, 0), map unplaced b) end.

(** ** Literals *)

Record more_literal (n k : nat) : Prop := {
  ml_value env ts : literal_fuel n env ts ⊑ literal_fuel k env ts;
  ml_items env ts : literal_items_fuel n env ts ⊑ literal_items_fuel k env ts;
  ml_fields env m sp ts : literal_fields_fuel n env m sp ts ⊑ literal_fields_fuel k env m sp ts
}.
Lemma more_literal_all n : ∀ k, n <= k → more_literal n k.
Proof.
  induction n as [|n IH]; intros k Hk; [split; intros; by left|]. destruct k as [|k]; [lia|].
  destruct (IH k ltac:(lia)) as [H1 H2 H3]. split; intros; cbn.
  all: repeat first
    [ apply known_refl | apply H1 | apply H2 | apply H3 | apply known_bind; [|intros ?] | case_match ].
Qed.

Definition const_spans (v : Value) : list (string * span) :=
  match v with VObject m => map (λ kv, (fst kv, (0, 0))) m | _ => [] end.
Definition const_reads (v : Value) : Prop := ∀ env rest,
  gives (λ n, literal_fuel n env (placed (const_toks v) ++ rest)) (v, const_spans v, pos env rest, rest).
Definition entry_toks (kv : string * Value) : list Tok := key_tok (fst kv) :: TColon :: const_toks (snd kv).

Lemma const_starts v : starts_with (const_toks v) = true.
Proof. destruct v as [|[]|n| | |]; try done. cbn. by destruct (signed n). Qed.
Lemma consts_start l : Forall (λ x, starts_with x = true) (map const_toks l).
Proof. apply Forall_forall. intros x (v & -> & _)%list_elem_of_fmap. apply const_starts. Qed.
Lemma entries_start m : Forall (λ x, starts_with x = true) (map entry_toks m).
Proof. apply Forall_forall. intros x (v & -> & _)%list_elem_of_fmap. eapply word_starts, key_word. Qed.
Lemma pos_placed env l rest : starts_with l = true → pos env (placed l ++ rest) = 0.
Proof. by destruct l. Qed.
Lemma pos_tail env close xs rest : pos env (tail_of close xs rest) = 0.
Proof. by destruct xs. Qed.

Lemma const_items_read env rest l : Forall const_reads l →
  gives (λ n, literal_items_fuel n env (placed (commas (map const_toks l)) ++ (TRBrack, 0) :: rest)) (l, rest).
Proof.
  induction 1 as [|v l Hv _ IH]; [by apply gives_now|]. cbn [map]. rewrite commas_cons.
  destruct (tail_skips TRBrack (map const_toks l) rest eq_refl (consts_start l)) as [Hs _].
  eapply (gives_then _ _ (λ x n, let '(v, _, _, ts) := x in
    '(vs, ts) ← literal_items_fuel n env (skip_sep ts); Ok (v :: vs, ts))).
  - intros n. cbn [literal_items_fuel]. rewrite starts_not_closer; [reflexivity|by apply starts_peek, const_starts|done].
  - apply Hv.
  - cbn beta iota. rewrite Hs. destruct IH as [n Hn]. exists n. intros k Hk. by rewrite Hn.
Qed.
Lemma const_fields_read env rest l : Forall (λ kv, const_reads (snd kv)) l → ∀ m sp,
  gives (λ n, literal_fields_fuel n env m sp (placed (commas (map entry_toks l)) ++ (TRBrace, 0) :: rest))
    (map_extend m l, (sp ++ map (λ kv, (fst kv, (0, 0))) l)%list, rest).
Proof.
  induction 1 as [|[x v] l Hv _ IH]; intros m sp; [apply gives_now; intros n; by rewrite app_nil_r|].
  cbn [map]. rewrite commas_cons.
  destruct (tail_skips TRBrace (map entry_toks l) rest eq_refl (entries_start l)) as [Hs _].
  eapply (gives_then _ _ (λ y n, let '(v, _, vend, ts) := y in
    literal_fields_fuel n env (map_insert x v m) (sp ++ [(x, (0, vend))])%list (skip_sep ts))).
  - intros n. change (entry_toks (x, v)) with (key_tok x :: TColon :: const_toks v). rewrite !placed_cons.
    cbn [literal_fields_fuel peek]. rewrite starts_not_closer by (done || by eapply word_starts, key_word).
    rewrite (word_reads _ _ _ x) by apply key_word. cbn. rewrite pos_placed by apply const_starts. reflexivity.
  - apply Hv.
  - cbn beta iota. rewrite Hs, pos_tail. specialize (IH (map_insert x v m) (sp ++ [(x, (0, 0))])%list).
    rewrite <- app_assoc in IH. exact IH.
Qed.

Lemma insert_last {A} k (v : A) (m l : smap A) : map_ok (m ++ (k, v) :: l)%list → map_insert k v m = (m ++ [(k, v)])%list.
Proof.
  induction m as [|[k' v'] m IH]; [done|]. intros Hm. cbn [app] in Hm.
  assert (String.compare k' k = Lt) as Hk.
  { eapply map_ok_lt; [exact Hm|]. apply elem_of_app. right. by left. }
  cbn [map_insert app]. rewrite String.compare_antisym, Hk. cbn. by rewrite IH by (by eapply map_ok_tail).
Qed.
Lemma extend_sorted {A} (l m : smap A) : map_ok (m ++ l)%list → map_extend m l = (m ++ l)%list.
Proof.
  revert m. induction l as [|[k v] l IH]; intros m Hm; [by rewrite app_nil_r|].
  unfold map_extend in *. cbn [fold_left fst snd]. rewrite (insert_last _ _ _ _ Hm), IH; by rewrite <- app_assoc.
Qed.

Lemma const_toks_doc m : const_toks (VObject m) = TLBrace :: commas (map entry_toks m) ++ [TRBrace].
Proof. cbn. do 3 f_equal. apply List.map_ext. by intros []. Qed.
Lemma const_ok_reads v : const_ok v = true → const_reads v.
Proof.
  induction v as [|x|n|x|l IH|m IH] using value_ind'; intros Hv env rest; cbn [const_ok] in Hv.
  - by apply gives_now.
  - apply gives_now. intros n. by destruct x.
  - apply gives_now. intros k. cbn [const_toks]. apply number_reads in Hv. destruct (signed n); cbn; [|by rewrite Hv].
    assert (f64_neg (f64_neg (number n)) = number n) as ->; [|by rewrite Hv].
    destruct (number n) as [[]|[]| |[]]; done.
  - by apply gives_now.
  - apply (gives_step _ (λ n, literal_items_fuel n env (placed (commas (map const_toks l)) ++ (TRBrack, 0) :: rest))
      (λ '(vs, ts), (VArray vs, [], pos env ts, ts)) (l, rest)).
    + intros n. change (const_toks (VArray l)) with (TLBrack :: commas (map const_toks l) ++ [TRBrack])%list.
      rewrite placed_cons, placed_closed. cbn [literal_fuel next]. rewrite opened_list by (done || apply consts_start).
      unfold mbind, res_mbind, res_bind. by destruct (literal_items_fuel _ _ _) as [[]|?| |].
    + apply const_items_read. by eapply forallb_reads.
  - apply andb_true_iff in Hv as [Hm%map_sorted_ok Hv].
    rewrite const_toks_doc, placed_cons, placed_closed.
    apply (gives_step _ (λ n, literal_fields_fuel n env [] [] (placed (commas (map entry_toks m)) ++ (TRBrace, 0) :: rest))
      (λ '(m, sp, ts), (VObject m, sp, pos env ts, ts)) (m, const_spans (VObject m), rest)).
    + intros n. cbn [literal_fuel next]. rewrite opened_list by (done || apply entries_start).
      unfold mbind, res_mbind, res_bind. by destruct (literal_fields_fuel _ _ _ _ _) as [[[]]|?| |].
    + assert (Forall (λ kv, const_reads (snd kv)) m) as Hf.
      { eapply forallb_reads; [|exact Hv]. eapply Forall_impl; [exact IH|]. by intros []. }
      pose proof (const_fields_read env rest m Hf [] []) as H. by rewrite (extend_sorted m []) in H.
Qed.

Lemma const_read env v rest : const_ok v = true →
  literal_value env (placed (const_toks v) ++ rest) = Ok (v, const_spans v, pos env rest, rest).
Proof.
  intros Hv. apply (gives_total (λ n, literal_fuel n env _)); [|exact (yields_fuel _ _ (literal_yields _ _))|by apply const_ok_reads].
  intros n Hn. by apply ml_value, more_literal_all.
Qed.

(** ** Statements *)

#[local] Arguments expr : simpl never.
#[local] Arguments invoke_args : simpl never.
#[local] Arguments placed : simpl never.
#[local] Arguments surface_name : simpl never.

(** What follows an expression. *)
Definition ends_expr (ts : toks) : Prop := ends_at 0 (peek ts) = true.

Lemma invoke_gives env ts r : gives (λ n, invoke_args_fuel n env ts) r → invoke_args env ts = Ok r.
Proof.
  apply (gives_total (λ n, invoke_args_fuel n env ts)); [|exact (yields_fuel _ _ (invoke_args_yields env ts))].
  intros n Hn. by apply mf_invoke, more_fuel_all.
Qed.
Lemma printables_read fs : forallb (λ kv : string * Expr, match kv with (_, e) => printable e end) fs = true →
  Forall (λ kv, reads (snd kv)) fs.
Proof. apply forallb_reads. apply Forall_forall. intros [x e] _. apply printable_reads. Qed.
Lemma invoke_read env f fs rest : printable (EInvoke f fs) = true →
  invoke_args env (placed (invoke_toks f fs) ++ rest) = Ok (f, fs, rest).
Proof. intros H. by apply invoke_gives, invoke_args_read, printables_read. Qed.
Lemma paren_read env e rest : printable e = true → ends_expr rest →
  expr env 0 (placed (TLParen :: print_expr e ++ [TRParen]) ++ rest) = Ok (e, rest).
Proof.
  intros Hp Hr. apply expr_gives. rewrite placed_cons, placed_closed.
  eapply (value_expr _ _ _ e rest); [|by eapply ends_binary].
  exists e, rest. split; [|by eapply ends_postfix].
  eapply (gives_then _ _ (λ x n, let '(e, ts) := x in ts ← eat env TRParen ")" ts; Ok (e, ts)) (e, (TRParen, 0) :: rest));
    [intros n; reflexivity| |by apply gives_now].
  by apply reads_whole; [apply printable_reads|].
Qed.

Lemma two_read env a b rest : printable a = true → printable b = true → ends_expr rest →
  two_exprs env (placed (print_expr a ++ TComma :: print_expr b) ++ rest) = Ok (a, b, rest).
Proof.
  intros Ha Hb Hr. unfold two_exprs. rewrite placed_app, <- app_assoc, expr_read by done.
  rewrite placed_cons. cbn. by rewrite expr_read.
Qed.

Lemma more_path n env : ∀ k ts, n <= k → path_fuel n env ts ⊑ path_fuel k env ts.
Proof.
  induction n as [|n IH]; intros k ts Hk; [by left|]. destruct k as [|k]; [lia|]. cbn.
  destruct (tok_is _ _); [|apply known_refl]. apply known_bind; [apply known_refl|]. intros [].
  apply known_bind; [|intros []; apply known_refl].
  apply IH. lia.
Qed.
Lemma path_read env l rest : tok_is (peek rest) TDot = false → let ts := (placed (flat_map (λ y, [TDot; keyword y]) l) ++ rest)%list in
  path_fuel (S (toks_weight ts)) env ts = Ok (l, rest).
Proof.
  intros Hr ts. apply (gives_total (λ n, path_fuel n env ts)); [by intros n; apply more_path| |].
  { eapply yields_fuel, path_yields. lia. }
  subst ts. induction l as [|x l IH]; [apply gives_now; intros n; cbn; unfold placed; cbn; by rewrite Hr|].
  eapply (gives_step _ _ (λ '(ws, ts), (x :: ws, ts)) (l, rest)); [|exact IH].
  intros n. cbn [flat_map app]. rewrite !placed_cons. cbn. rewrite (word_reads _ _ _ x) by apply keyword_word. cbn.
  unfold mbind, res_mbind, res_bind. by destruct (path_fuel _ _ _) as [[]|?| |].
Qed.

(** The right side is one [invoke], or an expression that does not begin with
    one. *)
Lemma rhs_read e : printable e = true →
  (∃ f fs, e = EInvoke f fs) ∨
  (∀ env rest, ends_expr rest → let ts := (placed (rhs_toks e) ++ rest)%list in
     tok_is (peek ts) TInvoke = false ∧ expr env 0 ts = Ok (e, rest)).
Proof.
  intros He.
  assert (∀ env rest, ends_expr rest →
    let ts := (placed (if opens_invoke (print_expr e) then TLParen :: print_expr e ++ [TRParen] else print_expr e) ++ rest)%list in
    tok_is (peek ts) TInvoke = false ∧ expr env 0 ts = Ok (e, rest)) as H.
  { intros env rest Hr. destruct (opens_invoke (print_expr e)) eqn:Eo; [split; [done|by apply paren_read]|].
    split; [|by apply expr_read]. pose proof (print_starts 0 e He) as Hs. unfold print_expr in *.
    by destruct (print_at 0 e) as [|[]]. }
  destruct e; try (right; exact H). left. eauto.
Qed.
Lemma assign_read env x l e rest : printable e = true → ends_expr rest →
  assign_stmt env x (placed (flat_map (λ y, [TDot; keyword y]) l ++ TEq :: rhs_toks e) ++ rest) = Ok (SAssign (x :: l) e, rest).
Proof.
  intros He Hr. unfold assign_stmt. rewrite placed_app, <- app_assoc, path_read by done.
  rewrite placed_cons. cbn. destruct (rhs_read e He) as [(f & fs & ->)|H].
  - cbn [rhs_toks]. rewrite placed_cons. cbn. by rewrite invoke_read.
  - destruct (H env rest Hr) as [-> ->]. done.
Qed.

(** The first token of a statement. *)
Definition opens_stmt (t : Tok) : bool :=
  match t with TEmit | TRespond | TInvoke | TIf | TFor | TIdent _ => true | _ => false end.
Lemma stmt_opens s : printable_stmt s = true → ∃ t l, print_stmt s = t :: l ∧ opens_stmt t = true.
Proof. destruct s as [[|x path] e|[|a arms] o|x e b|a b|a b|f fs]; cbn; try done; intros _; eauto. Qed.
(** The token after a block. *)
Definition closes_block (ts : toks) : Prop := match peek ts with TEnd | TElif | TElse => True | _ => False end.

Definition stmt_reads (s : Stmt) : Prop := ∀ env rest, ends_expr rest →
  gives (λ n, stmt_fuel n env (placed (print_stmt s) ++ rest)) (unplaced s, rest).

Lemma block_step n env t p ts : opens_stmt t = true → ts ≠ [] →
  block_fuel (S n) env ((TNewline, 0) :: (t, p) :: ts) =
  ('(s, ts) ← stmt_fuel n env ((t, p) :: ts); '(ss, ts) ← block_fuel n env ts; Ok (s :: ss, ts)).
Proof. destruct ts; [done|]. by destruct t. Qed.

Lemma block_read env b rest : Forall stmt_reads b → forallb printable_stmt b = true → closes_block rest →
  gives (λ n, block_fuel n env ((TNewline, 0) :: placed (lines b) ++ rest)) (map unplaced b, rest).
Proof.
  intros Hb Hp Hr. induction Hb as [|s b Hs _ IH]; cbn [lines flat_map map].
  - apply gives_now. intros n. unfold closes_block in Hr. cbn. destruct rest as [|[[] p] rest]; done.
  - cbn [forallb] in Hp. apply andb_true_iff in Hp as [Hps Hp].
    rewrite <- app_assoc, placed_app, <- app_assoc. change ([TNewline] ++ ?l)%list with (TNewline :: l). rewrite placed_cons.
    eapply (gives_then _ _ (λ x n, let '(s, ts) := x in '(ss, ts) ← block_fuel n env ts; Ok (s :: ss, ts))).
    + intros n. destruct (stmt_opens s Hps) as (t & l & E & Ht).
      rewrite E, placed_cons, block_step by (done || by destruct (placed l)). rewrite <- placed_cons, <- E. reflexivity.
    + by apply Hs.
    + cbn beta iota. destruct (IH Hp) as [n Hn]. exists n. intros k Hk. by rewrite Hn.
Qed.

Lemma arm_read env a rest : Forall stmt_reads (snd a) → printable (fst (fst a)) = true → forallb printable_stmt (snd a) = true →
  closes_block rest → gives (λ n, arm_fuel n env (placed (arm_toks a) ++ rest)) (unplaced_arm a, rest).
Proof.
  destruct a as [[c sp] b]. cbn [fst snd arm_toks unplaced_arm]. intros Hb Hc Hp Hr.
  rewrite placed_app, <- app_assoc, !placed_cons.
  eapply (gives_step _ (λ n, block_fuel n env ((TNewline, 0) :: placed (lines b) ++ rest))
    (λ '(b, ts), (c, (0, 0), b, ts)) (map unplaced b, rest)); [|by apply block_read].
  intros n. cbn [arm_fuel]. rewrite pos_placed, expr_read by (done || by apply print_starts). cbn.
  unfold mbind, res_mbind, res_bind. by destruct (block_fuel _ _ _) as [[]|?| |].
Qed.

Lemma rest_closes arms o rest : closes_block (placed (rest_toks arms o) ++ rest).
Proof. destruct arms; [|done]. by destruct o. Qed.
Lemma arms_read env arms o rest : Forall (λ a, Forall stmt_reads (snd a)) arms →
  match o with Some b => Forall stmt_reads b | None => True end →
  forallb (λ a : Expr * span * list Stmt, match a with (c, _, b) => printable c && forallb printable_stmt b end) arms = true →
  match o with Some b => forallb printable_stmt b | None => true end = true →
  gives (λ n, arms_fuel n env None (placed (rest_toks arms o) ++ rest))
    (map unplaced_arm arms, match o with Some b => Some (map unplaced b) | None => None end, rest).
Proof.
  intros Ha Ho Hpa Hpo. induction Ha as [|a arms Ha _ IH].
  - cbn [map]. unfold rest_toks. cbn [flat_map app]. destruct o as [b|]; [|by apply gives_now].
    cbn [app]. rewrite !placed_cons, placed_closed.
    eapply (gives_then _ _ (λ x n, let '(body, ts) := x in arms_fuel n env (Some body) ts)); [intros n; reflexivity| |].
    + by apply block_read.
    + by apply gives_now.
  - cbn [forallb] in Hpa. apply andb_true_iff in Hpa as [Hp Hpa].
    assert (printable (fst (fst a)) = true ∧ forallb printable_stmt (snd a) = true) as [Hc Hb].
    { destruct a as [[c sp] b]. by apply andb_true_iff in Hp. }
    change (rest_toks (a :: arms) o) with (((TElif :: arm_toks a) ++ flat_map (λ a, TElif :: arm_toks a) arms) ++
      match o with Some b => TElse :: TColon :: TNewline :: lines b | None => [] end ++ [TEnd])%list.
    rewrite <- app_assoc. change (flat_map _ arms ++ _)%list with (rest_toks arms o).
    rewrite placed_app, <- app_assoc, placed_cons.
    eapply (gives_then _ _ (λ x n, let '(arm, ts) := x in
      '(arms, otherwise, ts) ← arms_fuel n env None ts; Ok (arm :: arms, otherwise, ts))); [intros n; reflexivity| |].
    + apply arm_read; [done..|]. apply rest_closes.
    + cbn beta iota. destruct (IH Hpa) as [n Hn]. exists n. intros k Hk. by rewrite Hn.
Qed.

Lemma printable_stmt_reads s : printable_stmt s = true → stmt_reads s.
Proof.
  induction s as [path e|arms o Ha Ho|x e b Hb|a b|a b|f fs] using stmt_ind'; cbn [printable_stmt]; intros Hp env rest Hr.
  - destruct path as [|x l]; [done|]. cbn [print_stmt path_toks app]. rewrite placed_cons. apply gives_now. intros n. cbn.
    by apply assign_read.
  - destruct arms as [|a arms]; [done|]. cbn [forallb] in Hp. bool_prop.
    change (print_stmt (SIf (a :: arms) o)) with (TIf :: arm_toks a ++ rest_toks arms o)%list.
    assert (Forall (λ a : arm, forallb printable_stmt (snd a) = true → Forall stmt_reads (snd a)) (a :: arms)) as Hall.
    { eapply Forall_impl; [exact Ha|]. intros a' Hb. by apply forallb_reads. }
    inversion Hall as [|? ? Hhead Htail]; subst.
    assert (printable (fst (fst a)) = true ∧ forallb printable_stmt (snd a) = true) as [Hc Hs].
    { destruct a as [[c sp] b]. by bool_prop. }
    rewrite placed_cons, placed_app, <- app_assoc.
    eapply (gives_then _ _ (λ x n, let '(arm, ts) := x in
      '(arms, otherwise, ts) ← arms_fuel n env None ts; Ok (SIf (arm :: arms) otherwise, ts))); [intros n; reflexivity| |].
    + apply arm_read; [by apply Hhead|done..|apply rest_closes].
    + cbn beta iota.
      assert (Forall (λ a, Forall stmt_reads (snd a)) arms) as Harms.
      { eapply forallb_reads; [|eassumption]. eapply Forall_impl; [exact Htail|].
        intros [[c sp] b] Hb' Hpb. apply Hb'. by bool_prop. }
      assert (match o with Some b => Forall stmt_reads b | None => True end) as Hels.
      { destruct o; [|done]. by eapply forallb_reads. }
      destruct (arms_read env arms o rest Harms Hels) as [n Hn]; [done..|]. exists n. intros k Hk. by rewrite Hn.
  - bool_prop. cbn [print_stmt]. fold (lines b). rewrite !placed_cons, placed_app, <- app_assoc, !placed_cons, placed_closed.
    eapply (gives_then _ _ (λ y n, let '(body, ts) := y in ts ← eat env TEnd "end" ts; Ok (SFor x e body, ts))).
    + intros n. cbn. rewrite expr_read by done. cbn. reflexivity.
    + apply block_read; [by eapply forallb_reads|done|done].
    + by apply gives_now.
  - bool_prop. apply gives_now. intros n. cbn [print_stmt]. rewrite placed_cons. cbn. by rewrite two_read.
  - bool_prop. apply gives_now. intros n. cbn [print_stmt]. rewrite placed_cons. cbn. by rewrite two_read.
  - apply gives_now. intros n. cbn [print_stmt]. rewrite placed_cons. cbn. by rewrite invoke_read.
Qed.

Record more_stmt (n k : nat) : Prop := {
  ms_stmt env ts : stmt_fuel n env ts ⊑ stmt_fuel k env ts;
  ms_arm env ts : arm_fuel n env ts ⊑ arm_fuel k env ts;
  ms_arms env o ts : arms_fuel n env o ts ⊑ arms_fuel k env o ts;
  ms_block env ts : block_fuel n env ts ⊑ block_fuel k env ts
}.
Lemma more_stmt_all n : ∀ k, n <= k → more_stmt n k.
Proof.
  induction n as [|n IH]; intros k Hk; [split; intros; by left|]. destruct k as [|k]; [lia|].
  destruct (IH k ltac:(lia)) as [H1 H2 H3 H4]. split; intros; cbn.
  all: repeat first
    [ apply known_refl | apply H1 | apply H2 | apply H3 | apply H4 | apply known_bind; [|intros ?] | case_match ].
Qed.

Lemma stmt_read env s rest : printable_stmt s = true → ends_expr rest →
  stmt env (placed (print_stmt s) ++ rest) = Ok (unplaced s, rest).
Proof.
  intros Hs Hr. apply (gives_total (λ n, stmt_fuel n env _)).
  - intros n Hn. by apply ms_stmt, more_stmt_all.
  - exact (yields_fuel _ _ (stmt_yields env _)).
  - by apply printable_stmt_reads.
Qed.

(** ** Scripts *)

(** A constant, of an UPPERCASE name. *)
Definition constant (s : Stmt) : option (string * Value) :=
  match s with SAssign [x] (ELit v) => if surface_name x then Some (x, v) else None | _ => None end.
Definition entry_of (x : string) (v : Value) : SurfaceEntry :=
  {| se_name := x; se_value := v; se_value_span := (0, 0); se_entry_spans := const_spans v |}.
Definition print_top (s : Stmt) : list Tok :=
  match constant s with Some (x, v) => TIdent x :: TEq :: const_toks v | None => print_stmt s end.
(** An UPPERCASE name is given a literal: another expression may read as one,
    an array of literals for example. *)
Definition printable_top (s : Stmt) : bool :=
  match constant s with
  | Some (_, v) => const_ok v
  | None => printable_stmt s && match s with SAssign [x] _ => negb (surface_name x) | _ => true end
  end.
Definition top_lines (b : list Stmt) : list Tok := flat_map (λ s, print_top s ++ [TNewline])%list b.
Definition said (t : Tok) (o : option string) : list Tok := match o with Some s => [t; TStr s; TNewline] | None => [] end.
Definition print_script (source tool driver api : option string) (b : list Stmt) : list Tok :=
  said TSource source ++ said TTool tool ++ said TDriver driver ++ said TApi api ++ top_lines b.

Definition read_top (h : heading) (s : Stmt) : heading :=
  match constant s with
  | Some (x, v) => add_surface (add_stmt h s) (entry_of x v)
  | None => add_stmt h (unplaced s)
  end.

Lemma more_program n env : ∀ k h ts, n <= k → program_fuel n env h ts ⊑ program_fuel k env h ts.
Proof.
  induction n as [|n IH]; intros k h ts Hk; [by left|]. destruct k as [|k]; [lia|]. cbn.
  repeat first [ apply known_refl | apply IH; lia | apply known_bind; [|intros ?] | case_match ].
Qed.

Lemma constant_Some s x v : constant s = Some (x, v) → s = SAssign [x] (ELit v) ∧ surface_name x = true.
Proof.
  destruct s as [[|y [|]] []| | | | |]; cbn; try done. destruct (surface_name y) eqn:E; [|done]. by intros [= -> ->].
Qed.

Definition constants (b : list Stmt) : list SurfaceEntry :=
  omap (λ s, '(x, v) ← constant s; Some (entry_of x v)) b.
Lemma read_tops b : ∀ so to dr ap st su, fold_left read_top b (Build_heading so to dr ap st su) =
  Build_heading so to dr ap (st ++ map unplaced b) (su ++ constants b).
Proof.
  induction b as [|s b IH]; intros; cbn [fold_left map]; [by rewrite !app_nil_r|]. unfold read_top at 2, constants.
  cbn [omap list_omap]. destruct (constant s) as [[x v]|] eqn:E; cbn; rewrite IH; unfold constants; rewrite <- !app_assoc; [|done].
  by apply constant_Some in E as [-> _].
Qed.
