(* ===== verification/Positions.v ===== *)
(** * VejasScript: where the tokens are does not matter

    The parser on tokens without their places gives what it gives on the
    tokens of a text, the places it notes aside; so that a script reads as it is
    written ([PrintScript]) holds for the texts of scripts. *)

From stdpp Require Import base list strings.
From Stdlib Require Import ZArith Lia.
From S2P Require Import Prelude Text F64 Json Syntax Analysis Lexer Parser PrintParse PrintScript.
Open Scope string_scope.
Open Scope nat_scope.

(** ** Tokens without their places *)

Fixpoint strip_tok (t : Tok) : Tok :=
  match t with
  | TFStr ps =>
    TFStr (map (λ p, match p with
      | PLit s => PLit s
      | PExpr l => PExpr (map (λ tp, match tp with (t, _) => (strip_tok t, 0) end) l)
      end) ps)
  | t => t
  end.
Definition strip (ts : toks) : toks := map (λ tp, match tp with (t, _) => (strip_tok t, 0) end) ts.
Definition strip_part (p : FPart) : FPart := match p with PLit s => PLit s | PExpr l => PExpr (strip l) end.

Lemma strip_peek ts : peek (strip ts) = strip_tok (peek ts).
Proof. by destruct ts as [|[]]. Qed.
Lemma strip_peek2 ts : peek2 (strip ts) = strip_tok <$> peek2 ts.
Proof. by destruct ts as [|[] [|[]]]. Qed.
Lemma strip_next ts : snd (next (strip ts)) = strip (snd (next ts)).
Proof. by destruct ts as [|[]]. Qed.
Lemma strip_is t u : tok_is (strip_tok t) u = tok_is t u.
Proof. by destruct t. Qed.
Lemma strip_word t : word_of (strip_tok t) = word_of t.
Proof. by destruct t. Qed.
Lemma strip_binop t : binop_of (strip_tok t) = binop_of t.
Proof. by destruct t. Qed.
Lemma strip_directive t : directive_name (strip_tok t) = directive_name t.
Proof. by destruct t. Qed.
Lemma strip_newlines ts : skip_newlines (strip ts) = strip (skip_newlines ts).
Proof. induction ts as [|[[] p] ts IH]; try done. Qed.
Lemma strip_comma ts : skip_comma (strip ts) = strip (skip_comma ts).
Proof. unfold skip_comma. rewrite strip_peek, strip_is, strip_next. by destruct (tok_is _ _). Qed.
Lemma strip_sep ts : skip_sep (strip ts) = strip (skip_sep ts).
Proof.
  unfold skip_sep. rewrite strip_newlines, strip_peek, strip_is, strip_next, strip_newlines. by destruct (tok_is _ _).
Qed.
Lemma strip_end ts : at_end (strip ts) = at_end ts.
Proof. unfold at_end, strip. by rewrite length_map. Qed.
Create Rewrite HintDb strip.
#[export] Hint Rewrite strip_peek strip_peek2 strip_next strip_is strip_word strip_binop strip_directive strip_newlines strip_comma
  strip_sep strip_end : strip.

(** ** What is read is the same *)

(** The second gives nothing that the first does not, seen through [E]. *)
Definition sim {A B} (E : A → B) (r : res perr A) (r0 : res perr B) : Prop := ∀ b, r0 = Ok b → ∃ a, r = Ok a ∧ E a = b.

Lemma sim_bind {A B A' B'} (E : A → B) (E' : A' → B') r r0 (f : A → res perr A') (f0 : B → res perr B') :
  sim E r r0 → (∀ a, sim E' (f a) (f0 (E a))) → sim E' (r ≫= f) (r0 ≫= f0).
Proof.
  intros H Hf b. destruct r0 as [b0|?| |]; try done. destruct (H b0 eq_refl) as (a & -> & <-). apply Hf.
Qed.
Lemma sim_ok {A B} (E : A → B) a : sim E (Ok a) (Ok (E a)).
Proof. intros b [= <-]. eauto. Qed.
Lemma sim_ok' {A B} (E : A → B) a b : E a = b → sim E (Ok a) (Ok b).
Proof. intros <-. apply sim_ok. Qed.
Lemma sim_none {A B} (E : A → B) r : sim E r NoFuel.
Proof. by intros b. Qed.
Lemma sim_error {A B} (E : A → B) r env ts m : sim E r (perror env ts m).
Proof. intros b. unfold perror, err_at. by destruct (str_slice _ _ _). Qed.

Lemma sim_eat env env0 t what ts : sim strip (eat env t what ts) (eat env0 t what (strip ts)).
Proof.
  unfold eat. autorewrite with strip. destruct (tok_is _ _); [by apply sim_ok'|apply sim_error].
Qed.
(** A result and the tokens that are left. *)
Definition on_rest {A} (r : A * toks) : A * toks := (fst r, strip (snd r)).
Lemma sim_word env env0 what ts : sim on_rest (word env what ts) (word env0 what (strip ts)).
Proof.
  unfold word. autorewrite with strip. destruct (word_of _); [by apply sim_ok'|apply sim_error].
Qed.
Lemma strip_qualified x ts : qualified x (strip ts) = on_rest (qualified x ts).
Proof.
  unfold qualified. autorewrite with strip. destruct (tok_is _ _); [|done].
  by destruct ts as [|[? ?] [|[[] ?] ts]].
Qed.

Record sims (n : nat) : Prop := {
  si_expr env env0 bp ts : sim on_rest (expr_fuel n env bp ts) (expr_fuel n env0 bp (strip ts));
  si_primary env env0 ts : sim on_rest (primary_fuel n env ts) (primary_fuel n env0 (strip ts));
  si_fparts env env0 ps : sim id (fparts_fuel n env ps) (fparts_fuel n env0 (map strip_part ps));
  si_items env env0 ts : sim on_rest (items_fuel n env ts) (items_fuel n env0 (strip ts));
  si_fields env env0 ts : sim on_rest (fields_fuel n env ts) (fields_fuel n env0 (strip ts));
  si_call env env0 ts : sim on_rest (call_args_fuel n env ts) (call_args_fuel n env0 (strip ts));
  si_invoke env env0 ts : sim on_rest (invoke_args_fuel n env ts) (invoke_args_fuel n env0 (strip ts));
  si_named env env0 ts : sim on_rest (named_args_fuel n env ts) (named_args_fuel n env0 (strip ts));
  si_postfix env env0 lhs ts : sim on_rest (postfix_fuel n env lhs ts) (postfix_fuel n env0 lhs (strip ts));
  si_binary env env0 bp lhs ts : sim on_rest (binary_fuel n env bp lhs ts) (binary_fuel n env0 bp lhs (strip ts))
}.

Ltac sim_next := intros; repeat match goal with a : _ * _ |- _ => destruct a end; 
  try match goal with |- context [on_rest (?a, ?b)] => change (on_rest (a, b)) with (a, strip b) end; cbn [fst snd id];
  autorewrite with strip.
Ltac sim_walk known :=
  repeat first
    [ apply sim_error | by apply sim_ok' | known | apply sim_eat | apply sim_word
    | eapply sim_bind; [first [known | apply sim_eat | apply sim_word]|sim_next] ].

Section Step.
Context (n : nat) (IH : sims n).
Ltac known := first
  [ apply (si_expr _ IH) | apply (si_primary _ IH) | apply (si_fparts _ IH) | apply (si_items _ IH) | apply (si_fields _ IH)
  | apply (si_call _ IH) | apply (si_invoke _ IH) | apply (si_named _ IH) | apply (si_postfix _ IH) | apply (si_binary _ IH) ].
Ltac walk := sim_walk ltac:(known).

Lemma sim_primary env env0 ts : sim on_rest (primary_fuel (S n) env ts) (primary_fuel (S n) env0 (strip ts)).
Proof.
  destruct ts as [|[t p] ts]; [apply sim_error|]. destruct t; cbn [primary_fuel strip map next strip_tok]; fold (strip ts);
    autorewrite with strip; walk.
  destruct (tok_is _ _); walk.
Qed.
Lemma sim_fparts env env0 ps : sim id (fparts_fuel (S n) env ps) (fparts_fuel (S n) env0 (map strip_part ps)).
Proof. destruct ps as [|[s|l] ps]; cbn [fparts_fuel map strip_part]; walk. Qed.
Lemma sim_invoke env env0 ts : sim on_rest (invoke_args_fuel (S n) env ts) (invoke_args_fuel (S n) env0 (strip ts)).
Proof.
  destruct ts as [|[t p] ts]; [apply sim_error|]. destruct t; try apply sim_error.
  cbn [invoke_args_fuel strip map next strip_tok]. fold (strip ts). rewrite strip_qualified.
  destruct (qualified s ts) as [x ts']. unfold on_rest at 2. cbn [fst snd]. walk.
Qed.
Lemma sim_postfix env env0 lhs ts : sim on_rest (postfix_fuel (S n) env lhs ts) (postfix_fuel (S n) env0 lhs (strip ts)).
Proof.
  cbn [postfix_fuel]. autorewrite with strip. destruct (peek ts); cbn [strip_tok]; walk.
  destruct (tok_is _ _); walk.
Qed.
Lemma sims_step : sims (S n).
Proof.
  split; intros.
  all: try solve [apply sim_primary | apply sim_fparts | apply sim_invoke | apply sim_postfix].
  all: cbn; autorewrite with strip.
  - walk.
  - destruct (tok_is _ _); walk.
  - destruct (tok_is _ _); walk.
  - destruct (tok_is _ _); walk.
  - destruct (tok_is _ _); walk.
  - destruct (binop_of _) as [[op l]|]; [|walk]. destruct (l <=? bp); walk.
Qed.
End Step.
Lemma sims_all n : sims n.
Proof. induction n as [|n IH]; [split; intros; apply sim_none|by apply sims_step]. Qed.

(** A function that has fuel enough, on different amounts of it. *)
Lemma sim_total {A B} (E : A → B) (f : nat → res perr A) (f0 : nat → res perr B) k k0 :
  (∀ n, sim E (f n) (f0 n)) → (∀ n m, n <= m → f n ⊑ f m) → f k ≠ NoFuel → sim E (f k) (f0 k0).
Proof.
  intros Hs Hm Hk b Hb. destruct (Hs k0 b Hb) as (a & Ha & He). exists a. split; [|done].
  destruct (decide (k <= k0)) as [H|H].
  - destruct (Hm k k0 H) as [|E']; [done|]. by rewrite E'.
  - destruct (Hm k0 k ltac:(lia)) as [E'|E']; congruence.
Qed.
Lemma sim_expr env env0 bp ts : sim on_rest (expr env bp ts) (expr env0 bp (strip ts)).
Proof.
  apply (sim_total on_rest (λ n, expr_fuel n env bp ts) (λ n, expr_fuel n env0 bp (strip ts))).
  - intros n. apply si_expr, sims_all.
  - intros n m Hn. by apply mf_expr, more_fuel_all.
  - exact (yields_fuel _ _ (expr_yields env bp ts)).
Qed.
Lemma sim_invoke_args env env0 ts : sim on_rest (invoke_args env ts) (invoke_args env0 (strip ts)).
Proof.
  apply (sim_total on_rest (λ n, invoke_args_fuel n env ts) (λ n, invoke_args_fuel n env0 (strip ts))).
  - intros n. apply si_invoke, sims_all.
  - intros n m Hn. by apply mf_invoke, more_fuel_all.
  - exact (yields_fuel _ _ (invoke_args_yields env ts)).
Qed.

(** ** Literals *)

Definition no_spans (sp : list (string * span)) : list (string * span) := map (λ kv, (fst kv, (0, 0))) sp.
Definition on_literal (r : Value * list (string * span) * nat * toks) : Value * list (string * span) * nat * toks :=
  let '(v, sp, _, ts) := r in (v, no_spans sp, 0, strip ts).
Definition on_entries (r : smap Value * list (string * span) * toks) : smap Value * list (string * span) * toks :=
  let '(m, sp, ts) := r in (m, no_spans sp, strip ts).

#[local] Arguments expr : simpl never.
#[local] Arguments invoke_args : simpl never.
#[local] Arguments assign_stmt : simpl never.
#[local] Arguments two_exprs : simpl never.
#[local] Arguments stmt : simpl never.
#[local] Arguments at_end : simpl never.
#[local] Arguments surface_name : simpl never.

Section Stripped.
Context (env env0 : penv) (env0_end : pe_end env0 = 0).

Lemma strip_pos ts : pos env0 (strip ts) = 0.
Proof using env0_end. by destruct ts as [|[]]. Qed.
Hint Rewrite strip_pos : strip.

Record literal_sims (n : nat) : Prop := {
  ls_value ts : sim on_literal (literal_fuel n env ts) (literal_fuel n env0 (strip ts));
  ls_items ts : sim on_rest (literal_items_fuel n env ts) (literal_items_fuel n env0 (strip ts));
  ls_fields m sp ts : sim on_entries (literal_fields_fuel n env m sp ts) (literal_fields_fuel n env0 m (no_spans sp) (strip ts))
}.
Lemma literal_sims_step n : literal_sims n → literal_sims (S n).
Proof using env0_end.
  intros [H1 H2 H3].
  assert (∀ ts, sim on_entries (literal_fields_fuel n env [] [] ts) (literal_fields_fuel n env0 [] [] (strip ts))) as H4
    by (intros; apply (H3 [] [])).
  split.
  - intros ts. destruct ts as [|[t p] ts]; [apply sim_error|].
    destruct t; cbn [literal_fuel strip map next strip_tok]; fold (strip ts); autorewrite with strip;
      try apply sim_error; try (by apply sim_ok').
    + eapply sim_bind; [apply H4|]. intros [[m sp] ts']. cbn. autorewrite with strip. by apply sim_ok'.
    + eapply sim_bind; [apply H2|]. sim_next. by apply sim_ok'.
    + destruct ts as [|[t q] ts]; [apply sim_error|]. destruct t; cbn; autorewrite with strip; try apply sim_error.
      fold (strip ts). autorewrite with strip. by apply sim_ok'.
  - intros ts. cbn. autorewrite with strip. destruct (tok_is _ _); [by apply sim_ok'|].
    eapply sim_bind; [apply H1|]. intros [[[v sp] p] ts']. cbn. autorewrite with strip.
    eapply sim_bind; [apply H2|]. sim_next. by apply sim_ok'.
  - intros m sp ts. cbn. autorewrite with strip. destruct (tok_is _ _); [by apply sim_ok'|].
    eapply sim_bind; [apply sim_word|]. sim_next. eapply sim_bind; [apply sim_eat|]. sim_next.
    eapply sim_bind; [apply H1|]. intros [[[v sp'] p] ts']. cbn. autorewrite with strip.
    change [(s, (0, 0))] with (no_spans [(s, (pos env a, p))]). unfold no_spans. rewrite <- map_app. apply H3.
Qed.
Lemma sim_literal ts : sim on_literal (literal_value env ts) (literal_value env0 (strip ts)).
Proof using env0_end.
  apply (sim_total on_literal (λ n, literal_fuel n env ts) (λ n, literal_fuel n env0 (strip ts))).
  - intros n. apply ls_value. induction n as [|n IH]; [split; intros; apply sim_none|by apply literal_sims_step].
  - intros n m Hn. by apply ml_value, more_literal_all.
  - exact (yields_fuel _ _ (literal_yields env ts)).
Qed.

(** ** Statements *)

Lemma sim_path n ts : sim on_rest (path_fuel n env ts) (path_fuel n env0 (strip ts)).
Proof.
  revert ts. induction n as [|n IH]; intros ts; [apply sim_none|]. cbn. autorewrite with strip.
  destruct (tok_is _ _); sim_walk ltac:(apply IH).
Qed.
Definition on_stmt (r : Stmt * toks) : Stmt * toks := (unplaced (fst r), strip (snd r)).
Lemma sim_assign x ts : sim on_stmt (assign_stmt env x ts) (assign_stmt env0 x (strip ts)).
Proof.
  unfold assign_stmt. eapply sim_bind.
  { apply (sim_total on_rest (λ n, path_fuel n env ts) (λ n, path_fuel n env0 (strip ts))).
    - intros n. apply sim_path.
    - intros n m. apply more_path.
    - eapply yields_fuel, path_yields. lia. }
  sim_next. eapply sim_bind; [apply sim_eat|]. sim_next.
  destruct (tok_is _ _); sim_walk ltac:(first [apply sim_invoke_args | apply sim_expr]).
Qed.
Lemma sim_two ts : sim (λ r : Expr * Expr * toks, (fst r, strip (snd r))) (two_exprs env ts) (two_exprs env0 (strip ts)).
Proof. unfold two_exprs. sim_walk ltac:(apply sim_expr). Qed.

Definition on_block (r : list Stmt * toks) : list Stmt * toks := (map unplaced (fst r), strip (snd r)).
Definition on_arm (r : arm * toks) : arm * toks := (unplaced_arm (fst r), strip (snd r)).
Definition no_places (o : option (list Stmt)) : option (list Stmt) :=
  match o with Some b => Some (map unplaced b) | None => None end.
Definition on_arms (r : list arm * option (list Stmt) * toks) : list arm * option (list Stmt) * toks :=
  let '(arms, o, ts) := r in (map unplaced_arm arms, no_places o, strip ts).

Record stmt_sims (n : nat) : Prop := {
  ss_stmt ts : sim on_stmt (stmt_fuel n env ts) (stmt_fuel n env0 (strip ts));
  ss_arm ts : sim on_arm (arm_fuel n env ts) (arm_fuel n env0 (strip ts));
  ss_arms o ts : sim on_arms (arms_fuel n env o ts) (arms_fuel n env0 (no_places o) (strip ts));
  ss_block ts : sim on_block (block_fuel n env ts) (block_fuel n env0 (strip ts))
}.
Lemma stmt_sims_step n : stmt_sims n → stmt_sims (S n).
Proof using env0_end.
  intros [H1 H2 H3 H4].
  assert (∀ ts, sim on_arms (arms_fuel n env None ts) (arms_fuel n env0 None (strip ts))) as H5 by (intros; apply (H3 None)).
  split.
  - intros ts. cbn. autorewrite with strip. destruct (peek ts); cbn [strip_tok]; try apply sim_error.
    + apply sim_assign.
    + eapply sim_bind; [apply H2|]. intros [a ts1]. cbn. eapply sim_bind; [apply H5|]. intros [[arms o] ts2]. by apply sim_ok'.
    + destruct ts as [|[u q] ts]; [apply sim_error|]. cbn [strip map next snd].
      fold (strip ts). destruct ts as [|[t p] ts]; [apply sim_error|].
      destruct t; try apply sim_error. cbn [strip map next strip_tok]. fold (strip ts).
      eapply sim_bind; [apply sim_eat|]. sim_next. eapply sim_bind; [apply sim_expr|]. sim_next.
      eapply sim_bind; [apply sim_eat|]. sim_next. eapply sim_bind; [apply H4|]. intros [b ts']. cbn.
      eapply sim_bind; [apply sim_eat|]. sim_next. by apply sim_ok'.
    + eapply sim_bind; [apply sim_two|]. intros [[a b] ts']. cbn. by apply sim_ok'.
    + eapply sim_bind; [apply sim_invoke_args|]. sim_next. by apply sim_ok'.
    + eapply sim_bind; [apply sim_two|]. intros [[a b] ts']. cbn. by apply sim_ok'.
  - intros ts. cbn. eapply sim_bind; [apply sim_expr|]. sim_next. eapply sim_bind; [apply sim_eat|]. sim_next.
    eapply sim_bind; [apply H4|]. intros [b ts']. cbn. by apply sim_ok'.
  - intros o ts. cbn. autorewrite with strip. destruct (peek ts); cbn [strip_tok]; try apply sim_error.
    + eapply sim_bind; [apply H2|]. intros [a ts1]. cbn. eapply sim_bind; [apply H3|]. intros [[arms o'] ts2]. by apply sim_ok'.
    + eapply sim_bind; [apply sim_eat|]. sim_next. eapply sim_bind; [apply H4|]. intros [b ts']. cbn. apply (H3 (Some b)).
    + by apply sim_ok'.
  - intros ts. cbn. autorewrite with strip.
    assert (sim on_block
      (if at_end (skip_newlines ts) then perror env (skip_newlines ts) MissingEnd
       else '(s, ts) ← stmt_fuel n env (skip_newlines ts); '(ss, ts) ← block_fuel n env ts; Ok (s :: ss, ts))
      (if at_end (skip_newlines ts) then perror env0 (strip (skip_newlines ts)) MissingEnd
       else '(s, ts) ← stmt_fuel n env0 (strip (skip_newlines ts)); '(ss, ts) ← block_fuel n env0 ts; Ok (s :: ss, ts))) as H.
    { destruct (at_end _); [apply sim_error|]. eapply sim_bind; [apply H1|]. intros [s ts1]. cbn.
      eapply sim_bind; [apply H4|]. intros [b ts2]. cbn. by apply sim_ok'. }
    destruct (peek _); cbn [strip_tok]; try exact H; by apply sim_ok'.
Qed.
Lemma sim_stmt ts : sim on_stmt (stmt env ts) (stmt env0 (strip ts)).
Proof using env0_end.
  apply (sim_total on_stmt (λ n, stmt_fuel n env ts) (λ n, stmt_fuel n env0 (strip ts))).
  - intros n. apply ss_stmt. induction n as [|n IH]; [split; intros; apply sim_none|by apply stmt_sims_step].
  - intros n m Hn. by apply ms_stmt, more_stmt_all.
  - exact (yields_fuel _ _ (stmt_yields env ts)).
Qed.
End Stripped.

(** ** The tokens of a script *)

Lemma strip_cons t ts l : (∀ ps, t ≠ TFStr ps) → strip ts = (t, 0) :: l → ∃ p ts', ts = (t, p) :: ts' ∧ strip ts' = l.
Proof.
  intros Ht. destruct ts as [|[u p] ts]; [done|]. cbn. intros [= Hu <-]. exists p, ts. split; [|done]. f_equal. f_equal.
  destruct u; cbn in Hu; try done. subst t. by destruct (Ht (map strip_part parts)).
Qed.

Definition erase_entry (e : SurfaceEntry) : SurfaceEntry :=
  {| se_name := se_name e; se_value := se_value e; se_value_span := (0, 0); se_entry_spans := no_spans (se_entry_spans e) |}.
Definition erase_heading (h : heading) : heading :=
  Build_heading (h_source h) (h_tool h) (h_driver h) (h_api h) (map unplaced (h_stmts h)) (map erase_entry (h_surface h)).
(** A program without the places of its conditions and its constants. *)
Definition erase (p : Program) : Program :=
  {| p_source := p_source p; p_tool := p_tool p; p_api := p_api p; p_driver := p_driver p;
     p_stmts := map unplaced (p_stmts p); p_surface := map erase_entry (p_surface p);
     p_emit_subjects := p_emit_subjects p; p_invokes := p_invokes p; p_secret_refs := p_secret_refs p |}.

(** The inventories do not see the places. *)
Lemma fold_map_same {A B} (f : A → B → A) (g : B → B) l :
  Forall (λ x, ∀ a, f a (g x) = f a x) l → ∀ a, fold_left f (map g l) a = fold_left f l a.
Proof. induction 1 as [|x l Hx _ IH]; intros a; cbn; [done|]. by rewrite Hx, IH. Qed.
Lemma collect_unplaced consts s : ∀ acc, collect_stmt consts acc (unplaced s) = collect_stmt consts acc s.
Proof.
  induction s as [path e|arms o Ha Ho|x e b Hb|a b|a b|f fs] using stmt_ind'; intros [em inv]; try done; cbn.
  - rewrite fold_map_same.
    + destruct o; [|done]. by apply fold_map_same.
    + eapply Forall_impl; [exact Ha|]. intros [[c sp] b] Hb acc. by apply fold_map_same.
  - by apply fold_map_same.
Qed.
Lemma walk_unplaced s : ∀ out, walk_stmt out (unplaced s) = walk_stmt out s.
Proof.
  induction s as [path e|arms o Ha Ho|x e b Hb|a b|a b|f fs] using stmt_ind'; intros out; try done; cbn.
  - rewrite fold_map_same.
    + destruct o; [|done]. by apply fold_map_same.
    + eapply Forall_impl; [exact Ha|]. intros [[c sp] b] Hb acc. by apply fold_map_same.
  - by apply fold_map_same.
Qed.
Lemma erase_finish h : erase (finish h) = finish (erase_heading h).
Proof.
  unfold finish, collect_static, walk_stmts. cbn [erase_heading h_stmts h_surface].
  assert (string_consts (map erase_entry (h_surface h)) = string_consts (h_surface h)) as ->.
  { unfold string_consts. induction (h_surface h) as [|e l IH]; [done|]. cbn in *. by rewrite IH. }
  rewrite (fold_map_same (collect_stmt _)) by (apply Forall_forall; intros; apply collect_unplaced).
  rewrite (fold_map_same walk_stmt) by (apply Forall_forall; intros; apply walk_unplaced).
  by destruct (fold_left _ _ _).
Qed.

(** The parser on tokens that have no places. *)
Definition nowhere : penv := {| pe_src := ""; pe_end := 0 |}.

Lemma no_entry env s ts rest : printable_stmt s = true → match s with SAssign [x] _ => surface_name x = false | _ => True end →
  strip ts = (placed (print_stmt s) ++ rest)%list → surface_entry env ts = Ok None.
Proof.
  intros Hp Hx Hts. assert (∀ y, peek ts = TIdent y → peek2 ts = Some TEq → surface_name y = false) as H.
  { intros y H1 H2. pose proof (strip_peek ts) as H3. pose proof (strip_peek2 ts) as H4. rewrite Hts, H1 in H3. rewrite Hts, H2 in H4.
    destruct s as [[|x [|z path]] e|[|a arms] o|x e b|a b|a b|f fs]; try done. cbn in H3. congruence. }
  unfold surface_entry. destruct (peek ts); try done. destruct (peek2 ts) as [[]|]; try done. by rewrite H.
Qed.

(** A turn of the loop that reads a statement. *)
Lemma program_step n env h t p ts : opens_stmt t = true → ts ≠ [] → surface_entry env ((t, p) :: ts) = Ok None →
  program_fuel (S n) env h ((t, p) :: ts) =
  ('(s, ts) ← stmt env ((t, p) :: ts); program_fuel n env (add_stmt h s) ts).
Proof. intros Ht Hts He. cbn. unfold at_end. destruct ts; [done|]. destruct t; try done; cbn in He |- *; by rewrite He. Qed.

(** One statement at the cursor. *)
Lemma top_step env h s ts rest : printable_top s = true → strip ts = (placed (print_top s) ++ (TNewline, 0) :: rest)%list →
  ∃ h' ts', (∀ n, program_fuel (S n) env h ts = program_fuel n env h' ts') ∧
    strip ts' = (TNewline, 0) :: rest ∧ erase_heading h' = read_top (erase_heading h) s.
Proof.
  unfold printable_top, print_top, read_top. destruct (constant s) as [[x v]|] eqn:E; intros Hp Hts.
  - apply constant_Some in E as [-> Hx]. rewrite !placed_cons in Hts.
    apply strip_cons in Hts as (p & ts1 & -> & Hts); [|done]. apply strip_cons in Hts as (q & ts2 & -> & Hts); [|done].
    pose proof (const_read nowhere v ((TNewline, 0) :: rest) Hp) as Hl. rewrite <- Hts in Hl.
    apply (sim_literal env nowhere eq_refl) in Hl as ([[[v' sp] e] ts3] & Hl & [= -> Hsp Hts3]).
    destruct h as [so to dr ap st su].
    exists (add_surface (add_stmt (Build_heading so to dr ap st su) (SAssign [x] (ELit v)))
      {| se_name := x; se_value := v; se_value_span := (pos env ts2, e); se_entry_spans := sp |}), ts3.
    split; [|split; [done|]].
    + intros n. cbn. rewrite Hx. unfold try_literal. rewrite Hl.
      assert (tok_is (peek ts3) TNewline = true) as -> by (by rewrite <- strip_is, <- strip_peek, Hts3). done.
    + unfold erase_heading. cbn [add_surface add_stmt h_source h_tool h_driver h_api h_stmts h_surface]. rewrite !map_app. cbn [map].
      unfold erase_entry at 2, entry_of. cbn [se_name se_value se_entry_spans]. by rewrite Hsp.
  - apply andb_true_iff in Hp as [Hp Hn].
    assert (surface_entry env ts = Ok None) as Hs.
    { eapply no_entry; [done| |exact Hts]. destruct s as [[|x [|]]| | | | |]; try done. by apply negb_true_iff. }
    pose proof (stmt_read nowhere s ((TNewline, 0) :: rest) Hp eq_refl) as Hr. rewrite <- Hts in Hr.
    apply (sim_stmt env nowhere eq_refl) in Hr as ([s' ts'] & Hr & [= Hs' Hts']).
    destruct h as [so to dr ap st su]. exists (add_stmt (Build_heading so to dr ap st su) s'), ts'. split; [|split; [done|]].
    + intros n. destruct (stmt_opens s Hp) as (t & l & El & Ht). rewrite El, placed_cons in Hts.
      apply strip_cons in Hts as (p & ts1 & -> & Hts); [|by destruct t].
      rewrite program_step, Hr by (done || by (intros ->; destruct l)). done.
    + unfold erase_heading. cbn. rewrite map_app. cbn. by rewrite Hs'.
Qed.

Lemma blank_line n env h p ts : program_fuel n env h ((TNewline, p) :: ts) = program_fuel n env h ts.
Proof. by destruct n. Qed.
Lemma blank_end env h ts k : strip ts = placed (repeat TNewline k) → gives (λ n, program_fuel n env h ts) h.
Proof.
  revert ts. induction k as [|k IH]; intros ts Hts; cbn in Hts.
  - destruct ts as [|[]]; [|done]. by apply gives_now.
  - apply strip_cons in Hts as (p & ts1 & -> & Hts); [|done]. destruct (IH ts1 Hts) as [n Hn]. exists n. intros m Hm.
    rewrite blank_line. by apply Hn.
Qed.
Lemma tops_step env b k : forallb printable_top b = true → ∀ h ts, strip ts = placed (top_lines b ++ repeat TNewline k) →
  ∃ h', gives (λ n, program_fuel n env h ts) h' ∧ erase_heading h' = fold_left read_top b (erase_heading h).
Proof.
  induction b as [|s b IH]; cbn [forallb]; intros Hp h ts Hts; [exists h; split; [exact (blank_end env h ts k Hts)|done]|].
  apply andb_true_iff in Hp as [Hs Hp]. cbn [top_lines flat_map] in Hts. rewrite <- !app_assoc, placed_app in Hts.
  destruct (top_step env h s ts _ Hs Hts) as (h1 & ts1 & Hf & Hts1 & Hh1).
  apply strip_cons in Hts1 as (p & ts2 & -> & Hts2); [|done].
  destruct (IH Hp h1 ts2 Hts2) as (h' & Hg & Hh'). exists h'. split; [|by rewrite Hh', Hh1].
  apply (gives_tail _ (λ n, program_fuel n env h1 ts2)); [|exact Hg]. intros n. by rewrite Hf, blank_line.
Qed.
Lemma said_step env h t o l ts : directive_name t ≠ None → strip ts = placed (said t o ++ l) →
  ∃ ts', strip ts' = placed l ∧
    ∀ h', gives (λ n, program_fuel n env (match o with Some s => directive h t s | None => h end) ts') h' →
      gives (λ n, program_fuel n env h ts) h'.
Proof.
  intros Ht. destruct o as [s|]; [|intros Hts; exists ts; split; [exact Hts|done]].
  cbn [said app]. intros Hts. unfold placed in Hts. cbn [map] in Hts.
  apply strip_cons in Hts as (p & ts1 & -> & Hts); [|by destruct t]. apply strip_cons in Hts as (q & ts2 & -> & Hts); [|done].
  apply strip_cons in Hts as (r & ts3 & -> & Hts); [|done]. exists ts3. split; [done|]. intros h'. apply gives_tail. intros n.
  transitivity (program_fuel n env (directive h t s) ((TNewline, r) :: ts3)); [|apply blank_line]. by destruct t.
Qed.

(** C15: The parser reads a script as it is written.  A source is parsed, when
    its tokens are those of a script of these directives and statements, printed
    with the parentheses that the levels of the operators ask for and no others;
    wherever the tokens are in the source, the program has these directives and
    statements, its surface has their constants, and its inventories are theirs. *)
Theorem parse_print src ts source tool driver api b k :
  forallb printable_top b = true → lex src = Ok ts →
  strip ts = placed (print_script source tool driver api b ++ repeat TNewline k) →
  ∃ p, parse src = Ok p ∧ erase p = finish (Build_heading source tool driver api (map unplaced b) (constants b)).
Proof.
  intros Hb Hl Hts. unfold parse, program. rewrite Hl. cbn [mbind res_mbind res_bind].
  set (env := {| pe_src := src; pe_end := last_pos ts |}). clearbody env. unfold print_script in Hts. rewrite <- !app_assoc in Hts.
  pose (add t o h := match o with Some s => directive h t s | None => h end).
  destruct (said_step env heading0 TSource source _ ts ltac:(done) Hts) as (ts1 & Hts1 & H1).
  destruct (said_step env (add TSource source heading0) TTool tool _ ts1 ltac:(done) Hts1) as (ts2 & Hts2 & H2).
  destruct (said_step env (add TTool tool (add TSource source heading0)) TDriver driver _ ts2 ltac:(done) Hts2) as (ts3 & Hts3 & H3).
  destruct (said_step env (add TDriver driver (add TTool tool (add TSource source heading0))) TApi api _ ts3 ltac:(done) Hts3)
    as (ts4 & Hts4 & H4).
  destruct (tops_step env b k Hb (add TApi api (add TDriver driver (add TTool tool (add TSource source heading0)))) ts4 Hts4)
    as (h & H5 & Hh).
  apply H4, H3, H2, H1 in H5. clear H1 H2 H3 H4.
  assert (program_fuel (S (toks_weight ts)) env heading0 ts ≠ NoFuel) as Hf.
  { eapply yields_fuel, program_fuel_yields. lia. }
  apply (gives_total (λ n, program_fuel n env heading0 ts) (S (toks_weight ts))) in H5; [|intros n; apply more_program|done].
  rewrite H5. exists (finish h). split; [done|]. rewrite erase_finish, Hh.
  f_equal. destruct source, tool, driver, api; apply read_tops.
Qed.

(** ** A script *)

Definition demo : string := script
  "source 'a.b'|TABLE = {a: 1, b: [2, -3]} # a table|if x?.y == 2 and not (z or w):|  emit 'o.p', {n: len(l[t > 1]), f: f'hi {a.b + 1}!'}|elif c - (d - 1) - 2 > 0:|  for i in l:|    respond 200, i|  end|else:|  r.q = (invoke p:s(a: 1).x)|end|".
Definition demo_stmts : list Stmt := match parse demo with Ok p => map unplaced (p_stmts p) | _ => [] end.
Definition demo_toks : toks := match lex demo with Ok ts => ts | _ => [] end.

Example demo_parses : match parse demo with Ok p => map erase_entry (p_surface p) | _ => [] end = constants demo_stmts.
Proof. vm_compute. reflexivity. Qed.
Lemma parse_print_witness : length demo_stmts = 2 ∧ ∃ p, parse demo = Ok p ∧
  erase p = finish (Build_heading (Some "a.b") None None None (map unplaced demo_stmts) (constants demo_stmts)).
Proof.
  split; [vm_compute; reflexivity|].
  apply (parse_print demo demo_toks (Some "a.b") None None None demo_stmts 1); vm_compute; reflexivity.
Defined.
